(* ===== verification/_CoqProject ===== *)
-Q . S2P
Prelude.v
Float64.v
FloatBounds.v
OcamlSerde.v
ThreadPool.v
Nom.v
TraceTool.v
TraceTimeline.v
TraceMain.v
Crates.v
Reference.v
BigInt256.v
PastaField.v
PastaFq.v
FieldBinding.v
FlatVector.v
FieldVector.v
SharedPointer.v
GateVector.v
GateText.v
Poseidon.v
Curves.v
CustomBlock.v
UrsUtils.v
Srs.v
VerifierIndex.v
IndexFiles.v
ProverProof.v
PlonkIndex.v
PlonkFq.v
WasmObjects.v
VectorAbi.v
Twins.v
Pipeline.v
Examples.v
Oracles.v
Linearization.v
Bindings.v
Bindgen.v
