(* ===== verification/Prelude.v ===== *)
(** * Verification of the Rust code of the Mina repository

    ** The program

    The Rust code of the repository is two programs.

    The [trace-tool] (src/src/app/trace-tool/src/main.rs) reads binary traces
    that the node writes and prints them as lines of Chrome's trace format.

    The kimchi bindings (src/src/lib/crypto/kimchi_bindings) give the proof
    system, written in Rust in crates outside this repository, to the node's
    OCaml code: natively ([stubs/src], values of the OCaml runtime, errors as
    OCaml exceptions) and compiled to WebAssembly ([wasm/src], JavaScript
    values, errors as JavaScript errors or panics).  Most functions exist
    twice, once per target, and again for the second curve.  The node needs both
    targets to agree, so most properties say what each does on every branch and
    where they agree.

    ** Files

    Library:
    - [Prelude]: outcomes of Rust calls (value, error, panic) with their monad,
      indexing, machine integers and casts, bytes and little-endian numbers,
      lists in chunks.
    - [Float64]: Rust's [f64]: casts, subtraction, division, printing.
    - [FloatBounds]: rounding of integers to 53 bits, differences and quotients of
      floats that are not negative.
    - [Nom]: nom's combinators: interface, laws, reference implementation.
    - [Crates]: interfaces and laws of num-bigint, ark-ff and mina-curves.
    - [Reference]: implementations of those interfaces that satisfy the laws.

    Components, in the order in which they use each other:
    - [TraceTool]: trace-tool/src/main.rs.  [parse_trace_event(s)] are the nom
      macros; [tstate], [step], [run] the fold of [main] with its maps and
      [complete_event]; [line], [render], [escape] the printed text;
      [process_file], [trace_main] the loop over files.
    - [TraceTimeline]: the printed trace read off the events before each line,
      without the fold's state; the slices of its complete events.
    - [TraceMain]: [main] around it: the arguments, the files and [--dump-raw].
    - [OcamlSerde]: wasm/src/wasm_ocaml_serde/{ser,de}.rs; [Ser] and [De] have
      one definition per method of the traits, [serialize] and [deserialize]
      drive them by serde's data model ([val], [ty]).
    - [ThreadPool]: wasm/src/rayon.rs and the shared words of wasm/src/lib.rs,
      as a step relation over the calls JavaScript makes and the blocked workers.
    - [BigInt256]: arkworks/bigint_256.rs of both targets.
    - [PastaField]: arkworks/pasta_fp.rs of both; the in-place functions act on
      a heap of field elements.
    - [PastaFq]: arkworks/pasta_fq.rs of both.
    - [FieldBinding]: the interface the four field modules implement, and programs
      over it.
    - [FlatVector]: wasm_flat_vector.rs and the field vectors of wasm_vector.rs.
    - [FieldVector]: stubs/src/field_vector.rs over the shared pointers of
      caml/caml_pointer.rs: [store], [rc_new], [rc_deref].
    - [SharedPointer]: caml/caml_pointer.rs, shared_reference.rs, shared_rwlock.rs
      and the macro of field_vector.rs: reference counts, custom blocks of the
      OCaml runtime and their finalizers, as a step relation.
    - [GateVector]: gate_vector.rs of both.
    - [GateText]: the text of a gate, of wasm/src/pasta_fp_plonk_index.rs.
    - [Poseidon]: the permutation of both targets, and circuit.rs.
    - [Curves]: group_affine.rs, group_projective.rs, projective.rs, poly_comm.rs.
    - [CustomBlock]: the types whose values OCaml keeps inside custom blocks
      ([ocaml::custom!] and [FromValue] in stubs/src/arkworks, gate_vector.rs,
      pasta_f*_poseidon.rs, pasta_f*_plonk_index.rs and srs.rs): what a value owns,
      how functions get it, and what its finalizer drops.
    - [UrsUtils]: urs_utils.rs, the batched accumulator check.
    - [Srs]: srs.rs of both, over a heap of shared reference strings and a map of
      files.
    - [VerifierIndex]: plonk_verifier_index.rs and pasta_fp_plonk_verifier_index.rs.
    - [IndexFiles]: verifier indexes on disk, across the targets.
    - [ProverProof]: wasm/src/plonk_proof.rs and the functions of
      stubs/src/pasta_fp_plonk_proof.rs that create and verify.
    - [PlonkIndex]: pasta_fp_plonk_index.rs of both.
    - [PlonkFq]: the fq files of prover indexes, verifier indexes and proofs.
    - [WasmObjects]: wasm_vector.rs, constructors, getters and setters of the
      classes exported to JavaScript, verifier indexes as JSON.
    - [VectorAbi]: wasm_vector.rs and wasm_flat_vector.rs as containers; vectors
      and field elements as slices of the linear memory, optional ones included.
    - [Twins]: functions written out twice, identified with their first copies.
    - [Pipeline]: a client's interface to creating, publishing and checking, its
      specification [direct], which calls kimchi on its own objects, the three
      implementations, and sessions of a client.
    - [Examples]: the seven example circuits of stubs/src/pasta_fp_plonk_proof.rs.
    - [Oracles]: oracles.rs of both.
    - [Linearization]: stubs/src/linearization.rs.
    - [Bindings] and [Bindgen]: stubs/src/main.rs, which prints the OCaml
      interface: the declared types, functions and modules as data, the signatures
      of the functions, and the program that runs ocaml-gen on them.

    In a component, [Module Stubs] is the OCaml target and [Module Wasm] the
    JavaScript target; definitions have the names of the Rust functions, with
    [caml_pasta_fp_...] for what the macros generate.  A function that changes
    shared state takes the heap and returns it with its outcome, so that what
    was changed before an error or a panic is kept.

    ** What is assumed of other code

    Crates are classes of operations, each with a class of laws that state what
    the crate documents; instances satisfy them, and the witness of each theorem
    applies it to such an instance.  The laws are: [NomLaws] (combinators on a
    byte slice), [NumBigintLaws], [ArkBigIntegerLaws], [PrimeFieldLaws] (numbers
    and a prime field, whose memory image need not be its value),
    [FlatVectorElemLaws] (discharged for field elements), [KimchiGatesLaws],
    [CurveLaws], [CommitmentsLaws] (points are a module over the scalars and the
    multi-scalar multiplication is the sum of products), [SrsLaws] (sizes of
    domains and bases, what serialization keeps), [IndexLaws],
    [LinearizeLaws] (columns are ordered), [RayonLaws] (how many threads a pool
    gets, that an installed operation needs a running thread of its pool and any one
    will do, and that terminating workers does only that), [PermutationLaws] (the
    permutation keeps length and canonical form), [GadgetLaws] (rows and columns
    of kimchi's gadgets and their witnesses), [IndexViewLaws] (what a prover
    reads of an index), [WasmAbiLaws] (pointers of wasm-bindgen are fresh),
    [IndexJsonLaws] (what serde_json keeps), [ProverLaws] (a proof commits to
    fifteen columns), [IndexFileLaws] (what kimchi keeps of
    an index on disk), [OcamlGenLaws] (declarations and modules of ocaml-gen,
    which is a parameter of [Bindgen]), [SliceAbiLaws] (slices of wasm-bindgen
    are freed when taken and differ from the one for [None]).  Only [Pipeline] uses
    [ProverLaws]; of what is proved, accepted or absorbed, the prover, the verifier
    and the sponge have no laws.

    Between components the interfaces are [FlatVectorElem] (elements of flat
    vectors), [OptionAbi] with [OptionAbiLaws] (what crosses as a slice, vectors
    and field elements), [FieldBinding] with [FieldContract] (a field, four instances),
    [JsClass] with [JsClassLaws] (an exported class, nine instances) and
    [ProofService] with [ProofContract] (proving and checking, three instances, each
    [direct] behind an encoding): clients are verified once, against the laws.

    ** What the theorems show

    - Traces: the parser inverts the format and stops at a cut event; unknown
      tags and invalid names fail as a whole; the event loop panics exactly when
      a task ends before a pid is known; recurring threads are merged in every
      reachable state; the trace end isolates what follows; names are printed as
      JSON strings, when they have no backslash; the files of a command line are
      converted or dumped in order, up to the first that cannot be opened.  Each
      line is a function of its event and those before it; with ordered timestamps
      the complete events do not overlap, and every printed time and duration is made
      of timestamps of the trace and is neither negative nor NaN; when cycles start
      idle and the tool does not panic, the complete events, with what still runs at
      the end, make up exactly the time in which tasks run.
    - Threads: whatever JavaScript calls in whatever order, no thread is lost or
      run twice; a pool gets its threads running once its workers receive; work for
      the pool panics when there is none, blocks while no worker runs a thread of it,
      and runs otherwise; a waiting thread ends when it must.
    - Accumulator check: the loops compute powers and subtractions; the check is
      one random linear combination, accepts true commitments, accepts wrong
      ones for fewer than k separated scalars; generating and checking agree;
      which shapes panic or are ignored.
    - Numbers and vectors: strings, bytes and ABIs round-trip, with the cases
      where the targets differ; division, bit tests and order; in-place
      operations and shared vectors under aliasing; every expression over a field
      means what it denotes modulo the order, on each target with integers of its
      width; hashing in place and through bytes
      agree.
    - OCaml representation: the serializer builds OCaml's blocks, what comes back
      is the value up to wide characters, foreign blocks are read leniently, and
      whatever is read, at a type without 32-bit floats, has the type asked for.
    - Gates, points and commitments: rewiring changes one wire and keeps the
      shape; conversions lose nothing.
    - The text of a gate shows every rewiring.
    - Reference strings and indexes: Lagrange bases are added once, to the
      shared string and to nothing else; files; verifier indexes come back with
      their stored fields while the rest is recomputed, differently on the two
      targets; prover indexes on creation and on disk; each target reads the
      verifier indexes that the other wrote.
    - Proofs: the conversion, the split of previous challenges, creation with
      its errors, batch verification, and the oracles, the same on both targets
      when index and proof are;
      the example circuits are well formed and their lookups are in the tables.
    - Sessions: a client that proves, publishes and checks in any order sees the
      session with kimchi called directly: no conversion fails or changes an answer,
      and nothing is assumed of what kimchi answers; creating and verifying at once
      is the composition, which on the JavaScript side uses an index of three
      zero-knowledge rows.
    - Objects of JavaScript: each class is a record of its fields; vectors of
      objects, optional values and JSON texts come back, and leave no memory
      behind.
    - Lifetimes: no shared object is used after it is freed or freed twice, however
      calls, copies of handles and finalizers interleave; and the custom blocks of
      OCaml, with the way each type is taken and finalized, keep a reference string
      alive exactly while a block of it or of an index made with it is left.  The
      heaps of the other components, which only grow, rest on both.
    - The generated interface: printing it does not fail on its declarations, only
      at files and writes that fail; it declares each function marked for ocaml-gen
      once, and no other, six exported functions not being marked; and the two
      curves mirror each other, with the exceptions the theorem lists.

    ** Bounds and fuel

    Recursion is structural, on lists or on the data, except for printing
    numbers: [show_u] recurses on the number's bit length, which bounds its
    digits, and the search for shortest digits in [Float64] has the 20 steps
    that 17 digits need; no theorem rests on what it would print beyond them.
    [many0] of [Nom] is bounded by its input, which each round shortens.  The
    padding of the examples is the source's, 2^13 gates.  Executions of
    [ThreadPool] are finite sequences of steps; its liveness theorems bound how
    many receives remain and say in which schedules a waiting thread ends.

    Integers are [Z] with the casts of the source ([as_u], [as_i]); [usize] is
    64 bits natively and 32 in WebAssembly.  Whether overflow checks are on is an
    argument where it matters.  Lengths of vectors are not bounded by memory.

    ** What is not modelled

    The text of OCaml declarations is made by ocaml-gen, a parameter.  The
    functions that draw random values ([.._random]) return what a generator
    outside the program chooses.  OCaml's collector is any sequence of
    finalizations ([SharedPointer], [CustomBlock]); when it runs, and how the
    declared pace of large blocks drives it, is the runtime's.  The slices of
    numbers of wasm-bindgen, and the accessors it makes for public fields, belong
    to that crate; conversions that only wrap or unwrap a type are
    identities.  The macro [impl_vector] and caml/shared_rwlock.rs are used
    nowhere; they are modelled on their own.  What is left of the files without a
    definition is imports, the instantiations of macros, comments and code that
    is commented out.  Text in Rust's debug format is left open.  [run_in_pool] is
    its argument outside [ThreadPool], which proves in which states it is, and in
    which it blocks or panics; the macro copies
    of a function for the second curve are the same definition at another
    instance.  Dropping a [PoolBuilder] while workers wait is excluded by the
    source's comment to JavaScript.

    ** This file

    The library the components share. *)

From Stdlib Require Import ZArith Lia.
From Stdlib Require Strings.Byte.
From stdpp Require Import base countable list strings gmap.

#[global] Open Scope Z_scope.

(** ** Outcomes of Rust calls

    A Rust function returns a value, returns an error, or panics.  [outcome]
    is the type of the three; [error] lists the error values the sources
    build. *)

Inductive error : Type :=
| Message (s : string)            (* ocaml::Error::Message *)
| Invalid_argument (s : string)   (* ocaml::Error::invalid_argument *)
| Failure (s : string)            (* ocaml::Error::failwith, CamlError::Failure *)
| DynError (s : string)           (* ocaml::Error::Error, an error of a crate *)
| JsError (s : string).           (* JsValue::from_str, JsError::new *)

Inductive outcome (A : Type) : Type :=
| Ret (a : A)
| Raise (e : error)
| Panic (msg : string).
Arguments Ret {A} a.
Arguments Raise {A} e.
Arguments Panic {A} msg.

#[export] Instance outcome_ret : MRet outcome := @Ret.
#[export] Instance outcome_bind : MBind outcome := fun A B f m =>
  match m with
  | Ret a => f a
  | Raise e => Raise e
  | Panic s => Panic s
  end.
#[export] Instance outcome_fmap : FMap outcome := fun A B f m =>
  match m with
  | Ret a => Ret (f a)
  | Raise e => Raise e
  | Panic s => Panic s
  end.

#[export] Instance error_eq_dec : EqDecision error.
Proof. solve_decision. Defined.
#[export] Instance outcome_eq_dec `{EqDecision A} : EqDecision (outcome A).
Proof. solve_decision. Defined.

Definition is_panic {A} (m : outcome A) : bool :=
  match m with Panic _ => true | _ => false end.
Definition is_ret {A} (m : outcome A) : bool :=
  match m with Ret _ => true | _ => false end.

(** [Option::expect], [Option::unwrap] and [Option::ok_or]. *)
Definition expect {A} (msg : string) (o : option A) : outcome A :=
  match o with Some a => Ret a | None => Panic msg end.
Definition ok_or {A} (e : error) (o : option A) : outcome A :=
  match o with Some a => Ret a | None => Raise e end.
(** [Result::map_err]. *)
Definition map_err {A} (f : error -> error) (m : outcome A) : outcome A :=
  match m with Raise e => Raise (f e) | _ => m end.
(** [assert!]. *)
Definition rust_assert (b : bool) (msg : string) : outcome unit :=
  if b then Ret tt else Panic msg.
(** [slice[i]]: out of range panics. *)
Definition index {A} (l : list A) (i : Z) : outcome A :=
  if (i <? 0) then Panic "index out of bounds"
  else expect "index out of bounds" (l !! Z.to_nat i).
(** [slice[i] = x]: out of range panics. *)
Definition index_set {A} (l : list A) (i : Z) (x : A) : outcome (list A) :=
  if (0 <=? i) && (i <? Z.of_nat (length l)) then Ret (<[Z.to_nat i := x]> l)
  else Panic "index out of bounds".

Lemma bind_Ret {A B} (a : A) (f : A -> outcome B) : (Ret a ≫= f) = f a.
Proof. reflexivity. Qed.
Lemma bind_Raise {A B} e (f : A -> outcome B) : (Raise e ≫= f) = Raise e.
Proof. reflexivity. Qed.
Lemma bind_Panic {A B} s (f : A -> outcome B) : (Panic s ≫= f) = Panic s.
Proof. reflexivity. Qed.
Lemma bind_assoc {A B C} (m : outcome A) (f : A -> outcome B) (g : B -> outcome C) :
  ((m ≫= f) ≫= g) = (m ≫= (fun a => f a ≫= g)).
Proof. by destruct m. Qed.
Lemma bind_is_Ret {A B} (m : outcome A) (f : A -> outcome B) b :
  (m ≫= f) = Ret b -> exists a, m = Ret a /\ f a = Ret b.
Proof. destruct m; simpl; try discriminate. eauto. Qed.

Create Rewrite HintDb outcome.
Create Rewrite HintDb bytes.
#[export] Hint Rewrite @bind_Ret @bind_Raise @bind_Panic @bind_assoc : outcome.

Lemma index_lookup {A} (l : list A) (i : nat) x :
  l !! i = Some x -> index l (Z.of_nat i) = Ret x.
Proof.
  intros H. unfold index. destruct (Z.ltb_spec (Z.of_nat i) 0); [lia|].
  by rewrite Nat2Z.id, H.
Qed.
Lemma index_Ret {A} (l : list A) i x :
  index l i = Ret x -> 0 <= i /\ l !! Z.to_nat i = Some x.
Proof.
  unfold index. destruct (Z.ltb_spec i 0); [discriminate|].
  destruct (l !! Z.to_nat i) eqn:E; simpl; [|discriminate].
  intros [= ->]. split; [lia|done].
Qed.
Lemma index_oob {A} (l : list A) i :
  i < 0 \/ Z.of_nat (length l) <= i -> is_panic (index l i) = true.
Proof.
  intros H. unfold index. destruct (Z.ltb_spec i 0); [done|].
  rewrite lookup_ge_None_2; [done|lia].
Qed.

(** Results of a list of calls, left to right; the first failure ends it. *)
Fixpoint collect {A B} (f : A -> outcome B) (l : list A) : outcome (list B) :=
  match l with
  | [] => Ret []
  | x :: l => y ← f x; ys ← collect f l; Ret (y :: ys)
  end.

Lemma collect_Ret {A B} (f : A -> outcome B) (g : A -> B) l :
  (forall x, x ∈ l -> f x = Ret (g x)) -> collect f l = Ret (map g l).
Proof.
  induction l as [|x l IH]; intros H; simpl; [done|].
  rewrite (H x) by (left; done). simpl.
  rewrite IH; [done|]. intros y Hy. apply H. by right.
Qed.

Lemma collect_all {A B} (f : A -> outcome B) l l' :
  collect f l = Ret l' <-> Forall2 (fun x y => f x = Ret y) l l'.
Proof.
  revert l'. induction l as [|x l IH]; intros l'; simpl.
  - split; [intros [= <-]; constructor | by inversion 1].
  - split.
    + intros (y & Hy & H)%bind_is_Ret.
      apply bind_is_Ret in H as (ys & Hys & [= <-]).
      constructor; [done|]. by apply IH.
    + inversion 1 as [|? y ? ys Hy Hys]; subst.
      rewrite Hy. simpl. apply IH in Hys. by rewrite Hys.
Qed.

Lemma collect_length {A B} (f : A -> outcome B) l l' :
  collect f l = Ret l' -> length l' = length l.
Proof. intros H%collect_all. symmetry. by eapply Forall2_length. Qed.

(** ** Machine integers

    A w-bit integer is its value in [Z]; [as_uN] and [as_iN] are Rust's [as]
    casts between integer types. *)

Definition as_u (w : Z) (z : Z) : Z := z mod 2 ^ w.
Definition as_i (w : Z) (z : Z) : Z := (z + 2 ^ (w - 1)) mod 2 ^ w - 2 ^ (w - 1).

Abbreviation as_u8 := (as_u 8).
Abbreviation as_u32 := (as_u 32).
Abbreviation as_u64 := (as_u 64).
Abbreviation as_i8 := (as_i 8).
Abbreviation as_i32 := (as_i 32).
Abbreviation as_i64 := (as_i 64).

Lemma as_u_id w z : 0 <= z < 2 ^ w -> as_u w z = z.
Proof. intros. by apply Z.mod_small. Qed.
Lemma as_u_range w z : 0 <= w -> 0 <= as_u w z < 2 ^ w.
Proof. intros. apply Z.mod_pos_bound. by apply Z.pow_pos_nonneg. Qed.
Lemma pow2_split w : 0 < w -> 2 ^ w = 2 * 2 ^ (w - 1).
Proof. intros. rewrite <-Z.pow_succ_r by lia. f_equal. lia. Qed.
Lemma as_i_id w z :
  0 < w -> - 2 ^ (w - 1) <= z < 2 ^ (w - 1) -> as_i w z = z.
Proof.
  intros Hw H. unfold as_i. rewrite Z.mod_small; [lia|].
  rewrite (pow2_split w) by done. lia.
Qed.
Lemma as_u_neg w z : 0 < w -> - 2 ^ w <= z < 0 -> as_u w z = 2 ^ w + z.
Proof.
  intros Hw H. unfold as_u. symmetry.
  apply (Z.mod_unique_pos _ _ (-1)); lia.
Qed.
(** A signed value survives the cast to unsigned of the same width and back. *)
Lemma as_i_as_u w z :
  0 < w -> - 2 ^ (w - 1) <= z < 2 ^ (w - 1) -> as_i w (as_u w z) = z.
Proof.
  intros Hw H. unfold as_i, as_u.
  rewrite Zplus_mod_idemp_l. by apply (as_i_id w z).
Qed.
#[export] Hint Resolve as_u_id as_i_id as_u_range : core.

(** [TryInto] from a signed to an unsigned integer of [w] bits. *)
Definition try_into_u (w : Z) (z : Z) : option Z :=
  if (0 <=? z) && (z <? 2 ^ w) then Some z else None.

(** [1 << n] on a [w]-bit unsigned integer.  With overflow checks a shift by
    [w] or more panics; without them the amount is taken modulo [w]. *)
Definition shl_one (overflow_checks : bool) (w : Z) (n : Z) : outcome Z :=
  if (0 <=? n) && (n <? w) then Ret (2 ^ n)
  else if overflow_checks then Panic "attempt to shift left with overflow"
  else Ret (2 ^ (n mod w)).

(** ** Bytes *)

Abbreviation byte := Byte.byte.

#[export] Instance byte_eq_dec : EqDecision byte := Byte.byte_eq_dec.
#[export] Instance byte_countable : Countable byte.
Proof. by apply (inj_countable Byte.to_N Byte.of_N), Byte.of_to_N. Defined.

Definition byte_val (b : byte) : Z := Z.of_N (Byte.to_N b).
(** [z as u8]. *)
Definition byte_of (z : Z) : byte :=
  match Byte.of_N (Z.to_N (as_u8 z)) with
  | Some b => b
  | None => Byte.x00
  end.

Lemma byte_val_range b : 0 <= byte_val b < 256.
Proof. unfold byte_val. pose proof (Byte.to_N_bounded b). lia. Qed.
Lemma byte_of_val b : byte_of (byte_val b) = b.
Proof.
  unfold byte_of. rewrite as_u_id by apply byte_val_range.
  unfold byte_val. by rewrite N2Z.id, Byte.of_to_N.
Qed.
Lemma byte_val_of z : byte_val (byte_of z) = as_u8 z.
Proof.
  unfold byte_of. pose proof (as_u_range 8 z ltac:(lia)) as Hr.
  change (2 ^ 8) with 256 in Hr.
  destruct (Byte.of_N (Z.to_N (as_u8 z))) as [b|] eqn:E.
  - apply Byte.to_of_N in E. unfold byte_val. rewrite E. lia.
  - apply Byte.of_N_None_iff in E. lia.
Qed.
Lemma byte_val_inj b1 b2 : byte_val b1 = byte_val b2 -> b1 = b2.
Proof. intros H. by rewrite <-(byte_of_val b1), H, byte_of_val. Qed.
#[export] Hint Rewrite byte_of_val byte_val_of : bytes.

(** Little-endian values of byte lists. *)
Fixpoint le_val (l : list byte) : Z :=
  match l with
  | [] => 0
  | b :: l => byte_val b + 256 * le_val l
  end.
Fixpoint le_bytes (n : nat) (z : Z) : list byte :=
  match n with
  | O => []
  | S n => byte_of z :: le_bytes n (z / 256)
  end.

Lemma le_bytes_length n z : length (le_bytes n z) = n.
Proof. revert z. induction n; intros; simpl; auto. Qed.
Lemma pow256_S n : 256 ^ Z.of_nat (S n) = 256 * 256 ^ Z.of_nat n.
Proof. rewrite Nat2Z.inj_succ, Z.pow_succ_r; lia. Qed.
Lemma pow256_pos n : 0 < 256 ^ Z.of_nat n.
Proof. apply Z.pow_pos_nonneg; lia. Qed.
Lemma le_val_range l : 0 <= le_val l < 256 ^ Z.of_nat (length l).
Proof.
  induction l as [|b l IH]; simpl le_val; [simpl; lia|].
  simpl length. rewrite pow256_S. pose proof (byte_val_range b). lia.
Qed.
Lemma le_val_bytes n z : le_val (le_bytes n z) = z mod 256 ^ Z.of_nat n.
Proof.
  revert z. induction n as [|n IH]; intros z; simpl le_bytes; simpl le_val.
  - by rewrite Z.mod_1_r.
  - rewrite IH, byte_val_of, pow256_S. unfold as_u. change (2 ^ 8) with 256.
    pose proof (pow256_pos n). rewrite Z.rem_mul_r by lia. lia.
Qed.
Lemma le_bytes_val l : le_bytes (length l) (le_val l) = l.
Proof.
  induction l as [|b l IH]; simpl; [done|].
  pose proof (byte_val_range b). f_equal.
  - apply byte_val_inj. rewrite byte_val_of. unfold as_u. change (2 ^ 8) with 256.
    rewrite Z.mul_comm, Z.mod_add by lia. by apply Z.mod_small.
  - rewrite Z.mul_comm, Z.div_add by lia.
    by rewrite Z.div_small, Z.add_0_l by lia.
Qed.
Lemma le_val_app l1 l2 :
  le_val (l1 ++ l2) = le_val l1 + 256 ^ Z.of_nat (length l1) * le_val l2.
Proof.
  induction l1 as [|b l1 IH]; simpl le_val; simpl length.
  - change (256 ^ Z.of_nat 0) with 1. simpl app. lia.
  - rewrite pow256_S. simpl app. simpl le_val. rewrite IH. ring.
Qed.
Lemma le_val_inj l1 l2 :
  length l1 = length l2 -> le_val l1 = le_val l2 -> l1 = l2.
Proof. intros Hl Hv. by rewrite <-(le_bytes_val l1), Hl, Hv, le_bytes_val. Qed.
Lemma le_val_zeros n : le_val (replicate n Byte.x00) = 0.
Proof. induction n as [|n IH]; simpl; [done|]. by rewrite IH. Qed.
#[export] Hint Rewrite le_bytes_length : bytes.

(** Byte strings written as literals. *)
Definition bytes_of_string (s : string) : list byte := String.list_byte_of_string s.
Arguments bytes_of_string s%_string.

(** ** Lists *)

(** [slice::chunks(n)]: the last chunk may be shorter. *)
Fixpoint chunks_fuel {A} (fuel : nat) (n : nat) (l : list A) : list (list A) :=
  match fuel with
  | O => []
  | S fuel => match l with
              | [] => []
              | _ => take n l :: chunks_fuel fuel n (drop n l)
              end
  end.
Definition chunks {A} (n : nat) (l : list A) : list (list A) :=
  chunks_fuel (length l) n l.

Lemma chunks_fuel_enough {A} n fuel (l : list A) :
  (0 < n)%nat -> (length l <= fuel)%nat -> chunks_fuel fuel n l = chunks n l.
Proof.
  intros Hn. unfold chunks.
  cut (forall f1 f2 (l : list A), (length l <= f1)%nat -> (length l <= f2)%nat ->
         chunks_fuel f1 n l = chunks_fuel f2 n l); [intros H ?; by apply H|].
  induction f1 as [|f1 IH]; intros f2 l' H1 H2.
  - destruct l'; simpl in *; [|lia]. by destruct f2.
  - destruct f2 as [|f2]; [destruct l'; simpl in *; [done|lia]|].
    destruct l' as [|x l']; [done|]. simpl chunks_fuel. f_equal.
    apply IH; rewrite length_drop; simpl in *; lia.
Qed.
Lemma chunks_nil {A} n : chunks n (@nil A) = [].
Proof. done. Qed.
Lemma chunks_app {A} n (c l : list A) :
  (0 < n)%nat -> length c = n -> chunks n (c ++ l) = c :: chunks n l.
Proof.
  intros Hn Hc. unfold chunks at 1.
  destruct (c ++ l) as [|x r] eqn:E.
  { apply (f_equal length) in E. rewrite length_app in E. simpl in E. lia. }
  simpl length. simpl chunks_fuel. rewrite <-E.
  rewrite take_app_length' by done. f_equal.
  rewrite drop_app_length' by done. apply chunks_fuel_enough; [done|].
  apply (f_equal length) in E. rewrite length_app in E. simpl in E. lia.
Qed.
Lemma chunks_concat {A} n (ls : list (list A)) :
  (0 < n)%nat -> Forall (fun c => length c = n) ls -> chunks n (concat ls) = ls.
Proof.
  intros Hn. induction 1 as [|c ls Hc _ IH]; simpl; [done|].
  by rewrite chunks_app, IH.
Qed.
Lemma concat_chunks {A} n (l : list A) : (0 < n)%nat -> concat (chunks n l) = l.
Proof.
  intros Hn. unfold chunks.
  cut (forall f (l : list A), (length l <= f)%nat -> concat (chunks_fuel f n l) = l);
    [by eauto|].
  induction f as [|f IH]; intros l' Hl; destruct l' as [|x l']; simpl in *; try done; [lia|].
  rewrite IH; [by rewrite take_drop|]. rewrite length_drop. simpl. lia.
Qed.
(** Every list is whole chunks followed by fewer elements than one. *)
Lemma split_chunks {A} n (l : list A) :
  (0 < n)%nat ->
  exists cs rest, l = concat cs ++ rest /\ Forall (fun c => length c = n) cs /\
    (length rest < n)%nat /\ length rest = (length l mod n)%nat.
Proof.
  intros Hn. induction l as [l IH] using (induction_ltof1 _ length). unfold ltof in IH.
  destruct (decide (length l < n)%nat) as [Hl|Hl].
  - exists [], l. repeat split; [constructor|done|]. by rewrite Nat.mod_small.
  - destruct (IH (drop n l)) as (cs & rest & E & Hcs & Hr & Hm); [rewrite length_drop; lia|].
    exists (take n l :: cs), rest. split; [|split; [|split; [done|]]].
    + simpl. by rewrite <-app_assoc, <-E, take_drop.
    + constructor; [rewrite length_take; lia|done].
    + rewrite Hm, length_drop, <-(Nat.Div0.mod_add (length l - n) 1 n). f_equal. lia.
Qed.
Lemma chunks_divides {A} n (l : list A) :
  (0 < n)%nat -> (length l mod n = 0)%nat ->
  (n * length (chunks n l) = length l)%nat /\ Forall (fun c => length c = n) (chunks n l) /\
  concat (chunks n l) = l.
Proof.
  intros Hn Hm. destruct (split_chunks n l Hn) as (cs & rest & E & Hcs & _ & Hr).
  rewrite Hm in Hr. destruct rest; [|done]. rewrite app_nil_r in E. subst l.
  rewrite chunks_concat by done. split; [|done]. clear Hm.
  induction Hcs as [|c cs Hc _ IH]; simpl; [lia|]. rewrite length_app. lia.
Qed.
Lemma chunks_map {A B} (f : A -> B) n (l : list A) :
  map (map f) (chunks n l) = chunks n (map f l).
Proof.
  unfold chunks. rewrite length_map. generalize (length l) as fuel. intros fuel. revert l.
  induction fuel as [|fuel IH]; intros l; [done|]. cbn [chunks_fuel].
  destruct l as [|x l]; [done|]. cbn [map]. rewrite IH. f_equal.
  - symmetry. apply (List.firstn_map f n (x :: l)).
  - f_equal. symmetry. apply (List.skipn_map f n (x :: l)).
Qed.
Lemma chunks_take {A} n k (l : list A) :
  (0 < n)%nat -> chunks n (take (k * n) l) = take k (chunks n l).
Proof.
  intros Hn. revert l. induction k as [|k IH]; intros l; [done|].
  unfold chunks at 2. destruct l as [|x l]; [by rewrite take_nil|].
  cbn [length chunks_fuel take].
  destruct (decide (n <= length (x :: l))%nat) as [Hl|Hl].
  - rewrite chunks_fuel_enough by (done || rewrite length_drop; simpl; lia).
    rewrite <-IH, <-chunks_app by (done || rewrite length_take; lia). f_equal.
    rewrite <-(take_drop n (take (S k * n) (x :: l))). rewrite take_take, Nat.min_l by lia.
    f_equal. rewrite List.skipn_firstn_comm. f_equal. lia.
  - rewrite (take_ge (x :: l) (S k * n)), (take_ge (x :: l) n) by lia.
    rewrite drop_ge by lia. rewrite <-(app_nil_r (x :: l)) at 1.
    unfold chunks. cbn [length chunks_fuel app]. rewrite (take_ge _ n), (drop_ge _ n) by (rewrite ?app_nil_r; lia).
    rewrite app_nil_r. destruct (length l), k; done.
Qed.
