(* ===== verification/Float64.v ===== *)
(** * Rust's [f64]

    IEEE 754 binary64 on the Standard Library's [spec_float]: the casts from
    and to integers the sources use, subtraction and division, and the decimal
    text that [Display] prints (shortest digits that round back, never an
    exponent). *)

From Stdlib Require Import ZArith Lia SpecFloat.
From stdpp Require Import base list strings.
From S2P Require Import Prelude.

Abbreviation f64 := spec_float.
Definition f64_prec : Z := 53.
Definition f64_emax : Z := 1024.

(** [z as f64] for an integer [z]: rounded to nearest, ties to even. *)
Definition f64_of_Z (z : Z) : f64 := binary_normalize f64_prec f64_emax z 0 false.
Definition f64_sub (x y : f64) : f64 := SFsub f64_prec f64_emax x y.
Definition f64_div (x y : f64) : f64 := SFdiv f64_prec f64_emax x y.

(** The integer part, toward zero; [None] for NaN and the infinities. *)
Definition f64_trunc (x : f64) : option Z :=
  match x with
  | S754_zero _ => Some 0
  | S754_infinity _ | S754_nan => None
  | S754_finite s m e =>
      let a := if 0 <=? e then Zpos m * 2 ^ e else Zpos m / 2 ^ (- e) in
      Some (if s then - a else a)
  end.

(** [x as iN], [x as uN]: toward zero, saturating, NaN is 0. *)
Definition f64_to_int (lo hi : Z) (x : f64) : Z :=
  match f64_trunc x with
  | Some z => Z.max lo (Z.min hi z)
  | None => match x with
            | S754_infinity true => lo
            | S754_infinity false => hi
            | _ => 0
            end
  end.
Definition f64_as_u (w : Z) : f64 -> Z := f64_to_int 0 (2 ^ w - 1).
Definition f64_as_i (w : Z) : f64 -> Z := f64_to_int (- 2 ^ (w - 1)) (2 ^ (w - 1) - 1).

(** ** Display *)

Fixpoint show_digits (fuel : nat) (z : Z) (acc : list byte) : list byte :=
  match fuel with
  | O => acc
  | S fuel =>
      let acc := byte_of (48 + z mod 10) :: acc in
      if z <? 10 then acc else show_digits fuel (z / 10) acc
  end.
(** Decimal text of an unsigned integer; [Z.log2_up z + 1] bounds its digits. *)
Definition show_u (z : Z) : list byte := show_digits (S (Z.to_nat (Z.log2_up z))) z [].

Definition rat_ge_pow10 (num den x : Z) : bool :=
  if 0 <=? x then den * 10 ^ x <=? num else den <=? num * 10 ^ (- x).
Fixpoint find_exp10 (fuel : nat) (num den x : Z) : Z :=
  match fuel with
  | O => x
  | S fuel => if rat_ge_pow10 num den x then x else find_exp10 fuel num den (x - 1)
  end.
(** [n * 10 ^ p] compared with the rational [num / den]. *)
Definition cmp_dec (n p num den : Z) : comparison :=
  if 0 <=? p then (n * 10 ^ p * den ?= num) else (n * den ?= num * 10 ^ (- p)).
Definition floor_dec (p num den : Z) : Z :=
  if 0 <=? p then num / (den * 10 ^ p) else num * 10 ^ (- p) / den.

Section Shortest.
(* the value, the ends of its rounding interval, and whether the ends round
   back to the value *)
Variables (num lo hi den : Z) (ends : bool).

Definition rounds_back (n p : Z) : bool :=
  match cmp_dec n p lo den, cmp_dec n p hi den with
  | Gt, Lt => true
  | Eq, Lt | Gt, Eq => ends
  | _, _ => false
  end.
Definition closer_up (n p : Z) : bool :=
  (* 2 * (n + 1/2) <= 2 * value *)
  match cmp_dec (2 * n + 1) p (2 * num) den with Gt => false | _ => true end.
Fixpoint shortest (fuel : nat) (p : Z) : Z * Z :=
  let n := floor_dec p num den in
  match fuel with
  | O => (n, p)
  | S fuel =>
      match rounds_back n p, rounds_back (n + 1) p with
      | true, true => (if closer_up n p then n + 1 else n, p)
      | true, false => (n, p)
      | false, true => (n + 1, p)
      | false, false => shortest fuel (p - 1)
      end
  end.
End Shortest.

Definition place_point (n p : Z) : list byte :=
  let ds := show_u n in
  if 0 <=? p then ds ++ replicate (Z.to_nat p) (byte_of 48)
  else
    let k := Z.to_nat (- p) in
    let ds := replicate (S k - length ds) (byte_of 48) ++ ds in
    take (length ds - k) ds ++ byte_of 46 :: drop (length ds - k) ds.

Definition show_finite (m e : Z) : list byte :=
  (* value and ends over the common denominator 4 * 2 ^ max 0 (-e) *)
  let sh := Z.max 0 e in
  let den := 4 * 2 ^ Z.max 0 (- e) in
  let num := 4 * m * 2 ^ sh in
  let hi := (4 * m + 2) * 2 ^ sh in
  let lo := (if (m =? 2 ^ 52) && (-1074 <? e) then 4 * m - 1 else 4 * m - 2) * 2 ^ sh in
  let x := find_exp10 8 num den (((Z.log2 num - Z.log2 den + 1) * 30103) / 100000 + 2) in
  let '(n, p) := shortest num lo hi den (Z.even m) 20 x in
  place_point n p.

(** [format!("{}", x)]. *)
Definition show_f64 (x : f64) : list byte :=
  match x with
  | S754_nan => bytes_of_string "NaN"
  | S754_zero s => bytes_of_string (if s then "-0" else "0")
  | S754_infinity s => bytes_of_string (if s then "-inf" else "inf")
  | S754_finite s m e =>
      (if s then bytes_of_string "-" else []) ++ show_finite (Zpos m) e
  end.

Example show_f64_examples :
  map show_f64 [f64_of_Z 0; f64_of_Z 1; f64_of_Z 1500; f64_div (f64_of_Z 1) (f64_of_Z 10);
                f64_div (f64_of_Z (-2)) (f64_of_Z 3);
                f64_div (f64_of_Z 1234567891) (f64_of_Z 1000); f64_of_Z (10 ^ 22)]
  = map bytes_of_string ["0"; "1"; "1500"; "0.1"; "-0.6666666666666666";
                         "1234567.891"; "10000000000000000000000"]%string.
Proof. vm_compute. reflexivity. Qed.

(** ** Integers below 2^53 are exact *)

Lemma digits2_pos_log2 p : Zpos (digits2_pos p) = Z.log2 (Zpos p) + 1.
Proof.
  induction p as [p IH|p IH|]; [| |done];
    simpl digits2_pos; rewrite Pos2Z.inj_succ, IH.
  - rewrite Pos2Z.inj_xI, Z.log2_succ_double by lia. lia.
  - rewrite Pos2Z.inj_xO, Z.log2_double by lia. lia.
Qed.

Lemma shr_0 mrs e n : n <= 0 -> shr mrs e n = (mrs, e).
Proof. intros H. unfold shr. destruct n; [done|lia|done]. Qed.

Lemma iter_xO m d : Zpos (Pos.iter xO m d) = Zpos m * 2 ^ Zpos d.
Proof.
  induction d using Pos.peano_ind.
  - rewrite Z.pow_1_r. simpl. lia.
  - rewrite Pos.iter_succ, Pos2Z.inj_succ, Z.pow_succ_r by lia.
    rewrite Pos2Z.inj_xO, IHd. ring.
Qed.

Lemma digits_shift m k :
  0 <= k -> Z.log2 (Zpos m * 2 ^ k) = Z.log2 (Zpos m) + k.
Proof. intros. rewrite Z.log2_mul_pow2; lia. Qed.

Lemma Zdigits2_pos p : Zdigits2 (Zpos p) = Z.log2 (Zpos p) + 1.
Proof. apply digits2_pos_log2. Qed.

(** A mantissa of exactly 53 bits is not rounded. *)
Lemma binary_round_aux_full s p e :
  Z.log2 (Zpos p) = 52 -> -1074 <= e <= 971 ->
  binary_round_aux f64_prec f64_emax s (Zpos p) e loc_Exact = S754_finite s p e.
Proof.
  intros Hp He. unfold binary_round_aux, shr_fexp, fexp, emin, f64_prec, f64_emax.
  rewrite Zdigits2_pos, Hp.
  rewrite (shr_0 (shr_record_of_loc (Zpos p) loc_Exact)) by lia.
  simpl round_nearest_even.
  rewrite Zdigits2_pos, Hp.
  rewrite (shr_0 (shr_record_of_loc (Zpos p) loc_Exact)) by lia.
  simpl shr_m. cbn iota.
  by rewrite (proj2 (Z.leb_le e (1024 - 53))) by lia.
Qed.

Lemma binary_round_small s m :
  Zpos m < 2 ^ 53 ->
  exists m' e', binary_round f64_prec f64_emax s m 0 = S754_finite s m' e' /\
    -52 <= e' <= 0 /\ Zpos m' = Zpos m * 2 ^ (- e').
Proof.
  intros Hm.
  assert (0 <= Z.log2 (Zpos m) < 53) as Hl.
  { split; [apply Z.log2_nonneg|]. apply Z.log2_lt_pow2; lia. }
  unfold binary_round, shl_align. rewrite digits2_pos_log2.
  replace (fexp f64_prec f64_emax (Z.log2 (Zpos m) + 1 + 0))
    with (Z.log2 (Zpos m) - 52)
    by (unfold fexp, emin, f64_prec, f64_emax; lia).
  rewrite Z.sub_0_r.
  destruct (Z.log2 (Zpos m) - 52) as [|q|q] eqn:E; [|lia|].
  - rewrite binary_round_aux_full by lia.
    exists m, 0. split; [done|]. split; [lia|]. simpl. lia.
  - pose proof (iter_xO m q) as Hi.
    rewrite binary_round_aux_full; [|rewrite Hi, digits_shift; lia|lia].
    eexists _, (Zneg q). split; [done|]. split; [lia|]. by rewrite Hi.
Qed.

Lemma f64_trunc_of_Z z : - 2 ^ 53 < z < 2 ^ 53 -> f64_trunc (f64_of_Z z) = Some z.
Proof.
  intros Hz. unfold f64_of_Z, binary_normalize.
  destruct z as [|p|p]; [done| |].
  - destruct (binary_round_small false p) as (m & e & -> & He & Hm); [lia|].
    simpl. f_equal. destruct (Z.leb_spec 0 e).
    + replace e with 0 in * by lia. simpl in *. lia.
    + rewrite Hm, Z.div_mul by (apply Z.pow_nonzero; lia). done.
  - destruct (binary_round_small true p) as (m & e & -> & He & Hm); [lia|].
    simpl. f_equal. destruct (Z.leb_spec 0 e).
    + replace e with 0 in * by lia. simpl in *. lia.
    + rewrite Hm, Z.div_mul by (apply Z.pow_nonzero; lia). done.
Qed.

Lemma f64_to_int_of_Z lo hi z :
  - 2 ^ 53 < z < 2 ^ 53 -> f64_to_int lo hi (f64_of_Z z) = Z.max lo (Z.min hi z).
Proof. intros H. unfold f64_to_int. by rewrite f64_trunc_of_Z. Qed.
Lemma f64_as_u_of_Z w z :
  w <= 53 -> 0 <= z < 2 ^ w -> f64_as_u w (f64_of_Z z) = z.
Proof.
  intros Hw Hz. pose proof (Z.pow_le_mono_r 2 w 53 ltac:(lia) Hw).
  unfold f64_as_u. rewrite f64_to_int_of_Z; lia.
Qed.
Lemma f64_as_i_of_Z w z :
  0 < w <= 53 -> - 2 ^ (w - 1) <= z < 2 ^ (w - 1) -> f64_as_i w (f64_of_Z z) = z.
Proof.
  intros Hw Hz. pose proof (Z.pow_lt_mono_r 2 (w - 1) 53 ltac:(lia) ltac:(lia) ltac:(lia)).
  unfold f64_as_i. rewrite f64_to_int_of_Z; lia.
Qed.
