(* ===== verification/FloatBounds.v ===== *)
(** * Rust's [f64]: rounding, order and signs

    What the casts and the arithmetic of [Float64] do to unsigned 64-bit
    integers: [n as f64] rounds to 53 significant bits, ties to even, keeps the
    order and is off by at most 1024; differences in order and quotients of
    non-negative floats are non-negative and never NaN. *)

From Stdlib Require Import ZArith Lia SpecFloat.
From stdpp Require Import base list.
From S2P Require Import Prelude Float64.

(** ** A reference rounding *)

(** [z / 2^k] to the nearest integer, ties to even. *)
Definition nearest_even (z k : Z) : Z :=
  let q := z / 2 ^ k in
  let r := z mod 2 ^ k in
  match 2 * r ?= 2 ^ k with
  | Lt => q
  | Eq => if Z.even q then q else q + 1
  | Gt => q + 1
  end.

(** [z] rounded to 53 significant bits. *)
Definition round53 (z : Z) : Z :=
  let k := Z.log2 z - 52 in
  if k <=? 0 then z else nearest_even z k * 2 ^ k.

Lemma nearest_even_bounds z k : 0 <= k ->
  z / 2 ^ k <= nearest_even z k <= z / 2 ^ k + 1 /\
  2 * Z.abs (nearest_even z k * 2 ^ k - z) <= 2 ^ k.
Proof.
  intros Hk. assert (Hp : 0 < 2 ^ k) by (apply Z.pow_pos_nonneg; lia).
  pose proof (Z.div_mod z (2 ^ k) ltac:(lia)) as Hd.
  pose proof (Z.mod_pos_bound z (2 ^ k) Hp) as Hr.
  unfold nearest_even. destruct (Z.compare_spec (2 * (z mod 2 ^ k)) (2 ^ k));
    [destruct (Z.even (z / 2 ^ k))| |]; nia.
Qed.

Lemma nearest_even_mono a b k : 0 <= k -> a <= b -> nearest_even a k <= nearest_even b k.
Proof.
  intros Hk Hab. assert (Hp : 0 < 2 ^ k) by (apply Z.pow_pos_nonneg; lia).
  pose proof (Z.div_mod a (2 ^ k) ltac:(lia)). pose proof (Z.div_mod b (2 ^ k) ltac:(lia)).
  pose proof (Z.mod_pos_bound a (2 ^ k) Hp). pose proof (Z.mod_pos_bound b (2 ^ k) Hp).
  pose proof (Z.div_le_mono a b (2 ^ k) Hp Hab) as Hq.
  destruct (Z.eq_dec (a / 2 ^ k) (b / 2 ^ k)) as [E|E].
  - unfold nearest_even. rewrite <- E.
    destruct (Z.compare_spec (2 * (a mod 2 ^ k)) (2 ^ k)),
      (Z.compare_spec (2 * (b mod 2 ^ k)) (2 ^ k)); destruct (Z.even (a / 2 ^ k)); nia.
  - pose proof (proj1 (nearest_even_bounds a k Hk)). pose proof (proj1 (nearest_even_bounds b k Hk)). lia.
Qed.

Lemma round53_small z : z < 2 ^ 53 -> round53 z = z.
Proof.
  intros Hz. unfold round53. destruct (Z.leb_spec (Z.log2 z - 52) 0) as [|Hk]; [done|].
  destruct (Z.leb_spec z 0); [rewrite Z.log2_nonpos in Hk by done; lia|].
  assert (Z.log2 z < 53) by (apply Z.log2_lt_pow2; lia). lia.
Qed.

(** The quotient of a number with [53 + k] digits has 53. *)
Lemma quotient53 z k : 0 < k -> Z.log2 z = k + 52 -> 2 ^ 52 <= z / 2 ^ k < 2 ^ 53.
Proof.
  intros Hk Hl. assert (0 < z) by (destruct (Z.leb_spec z 0); [rewrite Z.log2_nonpos in Hl by done; lia|lia]).
  destruct (Z.log2_spec z) as [H1 H2]; [done|]. rewrite Hl in H1, H2.
  assert (Hp : 0 < 2 ^ k) by (apply Z.pow_pos_nonneg; lia).
  rewrite Z.pow_add_r in H1 by lia.
  replace (Z.succ (k + 52)) with (k + 53) in H2 by lia. rewrite Z.pow_add_r in H2 by lia.
  split; [apply Z.div_le_lower_bound; lia | apply Z.div_lt_upper_bound; lia].
Qed.

Lemma round53_range z k : 0 < k -> Z.log2 z = k + 52 ->
  round53 z = nearest_even z k * 2 ^ k /\ 2 ^ 52 <= nearest_even z k <= 2 ^ 53.
Proof.
  intros Hk Hl. unfold round53. replace (Z.log2 z - 52) with k by lia.
  rewrite (proj2 (Z.leb_gt k 0)) by lia. split; [done|].
  pose proof (quotient53 z k Hk Hl). pose proof (proj1 (nearest_even_bounds z k ltac:(lia))). lia.
Qed.

Lemma round53_mono a b : 0 <= a <= b -> round53 a <= round53 b.
Proof.
  intros Hab. pose proof (Z.log2_le_mono a b ltac:(lia)) as Hl.
  destruct (Z.leb_spec (Z.log2 b) 52) as [Hb|Hb].
  - unfold round53. rewrite !(proj2 (Z.leb_le _ 0)) by lia. lia.
  - destruct (round53_range b (Z.log2 b - 52)) as [-> Hrb]; [lia|lia|].
    assert (Hp : 0 < 2 ^ (Z.log2 b - 52)) by (apply Z.pow_pos_nonneg; lia).
    destruct (Z.leb_spec (Z.log2 a) 52) as [Ha|Ha].
    + unfold round53. rewrite (proj2 (Z.leb_le _ 0)) by lia.
      assert (a < 2 ^ 53).
      { destruct (Z.leb_spec a 0); [lia|]. apply Z.log2_lt_pow2; lia. }
      assert (2 ^ 1 <= 2 ^ (Z.log2 b - 52)) by (apply Z.pow_le_mono_r; lia). nia.
    + destruct (round53_range a (Z.log2 a - 52)) as [-> Hra]; [lia|lia|].
      destruct (Z.eq_dec (Z.log2 a) (Z.log2 b)) as [E|E].
      * rewrite E. apply Z.mul_le_mono_nonneg_r; [lia|]. apply nearest_even_mono; lia.
      * assert (Hs : 2 ^ (Z.log2 b - 52) = 2 ^ (Z.log2 a - 52) * 2 ^ (Z.log2 b - Z.log2 a))
          by (rewrite <- Z.pow_add_r by lia; f_equal; lia).
        assert (2 ^ 1 <= 2 ^ (Z.log2 b - Z.log2 a)) by (apply Z.pow_le_mono_r; lia).
        assert (0 < 2 ^ (Z.log2 a - 52)) by (apply Z.pow_pos_nonneg; lia). nia.
Qed.

(** Off by at most half a unit of the last digit kept. *)
Lemma round53_error z : 0 <= z < 2 ^ 64 -> Z.abs (round53 z - z) <= 2 ^ 10.
Proof.
  intros Hz. destruct (Z.leb_spec (Z.log2 z) 52) as [Hl|Hl].
  - unfold round53. rewrite (proj2 (Z.leb_le _ 0)) by lia. lia.
  - assert (0 < z) by (destruct (Z.leb_spec z 0); [rewrite Z.log2_nonpos in Hl by done|]; lia).
    assert (Z.log2 z < 64) by (apply Z.log2_lt_pow2; lia).
    destruct (round53_range z (Z.log2 z - 52)) as [-> _]; [lia|lia|].
    pose proof (proj2 (nearest_even_bounds z (Z.log2 z - 52) ltac:(lia))) as He.
    assert (2 ^ (Z.log2 z - 52) <= 2 ^ 11) by (apply Z.pow_le_mono_r; lia). lia.
Qed.

(** ** The cast *)

(** The bits shifted out: the mantissa, the last of them, and whether any before
    it is set. *)
Definition shifted (z : Z) (k : nat) : shr_record :=
  match k with
  | O => {| shr_m := z; shr_r := false; shr_s := false |}
  | S j => {| shr_m := z / 2 ^ Z.of_nat (S j);
              shr_r := Z.odd (z / 2 ^ Z.of_nat j);
              shr_s := negb (z mod 2 ^ Z.of_nat j =? 0) |}
  end.

Lemma shr_1_parts m r s : 0 <= m ->
  shr_1 {| shr_m := m; shr_r := r; shr_s := s |}
  = {| shr_m := m / 2; shr_r := Z.odd m; shr_s := r || s |}.
Proof.
  intros Hm. destruct m as [|[p|p|]|p]; try done; try lia; cbn [shr_1 Z.odd]; f_equal.
  - apply Z.div_unique with 1; lia.
  - apply Z.div_unique with 0; lia.
Qed.

Lemma mod_step z j :
  z mod 2 ^ Z.of_nat (S j) = Z.b2z (Z.odd (z / 2 ^ Z.of_nat j)) * 2 ^ Z.of_nat j + z mod 2 ^ Z.of_nat j.
Proof.
  rewrite Nat2Z.inj_succ, Z.pow_succ_r by lia. rewrite (Z.mul_comm 2).
  rewrite Z.rem_mul_r by lia. rewrite Zmod_odd. destruct (Z.odd _); cbn; lia.
Qed.

Lemma shr_1_shifted z k : 0 <= z -> shr_1 (shifted z k) = shifted z (S k).
Proof.
  intros Hz. destruct k as [|j]; unfold shifted.
  - rewrite shr_1_parts by done. cbn [Z.of_nat Pos.of_succ_nat].
    change (2 ^ 1) with 2. change (2 ^ 0) with 1. by rewrite Z.div_1_r, Z.mod_1_r.
  - rewrite shr_1_parts by (apply Z.div_pos; lia). f_equal.
    + rewrite Z.div_div by lia. f_equal. rewrite (Nat2Z.inj_succ (S j)), Z.pow_succ_r by lia. lia.
    + rewrite mod_step. pose proof (Z.mod_pos_bound z (2 ^ Z.of_nat j) ltac:(lia)).
      destruct (Z.odd _); cbn; destruct (Z.eqb_spec (z mod 2 ^ Z.of_nat j) 0);
        destruct (Z.eqb_spec (1 * 2 ^ Z.of_nat j + z mod 2 ^ Z.of_nat j) 0); cbn; lia || done.
Qed.

Lemma iter_pos_nat {A} (f : A -> A) p x : SpecFloat.iter_pos f p x = Nat.iter (Pos.to_nat p) f x.
Proof.
  revert x. induction p as [p IH|p IH|]; intros x; cbn [SpecFloat.iter_pos].
  - rewrite !IH, <- Nat.iter_add, Pos2Nat.inj_xI.
    replace (S (2 * Pos.to_nat p)) with (Pos.to_nat p + Pos.to_nat p + 1)%nat by lia.
    by rewrite (Nat.iter_add _ 1).
  - rewrite !IH, <- Nat.iter_add, Pos2Nat.inj_xO. f_equal. lia.
  - done.
Qed.

Lemma shr_shifted z e n : 0 <= z -> 0 <= n ->
  shr (shr_record_of_loc z loc_Exact) e n = (shifted z (Z.to_nat n), e + n).
Proof.
  intros Hz Hn. destruct n as [|p|p]; [by rewrite Z.add_0_r | | lia].
  unfold shr. f_equal. rewrite iter_pos_nat. change (Z.to_nat (Zpos p)) with (Pos.to_nat p).
  induction (Pos.to_nat p) as [|k IH]; [done|]. by rewrite Nat.iter_succ, IH, shr_1_shifted.
Qed.

Lemma shifted_nearest z k : 0 <= z ->
  round_nearest_even (shr_m (shifted z k)) (loc_of_shr_record (shifted z k))
  = nearest_even z (Z.of_nat k).
Proof.
  intros Hz. unfold nearest_even. destruct k as [|j].
  - cbn [Z.of_nat]. change (2 ^ 0) with 1. by rewrite Z.div_1_r, Z.mod_1_r.
  - rewrite mod_step. assert (Hp : 0 < 2 ^ Z.of_nat j) by (apply Z.pow_pos_nonneg; lia).
    pose proof (Z.mod_pos_bound z _ Hp) as Ht.
    rewrite Nat2Z.inj_succ, Z.pow_succ_r by lia. unfold shifted. cbn [shr_m].
    rewrite (Nat2Z.inj_succ j), Z.pow_succ_r by lia.
    destruct (Z.odd (z / 2 ^ Z.of_nat j)), (Z.eqb_spec (z mod 2 ^ Z.of_nat j) 0) as [E|E];
      cbn [negb loc_of_shr_record round_nearest_even Z.b2z];
      destruct (Z.compare_spec (2 * (1 * 2 ^ Z.of_nat j + z mod 2 ^ Z.of_nat j)) (2 * 2 ^ Z.of_nat j));
      destruct (Z.compare_spec (2 * (0 * 2 ^ Z.of_nat j + z mod 2 ^ Z.of_nat j)) (2 * 2 ^ Z.of_nat j));
      try lia; try done.
Qed.

(** The value of a float, in units of 2^-52; the floats of integers have one. *)
Definition units (x : f64) : Z :=
  match x with
  | S754_finite s m e => cond_Zopp s (Zpos m) * 2 ^ (e + 52)
  | _ => 0
  end.
(** Zero or finite and positive, not below 2^-52. *)
Definition regular (x : f64) : Prop :=
  match x with
  | S754_zero s => s = false
  | S754_finite s _ e => s = false /\ -52 <= e
  | _ => False
  end.

(** A 54-bit power of two, after rounding up. *)
Lemma round_aux_53 m e : 2 ^ 52 <= m <= 2 ^ 53 -> -52 <= e <= 900 ->
  exists x, (let '(mrs, e') := shr_fexp f64_prec f64_emax m e loc_Exact in
     match shr_m mrs with
     | Z0 => S754_zero false
     | Zpos m => if e' <=? f64_emax - f64_prec then S754_finite false m e' else S754_infinity false
     | Zneg _ => S754_nan
     end) = x /\ regular x /\ units x = m * 2 ^ (e + 52).
Proof.
  intros Hm He. destruct (Z.eq_dec m (2 ^ 53)) as [->|Hne].
  - unfold shr_fexp. change (Zdigits2 (2 ^ 53)) with 54.
    replace (fexp f64_prec f64_emax (54 + e) - e) with 1
      by (unfold fexp, emin, f64_prec, f64_emax; lia).
    rewrite shr_shifted by lia. change (Z.to_nat 1) with 1%nat.
    change (shr_m (shifted (2 ^ 53) 1)) with 4503599627370496. cbn iota.
    rewrite (proj2 (Z.leb_le _ _)) by (unfold f64_emax, f64_prec; lia).
    eexists. split; [reflexivity|]. split; [split; [done|lia]|]. cbn [units cond_Zopp].
    change (2 ^ 53) with (4503599627370496 * 2). rewrite <- Z.mul_assoc. f_equal.
    replace (e + 1 + 52) with (Z.succ (e + 52)) by lia. rewrite Z.pow_succ_r by lia. done.
  - assert (Hl : Z.log2 m = 52) by (apply Z.log2_unique; [lia|]; change (2 ^ Z.succ 52) with (2 ^ 53); lia).
    destruct m as [|p|p]; try lia. unfold shr_fexp. rewrite Zdigits2_pos, Hl.
    replace (fexp f64_prec f64_emax (52 + 1 + e) - e) with 0
      by (unfold fexp, emin, f64_prec, f64_emax; lia).
    rewrite shr_shifted by lia. change (Z.to_nat 0) with 0%nat. cbn [shifted shr_m].
    rewrite Z.add_0_r.
    rewrite (proj2 (Z.leb_le _ _)) by (unfold f64_emax, f64_prec; lia).
    eexists. split; [reflexivity|]. split; [split; [done|lia]|]. done.
Qed.

(** [n as f64] for a [u64]. *)
Lemma f64_of_Z_u64 z : 0 <= z < 2 ^ 64 ->
  regular (f64_of_Z z) /\ units (f64_of_Z z) = round53 z * 2 ^ 52.
Proof.
  intros Hz. destruct z as [|m|m]; [done| |lia].
  unfold f64_of_Z, binary_normalize.
  destruct (Z.ltb_spec (Zpos m) (2 ^ 53)) as [Hs|Hs].
  - destruct (binary_round_small false m Hs) as (m' & e' & -> & He & Hm).
    rewrite round53_small by done. cbn [regular units cond_Zopp].
    split; [split; [done|lia]|]. rewrite Hm, <- Z.mul_assoc, <- Z.pow_add_r by lia.
    do 2 f_equal. lia.
  - assert (Hl : 53 <= Z.log2 (Zpos m)) by (apply Z.log2_le_pow2; lia).
    assert (Hl' : Z.log2 (Zpos m) < 64) by (apply Z.log2_lt_pow2; lia).
    set (k := Z.log2 (Zpos m) - 52).
    destruct (round53_range (Zpos m) k) as [-> Hq]; [lia|lia|].
    unfold binary_round. rewrite digits2_pos_log2.
    assert (Hf : fexp f64_prec f64_emax (Z.log2 (Zpos m) + 1 + 0) = k)
      by (unfold fexp, emin, f64_prec, f64_emax; lia).
    rewrite Hf. unfold shl_align. rewrite Z.sub_0_r.
    destruct k as [|pk|pk] eqn:Ek; try lia.
    unfold binary_round_aux.
    assert (Hs1 : shr_fexp f64_prec f64_emax (Zpos m) 0 loc_Exact = (shifted (Zpos m) (Z.to_nat (Zpos pk)), Zpos pk)).
    { unfold shr_fexp. rewrite Zdigits2_pos, Hf, Z.sub_0_r. by rewrite shr_shifted by lia. }
    rewrite Hs1, shifted_nearest, Z2Nat.id by lia.
    destruct (round_aux_53 (nearest_even (Zpos m) (Zpos pk)) (Zpos pk)) as (x & Hx & Hr & Hu); [lia|lia|].
    rewrite Hx. split; [done|]. rewrite Hu, Z.pow_add_r by lia. ring.
Qed.

(** ** Signs *)

(** Neither negative nor NaN; such a float is printed without a minus sign. *)
Definition nonneg (x : f64) : Prop :=
  match x with
  | S754_zero s | S754_infinity s | S754_finite s _ _ => s = false
  | S754_nan => False
  end.

Lemma regular_nonneg x : regular x -> nonneg x.
Proof. destruct x; cbn; tauto. Qed.

Lemma shr_nonneg mrs e n : 0 <= shr_m mrs -> 0 <= shr_m (fst (shr mrs e n)).
Proof.
  intros Hm. destruct n as [|p|p]; cbn [shr fst]; try done. rewrite iter_pos_nat.
  induction (Pos.to_nat p) as [|k IH]; [done|]. rewrite Nat.iter_succ.
  destruct (Nat.iter k shr_1 mrs) as [m r s]. cbn [shr_m] in *. rewrite shr_1_parts by done.
  cbn [shr_m]. apply Z.div_pos; lia.
Qed.

Lemma binary_round_aux_nonneg m e l : 0 <= m ->
  nonneg (binary_round_aux f64_prec f64_emax false m e l).
Proof.
  intros Hm. unfold binary_round_aux, shr_fexp.
  match goal with |- context [shr ?a ?b ?c] => pose proof (shr_nonneg a b c) as H1;
    destruct (shr a b c) as [mrs e1] end.
  assert (Ha : 0 <= shr_m (shr_record_of_loc m l)) by (by destruct l as [|[]]).
  specialize (H1 Ha). cbn [fst] in H1.
  set (m2 := round_nearest_even (shr_m mrs) (loc_of_shr_record mrs)).
  assert (Hm2 : 0 <= m2).
  { unfold m2, round_nearest_even. destruct (loc_of_shr_record mrs) as [|[]]; try lia.
    destruct (Z.even _); lia. }
  match goal with |- context [shr ?a ?b ?c] => pose proof (shr_nonneg a b c Hm2) as H2;
    destruct (shr a b c) as [mrs2 e2] end.
  cbn [fst] in H2. destruct (shr_m mrs2); [done| |lia]. by destruct (e2 <=? _).
Qed.

Lemma binary_normalize_nonneg m e : 0 <= m ->
  nonneg (binary_normalize f64_prec f64_emax m e false).
Proof.
  intros Hm. destruct m as [|p|p]; [done| |lia]. unfold binary_normalize, binary_round.
  destruct (shl_align _ _ _) as [mz ez]. by apply binary_round_aux_nonneg.
Qed.

Lemma shl_align_value m e e' : e' <= e ->
  Zpos (fst (shl_align m e e')) = Zpos m * 2 ^ (e - e').
Proof.
  intros He. unfold shl_align. destruct (e' - e) as [|p|p] eqn:E; [|lia|].
  - replace (e - e') with 0 by lia. cbn [fst]. lia.
  - cbn [fst]. rewrite iter_xO. do 2 f_equal. lia.
Qed.

(** A difference in order. *)
Lemma f64_sub_nonneg x y : regular x -> regular y -> units y <= units x -> nonneg (f64_sub x y).
Proof.
  intros Hx Hy Hu.
  destruct x as [sx| | |sx mx ex]; [| done | done |];
    destruct y as [sy| | |sy my ey]; try done; cbn [regular] in Hx, Hy.
  - by subst.
  - destruct Hy as [-> Hy]. subst. exfalso. cbn [units cond_Zopp] in Hu.
    assert (0 < 2 ^ (ey + 52)) by (apply Z.pow_pos_nonneg; lia). nia.
  - by destruct Hx as [-> _].
  - destruct Hx as [-> Hx], Hy as [-> Hy].
    unfold f64_sub, SFsub. apply binary_normalize_nonneg. cbn [cond_Zopp units] in *.
    rewrite !shl_align_value by lia.
    assert (Hez : -52 <= Z.min ex ey /\ Z.min ex ey <= ex /\ Z.min ex ey <= ey) by lia.
    generalize dependent (Z.min ex ey). intros ez Hez.
    replace (ex + 52) with ((ex - ez) + (ez + 52)) in Hu by lia.
    replace (ey + 52) with ((ey - ez) + (ez + 52)) in Hu by lia.
    rewrite (Z.pow_add_r 2 (ex - ez)), (Z.pow_add_r 2 (ey - ez)) in Hu by lia.
    assert (0 < 2 ^ (ez + 52)) by (apply Z.pow_pos_nonneg; lia). nia.
Qed.

Lemma f64_div_nonneg x m e : nonneg x -> nonneg (f64_div x (S754_finite false m e)).
Proof.
  intros Hx. destruct x as [s|s| |s mx ex]; cbn in Hx; subst; try done.
  unfold f64_div, SFdiv. destruct (SFdiv_core_binary _ _ _ _ _ _) as [[mz ez] lz] eqn:E.
  apply binary_round_aux_nonneg. unfold SFdiv_core_binary in E.
  match type of E with context [Z.div_eucl ?a ?b] =>
    assert (Ha : 0 <= a) by (destruct (_ - _ - _); [lia | apply Z.shiftl_nonneg; lia | lia]);
    pose proof (Z_div_pos a b ltac:(lia) Ha) as Hq; unfold Z.div in Hq;
    destruct (Z.div_eucl a b) as [q r] end.
  by injection E as <- _ _.
Qed.

(** A [u64] as a float: within 1024 of it, and equal below 2^53. *)
Definition close (z : Z) : Prop :=
  Z.abs (units (f64_of_Z z) - z * 2 ^ 52) <= 2 ^ 10 * 2 ^ 52 /\
  (z < 2 ^ 53 -> units (f64_of_Z z) = z * 2 ^ 52).

Lemma f64_of_Z_close z : 0 <= z < 2 ^ 64 -> close z.
Proof.
  intros Hz. destruct (f64_of_Z_u64 z Hz) as [_ Hu]. unfold close. rewrite Hu.
  pose proof (round53_error z Hz). split; [lia|]. intros Hs. by rewrite round53_small.
Qed.

Lemma f64_of_Z_sub_nonneg a b : 0 <= a -> a <= b < 2 ^ 64 ->
  nonneg (f64_sub (f64_of_Z b) (f64_of_Z a)).
Proof.
  intros Ha Hb. destruct (f64_of_Z_u64 a) as [Hra Hua]; [lia|].
  destruct (f64_of_Z_u64 b) as [Hrb Hub]; [lia|]. apply f64_sub_nonneg; [done|done|].
  rewrite Hua, Hub. pose proof (round53_mono a b ltac:(lia)). lia.
Qed.

(** Two times 100 ns apart, as of 2020, that are the same float. *)
Example close_times :
  f64_of_Z 1600000000000000000 = f64_of_Z 1600000000000000100 /\
  round53 1600000000000000200 = 1600000000000000256.
Proof. vm_compute. done. Qed.
