(* ===== verification/OcamlSerde.v ===== *)
(** * The serde format of js-of-ocaml

    Models wasm_ocaml_serde/ser.rs and wasm_ocaml_serde/de.rs (under
    src/src/lib/crypto/kimchi_bindings/wasm/src): Rust values to and from
    JavaScript values laid out as js-of-ocaml lays out OCaml's blocks, and the
    ABI of the proof evaluations, which uses them.

    [val] and [ty] are serde's data model; [serialize] and [deserialize] are the
    calls that serde's implementations for those types make on the serializer
    and on the deserializer, one definition per method. *)

From Stdlib Require Import ZArith Lia SpecFloat.
From stdpp Require Import base list strings sets.
From S2P Require Import Prelude Float64.

(** ** JavaScript values *)

Inductive js : Type :=
| JUndefined
| JNum (x : f64)
| JArr (l : list js)
| JBytes (l : list byte)       (* Uint8Array *)
| JBuffer (l : list byte)      (* ArrayBuffer *)
| JOther (id : nat).           (* anything else *)

(** What treating a value that is no array as one gives. *)
Class JsUnchecked : Type := {
  unchecked_get : js -> nat -> js;
  unchecked_iter : js -> list js;
}.

Section Arrays.
Context {U : JsUnchecked}.
Definition array_get (v : js) (i : nat) : js :=
  match v with JArr l => default JUndefined (l !! i) | _ => unchecked_get v i end.
Definition array_iter (v : js) : list js :=
  match v with JArr l => l | _ => unchecked_iter v end.
End Arrays.
(** [Array::set] extends the array when needed. *)
Definition array_set (l : list js) (i : nat) (v : js) : list js :=
  if (i <? length l)%nat then <[i := v]> l
  else l ++ replicate (i - length l) JUndefined ++ [v].
(** [JsValue::as_f64] *)
Definition as_f64 (v : js) : option f64 := match v with JNum x => Some x | _ => None end.
Definition js_of_int (z : Z) : js := JNum (f64_of_Z z).

(** [x as f32], kept as the [f64] of the same value. *)
Definition f64_as_f32 (x : f64) : f64 :=
  match x with
  | S754_finite s m e =>
      match binary_round 24 128 s m e with
      | S754_finite s m e => binary_round f64_prec f64_emax s m e
      | y => y
      end
  | _ => x
  end.

(** ** serde's data model *)

Inductive int_ty : Type := I8 | I16 | I32 | I64 | I128 | U8 | U16 | U32 | U64 | U128.
#[export] Instance int_ty_eq_dec : EqDecision int_ty.
Proof. solve_decision. Defined.

Inductive ty : Type :=
| TBool | TInt (i : int_ty) | TF32 | TF64 | TChar | TStr | TBytes
| TUnit | TUnitStruct | TOption (t : ty) | TNewtype (t : ty)
| TSeq (t : ty) | TTuple (ts : list ty) | TTupleStruct (ts : list ty) | TMap (k t : ty)
| TStruct (ts : list ty) | TEnum.

Inductive val : Type :=
| VBool (b : bool) | VInt (i : int_ty) (z : Z) | VF32 (x : f64) | VF64 (x : f64)
| VChar (c : Z) | VStr (s : list byte) | VBytes (l : list byte)
| VUnit | VUnitStruct | VNone | VSome (v : val) | VNewtype (v : val)
| VSeq (l : list val) | VTuple (l : list val) | VTupleStruct (l : list val) | VMap (l : list (val * val))
| VStruct (l : list val)
| VUnitVariant | VNewtypeVariant (v : val) | VTupleVariant (l : list val) | VStructVariant (l : list val).

Definition custom {A} (msg : string) : outcome A := Raise (JsError msg).

(** ** ser.rs *)

Module Ser.
Record ArraySerializer : Type := { res : list js; idx : nat }.
(** [ArraySerializer::new]: the tag of the block. *)
Definition new : ArraySerializer := {| res := array_set [] 0 (js_of_int 0); idx := 1 |}.

Definition serialize_bool (v : bool) : outcome js := Ret (js_of_int (if v then 1 else 0)).
Definition serialize_int (i : int_ty) (z : Z) : outcome js :=
  match i with
  | I8 | I16 | I32 | U8 | U16 | U32 => Ret (js_of_int z)
  | I64 => custom "Serializing i64 is not implemented"
  | U64 => custom "Serializing u64 is not implemented"
  | I128 => custom "Serializing i128 is not implemented"
  | U128 => custom "Serializing u128 is not implemented"
  end.
Definition serialize_str : outcome js := custom "Serializing strings is not implemented".
Definition serialize_char (c : Z) : outcome js := Ret (js_of_int c).
Definition serialize_bytes (v : list byte) : outcome js := Ret (JBytes v).
Definition serialize_none : outcome js := Ret (js_of_int 0).
Definition serialize_unit : outcome js := Ret (js_of_int 0).
Definition serialize_unit_struct : outcome js := custom "Serializing unit structs is not implemented".
Definition serialize_unit_variant : outcome js := custom "Serializing unit variants is not implemented".
Definition serialize_newtype_struct : outcome js := custom "Serializing newtype structs is not implemented".
Definition serialize_newtype_variant : outcome js := custom "Serializing newtype variants is not implemented".
Definition serialize_tuple_struct : outcome js := custom "Serializing tuple structs is not implemented".
Definition serialize_tuple_variant : outcome js := custom "Serializing tuple variants is not implemented".
Definition serialize_map : outcome js := custom "Serializing maps is not implemented".
Definition serialize_struct_variant : outcome js := custom "Serializing struct variants is not implemented".
(** [ErrorSerializer], which no method above returns. *)
Definition error_serialize_field : outcome unit := custom "Serializing variants is not implemented".
Definition error_end : outcome js := custom "Serializing variants is not implemented".

Section Values.
(** [value.serialize(serializer)] *)
Variable ser : val -> outcome js.

Definition serialize_some (value : val) : outcome js :=
  let res := array_set [] 0 (js_of_int 0) in
  v ← ser value;
  Ret (JArr (array_set res 1 v)).
Definition serialize_element (self : ArraySerializer) (value : val) : outcome ArraySerializer :=
  v ← ser value;
  Ret {| res := array_set (res self) (idx self) v; idx := idx self + 1 |}.
(** A sequence, tuple or struct: the calls of [serialize_element] (or
    [serialize_field]) for its parts, then [end]. *)
Fixpoint serialize_elements (self : ArraySerializer) (l : list val) : outcome js :=
  match l with
  | [] => Ret (JArr (res self))
  | x :: l => self ← serialize_element self x; serialize_elements self l
  end.
End Values.

Fixpoint serialize (v : val) : outcome js :=
  match v with
  | VBool b => serialize_bool b
  | VInt i z => serialize_int i z
  | VF32 x | VF64 x => Ret (JNum x)
  | VChar c => serialize_char c
  | VStr _ => serialize_str
  | VBytes l => serialize_bytes l
  | VUnit => serialize_unit
  | VUnitStruct => serialize_unit_struct
  | VNone => serialize_none
  | VSome v => serialize_some serialize v
  | VNewtype _ => serialize_newtype_struct
  | VSeq l | VTuple l | VStruct l => serialize_elements serialize new l
  | VTupleStruct _ => serialize_tuple_struct
  | VMap _ => serialize_map
  | VUnitVariant => serialize_unit_variant
  | VNewtypeVariant _ => serialize_newtype_variant
  | VTupleVariant _ => serialize_tuple_variant
  | VStructVariant _ => serialize_struct_variant
  end.
End Ser.

(** ** de.rs *)

Module De.
Section De.
Context {U : JsUnchecked}.

(** [self.0.unchecked_into::<Number>().as_f64().unwrap()] *)
Definition number (v : js) : outcome f64 :=
  expect "called `Option::unwrap()` on a `None` value" (as_f64 v).
Definition deserialize_bool (v : js) : outcome val :=
  x ← number v; Ret (VBool (negb (f64_as_u 32 x =? 0))).
Definition deserialize_int (i : int_ty) (v : js) : outcome val :=
  match i with
  | I8 => x ← number v; Ret (VInt I8 (f64_as_i 8 x))
  | I16 => x ← number v; Ret (VInt I16 (f64_as_i 16 x))
  | I32 => x ← number v; Ret (VInt I32 (f64_as_i 32 x))
  | U8 => x ← number v; Ret (VInt U8 (f64_as_u 8 x))
  | U16 => x ← number v; Ret (VInt U16 (f64_as_u 16 x))
  | U32 => x ← number v; Ret (VInt U32 (f64_as_u 32 x))
  | I64 => custom "Deserializing i64 is not implemented"
  | U64 => custom "Deserializing u64 is not implemented"
  | I128 => custom "Deserializing i128 is not implemented"
  | U128 => custom "Deserializing u128 is not implemented"
  end.
Definition deserialize_f32 (v : js) : outcome val := x ← number v; Ret (VF32 (f64_as_f32 x)).
Definition deserialize_f64 (v : js) : outcome val := x ← number v; Ret (VF64 x).
Definition deserialize_char (v : js) : outcome val := x ← number v; Ret (VChar (f64_as_u 8 x)).
Definition deserialize_str : outcome val := custom "Deserializing strings is not implemented".
Definition as_bytes (v : js) : option (list byte) :=
  match v with JBytes l => Some l | JBuffer l => Some l | _ => None end.
Definition deserialize_byte_buf (v : js) : outcome val :=
  match as_bytes v with
  | Some bytes => Ret (VBytes bytes)
  | None => custom "Type error while deserializing bytes"
  end.
Definition deserialize_bytes (v : js) : outcome val := deserialize_byte_buf v.
Definition deserialize_any : outcome val := custom "Inferring the serialized type is not implemented".
(** A value nobody looks at. *)
Definition deserialize_ignored_any : outcome val := Ret VUnit.
(** [VariantAccess] *)
Definition unit_variant : outcome unit := custom "Deserializing variants is not implemented".
Definition newtype_variant_seed : outcome val := custom "Deserializing variants is not implemented".
Definition tuple_variant : outcome val := custom "Deserializing variants is not implemented".
Definition struct_variant : outcome val := custom "Deserializing variants is not implemented".
Definition deserialize_unit : outcome val := Ret VUnit.
Definition deserialize_unit_struct : outcome val := custom "Deserializing unit structs is not implemented".
Definition deserialize_newtype_struct : outcome val := custom "Deserializing newtype structus is not implemented".
Definition deserialize_tuple_struct : outcome val := custom "Deserializing tuple structs is not implemented".
Definition deserialize_map : outcome val := custom "Deserializing maps is not implemented".
Definition deserialize_enum : outcome val := custom "Deserializing enums is not implemented".

Section Values.
(** Deserialization at a type, [T::deserialize(Deserializer::from(v))]. *)
Variable des : ty -> js -> outcome val.

Definition deserialize_option (t : ty) (v : js) : outcome val :=
  match v with
  | JArr _ => x ← des t (array_get v 1); Ret (VSome x)
  | _ => Ret VNone
  end.
Definition deserialize_seq (t : ty) (v : js) : outcome val :=
  l ← collect (des t) (drop 1 (array_iter v)); Ret (VSeq l).
(** The visitor of a tuple takes one element per component. *)
Fixpoint visit_tuple (ts : list ty) (items : list js) : outcome (list val) :=
  match ts, items with
  | [], _ => Ret []
  | _ :: _, [] => custom "invalid length"
  | t :: ts, x :: items => v ← des t x; vs ← visit_tuple ts items; Ret (v :: vs)
  end.
Definition deserialize_tuple (ts : list ty) (v : js) : outcome val :=
  l ← visit_tuple ts (drop 1 (array_iter v)); Ret (VTuple l).
(** [ObjectAccess]: the field numbered [idx] of the block, for each field. *)
Fixpoint object_access (data : js) (idx : nat) (fields : list ty) : outcome (list val) :=
  match fields with
  | [] => Ret []
  | t :: fields =>
      v ← des t (array_get data idx); vs ← object_access data (idx + 1) fields; Ret (v :: vs)
  end.
Definition deserialize_struct (fields : list ty) (v : js) : outcome val :=
  l ← object_access v 1 fields; Ret (VStruct l).
End Values.

Fixpoint deserialize (t : ty) (v : js) : outcome val :=
  match t with
  | TBool => deserialize_bool v
  | TInt i => deserialize_int i v
  | TF32 => deserialize_f32 v
  | TF64 => deserialize_f64 v
  | TChar => deserialize_char v
  | TStr => deserialize_str
  | TBytes => deserialize_byte_buf v (* or [deserialize_bytes] *)
  | TUnit => deserialize_unit
  | TUnitStruct => deserialize_unit_struct
  | TOption t => deserialize_option deserialize t v
  | TNewtype _ => deserialize_newtype_struct
  | TSeq t => deserialize_seq deserialize t v
  | TTuple ts => deserialize_tuple deserialize ts v
  | TTupleStruct _ => deserialize_tuple_struct
  | TMap _ _ => deserialize_map
  | TStruct ts => deserialize_struct deserialize ts v
  | TEnum => deserialize_enum
  end.
End De.
End De.

(** ** The ABI of the proof evaluations

    plonk_proof.rs: the value crosses in this format; [unwrap] on both sides. *)

Definition unwrap {A} (m : outcome A) : outcome A :=
  match m with Raise _ => Panic "called `Result::unwrap()` on an `Err` value" | _ => m end.
Definition evaluations_into_abi (v : val) : outcome js := unwrap (Ser.serialize v).
Definition evaluations_from_abi {U : JsUnchecked} (t : ty) (v : js) : outcome val :=
  unwrap (De.deserialize t v).

(** ** Specification: OCaml's representation

    A block is an array that starts with the tag 0; constant constructors,
    booleans and characters are integers. *)

Fixpoint supported (v : val) : bool :=
  match v with
  | VBool _ | VF32 _ | VF64 _ | VChar _ | VBytes _ | VUnit | VNone => true
  | VInt i _ => bool_decide (i ∉ [I64; U64; I128; U128])
  | VSome v => supported v
  | VSeq l | VTuple l | VStruct l => forallb supported l
  | _ => false
  end.
Definition block (l : list js) : js := JArr (js_of_int 0 :: l).
Fixpoint ocaml_repr (v : val) : js :=
  match v with
  | VBool b => js_of_int (Z.b2z b)
  | VInt _ z => js_of_int z
  | VF32 x | VF64 x => JNum x
  | VChar c => js_of_int c
  | VBytes l => JBytes l
  | VUnit | VNone => js_of_int 0
  | VSome v => block [ocaml_repr v]
  | VSeq l | VTuple l | VStruct l => block (map ocaml_repr l)
  | _ => JUndefined
  end.

(** The values of a type, of the types that are implemented. *)
Definition int_range (i : int_ty) (z : Z) : bool :=
  match i with
  | I8 => (-128 <=? z) && (z <? 128)
  | I16 => (-32768 <=? z) && (z <? 32768)
  | I32 => (- 2 ^ 31 <=? z) && (z <? 2 ^ 31)
  | U8 => (0 <=? z) && (z <? 256)
  | U16 => (0 <=? z) && (z <? 65536)
  | U32 => (0 <=? z) && (z <? 2 ^ 32)
  | _ => false
  end.
Definition is_f32 (x : f64) : bool :=
  match x, f64_as_f32 x with
  | S754_finite s m e, S754_finite s' m' e' => Bool.eqb s s' && (m =? m')%positive && (e =? e')
  | S754_finite _ _ _, _ => false
  | _, _ => true
  end.
Section HasType.
Variable has_type : ty -> val -> bool.
Fixpoint have_types (ts : list ty) (l : list val) : bool :=
  match l, ts with
  | [], [] => true
  | v :: l, t :: ts => has_type t v && have_types ts l
  | _, _ => false
  end.
End HasType.
Fixpoint has_type (max_char : Z) (t : ty) (v : val) : bool :=
  match v, t with
  | VBool _, TBool | VF64 _, TF64 | VBytes _, TBytes | VUnit, TUnit | VNone, TOption _ => true
  | VInt i z, TInt i' => bool_decide (i = i') && int_range i z
  | VF32 x, TF32 => is_f32 x
  | VChar c, TChar => (0 <=? c) && (c <=? max_char)
  | VSome v, TOption t => has_type max_char t v
  | VSeq l, TSeq t => forallb (has_type max_char t) l
  | VTuple l, TTuple ts | VStruct l, TStruct ts => have_types (has_type max_char) ts l
  | _, _ => false
  end.

Section ValInd.
Variable P : val -> Prop.
Hypothesis Hleaf : forall v,
  match v with VSome _ | VSeq _ | VTuple _ | VStruct _ => True | _ => P v end.
Hypothesis Hsome : forall v, P v -> P (VSome v).
Hypothesis Hseq : forall l, Forall P l -> P (VSeq l).
Hypothesis Htuple : forall l, Forall P l -> P (VTuple l).
Hypothesis Hstruct : forall l, Forall P l -> P (VStruct l).
(** Induction that sees the parts of sequences, tuples and structs. *)
Fixpoint val_parts_ind (v : val) : P v :=
  let parts := fix parts (l : list val) : Forall P l :=
    match l with
    | [] => Forall_nil_2 P
    | v :: l => Forall_cons_2 P v l (val_parts_ind v) (parts l)
    end in
  match v with
  | VSome v => Hsome v (val_parts_ind v)
  | VSeq l => Hseq l (parts l)
  | VTuple l => Htuple l (parts l)
  | VStruct l => Hstruct l (parts l)
  | v => Hleaf v
  end.
End ValInd.

(** ** The serializer builds blocks *)

Lemma array_set_end l v : array_set l (length l) v = l ++ [v].
Proof. unfold array_set. by rewrite (proj2 (Nat.ltb_ge _ _) (le_n _)), Nat.sub_diag. Qed.

Definition serializes (v : val) : Prop :=
  if supported v then Ser.serialize v = Ret (ocaml_repr v)
  else exists e, Ser.serialize v = Raise e.

Lemma serialize_elements_repr l acc :
  Forall serializes l ->
  let m := Ser.serialize_elements Ser.serialize {| Ser.res := acc; Ser.idx := length acc |} l in
  if forallb supported l then m = Ret (JArr (acc ++ map ocaml_repr l)) else exists e, m = Raise e.
Proof.
  intros Hl. revert acc. induction Hl as [|v l Hv _ IH]; intros acc m; subst m.
  - simpl. by rewrite app_nil_r.
  - cbn [Ser.serialize_elements forallb map]. unfold Ser.serialize_element.
    unfold serializes in Hv. destruct (supported v); cbn [andb].
    + rewrite Hv. cbn [mbind outcome_bind Ser.res Ser.idx]. rewrite array_set_end.
      specialize (IH (acc ++ [ocaml_repr v])). rewrite length_app in IH. cbn [length] in IH.
      cbv zeta in IH. destruct (forallb supported l); [|done].
      rewrite IH. by rewrite <-app_assoc.
    + destruct Hv as [e ->]. by exists e.
Qed.
Lemma serialize_block l :
  Forall serializes l ->
  let m := Ser.serialize_elements Ser.serialize Ser.new l in
  if forallb supported l then m = Ret (block (map ocaml_repr l)) else exists e, m = Raise e.
Proof. apply (serialize_elements_repr l [js_of_int 0]). Qed.

Lemma serialize_all v : serializes v.
Proof.
  revert v. apply val_parts_ind; [intros v|intros v IH|exact serialize_block..].
  - destruct v as [[]| [] |?|?|?|?|?| | | |?|?|?|?|?|?|?| |?|?|?]; try done;
      unfold serializes; cbn; by eexists.
  - unfold serializes in *. cbn [supported Ser.serialize]. unfold Ser.serialize_some.
    destruct (supported v).
    + by rewrite IH.
    + destruct IH as [e ->]. by exists e.
Qed.

(** ** The deserializer reads them back *)

(** Characters come back as bytes. *)
Fixpoint clamp_chars (v : val) : val :=
  match v with
  | VChar c => VChar (Z.min 255 c)
  | VSome v => VSome (clamp_chars v)
  | VSeq l => VSeq (map clamp_chars l)
  | VTuple l => VTuple (map clamp_chars l)
  | VStruct l => VStruct (map clamp_chars l)
  | v => v
  end.
Definition MAX_CHAR : Z := 1114111.

Section Reading.
Context {U : JsUnchecked}.

Definition reads (v : val) : Prop := forall t,
  has_type MAX_CHAR t v = true ->
  supported v = true /\ De.deserialize t (ocaml_repr v) = Ret (clamp_chars v).

Lemma int_reads i z :
  int_range i z = true ->
  supported (VInt i z) = true /\ De.deserialize_int i (js_of_int z) = Ret (VInt i z).
Proof.
  intros H. destruct i; try discriminate H; apply andb_prop in H as [H1%Z.leb_le H2%Z.ltb_lt];
    (split; [reflexivity|]); cbn; rewrite ?f64_as_i_of_Z, ?f64_as_u_of_Z by lia; reflexivity.
Qed.

Lemma f32_reads x : is_f32 x = true -> f64_as_f32 x = x.
Proof.
  unfold is_f32. destruct x as [s| | |s m e]; try done.
  destruct (f64_as_f32 _) as [s'| | |s' m' e']; try discriminate.
  intros [[->%eqb_prop ->%Pos.eqb_eq]%andb_prop ->%Z.eqb_eq]%andb_prop. done.
Qed.

Lemma visit_tuple_reads ts l extra :
  Forall reads l -> have_types (has_type MAX_CHAR) ts l = true ->
  forallb supported l = true /\
  De.visit_tuple De.deserialize ts (map ocaml_repr l ++ extra) = Ret (map clamp_chars l).
Proof.
  intros Hl. revert ts. induction Hl as [|v l Hv _ IH]; intros [|t ts] H; try discriminate H.
  - done.
  - cbn [have_types] in H. apply andb_prop in H as [Ht H].
    destruct (Hv t Ht) as [Hs Hd]. destruct (IH ts H) as [Hss Hds].
    cbn [forallb map app De.visit_tuple]. rewrite Hs, Hd, Hds. by rewrite Hss.
Qed.

Lemma array_get_middle pre x l : array_get (JArr (pre ++ x :: l)) (length pre) = x.
Proof. unfold array_get. by rewrite list_lookup_middle. Qed.
Lemma object_access_reads ts ts' l pre extra :
  Forall reads l -> have_types (has_type MAX_CHAR) ts l = true ->
  De.object_access De.deserialize (JArr (pre ++ map ocaml_repr l ++ extra)) (length pre) (ts ++ ts')
  = (vs ← De.object_access De.deserialize (JArr (pre ++ map ocaml_repr l ++ extra))
            (length pre + length l) ts';
     Ret (map clamp_chars l ++ vs)).
Proof.
  intros Hl. revert ts pre. induction Hl as [|v l Hv _ IH]; intros [|t ts] pre H; try discriminate H.
  - cbn [app map length]. rewrite Nat.add_0_r. by destruct (De.object_access _ _ _ ts').
  - cbn [have_types] in H. apply andb_prop in H as [Ht H].
    destruct (Hv t Ht) as [Hs Hd]. specialize (IH ts (pre ++ [ocaml_repr v]) H).
    rewrite length_app, <-app_assoc in IH. cbn [length app] in IH.
    cbn [app map De.object_access length]. rewrite array_get_middle, Hd. cbn [mbind outcome_bind].
    rewrite IH, bind_assoc.
    by replace (length pre + 1 + length l)%nat with (length pre + S (length l))%nat by lia.
Qed.

Lemma have_types_supported ts l :
  Forall reads l -> have_types (has_type MAX_CHAR) ts l = true -> forallb supported l = true.
Proof. intros Hl H. by apply (visit_tuple_reads ts l [] Hl). Qed.

Lemma struct_reads ts ts' l tag extra :
  Forall reads l -> have_types (has_type MAX_CHAR) ts l = true ->
  De.deserialize (TStruct (ts ++ ts')) (JArr (tag :: map ocaml_repr l ++ extra))
  = (vs ← De.object_access De.deserialize (JArr (tag :: map ocaml_repr l ++ extra)) (1 + length l) ts';
     Ret (VStruct (map clamp_chars l ++ vs))).
Proof.
  intros Hl H. cbn [De.deserialize]. unfold De.deserialize_struct.
  pose proof (object_access_reads ts ts' l [tag] extra Hl H) as E. cbn [app length] in E.
  rewrite E, bind_assoc. by destruct (De.object_access _ _ _ ts').
Qed.

Lemma struct_reads_all ts l tag extra :
  Forall reads l -> have_types (has_type MAX_CHAR) ts l = true ->
  De.deserialize (TStruct ts) (JArr (tag :: map ocaml_repr l ++ extra)) = Ret (VStruct (map clamp_chars l)).
Proof.
  intros Hl H. pose proof (struct_reads ts [] l tag extra Hl H) as E. rewrite app_nil_r in E.
  rewrite E. cbn [De.object_access mbind outcome_bind]. by rewrite app_nil_r.
Qed.

Lemma seq_reads t l :
  Forall reads l -> forallb (has_type MAX_CHAR t) l = true ->
  forallb supported l = true /\
  collect (De.deserialize t) (map ocaml_repr l) = Ret (map clamp_chars l).
Proof.
  induction 1 as [|v l Hv _ IH]; intros H; [done|]. cbn [forallb] in H.
  apply andb_prop in H as [Ht H]. destruct (Hv t Ht) as [Hs Hd]. destruct (IH H) as [Hss Hds].
  cbn [forallb map collect]. rewrite Hs, Hd, Hds. by rewrite Hss.
Qed.

Lemma all_reads v : reads v.
Proof.
  revert v. apply val_parts_ind.
  - intros v. destruct v; try exact I; intros [] H; try discriminate H; try done.
    + by destruct b.
    + apply andb_prop in H as [->%bool_decide_eq_true H]. by apply int_reads.
    + cbn. by rewrite f32_reads.
    + apply andb_prop in H as [H1%Z.leb_le H2%Z.leb_le]. split; [done|].
      unfold MAX_CHAR in H2. cbn [De.deserialize ocaml_repr clamp_chars].
      unfold De.deserialize_char, De.number, js_of_int, f64_as_u. cbn [as_f64 expect mbind outcome_bind].
      rewrite f64_to_int_of_Z by lia. do 2 f_equal. lia.
  - intros v IH [] H; try discriminate H. destruct (IH t H) as [Hs Hd]. split; [done|].
    cbn. by rewrite Hd.
  - intros l Hl [] H; try discriminate H. destruct (seq_reads t l Hl H) as [Hs Hd]. split; [done|].
    transitivity (vs ← collect (De.deserialize t) (map ocaml_repr l); Ret (VSeq vs)); [done|].
    by rewrite Hd.
  - intros l Hl [] H; try discriminate H.
    destruct (visit_tuple_reads ts l [] Hl H) as [Hs Hd]. split; [done|].
    rewrite app_nil_r in Hd.
    transitivity (vs ← De.visit_tuple De.deserialize ts (map ocaml_repr l); Ret (VTuple vs)); [done|].
    by rewrite Hd.
  - intros l Hl [] H; try discriminate H. split; [by apply (have_types_supported ts)|].
    pose proof (struct_reads_all ts l (js_of_int 0) [] Hl H) as E. by rewrite app_nil_r in E.
Qed.
Lemma array_get_missing l i : (length l <= i)%nat -> array_get (JArr l) i = JUndefined.
Proof. intros H. unfold array_get. by rewrite lookup_ge_None_2. Qed.
Lemma object_access_missing data i opts :
  (length data <= i)%nat ->
  De.object_access De.deserialize (JArr data) i (map TOption opts) = Ret (map (fun _ => VNone) opts).
Proof.
  revert i. induction opts as [|t opts IH]; intros i Hi; [done|].
  cbn [map De.object_access]. rewrite array_get_missing by done. cbn [De.deserialize De.deserialize_option].
  rewrite IH by lia. done.
Qed.
Lemma visit_tuple_short ts l t :
  have_types (has_type MAX_CHAR) ts l = true ->
  De.visit_tuple De.deserialize (ts ++ [t]) (map ocaml_repr l) = custom "invalid length".
Proof.
  revert ts. induction l as [|v l IH]; intros [|t' ts] H; try discriminate H; [done|].
  cbn [have_types] in H. apply andb_prop in H as [Ht H].
  destruct (all_reads v t' Ht) as [_ Hd]. cbn [app map De.visit_tuple]. by rewrite Hd, IH.
Qed.
Lemma all_reads_list l : Forall reads l.
Proof. apply Forall_forall. intros. apply all_reads. Qed.
End Reading.

(** ** What the deserializer returns has the type asked for *)

(** Types without 32-bit floats, whose rounding the model leaves open. *)
Fixpoint no_f32 (t : ty) : bool :=
  match t with
  | TF32 => false
  | TOption t | TNewtype t | TSeq t => no_f32 t
  | TTuple ts | TTupleStruct ts | TStruct ts => forallb no_f32 ts
  | TMap k t => no_f32 k && no_f32 t
  | _ => true
  end.

Section TyInd.
Variable P : ty -> Prop.
Hypothesis Hleaf : forall t,
  match t with TOption _ | TSeq _ | TTuple _ | TStruct _ => True | _ => P t end.
Hypothesis Hoption : forall t, P t -> P (TOption t).
Hypothesis Hseq : forall t, P t -> P (TSeq t).
Hypothesis Htuple : forall l, Forall P l -> P (TTuple l).
Hypothesis Hstruct : forall l, Forall P l -> P (TStruct l).
(** Induction that sees the components of tuples and structs. *)
Fixpoint ty_parts_ind (t : ty) : P t :=
  let parts := fix parts (l : list ty) : Forall P l :=
    match l with
    | [] => Forall_nil_2 P
    | t :: l => Forall_cons_2 P t l (ty_parts_ind t) (parts l)
    end in
  match t with
  | TOption t => Hoption t (ty_parts_ind t)
  | TSeq t => Hseq t (ty_parts_ind t)
  | TTuple l => Htuple l (parts l)
  | TStruct l => Hstruct l (parts l)
  | t => Hleaf t
  end.
End TyInd.

Section Typing.
Context {U : JsUnchecked}.

Definition well_typed (t : ty) : Prop := forall j v,
  no_f32 t = true -> De.deserialize t j = Ret v -> has_type 255 t v = true.

Lemma f64_to_int_range lo hi x : lo <= 0 <= hi -> lo <= f64_to_int lo hi x <= hi.
Proof. intros H. unfold f64_to_int. destruct (f64_trunc x); [lia|]. destruct x as [|[]| |]; lia. Qed.

Lemma int_typed i j v : De.deserialize_int i j = Ret v -> has_type 255 (TInt i) v = true.
Proof.
  unfold De.deserialize_int.
  destruct i; try discriminate; intros (x & _ & [= <-])%bind_is_Ret; cbn [has_type];
    rewrite bool_decide_true by done; cbn [andb int_range]; unfold f64_as_i, f64_as_u;
    match goal with |- context [f64_to_int ?lo ?hi x] =>
      pose proof (f64_to_int_range lo hi x ltac:(lia)) end; lia.
Qed.

Lemma tuple_typed ts items vs :
  Forall well_typed ts -> forallb no_f32 ts = true ->
  De.visit_tuple De.deserialize ts items = Ret vs -> have_types (has_type 255) ts vs = true.
Proof.
  intros Hts. revert items vs. induction Hts as [|t ts Ht _ IH]; intros items vs Hf H.
  - by injection H as <-.
  - destruct items as [|x items]; [done|]. cbn [De.visit_tuple] in H.
    apply andb_prop in Hf as [Hf1 Hf2].
    apply bind_is_Ret in H as (v & Hv & H). apply bind_is_Ret in H as (vs' & Hvs & [= <-]).
    cbn [have_types]. by rewrite (Ht _ _ Hf1 Hv), (IH _ _ Hf2 Hvs).
Qed.
Lemma struct_typed ts data i vs :
  Forall well_typed ts -> forallb no_f32 ts = true ->
  De.object_access De.deserialize data i ts = Ret vs -> have_types (has_type 255) ts vs = true.
Proof.
  intros Hts. revert i vs. induction Hts as [|t ts Ht _ IH]; intros i vs Hf H.
  - by injection H as <-.
  - cbn [De.object_access] in H. apply andb_prop in Hf as [Hf1 Hf2].
    apply bind_is_Ret in H as (v & Hv & H). apply bind_is_Ret in H as (vs' & Hvs & [= <-]).
    cbn [have_types]. by rewrite (Ht _ _ Hf1 Hv), (IH _ _ Hf2 Hvs).
Qed.
Lemma seq_typed t items vs :
  well_typed t -> no_f32 t = true ->
  collect (De.deserialize t) items = Ret vs -> forallb (has_type 255 t) vs = true.
Proof.
  intros Ht Hf. revert vs. induction items as [|x items IH]; intros vs H; cbn [collect] in H.
  - by injection H as <-.
  - apply bind_is_Ret in H as (v & Hv & H). apply bind_is_Ret in H as (vs' & Hvs & [= <-]).
    cbn [forallb]. by rewrite (Ht _ _ Hf Hv), (IH _ Hvs).
Qed.

Lemma all_typed t : well_typed t.
Proof.
  revert t. apply ty_parts_ind.
  - intros t. destruct t; try exact I; intros j v Hf H; try discriminate H; try discriminate Hf.
    + by apply bind_is_Ret in H as (x & _ & [= <-]).
    + by apply int_typed in H.
    + by apply bind_is_Ret in H as (x & _ & [= <-]).
    + apply bind_is_Ret in H as (x & _ & [= <-]). cbn [has_type].
      pose proof (f64_to_int_range 0 (2 ^ 8 - 1) x ltac:(lia)). unfold f64_as_u. lia.
    + cbn in H. unfold De.deserialize_byte_buf in H. destruct (De.as_bytes j); [|done]. by injection H as <-.
    + by injection H as <-.
  - intros t IH j v Hf H. cbn [De.deserialize] in H. unfold De.deserialize_option in H.
    destruct j; try by injection H as <-. apply bind_is_Ret in H as (x & Hx & [= <-]).
    cbn [has_type]. by eapply IH.
  - intros t IH j v Hf H. apply bind_is_Ret in H as (vs & Hvs & [= <-]). by eapply seq_typed.
  - intros ts IH j v Hf H. apply bind_is_Ret in H as (vs & Hvs & [= <-]). by eapply tuple_typed.
  - intros ts IH j v Hf H. apply bind_is_Ret in H as (vs & Hvs & [= <-]). by eapply struct_typed.
Qed.

(** Values whose characters are bytes are left alone. *)
Lemma have_types_weaken m m' ts l :
  Forall (fun v => forall t, has_type m t v = true -> has_type m' t v = true) l ->
  have_types (has_type m) ts l = true -> have_types (has_type m') ts l = true.
Proof.
  intros Hl. revert ts. induction Hl as [|v l Hv _ IH]; intros [|t ts] H; try done.
  cbn [have_types] in *. apply andb_prop in H as [H1 H2]. by rewrite (Hv t H1), (IH ts H2).
Qed.
Lemma has_type_weaken m m' v : m <= m' -> forall t, has_type m t v = true -> has_type m' t v = true.
Proof.
  intros Hm. revert v. apply (val_parts_ind (fun v => forall t, has_type m t v = true -> has_type m' t v = true)).
  - intros v. destruct v; try exact I; intros [] H; try done. cbn [has_type] in *. lia.
  - intros v IH [] H; try done. by apply IH.
  - intros l Hl [] H; try done. cbn [has_type] in *. induction Hl as [|v l Hv _ IH]; [done|].
    cbn [forallb] in *. apply andb_prop in H as [H1 H2]. by rewrite (Hv _ H1), (IH H2).
  - intros l Hl [] H; try done. by eapply have_types_weaken.
  - intros l Hl [] H; try done. by eapply have_types_weaken.
Qed.
Lemma have_types_clamp ts l :
  Forall (fun v => forall t, has_type 255 t v = true -> clamp_chars v = v) l ->
  have_types (has_type 255) ts l = true -> map clamp_chars l = l.
Proof.
  intros Hl. revert ts. induction Hl as [|v l Hv _ IH]; intros [|t ts] H; try done.
  cbn [have_types map] in *. apply andb_prop in H as [H1 H2]. by rewrite (Hv t H1), (IH ts H2).
Qed.
Lemma clamp_byte_chars v : forall t, has_type 255 t v = true -> clamp_chars v = v.
Proof.
  revert v. apply (val_parts_ind (fun v => forall t, has_type 255 t v = true -> clamp_chars v = v)).
  - intros v. destruct v; try exact I; intros [] H; try done. cbn [has_type clamp_chars] in *. f_equal. lia.
  - intros v IH [] H; try done. cbn [clamp_chars]. f_equal. by eapply IH.
  - intros l Hl [] H; try done. cbn [has_type clamp_chars] in *. f_equal.
    induction Hl as [|v l Hv _ IH]; [done|].
    cbn [forallb map] in *. apply andb_prop in H as [H1 H2]. by rewrite (Hv _ H1), (IH H2).
  - intros l Hl [] H; try done. cbn [clamp_chars]. f_equal. by eapply have_types_clamp.
  - intros l Hl [] H; try done. cbn [clamp_chars]. f_equal. by eapply have_types_clamp.
Qed.
End Typing.

(** ** Properties *)

Section Properties.
Context {U : JsUnchecked}.

(** C10: the serializer. It succeeds exactly on the values built without
    strings, 64 or 128 bit integers, maps, enums, newtypes, unit and tuple
    structs, anywhere in them; then its result is OCaml's representation:
    sequences, tuples and structs are blocks with the tag 0 and the parts in
    order, options a block of one or 0. It never panics by itself, but the ABI
    of the proof evaluations turns every error into a panic. *)
Theorem serialize_spec (v : val) :
  (if supported v
   then Ser.serialize v = Ret (ocaml_repr v) /\ evaluations_into_abi v = Ret (ocaml_repr v)
   else (exists msg, Ser.serialize v = Raise msg) /\ is_panic (evaluations_into_abi v) = true).
Proof.
  pose proof (serialize_all v) as H. unfold serializes in H. unfold evaluations_into_abi.
  destruct (supported v); [by rewrite H|]. destruct H as [e H]. split; [by exists e|]. by rewrite H.
Qed.

(** C9: reading back. A value of a type crosses to OCaml's format and back: the
    result is the value with every character above 255 replaced by the
    character 255, since characters are written as numbers and read as bytes.
    So the value itself comes back if and only if its characters fit a byte. *)
Theorem serde_roundtrip (t : ty) (v : val) :
  has_type MAX_CHAR t v = true ->
  exists j, evaluations_into_abi v = Ret j /\
    evaluations_from_abi t j = Ret (clamp_chars v) /\
    (evaluations_from_abi t j = Ret v <-> clamp_chars v = v).
Proof.
  intros H. destruct (all_reads v t H) as [Hs Hd]. exists (ocaml_repr v).
  pose proof (serialize_all v) as E. unfold serializes in E. rewrite Hs in E.
  unfold evaluations_into_abi, evaluations_from_abi. rewrite E, Hd. cbn [unwrap].
  split; [done|]. split; [done|]. split; [by intros [= ->]|by intros ->].
Qed.

(** C33: blocks that the serializer did not write. The tag of a block and what
    follows the expected fields are ignored. Missing trailing fields of a
    struct read as undefined: options are absent, and a missing boolean,
    number or character panics; a tuple with missing components is an error.
    A number is not refused for its value: a positive one is true, and read as
    a byte it stops at 255. *)
Theorem deserialize_foreign (ts : list ty) (l : list val) (tag : js) (extra : list js)
    (opts : list ty) (t : ty) (x : Z) :
  have_types (has_type MAX_CHAR) ts l = true -> 0 < x < 2 ^ 32 ->
  let fields := map ocaml_repr l in
  let back := map clamp_chars l in
  De.deserialize (TStruct ts) (JArr (tag :: fields ++ extra)) = Ret (VStruct back) /\
  De.deserialize (TTuple ts) (JArr (tag :: fields ++ extra)) = Ret (VTuple back) /\
  De.deserialize (TStruct (ts ++ map TOption opts)) (JArr (tag :: fields))
    = Ret (VStruct (back ++ map (fun _ => VNone) opts)) /\
  (t ∈ [TBool; TChar; TF64; TF32; TInt I32; TInt U32] ->
     is_panic (De.deserialize (TStruct (ts ++ [t])) (JArr (tag :: fields))) = true) /\
  De.deserialize (TTuple (ts ++ [t])) (JArr (tag :: fields)) = custom "invalid length" /\
  De.deserialize TBool (js_of_int x) = Ret (VBool true) /\
  De.deserialize (TInt U8) (js_of_int x) = Ret (VInt U8 (Z.min 255 x)).
Proof.
  intros H Hx fields back. subst fields back. pose proof (all_reads_list l) as Hl.
  split; [|split; [|split; [|split; [|split; [|split]]]]].
  - by apply struct_reads_all.
  - destruct (visit_tuple_reads ts l extra Hl H) as [_ E].
    transitivity (vs ← De.visit_tuple De.deserialize ts (map ocaml_repr l ++ extra); Ret (VTuple vs));
      [done|]. by rewrite E.
  - rewrite <-(app_nil_r (map ocaml_repr l)), (struct_reads ts _ l tag [] Hl H), app_nil_r.
    by rewrite object_access_missing by (cbn; rewrite length_map; lia).
  - intros Ht. rewrite <-(app_nil_r (map ocaml_repr l)), (struct_reads ts _ l tag [] Hl H), app_nil_r.
    cbn [De.object_access]. rewrite array_get_missing by (cbn; rewrite length_map; lia).
    set_unfold in Ht. destruct_or! Ht; subst t; done.
  - transitivity (vs ← De.visit_tuple De.deserialize (ts ++ [t]) (map ocaml_repr l); Ret (VTuple vs));
      [done|]. by rewrite visit_tuple_short.
  - cbn. unfold f64_as_u. rewrite f64_to_int_of_Z by lia.
    rewrite (proj2 (Z.eqb_neq _ _)) by lia. done.
  - cbn. unfold f64_as_u. rewrite f64_to_int_of_Z by lia. do 2 f_equal. lia.
Qed.

(** C11: the deserializer is type safe, for types without 32-bit floats. Whatever
    JavaScript value it is given, array or not, of any size and with anything inside, a
    result has exactly the type asked for: integers in the range of their width,
    characters at most 255, tuples and structs with all their components. Such a
    result can always be written, and reading that gives the same result again. *)
Theorem deserialize_typed (t : ty) (j : js) (v : val) :
  no_f32 t = true -> De.deserialize t j = Ret v ->
  has_type 255 t v = true /\
  exists j', Ser.serialize v = Ret j' /\ De.deserialize t j' = Ret v.
Proof.
  intros Hf H. pose proof (all_typed t j v Hf H) as Ht. split; [done|].
  destruct (all_reads v t) as [Hs Hd]; [apply (has_type_weaken 255); [by unfold MAX_CHAR|done]|].
  pose proof (serialize_all v) as E. unfold serializes in E. rewrite Hs in E.
  exists (ocaml_repr v). split; [done|]. by rewrite Hd, (clamp_byte_chars v t Ht).
Qed.
End Properties.

(** ** Witnesses *)

#[local] Instance demo_unchecked : JsUnchecked := {|
  unchecked_get _ _ := JUndefined; unchecked_iter _ := []
|}.

(** The evaluations at a point of a struct: bytes, options, sequences; and a
    character that does not come back. *)
Definition demo_ty : ty :=
  TStruct [TTuple [TSeq TBytes; TSeq TBytes]; TOption (TOption TBool); TInt I32; TF64; TF32; TChar].
Definition demo_val (c : Z) : val :=
  VStruct [VTuple [VSeq [VBytes [byte_of 1]]; VSeq []]; VSome VNone; VInt I32 (-7);
           VF64 (f64_div (f64_of_Z 1) (f64_of_Z 3)); VF32 (f64_of_Z 3); VChar c].

Lemma serde_roundtrip_witness :
  exists j, evaluations_into_abi (demo_val 233) = Ret j /\
    evaluations_from_abi demo_ty j = Ret (demo_val 233) /\
    exists j', evaluations_into_abi (demo_val 256) = Ret j' /\
    evaluations_from_abi demo_ty j' = Ret (demo_val 255).
Proof.
  destruct (serde_roundtrip demo_ty (demo_val 233)) as (j & Hj & _ & H); [vm_compute; reflexivity|].
  destruct (serde_roundtrip demo_ty (demo_val 256)) as (j' & Hj' & H' & _); [vm_compute; reflexivity|].
  exists j. split; [exact Hj|]. split; [apply H; reflexivity|].
  exists j'. split; [exact Hj'|]. rewrite H'. reflexivity.
Defined.

Lemma deserialize_foreign_witness :
  De.deserialize (TStruct ([TInt I32; TBool] ++ map TOption [TChar]))
    (JArr (JUndefined :: map ocaml_repr [VInt I32 5; VBool true]))
  = Ret (VStruct [VInt I32 5; VBool true; VNone]).
Proof.
  apply (deserialize_foreign [TInt I32; TBool] [VInt I32 5; VBool true] JUndefined [] [TChar] TBool 1);
    [vm_compute; reflexivity|lia].
Defined.

(** A negative number, one beyond a byte and a buffer, with extra elements. *)
Lemma deserialize_typed_witness :
  let j := JArr [JUndefined; js_of_int (-3); js_of_int 300; JBuffer [byte_of 1]; JOther 5] in
  exists v, De.deserialize (TStruct [TInt U8; TChar; TBytes]) j = Ret v /\
    has_type 255 (TStruct [TInt U8; TChar; TBytes]) v = true.
Proof.
  intros j. eexists. split; [reflexivity|].
  apply (deserialize_typed (TStruct [TInt U8; TChar; TBytes]) j); reflexivity.
Defined.
