(* ===== verification/ThreadPool.v ===== *)
(** * rayon.rs and the waiting loop of lib.rs: threads in WebAssembly

    Models wasm/src/rayon.rs and the shared words of wasm/src/lib.rs (under
    src/src/lib/crypto/kimchi_bindings).

    A browser has no threads that Rust could spawn: JavaScript starts workers,
    each of which calls [wbg_rayon_start_worker] and blocks on a channel;
    [PoolBuilder::build] then creates rayon's pool with a spawn handler that
    sends the threads to run through this channel.  JavaScript is free to call
    the functions in any order, so the model is a step relation with one rule
    per call and one for a blocked worker that receives a thread.

    [state] has the static [THREAD_POOL], the [PoolBuilder]s that were handed
    to JavaScript (a pointer is a position in [builders]), their channels (one
    each, at the same position), the workers, and the sizes of the registries
    that rayon created (a registry is its position in [registries]).  A
    [PoolBuilder] owns both ends of its channel and is never dropped here, as
    the comment in [wbg_rayon_start_worker] asks of JavaScript, so neither
    [send] nor [recv] meets a closed channel. *)

From Stdlib Require Import ZArith Lia.
From stdpp Require Import base list strings gmap sets relations.
From S2P Require Import Prelude.

(** ** The crates and the JavaScript imports *)

(** One thread of a registry: what [spawn_handler] gets. *)
Record ThreadBuilder := mkThread { tb_registry : nat; tb_index : nat }.
#[export] Instance thread_eq_dec : EqDecision ThreadBuilder.
Proof. solve_decision. Defined.

(** A JavaScript worker that called [wbg_rayon_start_worker]. *)
Record Worker := mkWorker {
  w_receiver : nat;                      (* the channel it was given *)
  w_running : option ThreadBuilder;      (* [None]: blocked in [recv] *)
  w_terminated : bool
}.

(** A worker that runs a thread of registry [r]. *)
Definition serves (r : nat) (wk : Worker) : bool :=
  bool_decide (tb_registry <$> w_running wk = Some r) && negb (w_terminated wk).

(** [threads_of n] is the number of threads of a pool built with
    [num_threads(n)]; [install_ready ws r] says whether an operation installed in
    the pool of registry [r] is picked up when the workers are [ws];
    [terminate_workers] is imported from JavaScript. *)
Class Rayon := {
  threads_of : Z -> nat;
  max_num_threads : nat;
  install_ready : list Worker -> nat -> bool;
  terminate_workers : list Worker -> list Worker
}.

(** rayon documents: zero leaves the number to it, more than its maximum is
    reduced to it, and a pool has a thread; [install] executes its operation on
    a thread of the pool, so it needs one that runs, and any one will do.  Of [terminate_workers] only this is
    assumed: it terminates workers, and does nothing else to them. *)
Class RayonLaws (R : Rayon) := {
  threads_of_small n : 0 < n <= Z.of_nat max_num_threads -> threads_of n = Z.to_nat n;
  threads_of_pos n : (0 < threads_of n)%nat;
  install_ready_spec ws r : install_ready ws r = true <-> exists wk, wk ∈ ws /\ serves r wk = true;
  terminate_workers_spec ws :
    Forall2 (fun w w' => w' = w \/ w' = mkWorker (w_receiver w) (w_running w) true)
      ws (terminate_workers ws)
}.

(** ** The state and the functions *)

Record PoolBuilder := mkPoolBuilder { pb_num_threads : Z; pb_channel : nat }.
Record ThreadPool := mkThreadPool { tp_registry : nat; tp_threads : nat }.

Record state := mkState {
  THREAD_POOL : option ThreadPool;
  builders : list PoolBuilder;
  channels : list (list ThreadBuilder);
  workers : list Worker;
  registries : list nat
}.

Definition initial : state := mkState None [] [] [] [].

Section Functions.
Context {R : Rayon}.

(** A call that comes back, with a result or a panic, or that blocks its
    thread as long as the workers stay as they are. *)
Inductive call (A : Type) : Type :=
| Done (r : outcome A)
| Blocked.
#[global] Arguments Done {A} r.
#[global] Arguments Blocked {A}.

(** [ThreadPool::install]: the caller waits for a thread of the pool to take
    the operation. *)
Definition install {A} (st : state) (pool : ThreadPool) (op : outcome A) : call A :=
  if install_ready (workers st) (tp_registry pool) then Done op else Blocked.

Definition run_in_pool {A} (st : state) (op : outcome A) : call A :=
  match THREAD_POOL st with
  | Some pool => install st pool op
  | None => Done (Panic "called `Option::unwrap()` on a `None` value")
  end.

(** [let (sender, receiver) = channel()] *)
Definition PoolBuilder_new (st : state) (num_threads : Z) : nat * state :=
  (length (builders st),
   mkState (THREAD_POOL st)
     (builders st ++ [mkPoolBuilder num_threads (length (channels st))])
     (channels st ++ [[]]) (workers st) (registries st)).

(** [start_workers] hands the builder to JavaScript, which answers with calls
    of the functions below. *)
Definition init_thread_pool (st : state) (num_threads : Z) : nat * state :=
  PoolBuilder_new st num_threads.

Definition num_threads (st : state) (self : nat) : option Z :=
  pb_num_threads <$> builders st !! self.
Definition receiver (st : state) (self : nat) : option nat :=
  pb_channel <$> builders st !! self.

(** [self.sender.send(thread).unwrap_throw()]: a channel that is not there has
    no receivers. *)
Definition spawn_handler (c : nat) (chans : list (list ThreadBuilder)) (t : ThreadBuilder)
    : outcome (list (list ThreadBuilder)) :=
  match chans !! c with
  | Some q => Ret (<[c := q ++ [t]]> chans)
  | None => Panic "`unwrap_throw` failed"
  end.

(** [ThreadPoolBuilder::build] calls the handler once per thread, in order. *)
Fixpoint spawn_all (c : nat) (chans : list (list ThreadBuilder)) (ts : list ThreadBuilder)
    : outcome (list (list ThreadBuilder)) :=
  match ts with
  | [] => Ret chans
  | t :: ts => chans ← spawn_handler c chans t; spawn_all c chans ts
  end.

Definition registry_threads (r n : nat) : list ThreadBuilder := map (mkThread r) (seq 0 n).

Definition build (st : state) (self : nat) : outcome state :=
  match builders st !! self with
  | None => Panic "null pointer passed to rust"
  | Some b =>
      let r := length (registries st) in
      let n := threads_of (pb_num_threads b) in
      chans ← spawn_all (pb_channel b) (channels st) (registry_threads r n);
      Ret (mkState (Some (mkThreadPool r n)) (builders st) chans (workers st)
             (registries st ++ [n]))
  end.

Definition exit_thread_pool (st : state) : state :=
  mkState None (builders st) (channels st) (terminate_workers (workers st)) (registries st).

(** [wbg_rayon_start_worker] up to [receiver.recv()], where the worker blocks. *)
Definition wbg_rayon_start_worker (st : state) (rcv : nat) : state :=
  mkState (THREAD_POOL st) (builders st) (channels st)
    (workers st ++ [mkWorker rcv None false]) (registries st).

(** The rest of it: the blocked worker [w] takes the first message and runs it.
    [None]: it is not blocked, or there is no message. *)
Definition worker_receive (st : state) (w : nat) : option state :=
  wk ← workers st !! w;
  match w_running wk, w_terminated wk with
  | None, false =>
      q ← channels st !! w_receiver wk;
      match q with
      | [] => None
      | t :: q =>
          Some (mkState (THREAD_POOL st) (builders st) (<[w_receiver wk := q]> (channels st))
                  (<[w := mkWorker (w_receiver wk) (Some t) false]> (workers st)) (registries st))
      end
  | _, _ => None
  end.

(** ** Steps

    The calls JavaScript makes, and workers that go on. *)
Inductive event : Type :=
| Init (num_threads : Z)
| StartWorker (rcv : nat)
| Build (self : nat)
| Receive (w : nat)
| Exit.

Inductive step : state -> event -> state -> Prop :=
| step_init st n : step st (Init n) (init_thread_pool st n).2
| step_start st self rcv : receiver st self = Some rcv -> step st (StartWorker rcv) (wbg_rayon_start_worker st rcv)
| step_build st self st' : build st self = Ret st' -> step st (Build self) st'
| step_receive st w st' : worker_receive st w = Some st' -> step st (Receive w) st'
| step_exit st : step st Exit (exit_thread_pool st).

Inductive steps : state -> list event -> state -> Prop :=
| steps_nil st : steps st [] st
| steps_snoc st evs st' e st'' : steps st evs st' -> step st' e st'' -> steps st (evs ++ [e]) st''.

Definition reachable (st : state) : Prop := exists evs, steps initial evs st.

(** A run of workers that receive, with no other call in between. *)
Definition receives (st st' : state) : Prop := exists w, worker_receive st w = Some st'.
End Functions.

(** ** Invariant *)

(** Threads sent and not received, threads that workers have received, and
    the threads of all the pools that were ever built. *)
Definition pending (chans : list (list ThreadBuilder)) : list ThreadBuilder := mjoin chans.
Definition taken (ws : list Worker) : list ThreadBuilder := omap w_running ws.
Definition all_threads (sizes : list nat) : list ThreadBuilder :=
  mjoin (imap registry_threads sizes).

(** Workers blocked on channel [c]. *)
Abbreviation blocked_on c w := (w_receiver w = c /\ w_running w = None /\ w_terminated w = false).
Definition waiting (c : nat) (ws : list Worker) : nat :=
  length (filter (fun w => blocked_on c w) ws).

Record inv (st : state) : Prop := {
  inv_channels i b : builders st !! i = Some b -> is_Some (channels st !! pb_channel b);
  inv_receivers i w : workers st !! i = Some w -> is_Some (channels st !! w_receiver w);
  inv_threads : pending (channels st) ++ taken (workers st) ≡ₚ all_threads (registries st);
  inv_pool p : THREAD_POOL st = Some p -> registries st !! tp_registry p = Some (tp_threads p)
}.

Lemma list_delete_insert_delete {A} (l : list A) i x : delete i (<[i := x]> l) = delete i l.
Proof. revert i. induction l as [|y l IH]; intros [|i]; simpl; try done. by f_equal. Qed.

Lemma pending_delete chans c q :
  chans !! c = Some q -> pending chans ≡ₚ q ++ pending (delete c chans).
Proof. intros H. unfold pending. by rewrite (delete_Permutation _ _ _ H) at 1. Qed.
Lemma pending_insert chans c q x :
  chans !! c = Some q -> pending (<[c := x]> chans) ≡ₚ x ++ pending (delete c chans).
Proof.
  intros H. rewrite (pending_delete _ c x).
  - by rewrite list_delete_insert_delete.
  - rewrite list_lookup_insert_eq; [done|]. by eapply lookup_lt_Some.
Qed.
Lemma taken_cons w ws :
  taken (w :: ws) = match w_running w with Some t => t :: taken ws | None => taken ws end.
Proof. done. Qed.
Lemma taken_insert ws w wk t :
  ws !! w = Some wk -> w_running wk = None ->
  taken (<[w := mkWorker (w_receiver wk) (Some t) false]> ws) ≡ₚ t :: taken ws.
Proof.
  intros H Hn. unfold taken.
  rewrite (delete_Permutation (<[w:=_]> ws) w (mkWorker (w_receiver wk) (Some t) false))
    by (rewrite list_lookup_insert_eq; [done|by eapply lookup_lt_Some]).
  rewrite list_delete_insert_delete. rewrite (delete_Permutation ws w wk H) at 2.
  simpl. by rewrite Hn.
Qed.

Lemma spawn_all_Ret c chans q ts :
  chans !! c = Some q -> spawn_all c chans ts = Ret (<[c := q ++ ts]> chans).
Proof.
  revert chans q. induction ts as [|t ts IH]; intros chans q H; simpl.
  - by rewrite app_nil_r, list_insert_id.
  - unfold spawn_handler. rewrite H. simpl. rewrite (IH _ (q ++ [t])).
    + by rewrite list_insert_insert_eq, <-app_assoc.
    + rewrite list_lookup_insert_eq; [done|]. by eapply lookup_lt_Some.
Qed.

Lemma all_threads_snoc sizes n :
  all_threads (sizes ++ [n]) = all_threads sizes ++ registry_threads (length sizes) n.
Proof.
  unfold all_threads. rewrite imap_app, join_app. simpl. by rewrite app_nil_r, Nat.add_0_r.
Qed.

Lemma elem_of_registry r n t :
  t ∈ registry_threads r n <-> tb_registry t = r /\ (tb_index t < n)%nat.
Proof.
  unfold registry_threads. rewrite list_elem_of_fmap. split.
  - intros (i & -> & Hi%elem_of_seq). simpl. lia.
  - intros [<- Hi]. exists (tb_index t). split; [by destruct t|]. apply elem_of_seq. lia.
Qed.

(** Which threads exist, and that none exists twice. *)
Lemma elem_of_all_threads sizes t :
  t ∈ all_threads sizes <-> exists n, sizes !! tb_registry t = Some n /\ (tb_index t < n)%nat.
Proof.
  induction sizes as [|n sizes IH] using rev_ind.
  - split; [by intros ?%elem_of_nil|]. intros (n & Hn & _). by rewrite lookup_nil in Hn.
  - rewrite all_threads_snoc, elem_of_app, IH, elem_of_registry. split.
    + intros [(m & Hm & ?)|[Hr ?]].
      * exists m. split; [|done]. rewrite lookup_app_l; [done|]. by eapply lookup_lt_Some.
      * exists n. split; [|done]. by rewrite Hr, list_lookup_middle.
    + intros (m & Hm & ?). apply lookup_app_Some in Hm as [Hm|[Hl Hm]]; [by left; exists m|right].
      apply list_lookup_singleton_Some in Hm as [Hz ->]. split; [lia|done].
Qed.
Lemma all_threads_NoDup sizes : NoDup (all_threads sizes).
Proof.
  induction sizes as [|n sizes IH] using rev_ind; [constructor|].
  rewrite all_threads_snoc. apply NoDup_app. split; [done|]. split.
  - intros t (m & Hm & _)%elem_of_all_threads (Hr & _)%elem_of_registry.
    apply lookup_lt_Some in Hm. lia.
  - apply NoDup_fmap; [by intros ?? [= ->]|apply NoDup_seq].
Qed.

Section Proofs.
Context {R : Rayon} {RL : RayonLaws R}.

Lemma terminate_taken ws : taken (terminate_workers ws) = taken ws.
Proof.
  induction (terminate_workers_spec ws) as [|w w' ws1 ws2 Hw _ IH]; [done|].
  rewrite !taken_cons, IH. by destruct Hw as [-> | ->].
Qed.

Lemma worker_receive_inv st w st' :
  worker_receive st w = Some st' ->
  exists c t q,
    workers st !! w = Some (mkWorker c None false) /\ channels st !! c = Some (t :: q) /\
    st' = mkState (THREAD_POOL st) (builders st) (<[c := q]> (channels st))
            (<[w := mkWorker c (Some t) false]> (workers st)) (registries st).
Proof.
  unfold worker_receive. destruct (workers st !! w) as [[c [?|] []]|] eqn:Ew; try done. simpl.
  destruct (channels st !! c) as [[|t q]|] eqn:Ec; try done. simpl.
  intros [= <-]. by exists c, t, q.
Qed.

Lemma build_Ret st self b q :
  builders st !! self = Some b -> channels st !! pb_channel b = Some q ->
  build st self =
    let r := length (registries st) in let n := threads_of (pb_num_threads b) in
    Ret (mkState (Some (mkThreadPool r n)) (builders st)
           (<[pb_channel b := q ++ registry_threads r n]> (channels st)) (workers st)
           (registries st ++ [n])).
Proof. intros Hb Hq. unfold build. rewrite Hb, (spawn_all_Ret _ _ q) by done. done. Qed.

Lemma inv_initial : inv initial.
Proof. split; simpl; intros; by rewrite ?lookup_nil in *. Qed.

Lemma inv_receive st w st' : inv st -> worker_receive st w = Some st' -> inv st'.
Proof.
  intros [H1 H2 H3 H4] (c & t & q & Ew & Ec & ->)%worker_receive_inv. split; simpl; [| | |done].
  - intros i b Hb. apply list_lookup_insert_is_Some. eauto.
  - intros i wk Hw. apply list_lookup_insert_is_Some.
    apply list_lookup_insert_Some in Hw as [(<- & <- & _)|[_ Hw]]; simpl; [by rewrite Ec|eauto].
  - rewrite <-H3. rewrite (pending_insert _ _ _ q Ec), (pending_delete _ _ _ Ec).
    rewrite (taken_insert _ _ _ t Ew) by done. solve_Permutation.
Qed.

Lemma inv_step st e st' : inv st -> step st e st' -> inv st'.
Proof.
  intros HI Hs. destruct Hs as [st n|st self rcv Hr|st self st' Hb|st w st' Hw|st].
  - destruct HI as [H1 H2 H3 H4]. split; simpl; [| | |done].
    + intros i b Hb. apply lookup_app_Some in Hb as [Hb|[_ Hb]].
      * destruct (H1 _ _ Hb) as [q Hq]. exists q. by apply lookup_app_l_Some.
      * apply list_lookup_singleton_Some in Hb as [_ <-]. simpl. by rewrite list_lookup_middle.
    + intros i w Hw. destruct (H2 _ _ Hw) as [q Hq]. exists q. by apply lookup_app_l_Some.
    + rewrite <-H3. unfold pending. by rewrite join_app, app_nil_r.
  - destruct HI as [H1 H2 H3 H4]. split; simpl; [done| | |done].
    + intros i w Hw. apply lookup_app_Some in Hw as [Hw|[_ Hw]]; [eauto|].
      apply list_lookup_singleton_Some in Hw as [_ <-]. simpl. unfold receiver in Hr.
      apply fmap_Some in Hr as (b & Hb & ->). eauto.
    + rewrite <-H3. unfold taken. by rewrite omap_app, app_nil_r.
  - destruct (builders st !! self) as [b|] eqn:Eb; [|by unfold build in Hb; rewrite Eb in Hb].
    destruct (inv_channels _ HI _ _ Eb) as [q Eq]. rewrite (build_Ret _ _ _ _ Eb Eq) in Hb.
    injection Hb as <-. destruct HI as [H1 H2 H3 H4]. split; simpl.
    + intros i b' Hb'. apply list_lookup_insert_is_Some. eauto.
    + intros i w Hw. apply list_lookup_insert_is_Some. eauto.
    + rewrite all_threads_snoc, <-H3, (pending_insert _ _ _ _ Eq), (pending_delete _ _ _ Eq).
      solve_Permutation.
    + intros p [= <-]. simpl. by rewrite list_lookup_middle.
  - by eapply inv_receive.
  - destruct HI as [H1 H2 H3 H4]. split; simpl; [done| |by rewrite terminate_taken|done].
    intros i w Hw. destruct (Forall2_lookup_r _ _ _ _ _ (terminate_workers_spec (workers st)) Hw)
      as (w0 & Hw0 & [-> | ->]); simpl; eauto.
Qed.

Lemma inv_steps st evs st' : inv st -> steps st evs st' -> inv st'.
Proof. intros HI. induction 1; eauto using inv_step. Qed.
Lemma inv_reachable st : reachable st -> inv st.
Proof. intros [evs Hs]. eapply inv_steps; eauto using inv_initial. Qed.

(** ** Progress

    From [st], workers that receive have taken [k] threads of channel [c]. *)
Record progress (c : nat) (q : list ThreadBuilder) (W k : nat) (st : state) : Prop := {
  progress_queue : channels st !! c = Some (drop k q);
  progress_waiting : (waiting c (workers st) + k = W)%nat;
  progress_running t : t ∈ take k q -> exists w, workers st !! w = Some (mkWorker c (Some t) false)
}.

#[local] Instance waiting_Permutation c : Proper ((≡ₚ) ==> eq) (waiting c).
Proof. intros ws ws' H. unfold waiting. by rewrite H. Qed.
Lemma waiting_cons c w ws :
  waiting c (w :: ws) = ((if decide (blocked_on c w) then 1 else 0) + waiting c ws)%nat.
Proof. unfold waiting. rewrite filter_cons. by destruct (decide _). Qed.

Lemma waiting_insert ws w c t d :
  ws !! w = Some (mkWorker c None false) ->
  (waiting d (<[w := mkWorker c (Some t) false]> ws) + (if decide (c = d) then 1 else 0)
   = waiting d ws)%nat.
Proof.
  intros Hw. pose proof (waiting_Permutation d _ _ (delete_Permutation _ _ _ Hw)) as H1.
  assert (<[w := mkWorker c (Some t) false]> ws !! w = Some (mkWorker c (Some t) false)) as Hw'
    by (rewrite list_lookup_insert_eq; [done|by eapply lookup_lt_Some]).
  pose proof (waiting_Permutation d _ _ (delete_Permutation _ _ _ Hw')) as H2.
  rewrite list_delete_insert_delete in H2. rewrite H1, H2, !waiting_cons. simpl.
  rewrite (decide_False (P := c = d /\ Some t = None /\ _)) by (by intros (_ & ? & _)).
  destruct (decide (c = d)); [rewrite decide_True by done|rewrite decide_False by tauto]; lia.
Qed.

Lemma progress_receive c q W k st st' :
  progress c q W k st -> receives st st' ->
  progress c q W k st' \/ ((k < length q)%nat /\ progress c q W (S k) st').
Proof.
  intros [P1 P2 P3] [w Hw].
  apply worker_receive_inv in Hw as (d & t & q' & Ew & Ed & ->).
  assert (forall u, (exists w', workers st !! w' = Some (mkWorker c (Some u) false)) ->
    exists w', <[w:=mkWorker d (Some t) false]> (workers st) !! w' = Some (mkWorker c (Some u) false))
    as Hold.
  { intros u (w' & Hw'). exists w'. rewrite list_lookup_insert_ne; [done|].
    intros ->. by rewrite Ew in Hw'. }
  pose proof (waiting_insert (workers st) w d t c Ew) as Hwait.
  destruct (decide (d = c)) as [->|Hd].
  - right. rewrite P1 in Ed. injection Ed as Eq.
    assert (q !! k = Some t) as Ht by (by rewrite <-(Nat.add_0_r k), <-lookup_drop, Eq).
    split; [by eapply lookup_lt_Some|]. split; simpl; [|lia|].
    + rewrite list_lookup_insert_eq by (by eapply lookup_lt_Some). f_equal.
      rewrite <-Nat.add_1_r, <-drop_drop, Eq. done.
    + intros u. rewrite (take_S_r _ _ _ Ht), elem_of_app, list_elem_of_singleton. intros [Hu|Hu].
      * apply Hold. by apply P3.
      * subst u. exists w. rewrite list_lookup_insert_eq; [done|]. by eapply lookup_lt_Some.
  - left. split; simpl; [by rewrite list_lookup_insert_ne|lia|]. intros u Hu. by apply Hold, P3.
Qed.

(** What a run of receives leaves unchanged. *)
Lemma receives_same st st' :
  rtc receives st st' -> THREAD_POOL st' = THREAD_POOL st /\ registries st' = registries st.
Proof.
  induction 1 as [|st st1 st2 (w & Hw) _ [-> ->]]; [done|].
  by apply worker_receive_inv in Hw as (? & ? & ? & _ & _ & ->).
Qed.
Lemma receives_inv st st' : inv st -> rtc receives st st' -> inv st'.
Proof. intros HI Hr. induction Hr as [|??? [w Hw]]; eauto using inv_receive. Qed.

Lemma progress_receives c q W k st st' :
  (k <= length q)%nat -> progress c q W k st -> rtc receives st st' ->
  exists k, (k <= length q)%nat /\ progress c q W k st'.
Proof.
  intros Hk Hp Hr. revert k Hk Hp. induction Hr as [|st1 st2 st3 H12 _ IH]; intros k Hk Hp; [eauto|].
  destruct (progress_receive _ _ _ _ _ _ Hp H12) as [?|[? ?]]; eapply IH; eauto; lia.
Qed.

(** Workers cannot receive for ever. *)
Lemma receives_sn st : sn receives st.
Proof.
  remember (length (pending (channels st))) as n eqn:En. revert st En.
  induction n as [|n IH]; intros st En; constructor; intros st' [w Hw];
    apply worker_receive_inv in Hw as (c & t & q & _ & Ec & ->);
    pose proof (pending_delete _ _ _ Ec) as H1; pose proof (pending_insert _ _ _ q Ec) as H2;
    apply Permutation_length in H1, H2; simpl in *; rewrite !length_app in *.
  - lia.
  - apply IH. simpl. rewrite H2. lia.
Qed.

(** A state in which no worker can go on has no message for a blocked one. *)
Lemma receives_nf st c q :
  nf receives st -> channels st !! c = Some q -> q = [] \/ waiting c (workers st) = 0%nat.
Proof.
  intros Hnf Hc. destruct q as [|t q]; [by left|right]. unfold waiting.
  destruct (filter _ _) as [|wk l] eqn:E; [done|]. exfalso. apply Hnf.
  assert (wk ∈ filter (fun w => blocked_on c w) (workers st)) as Hin by (rewrite E; by left).
  apply list_elem_of_filter in Hin as [(Hr & Hn & Ht) [w Hw]%list_elem_of_lookup].
  eexists. exists w. unfold worker_receive. rewrite Hw. simpl. by rewrite Hn, Ht, Hr, Hc.
Qed.

Lemma inv_NoDup st : inv st -> NoDup (pending (channels st) ++ taken (workers st)).
Proof. intros HI. rewrite (inv_threads _ HI). apply all_threads_NoDup. Qed.

Lemma elem_of_taken ws w wk t : ws !! w = Some wk -> w_running wk = Some t -> t ∈ taken ws.
Proof.
  intros Hw Ht. apply list_elem_of_omap. exists wk. split; [by eapply list_elem_of_lookup_2|done].
Qed.
Lemma taken_inj ws w1 w2 k1 k2 t :
  NoDup (taken ws) -> ws !! w1 = Some k1 -> ws !! w2 = Some k2 ->
  w_running k1 = Some t -> w_running k2 = Some t -> w1 = w2.
Proof.
  revert w1 w2. induction ws as [|k ws IH]; intros w1 w2 Hnd H1 H2 R1 R2; [done|].
  rewrite taken_cons in Hnd. destruct w1 as [|w1], w2 as [|w2]; [done| | |];
    cbn [lookup list_lookup] in H1, H2.
  - injection H1 as ->. rewrite R1 in Hnd. apply NoDup_cons in Hnd as [Hn _].
    destruct Hn. by eapply elem_of_taken.
  - injection H2 as ->. rewrite R2 in Hnd. apply NoDup_cons in Hnd as [Hn _].
    destruct Hn. by eapply elem_of_taken.
  - f_equal. eapply IH; eauto. destruct (w_running k); [by apply NoDup_cons in Hnd as [_ ?]|done].
Qed.
Lemma running_unique st w1 w2 k1 k2 t :
  inv st -> workers st !! w1 = Some k1 -> workers st !! w2 = Some k2 ->
  w_running k1 = Some t -> w_running k2 = Some t -> w1 = w2.
Proof.
  intros HI. apply taken_inj. by apply inv_NoDup, NoDup_app in HI as (_ & _ & ?).
Qed.
Lemma queued_not_running st c q w wk t :
  inv st -> channels st !! c = Some q -> t ∈ q -> workers st !! w = Some wk ->
  w_running wk <> Some t.
Proof.
  intros HI Hc Ht Hw Hr. apply inv_NoDup, NoDup_app in HI as (_ & Hn & _). apply (Hn t).
  - rewrite (pending_delete _ _ _ Hc), elem_of_app. by left.
  - by eapply elem_of_taken.
Qed.

(** Where a run of receives ends. *)
Lemma progress_final c q W st st' :
  progress c q W 0 st -> rtc receives st st' -> nf receives st' ->
  progress c q W (length q `min` W) st'.
Proof.
  intros Hp Hr Hnf.
  destruct (progress_receives c q W 0 st st' ltac:(lia) Hp Hr) as (k & Hk & Hp').
  replace (length q `min` W)%nat with k; [done|].
  destruct Hp' as [P1 P2 _]. destruct (receives_nf _ _ _ Hnf P1) as [Hd|Hd]; [|lia].
  apply (f_equal length) in Hd. rewrite length_drop in Hd. simpl in Hd. lia.
Qed.

(** ** Properties *)

(** C6: no thread is lost, and none runs twice. In every state that calls from
    JavaScript and the workers can reach, in any order, each thread of each
    pool built so far either still waits in one channel or was received by one
    worker: channels and workers together hold every thread exactly once. The
    static pool always refers to a registry with its number of threads, and
    building through any handed-out [PoolBuilder] never fails: its channel
    exists, so the [unwrap_throw] of [send] does not throw. *)
Theorem threads_run_once st :
  reachable st ->
  (forall t, t ∈ all_threads (registries st) <->
     exists n, registries st !! tb_registry t = Some n /\ (tb_index t < n)%nat) /\
  NoDup (pending (channels st) ++ taken (workers st)) /\
  pending (channels st) ++ taken (workers st) ≡ₚ all_threads (registries st) /\
  (forall w1 w2 k1 k2 t, workers st !! w1 = Some k1 -> workers st !! w2 = Some k2 ->
     w_running k1 = Some t -> w_running k2 = Some t -> w1 = w2) /\
  (forall p, THREAD_POOL st = Some p -> registries st !! tp_registry p = Some (tp_threads p)) /\
  (forall self, is_Some (builders st !! self) -> is_ret (build st self) = true).
Proof.
  intros HI%inv_reachable.
  split; [apply elem_of_all_threads|]. split; [by apply inv_NoDup|]. split; [apply HI|]. split; [|split].
  - intros w1 w2 k1 k2 t. by apply running_unique.
  - intros p Hp. by apply (inv_pool _ HI).
  - intros self [b Hb]. destruct (inv_channels _ HI _ _ Hb) as [q Hq].
    by rewrite (build_Ret _ _ _ _ Hb Hq).
Qed.

(** Workers can be scheduled until none can go on. *)
#[local] Instance red_receives_dec st : Decision (red receives st).
Proof.
  destruct (decide (Exists (fun w => is_Some (worker_receive st w)) (seq 0 (length (workers st)))))
    as [H|H].
  - left. apply Exists_exists in H as (w & _ & [st' Hw]). exists st'. by exists w.
  - right. intros [st' [w Hw]]. apply H, Exists_exists. exists w. split; [|by rewrite Hw].
    apply worker_receive_inv in Hw as (? & ? & ? & Hw & _). apply lookup_lt_Some in Hw.
    apply elem_of_seq. lia.
Qed.
Lemma receives_finish st : exists st', rtc receives st st' /\ nf receives st'.
Proof.
  induction (receives_sn st) as [st _ IH].
  destruct (decide (red receives st)) as [[st1 H1]|Hn]; [|by exists st].
  destruct (IH st1 H1) as (st2 & H2 & ?). exists st2. split; [by eapply rtc_l|done].
Qed.

(** C7: building a pool starts its threads. Build through a [PoolBuilder]
    whose channel is empty, when [w] workers are blocked on it: however the
    workers of all pools are scheduled, they stop after finitely many receives,
    and then the first [min n w] of the pool's [n] threads each run on exactly
    one live worker, surplus workers still wait, and a thread beyond the workers
    is still in the channel and runs nowhere. So with a worker for every thread,
    which the code asks of JavaScript, all threads run; with fewer, the pool
    is installed all the same. A pool has a thread, and the number of threads is
    the one asked for within rayon's maximum. *)
Theorem pool_starts st self b w :
  reachable st -> builders st !! self = Some b ->
  channels st !! pb_channel b = Some [] -> waiting (pb_channel b) (workers st) = w ->
  let r := length (registries st) in
  let n := threads_of (pb_num_threads b) in
  (0 < n)%nat /\
  (0 < pb_num_threads b <= Z.of_nat max_num_threads -> n = Z.to_nat (pb_num_threads b)) /\
  exists st1, build st self = Ret st1 /\ sn receives st1 /\
    (exists st2, rtc receives st1 st2 /\ nf receives st2) /\
    forall st2, rtc receives st1 st2 -> nf receives st2 ->
      THREAD_POOL st2 = Some (mkThreadPool r n) /\
      (forall i, (i < n `min` w)%nat ->
         exists! k, workers st2 !! k = Some (mkWorker (pb_channel b) (Some (mkThread r i)) false)) /\
      waiting (pb_channel b) (workers st2) = (w - n)%nat /\
      channels st2 !! pb_channel b = Some (drop w (registry_threads r n)) /\
      (forall i k wk, (w <= i < n)%nat -> workers st2 !! k = Some wk ->
         w_running wk <> Some (mkThread r i)).
Proof.
  intros Hst Hb Hc Hw r n. set (c := pb_channel b) in *.
  pose proof (build_Ret _ _ _ _ Hb Hc) as E. cbn zeta in E. fold r n c in E. rewrite app_nil_l in E.
  split; [apply threads_of_pos|]. split; [apply threads_of_small|].
  eexists. split; [exact E|]. apply inv_reachable in Hst.
  pose proof (inv_step _ _ _ Hst (step_build _ _ _ E)) as HI1.
  split; [apply receives_sn|]. split; [apply receives_finish|]. intros st2 Hr Hnf.
  pose proof (receives_inv _ _ HI1 Hr) as HI2. pose proof (receives_same _ _ Hr) as [Ep _].
  assert (length (registry_threads r n) = n) as Hlen
    by (unfold registry_threads; by rewrite length_map, length_seq).
  assert (forall k i, (i < k `min` n)%nat -> mkThread r i ∈ take k (registry_threads r n)) as Hin.
  { intros k i Hi. apply (list_elem_of_lookup_2 _ i). rewrite lookup_take_lt by lia.
    unfold registry_threads. rewrite list_lookup_fmap, lookup_seq_lt by lia. done. }
  match type of Hr with rtc _ ?s _ => assert (progress c (registry_threads r n) w 0 s) as Hp end.
  { split; simpl; [|lia|by intros t ?%elem_of_nil].
    rewrite list_lookup_insert_eq; [done|]. by eapply lookup_lt_Some. }
  destruct (progress_final _ _ _ _ _ Hp Hr Hnf) as [P1 P2 P3].
  rewrite Hlen in *. split; [by rewrite Ep|]. split; [|split; [lia|]].
  - intros i Hi. destruct (P3 (mkThread r i)) as [k Hk]; [apply Hin; lia|].
    exists k. split; [done|]. intros k' Hk'. by eapply running_unique.
  - assert (drop (n `min` w) (registry_threads r n) = drop w (registry_threads r n)) as Ed.
    { destruct (decide (w <= n)%nat); [by rewrite Nat.min_r|].
      rewrite !drop_ge by lia. done. }
    rewrite Ed in P1. split; [done|]. intros i k wk Hi Hk.
    eapply queued_not_running; [exact HI2|exact P1| |exact Hk].
    apply (list_elem_of_lookup_2 _ (i - w)%nat). rewrite lookup_drop.
    replace (w + (i - w))%nat with i by lia.
    unfold registry_threads. rewrite list_lookup_fmap, lookup_seq_lt by lia. done.
Qed.

(** Whether the last of the builds and exits was a build. *)
Definition pool_up (evs : list event) : bool :=
  fold_left (fun up e => match e with Build _ => true | Exit => false | _ => up end) evs false.

Lemma pool_up_steps st evs : steps initial evs st -> is_Some (THREAD_POOL st) <-> pool_up evs = true.
Proof.
  intros Hs. remember initial as st0 eqn:E0. induction Hs as [st|st0 evs st e st' _ IH Hs].
  - subst. split; [by intros [? ?]|done].
  - specialize (IH E0). unfold pool_up in *. rewrite fold_left_app. simpl.
    destruct Hs as [st n|st self rcv _|st self st' Hb|st w st' Hw|st]; try done.
    + unfold build in Hb. destruct (builders st !! self); [|done].
      apply bind_is_Ret in Hb as (chans & _ & [= <-]). by split.
    + by apply worker_receive_inv in Hw as (c & t & q & _ & _ & ->).
    + split; [by intros [? ?]|done].
Qed.

(** The installed pool is the one that was built last. *)
Lemma pool_is_last st evs p :
  steps initial evs st -> THREAD_POOL st = Some p -> length (registries st) = S (tp_registry p).
Proof.
  intros Hs. remember initial as st0 eqn:E0. revert p.
  induction Hs as [st|st0 evs st e st' _ IH Hs]; intros p; [by subst|].
  specialize (IH E0). destruct Hs as [st n|st self rcv _|st self st' Hb|st w st' Hw|st]; try done;
    [by apply IH|by apply IH| |].
  - unfold build in Hb. destruct (builders st !! self); [|done].
    apply bind_is_Ret in Hb as (chans & _ & [= <-]). simpl. intros [= <-]. simpl.
    by rewrite length_app, Nat.add_1_r.
  - apply worker_receive_inv in Hw as (c & t & q & _ & _ & ->). by apply IH.
Qed.

Lemma serves_Some r wk :
  serves r wk = true <-> exists t, w_running wk = Some t /\ tb_registry t = r /\ w_terminated wk = false.
Proof.
  unfold serves. rewrite andb_true_iff, bool_decide_eq_true, negb_true_iff, fmap_Some.
  split; [intros [(t & ? & ->) ?]; by exists t|intros (t & ? & <- & ?); eauto].
Qed.
Lemma not_ready ws r : (forall wk, wk ∈ ws -> serves r wk = false) -> install_ready ws r = false.
Proof.
  intros Hn. destruct (install_ready ws r) eqn:E; [|done].
  apply install_ready_spec in E as (wk & Hin & Hs). by rewrite Hn in Hs.
Qed.

(** A thread that a worker runs belongs to a registry, and counts there. *)
Lemma serving_thread st wk r :
  inv st -> wk ∈ workers st -> serves r wk = true ->
  exists w t n, workers st !! w = Some wk /\ w_running wk = Some t /\ tb_registry t = r /\
    registries st !! r = Some n /\ (tb_index t < n)%nat.
Proof.
  intros HI [w Hw]%list_elem_of_lookup (t & Ht & <- & _)%serves_Some.
  assert (t ∈ all_threads (registries st)) as (n & Hn & Hi)%elem_of_all_threads; [|by exists w, t, n].
  rewrite <-(inv_threads _ HI), elem_of_app. right. by eapply elem_of_taken.
Qed.

(** Right after a build nobody runs a thread of the new pool. *)
Lemma install_fresh st self b q st1 {A} (op : outcome A) :
  inv st -> builders st !! self = Some b -> channels st !! pb_channel b = Some q ->
  build st self = Ret st1 -> run_in_pool st1 op = Blocked.
Proof.
  intros HI Hb Hq. rewrite (build_Ret _ _ _ _ Hb Hq). cbn zeta. intros [= <-].
  unfold run_in_pool, install. simpl. rewrite not_ready; [done|]. intros wk Hwk.
  destruct (serves _ wk) eqn:E; [|done].
  destruct (serving_thread _ _ _ HI Hwk E) as (w & t & n & _ & _ & _ & Hn & _).
  apply lookup_lt_Some in Hn. lia.
Qed.

(** When the workers of a new pool have received what they can, an installed
    operation runs exactly if a worker was waiting for the pool. *)
Lemma install_settled st self b w st1 st2 {A} (op : outcome A) :
  inv st -> builders st !! self = Some b -> channels st !! pb_channel b = Some [] ->
  waiting (pb_channel b) (workers st) = w ->
  build st self = Ret st1 -> rtc receives st1 st2 -> nf receives st2 ->
  run_in_pool st2 op = if (0 <? w)%nat then Done op else Blocked.
Proof.
  intros HI Hb Hc Hw E Hr Hnf. pose proof (inv_step _ _ _ HI (step_build _ _ _ E)) as HI1.
  rewrite (build_Ret _ _ _ _ Hb Hc) in E. cbn zeta in E. rewrite app_nil_l in E.
  set (r := length (registries st)) in *. set (n := threads_of (pb_num_threads b)) in *.
  set (c := pb_channel b) in *.
  pose proof (receives_inv _ _ HI1 Hr) as HI2. pose proof (receives_same _ _ Hr) as [Ep Eg].
  assert (progress c (registry_threads r n) w 0 st1) as Hp.
  { injection E as <-. split; simpl; [|lia|by intros t ?%elem_of_nil].
    rewrite list_lookup_insert_eq; [done|]. by eapply lookup_lt_Some. }
  destruct (progress_final _ _ _ _ _ Hp Hr Hnf) as [P1 _ P3].
  assert (length (registry_threads r n) = n) as Hlen
    by (unfold registry_threads; by rewrite length_map, length_seq).
  rewrite Hlen in *. assert (0 < n)%nat as Hn by apply threads_of_pos.
  unfold run_in_pool, install. rewrite Ep. injection E as <-. simpl in *.
  destruct w as [|w].
  - rewrite not_ready; [done|]. intros wk Hwk. destruct (serves r wk) eqn:Es; [|done].
    destruct (serving_thread _ _ _ HI2 Hwk Es) as (k & t & m & Hk & Ht & Htr & Hm & Hi).
    rewrite Eg in Hm. unfold r in Hm. rewrite list_lookup_middle in Hm by done. injection Hm as <-.
    exfalso. rewrite Nat.min_0_r, drop_0 in P1.
    eapply (queued_not_running st2); [done|exact P1| |exact Hk|exact Ht].
    by apply elem_of_registry.
  - assert (install_ready (workers st2) r = true) as ->; [|done].
    destruct (P3 (mkThread r 0)) as [k Hk].
    { apply (list_elem_of_lookup_2 _ 0%nat). rewrite lookup_take_lt by lia.
      unfold registry_threads. rewrite list_lookup_fmap, lookup_seq_lt by lia. done. }
    apply install_ready_spec. eexists. split; [by eapply list_elem_of_lookup_2|].
    apply serves_Some. by eexists.
Qed.

(** C37: work given to the pool. After any sequence of calls, [run_in_pool]
    panics without running its argument if no [build] came after the last
    [exitThreadPool], even while a [PoolBuilder] is already initialized.
    Otherwise it uses the pool built last: it runs its argument, and passes on
    its result, its error or its panic, if a live worker has received a thread of
    that pool, and blocks if none has. So it blocks right after every
    [build]; when the builder's channel was empty before, then once the workers have
    received what they can, however they are scheduled, it runs if a worker waited on
    the channel when the pool was built, and still blocks if none did. An exit makes it panic again. *)
Theorem run_in_pool_spec {A} st evs (op : outcome A) :
  steps initial evs st ->
  run_in_pool st op =
    (if pool_up evs
     then if existsb (serves (pred (length (registries st)))) (workers st) then Done op else Blocked
     else Done (Panic "called `Option::unwrap()` on a `None` value")) /\
  (forall self b, builders st !! self = Some b ->
     exists st1, build st self = Ret st1 /\ run_in_pool st1 op = Blocked /\
       (channels st !! pb_channel b = Some [] ->
        forall st2, rtc receives st1 st2 -> nf receives st2 ->
          run_in_pool st2 op =
            if (0 <? waiting (pb_channel b) (workers st))%nat then Done op else Blocked)) /\
  run_in_pool (exit_thread_pool st) op = Done (Panic "called `Option::unwrap()` on a `None` value").
Proof.
  intros Hs. pose proof (inv_steps _ _ _ inv_initial Hs) as HI.
  split; [|split; [|done]].
  - pose proof (fun p => pool_is_last st evs p Hs) as Hlast. apply pool_up_steps in Hs.
    unfold run_in_pool. destruct (THREAD_POOL st) as [p|], (pool_up evs); try done.
    + rewrite (Hlast _ eq_refl). unfold install. simpl.
      assert (install_ready (workers st) (tp_registry p) = existsb (serves (tp_registry p)) (workers st))
        as ->; [|done].
      apply eq_true_iff_eq. rewrite install_ready_spec, existsb_exists.
      by setoid_rewrite list_elem_of_In.
    + by destruct Hs as [H _]; specialize (H ltac:(eauto)).
    + by destruct Hs as [_ H]; destruct (H eq_refl).
  - intros self b Hb. destruct (inv_channels _ HI _ _ Hb) as [q Hq].
    eexists. split; [by rewrite (build_Ret _ _ _ _ Hb Hq)|]. pose proof (build_Ret _ _ _ _ Hb Hq) as E.
    split; [by eapply install_fresh|]. intros Hc st2 Hr Hnf. rewrite Hc in Hq. injection Hq as <-.
    by eapply install_settled.
Qed.
End Proofs.

(** ** lib.rs: words shared between threads

    The pointers that JavaScript passes between threads point to boxed [u32]s. *)

Abbreviation loc := positive.
Abbreviation memory := (gmap loc Z).

Definition create_zero_u32_ptr (m : memory) : loc * memory :=
  let p := fresh (dom m) in (p, <[p := 0]> m).

(** [None]: a dangling pointer, undefined behaviour in Rust. *)
Definition free_u32_ptr (m : memory) (ptr : loc) : option memory :=
  _ ← m !! ptr; Some (delete ptr m).
Definition set_u32_ptr (m : memory) (ptr : loc) (arg : Z) : option memory :=
  _ ← m !! ptr; Some (<[ptr := arg]> m).

(** What happens to the memory while a thread spins: calls by other threads,
    and the turns of the spinning thread, each one [read_volatile]. *)
Inductive mem_event : Type :=
| Create
| Free (ptr : loc)
| SetPtr (ptr : loc) (arg : Z)
| Turn.

Definition mem_step (m : memory) (e : mem_event) : option memory :=
  match e with
  | Create => Some (create_zero_u32_ptr m).2
  | Free ptr => free_u32_ptr m ptr
  | SetPtr ptr arg => set_u32_ptr m ptr arg
  | Turn => Some m
  end.

Inductive wait_result : Type :=
| Returned (contents : Z) (rest : list mem_event)
| Spinning (m : memory)
| Dangling.

(** The loop, along a schedule. *)
Fixpoint wait_until_non_zero (ptr : loc) (m : memory) (sched : list mem_event) : wait_result :=
  match sched with
  | [] => Spinning m
  | Turn :: sched =>
      match m !! ptr with
      | None => Dangling
      | Some contents =>
          if negb (contents =? 0) then Returned contents sched
          else wait_until_non_zero ptr m sched
      end
  | e :: sched =>
      match mem_step m e with
      | None => Dangling
      | Some m => wait_until_non_zero ptr m sched
      end
  end.

(** An event that leaves the word at [ptr] alone and touches no dangling
    pointer when the words [live] are allocated. *)
Definition leaves (ptr : loc) (live : gset loc) (e : mem_event) : bool :=
  match e with
  | Create | Turn => true
  | Free _ => false
  | SetPtr p _ => negb (bool_decide (p = ptr)) && bool_decide (p ∈ live)
  end.

Definition is_turn (e : mem_event) : bool := match e with Turn => true | _ => false end.

Lemma mem_step_leaves ptr live m e :
  leaves ptr live e = true -> live ⊆ dom m -> is_Some (m !! ptr) ->
  exists m', mem_step m e = Some m' /\ m' !! ptr = m !! ptr /\ live ⊆ dom m'.
Proof.
  intros He Hl Hp. destruct e as [|p|p v|]; simpl in *; [|done| |by exists m].
  - eexists. split; [done|]. split; [|rewrite dom_insert_L; set_solver].
    rewrite lookup_insert_ne; [done|]. intros E. apply elem_of_dom in Hp.
    rewrite <-E in Hp. by apply is_fresh in Hp.
  - apply andb_true_iff in He as [Hn%negb_true_iff%bool_decide_eq_false Hin%bool_decide_eq_true].
    destruct (m !! p) as [x|] eqn:Ep; [|apply Hl, elem_of_dom in Hin as [??]; congruence].
    unfold set_u32_ptr. rewrite Ep. simpl. eexists. split; [done|].
    split; [by rewrite lookup_insert_ne|rewrite dom_insert_L; set_solver].
Qed.

(** While the word stays zero the loop goes on. *)
Lemma wait_zero ptr live m s1 s2 :
  Forall (fun e => leaves ptr live e = true) s1 -> live ⊆ dom m -> m !! ptr = Some 0 ->
  exists m', wait_until_non_zero ptr m (s1 ++ s2) = wait_until_non_zero ptr m' s2 /\
    m' !! ptr = Some 0 /\ live ⊆ dom m'.
Proof.
  intros Hs. revert m. induction Hs as [|e s1 He _ IH]; intros m Hl Hp; [by exists m|].
  destruct (mem_step_leaves ptr live m e He Hl) as (m1 & E1 & E2 & E3); [by rewrite Hp|].
  rewrite Hp in E2. destruct (IH m1 E3 E2) as (m' & H1 & H2). exists m'. split; [|done].
  destruct e; cbn [app wait_until_non_zero]; rewrite ?E1; [done..|].
  injection E1 as <-. by rewrite Hp.
Qed.

(** Once it is not, the next turn of the thread returns it. *)
Lemma wait_non_zero ptr live m s v :
  Forall (fun e => leaves ptr live e = true) s -> live ⊆ dom m -> m !! ptr = Some v -> v <> 0 ->
  if existsb is_turn s
  then exists rest, wait_until_non_zero ptr m s = Returned v rest
  else exists m', wait_until_non_zero ptr m s = Spinning m' /\ m' !! ptr = Some v.
Proof.
  intros Hs. revert m. induction Hs as [|e s He _ IH]; intros m Hl Hp Hv; [by exists m|].
  destruct (mem_step_leaves ptr live m e He Hl) as (m1 & E1 & E2 & E3); [by rewrite Hp|].
  rewrite Hp in E2. specialize (IH m1 E3 E2 Hv).
  destruct e; cbn [wait_until_non_zero existsb is_turn orb]; rewrite ?E1; [done..|].
  rewrite Hp, (proj2 (Z.eqb_neq v 0) Hv). simpl. by exists s.
Qed.

(** C18: handing a word to a waiting thread. Let one thread wait on a pointer
    that was created for it, while others create words and write to other
    live ones. It cannot return before somebody writes its word, whatever its
    turns. Writing zero does not release it either. After a non-zero value is
    written, its first turn returns exactly that value; the write alone does
    not, and so the loop terminates if and only if the scheduler gives the
    waiting thread one more turn. *)
Theorem wait_until_non_zero_spec (m : memory) (live : gset loc) s1 s2 v :
  let p := create_zero_u32_ptr m in
  live ⊆ dom p.2 ->
  Forall (fun e => leaves p.1 live e = true) s1 -> Forall (fun e => leaves p.1 live e = true) s2 ->
  (exists m', wait_until_non_zero p.1 p.2 s1 = Spinning m' /\ m' !! p.1 = Some 0) /\
  (v <> 0 ->
     if existsb is_turn s2
     then exists rest, wait_until_non_zero p.1 p.2 (s1 ++ SetPtr p.1 v :: s2) = Returned v rest
     else exists m', wait_until_non_zero p.1 p.2 (s1 ++ SetPtr p.1 v :: s2) = Spinning m' /\
            m' !! p.1 = Some v) /\
  (v = 0 -> exists m', wait_until_non_zero p.1 p.2 (s1 ++ SetPtr p.1 v :: s2) = Spinning m').
Proof.
  intros p Hl Hs1 Hs2. assert (p.2 !! p.1 = Some 0) as Hp by apply lookup_insert_eq.
  destruct (wait_zero p.1 live p.2 s1 [] Hs1 Hl Hp) as (m0 & E0 & H0 & _). rewrite app_nil_r in E0.
  split; [by exists m0|].
  destruct (wait_zero p.1 live p.2 s1 (SetPtr p.1 v :: s2) Hs1 Hl Hp) as (m1 & E1 & H1 & Hl1).
  rewrite E1. cbn [wait_until_non_zero mem_step]. unfold set_u32_ptr. rewrite H1. cbn [mbind option_bind].
  assert (live ⊆ dom (<[p.1 := v]> m1)) as Hl2 by (rewrite dom_insert_L; set_solver).
  split.
  - intros Hv. apply (wait_non_zero _ live); [done|done|apply lookup_insert_eq|done].
  - intros ->. destruct (wait_zero p.1 live (<[p.1 := 0]> m1) s2 [] Hs2 Hl2) as (m2 & E2 & _);
      [apply lookup_insert_eq|]. rewrite app_nil_r in E2. rewrite E2. by exists m2.
Qed.

(** Whatever the schedule, and whoever writes: what the loop returns is not
    zero. *)
Lemma wait_never_zero ptr m sched v rest :
  wait_until_non_zero ptr m sched = Returned v rest -> v <> 0.
Proof.
  revert m. induction sched as [|e sched IH]; intros m; [done|].
  destruct e; cbn [wait_until_non_zero mem_step]; try (destruct (_ : option memory); [apply IH|done]).
  - apply IH.
  - destruct (m !! ptr) as [c|]; [|done].
    destruct (Z.eqb_spec c 0); [apply IH|]. by intros [= <- _].
Qed.

(** ** Witnesses: a pool of two threads *)

Definition demo_rayon : Rayon := {|
  threads_of n := if n <=? 0 then 1%nat else (Z.to_nat n `min` 255)%nat;
  max_num_threads := 255;
  install_ready ws r := existsb (serves r) ws;
  terminate_workers := map (fun w => mkWorker (w_receiver w) (w_running w) true)
|}.
#[local] Instance demo_rayon_laws : RayonLaws demo_rayon.
Proof.
  split.
  - intros n Hn. simpl in *. destruct (Z.leb_spec n 0); lia.
  - intros n. simpl. destruct (Z.leb_spec n 0); lia.
  - intros ws r. simpl. rewrite existsb_exists. by setoid_rewrite list_elem_of_In.
  - intros ws. induction ws; constructor; auto.
Qed.

Fixpoint exec {R : Rayon} (st : state) (evs : list event) : state :=
  match evs with
  | [] => st
  | e :: evs =>
      exec (match e with
            | Init n => (init_thread_pool st n).2
            | StartWorker rcv => wbg_rayon_start_worker st rcv
            | Build self => match build st self with Ret st => st | _ => st end
            | Receive w => default st (worker_receive st w)
            | Exit => exit_thread_pool st
            end) evs
  end.

Definition two_workers : state := exec (R := demo_rayon) initial [Init 2; StartWorker 0; StartWorker 0].

Lemma two_workers_steps :
  steps (R := demo_rayon) initial [Init 2; StartWorker 0; StartWorker 0] two_workers.
Proof.
  apply (steps_snoc _ [Init 2; StartWorker 0] (exec (R := demo_rayon) initial [Init 2; StartWorker 0])).
  - apply (steps_snoc _ [Init 2] (exec (R := demo_rayon) initial [Init 2])).
    + apply (steps_snoc _ [] initial); [constructor|]. apply step_init.
    + by apply (step_start _ 0).
  - by apply (step_start _ 0).
Qed.

Lemma threads_run_once_witness :
  let st := exec (R := demo_rayon) two_workers [Build 0; Receive 1] in
  pending (channels st) ++ taken (workers st) ≡ₚ [mkThread 0 0; mkThread 0 1].
Proof.
  intros st.
  destruct (threads_run_once (R := demo_rayon) st) as (_ & _ & H & _); [|exact H].
  eexists. eapply steps_snoc; [eapply steps_snoc; [exact two_workers_steps|]|].
  - apply (step_build _ 0). vm_compute. reflexivity.
  - apply (step_receive _ 1). vm_compute. reflexivity.
Defined.

Lemma pool_starts_witness :
  exists st1, build (R := demo_rayon) two_workers 0 = Ret st1 /\
    forall st2, rtc receives st1 st2 -> nf receives st2 -> channels st2 !! 0%nat = Some [].
Proof.
  destruct (pool_starts (R := demo_rayon) two_workers 0 (mkPoolBuilder 2 0) 2
              (ex_intro _ _ two_workers_steps) eq_refl eq_refl eq_refl)
    as (_ & _ & st1 & E & _ & _ & H).
  exists st1. split; [exact E|]. intros st2 Hr Hnf.
  by destruct (H st2 Hr Hnf) as (_ & _ & _ & Hc & _).
Defined.

(** Before the build a call panics; after it, it blocks, until a worker has
    received a thread. *)
Lemma run_in_pool_spec_witness :
  run_in_pool (R := demo_rayon) two_workers (Ret 1)
    = Done (Panic "called `Option::unwrap()` on a `None` value") /\
  exists st1, build (R := demo_rayon) two_workers 0 = Ret st1 /\
    run_in_pool (R := demo_rayon) st1 (Ret 1) = Blocked /\
    forall st2, rtc receives st1 st2 -> nf receives st2 ->
      run_in_pool (R := demo_rayon) st2 (Ret 1) = Done (Ret 1).
Proof.
  destruct (run_in_pool_spec (R := demo_rayon) two_workers _ (Ret 1) two_workers_steps)
    as (H1 & H2 & _).
  split; [exact H1|].
  destruct (H2 0%nat (mkPoolBuilder 2 0) eq_refl) as (st1 & E & Hb & Hd).
  exists st1. split; [exact E|]. split; [exact Hb|]. exact (Hd eq_refl).
Defined.

(** The thread spins twice, its word is set to 7, and its next turn ends it. *)
Lemma wait_until_non_zero_spec_witness :
  let p := create_zero_u32_ptr ∅ in
  exists rest, wait_until_non_zero p.1 p.2 [Turn; Create; Turn; SetPtr p.1 7; Create; Turn] = Returned 7 rest.
Proof.
  intros p. destruct (wait_until_non_zero_spec ∅ ∅ [Turn; Create; Turn] [Create; Turn] 7)
    as (_ & H & _); [set_solver|by repeat constructor..|]. by apply H.
Defined.
