(* ===== verification/Nom.v ===== *)
(** * The parser combinators of the [nom] crate

    [trace-tool] builds its parser from nom's macros, which are not part of
    this repository.  [Nom] is their interface, [NomLaws] the behaviour nom
    documents for them on a byte slice, and [nom_reference] a concrete
    implementation of that interface, used to show that the laws can hold. *)

From Stdlib Require Import ZArith Lia.
From stdpp Require Import base list strings.
From S2P Require Import Prelude.

(** Results of a parser: the unread input and a value, a request for more
    input, a recoverable or a fatal error.  [Unwinding] is a Rust panic raised
    by an expression inside the parser. *)
Inductive nom_result (A : Type) : Type :=
| Done (rest : list byte) (a : A)
| Incomplete
| NomError
| NomFailure
| Unwinding (msg : string).
Arguments Done {A} rest a.
Arguments Incomplete {A}.
Arguments NomError {A}.
Arguments NomFailure {A}.
Arguments Unwinding {A} msg.

Definition parser (A : Type) : Type := list byte -> nom_result A.

(** How a result passes through a combinator that acts on values only. *)
Definition on_done {A B} (f : list byte -> A -> nom_result B) (r : nom_result A) : nom_result B :=
  match r with
  | Done i a => f i a
  | Incomplete => Incomplete
  | NomError => NomError
  | NomFailure => NomFailure
  | Unwinding s => Unwinding s
  end.

(** The last, parenthesised expression of [do_parse!]: Rust code that computes
    the value, or panics. *)
Definition nom_value {A} (m : outcome A) : parser A := fun i =>
  match m with
  | Ret a => Done i a
  | Raise _ => NomFailure
  | Panic s => Unwinding s
  end.

Class Nom : Type := {
  le_u8 : parser Z;
  le_u64 : parser Z;
  length_data : parser Z -> parser (list byte);
  do_parse : forall {A B}, parser A -> (A -> parser B) -> parser B;
  switch : forall {A}, parser Z -> (Z -> option (parser A)) -> parser A;
  opt : forall {A}, parser A -> parser (option A);
  complete : forall {A}, parser A -> parser A;
  many0 : forall {A}, parser A -> parser (list A);
}.

Class NomLaws `(N : Nom) : Prop := {
  le_u8_nil : le_u8 [] = Incomplete;
  le_u8_cons b i : le_u8 (b :: i) = Done i (byte_val b);
  le_u64_short i : (length i < 8)%nat -> le_u64 i = Incomplete;
  le_u64_app bs i : length bs = 8%nat -> le_u64 (bs ++ i) = Done i (le_val bs);
  length_data_short p i i' n :
    p i = Done i' n -> Z.of_nat (length i') < n -> length_data p i = Incomplete;
  length_data_app p i bs i' :
    p i = Done (bs ++ i') (Z.of_nat (length bs)) -> length_data p i = Done i' bs;
  length_data_incomplete p i : p i = Incomplete -> length_data p i = Incomplete;
  do_parse_eq {A B} (p : parser A) (k : A -> parser B) i :
    do_parse p k i = on_done (fun i' a => k a i') (p i);
  switch_eq {A} (p : parser Z) (k : Z -> option (parser A)) i :
    switch p k i = on_done (fun i' n => match k n with Some q => q i' | None => NomError end) (p i);
  opt_done {A} (p : parser A) i i' a : p i = Done i' a -> opt p i = Done i' (Some a);
  opt_error {A} (p : parser A) i : p i = NomError -> opt p i = Done i None;
  opt_incomplete {A} (p : parser A) i : p i = Incomplete -> opt p i = Incomplete;
  opt_unwinding {A} (p : parser A) i s : p i = Unwinding s -> opt p i = Unwinding s;
  complete_incomplete {A} (p : parser A) i : p i = Incomplete -> complete p i = NomError;
  complete_other {A} (p : parser A) i : p i <> Incomplete -> complete p i = p i;
  many0_stop {A} (p : parser A) i : p i = NomError -> many0 p i = Done i [];
  many0_step {A} (p : parser A) i i' a :
    p i = Done i' a -> (length i' < length i)%nat ->
    many0 p i = on_done (fun r l => Done r (a :: l)) (many0 p i');
  many0_no_progress {A} (p : parser A) i a : p i = Done i a -> many0 p i = NomError;
  many0_unwinding {A} (p : parser A) i s : p i = Unwinding s -> many0 p i = Unwinding s;
}.

(** ** A reference implementation *)

Definition ref_le_u8 : parser Z := fun i =>
  match i with [] => Incomplete | b :: i => Done i (byte_val b) end.
Definition ref_le_u64 : parser Z := fun i =>
  if (length i <? 8)%nat then Incomplete else Done (drop 8 i) (le_val (take 8 i)).
Definition ref_length_data (p : parser Z) : parser (list byte) := fun i =>
  on_done (fun i' n =>
    if Z.of_nat (length i') <? n then Incomplete
    else Done (drop (Z.to_nat n) i') (take (Z.to_nat n) i')) (p i).
Fixpoint ref_many0 {A} (p : parser A) (fuel : nat) (i : list byte) : nom_result (list A) :=
  match fuel with
  | O => NomFailure
  | S fuel =>
      match p i with
      | NomError => Done i []
      | Done i' a =>
          if (length i' <? length i)%nat
          then on_done (fun r l => Done r (a :: l)) (ref_many0 p fuel i')
          else NomError
      | Incomplete => Incomplete
      | NomFailure => NomFailure
      | Unwinding s => Unwinding s
      end
  end.

#[export] Instance nom_reference : Nom := {|
  le_u8 := ref_le_u8;
  le_u64 := ref_le_u64;
  length_data := ref_length_data;
  do_parse := fun A B p k i => on_done (fun i' a => k a i') (p i);
  switch := fun A p k i =>
    on_done (fun i' n => match k n with Some q => q i' | None => NomError end) (p i);
  opt := fun A p i =>
    match p i with NomError => Done i None | r => on_done (fun i' a => Done i' (Some a)) r end;
  complete := fun A p i => match p i with Incomplete => NomError | r => r end;
  many0 := fun A p i => ref_many0 p (S (length i)) i;
|}.

Lemma ref_many0_fuel {A} (p : parser A) f1 f2 i :
  (length i < f1)%nat -> (length i < f2)%nat -> ref_many0 p f1 i = ref_many0 p f2 i.
Proof.
  revert f2 i. induction f1 as [|f1 IH]; intros [|f2] i H1 H2; try lia. simpl.
  destruct (p i) as [i' a| | | |]; try done.
  destruct (Nat.ltb_spec (length i') (length i)); [|done].
  by rewrite (IH f2) by lia.
Qed.

#[export] Instance nom_reference_laws : NomLaws nom_reference.
Proof.
  constructor; simpl; try done.
  - intros i H. unfold ref_le_u64. by rewrite (proj2 (Nat.ltb_lt _ _) H).
  - intros bs i H. unfold ref_le_u64.
    rewrite (proj2 (Nat.ltb_ge _ _)) by (rewrite length_app; lia).
    by rewrite drop_app_length', take_app_length'.
  - intros p i i' n Hp H. unfold ref_length_data. rewrite Hp. simpl.
    by rewrite (proj2 (Z.ltb_lt _ _) H).
  - intros p i bs i' Hp. unfold ref_length_data. rewrite Hp. simpl.
    rewrite (proj2 (Z.ltb_ge _ _)) by (rewrite length_app; lia).
    by rewrite Nat2Z.id, drop_app_length, take_app_length.
  - intros p i Hp. unfold ref_length_data. by rewrite Hp.
  - intros A p i i' a ->. done.
  - intros A p i ->. done.
  - intros A p i ->. done.
  - intros A p i s ->. done.
  - intros A p i ->. done.
  - intros A p i H. by destruct (p i).
  - intros A p i ->. done.
  - intros A p i i' a Hp H. rewrite Hp, (proj2 (Nat.ltb_lt _ _) H).
    change (ref_many0 p (length i) i') with (ref_many0 p (length i) i').
    rewrite (ref_many0_fuel p (length i) (S (length i'))) by lia. done.
  - intros A p i a ->. by rewrite Nat.ltb_irrefl.
  - intros A p i s ->. done.
Qed.
