(* ===== verification/TraceTool.v ===== *)
(** * trace-tool (src/src/app/trace-tool/src/main.rs)

    The binary trace format and its parser, the state machine that turns trace
    events into Chrome trace lines, and the text of those lines. *)

From Stdlib Require Import ZArith Lia.
From stdpp Require Import base list strings gmap.
From S2P Require Import Prelude Float64 Nom.

(** ** Data *)

(** A Rust [String]: its UTF-8 bytes. *)
Abbreviation str := (list byte).
Abbreviation Tid := Z.

Inductive EventKind : Type :=
| New (tid : Tid) (name : str)
| Switch (tid : Tid)
| CycleStart
| CycleEnd
| Pid (pid : Z)
| Event (name : str)
| Start (name : str)
| End_
| TraceEnd.

Record TraceEvent : Type := mkTraceEvent {
  ns_since_epoch : f64;
  data : EventKind;
}.

(** [String::from_utf8]: the byte sequences of well-formed UTF-8. *)
Definition between (lo hi : Z) (b : byte) : bool := (lo <=? byte_val b) && (byte_val b <=? hi).
Definition utf8_cont (b : byte) : bool := between 128 191 b.
Fixpoint utf8_valid (l : list byte) : bool :=
  match l with
  | [] => true
  | b0 :: l =>
      if between 0 127 b0 then utf8_valid l
      else match l with
      | b1 :: l =>
          if between 194 223 b0 then utf8_cont b1 && utf8_valid l
          else match l with
          | b2 :: l =>
              if between 224 239 b0 then
                between (if byte_val b0 =? 224 then 160 else 128)
                        (if byte_val b0 =? 237 then 159 else 191) b1
                && utf8_cont b2 && utf8_valid l
              else match l with
              | b3 :: l =>
                  between 240 244 b0
                  && between (if byte_val b0 =? 240 then 144 else 128)
                             (if byte_val b0 =? 244 then 143 else 191) b1
                  && utf8_cont b2 && utf8_cont b3 && utf8_valid l
              | [] => false
              end
          | [] => false
          end
      | [] => false
      end
  end.
Definition from_utf8_unwrap (s : list byte) : outcome str :=
  if utf8_valid s then Ret s
  else Panic "called `Result::unwrap()` on an `Err` value: FromUtf8Error".

(** ** The parser *)

Section Parser.
Context `{Nom}.

Definition parse_trace_event : parser TraceEvent :=
  switch le_u8 (fun tag =>
    match tag with
    | 0 => Some (do_parse le_u64 (fun ns => do_parse le_u64 (fun tid =>
             do_parse (length_data le_u64) (fun s => nom_value (
               name ← from_utf8_unwrap s;
               Ret (mkTraceEvent (f64_of_Z ns) (New tid name)))))))
    | 1 => Some (do_parse le_u64 (fun ns => do_parse le_u64 (fun tid =>
             nom_value (Ret (mkTraceEvent (f64_of_Z ns) (Switch tid))))))
    | 2 => Some (do_parse le_u64 (fun ns =>
             nom_value (Ret (mkTraceEvent (f64_of_Z ns) CycleStart))))
    | 3 => Some (do_parse le_u64 (fun ns =>
             nom_value (Ret (mkTraceEvent (f64_of_Z ns) CycleEnd))))
    | 4 => Some (do_parse le_u64 (fun pid =>
             nom_value (Ret (mkTraceEvent (f64_of_Z 0) (Pid pid)))))
    | 5 => Some (do_parse le_u64 (fun ns => do_parse (length_data le_u64) (fun s =>
             nom_value (name ← from_utf8_unwrap s;
                        Ret (mkTraceEvent (f64_of_Z ns) (Event name))))))
    | 6 => Some (do_parse le_u64 (fun ns => do_parse (length_data le_u64) (fun s =>
             nom_value (name ← from_utf8_unwrap s;
                        Ret (mkTraceEvent (f64_of_Z ns) (Start name))))))
    | 7 => Some (do_parse le_u64 (fun ns =>
             nom_value (Ret (mkTraceEvent (f64_of_Z ns) End_))))
    | 8 => Some (do_parse le_u64 (fun ns =>
             nom_value (Ret (mkTraceEvent (f64_of_Z ns) TraceEnd))))
    | _ => None
    end).

Definition parse_trace_events : parser (list (option TraceEvent)) :=
  many0 (complete (opt parse_trace_event)).
End Parser.

(** ** Output lines

    One constructor per [println!]; [render] gives its text.  Names are stored
    as they are printed, that is after [escape]. *)

Inductive line : Type :=
| LOpen
| LThreadName (pid tid : Z) (name : str)
| LUnlabeledAsync (pid : Z)
| LComplete (name : str) (pid : Z) (ts dur : f64) (tid : Z)
| LInstant (name : str) (ts : f64) (pid tid : Z)
| LBegin (name : str) (ts : f64) (pid tid : Z)
| LEnd (ts : f64) (pid tid : Z).

(** [str::replace(&s, QUOTE, BACKSLASH QUOTE)]. *)
Definition quote : byte := byte_of 34.
Definition backslash : byte := byte_of 92.
Fixpoint escape (s : str) : str :=
  match s with
  | [] => []
  | b :: s => if decide (b = quote) then backslash :: quote :: escape s else b :: escape s
  end.

(** A literal written with single quotes where the source has double quotes. *)
Definition lit (s : string) : list byte :=
  map (fun b => if decide (b = byte_of 39) then quote else b) (bytes_of_string s).
Arguments lit s%_string.

Definition render (l : line) : list byte :=
  match l with
  | LOpen => lit "["
  | LThreadName pid tid name =>
      lit "{'name':'thread_name','ph':'M','pid':" ++ show_u pid ++ lit ",'tid':" ++ show_u tid
      ++ lit ",'args':{'name':'" ++ name ++ lit "'}},"
  | LUnlabeledAsync pid =>
      lit "{'name':'thread_name','ph':'M','pid':" ++ show_u pid
      ++ lit ",'tid':0,'args':{'name':'unlabeled async'}},"
  | LComplete name pid ts dur tid =>
      lit "{'name':'" ++ name ++ lit "','pid':" ++ show_u pid ++ lit ",'ph':'X','ts':"
      ++ show_f64 ts ++ lit ",'dur':" ++ show_f64 dur ++ lit ",'tid':" ++ show_u tid ++ lit "},"
  | LInstant name ts pid tid =>
      lit "{'name':'" ++ name ++ lit "','ph':'i','ts':" ++ show_f64 ts ++ lit ",'pid':"
      ++ show_u pid ++ lit ",'tid':" ++ show_u tid ++ lit ",'s':'t'},"
  | LBegin name ts pid tid =>
      lit "{'name':'" ++ name ++ lit "','ph':'B','ts':" ++ show_f64 ts ++ lit ",'pid':"
      ++ show_u pid ++ lit ",'tid':" ++ show_u tid ++ lit "},"
  | LEnd ts pid tid =>
      lit "{'ph':'E','ts':" ++ show_f64 ts ++ lit ",'pid':" ++ show_u pid ++ lit ",'tid':"
      ++ show_u tid ++ lit "},"
  end.

(** ** The state machine *)

Record tstate : Type := mkState {
  seen_tids : gmap Tid str;
  recurring_map : gmap str Tid;
  tidmap : gmap Tid Tid;
  cur_pid : Z;
  cycle_start_ts : f64;
  prev_ts : f64;               (* the two components the fold threads *)
  prev_task : option Tid;
}.

Definition div1000 (x : f64) : f64 := f64_div x (f64_of_Z 1000).

Definition complete_event (tids : gmap Tid str) (pid : Z) (cur_ts prev_ts : f64)
    (prev_task : option Tid) : outcome (list line) :=
  _ ← rust_assert (negb (pid =? 0)) "assertion failed: pid != 0";
  match prev_task with
  | Some tid =>
      match tids !! tid with
      | Some tname =>
          Ret [LComplete (escape tname) pid (div1000 prev_ts)
                 (div1000 (f64_sub cur_ts prev_ts)) tid]
      | None =>
          Ret [LComplete (bytes_of_string "unnamed task") pid (div1000 prev_ts)
                 (div1000 (f64_sub cur_ts prev_ts)) tid]
      end
  | None => Ret []
  end.

Definition starts_with (p s : list byte) : bool := bool_decide (p `prefix_of` s).
Definition recurring (s : str) : bool := starts_with (bytes_of_string "R&") s.
Definition option_or {A} (x y : option A) : option A :=
  match x with Some _ => x | None => y end.
Definition task_tid (prev_task : option Tid) : Z := default 0 prev_task.

(** One iteration of the closure given to [fold]. *)
Definition step (st : tstate) (event : TraceEvent) : outcome (list line * tstate) :=
  let '(mkState seen rmap tmap pid cyc pts ptask) := st in
  let cur_ts := ns_since_epoch event in
  match data event with
  | New t s =>
      let '(rmap', tmap') :=
        if recurring s then
          let real := default t (rmap !! s) in
          (<[s := real]> rmap, <[t := real]> tmap)
        else (rmap, tmap) in
      Ret ([LThreadName pid t (escape s)],
           mkState (<[t := s]> seen) rmap' tmap' pid cyc pts ptask)
  | Switch t =>
      let ptask := option_or (ptask ≫= fun t => tmap !! t) ptask in
      out ← complete_event seen pid cur_ts pts ptask;
      Ret (out, mkState seen rmap tmap pid cyc cur_ts (option_or (tmap !! t) (Some t)))
  | CycleStart => Ret ([], mkState seen rmap tmap pid cur_ts cur_ts ptask)
  | CycleEnd =>
      out ← complete_event seen pid cur_ts pts ptask;
      Ret (out, mkState seen rmap tmap pid cyc cur_ts None)
  | TraceEnd =>
      out ← complete_event seen pid cur_ts pts ptask;
      Ret (out, mkState ∅ ∅ ∅ pid cyc cur_ts None)
  | Pid pid' =>
      Ret ([LUnlabeledAsync pid'], mkState seen rmap tmap pid' cyc pts ptask)
  | Event s =>
      Ret ([LInstant (escape s) (div1000 cur_ts) pid (task_tid ptask)], st)
  | Start s =>
      Ret ([LBegin (escape s) (div1000 cur_ts) pid (task_tid ptask)], st)
  | End_ =>
      Ret ([LEnd (div1000 cur_ts) pid (task_tid ptask)], st)
  end.

(** The fold: the lines printed, and the final state or the panic. *)
Fixpoint run (st : tstate) (events : list TraceEvent) : list line * outcome tstate :=
  match events with
  | [] => ([], Ret st)
  | e :: events =>
      match step st e with
      | Ret (out, st) => let '(out', r) := run st events in (out ++ out', r)
      | Raise err => ([], Raise err)
      | Panic msg => ([], Panic msg)
      end
  end.

Definition init_state (pid : Z) (cyc pts : f64) : tstate := mkState ∅ ∅ ∅ pid cyc pts None.

Definition first_ts (events : list (option TraceEvent)) : f64 :=
  match events with Some e :: _ => ns_since_epoch e | _ => f64_of_Z 0 end.

(** The body of [main]'s loop for one file, without [--dump-raw]. *)
Definition process_file `{Nom} (contents : list byte) : list line * outcome unit :=
  match parse_trace_events contents with
  | Done _ events =>
      let '(out, r) := run (init_state 0 (f64_of_Z 0) (first_ts events)) (omap id events) in
      (out, _ ← r; Ret tt)
  | Unwinding msg => ([], Panic msg)
  | _ => ([], Panic "parsing failed")
  end.

Fixpoint process_files `{Nom} (files : list (list byte)) : list line * outcome unit :=
  match files with
  | [] => ([], Ret tt)
  | contents :: files =>
      let '(out, r) := process_file contents in
      match r with
      | Ret _ => let '(out', r') := process_files files in (out ++ out', r')
      | _ => (out, r)
      end
  end.

(** [main] on the contents of its input files, in order. *)
Definition trace_main `{Nom} (files : list (list byte)) : list line * outcome unit :=
  let '(out, r) := process_files files in (LOpen :: out, r).

(** ** Specification: the binary format

    The format as a writer produces it: [raw_event] is an event with the
    integers that are written, [encode] its bytes, [event_of] what the tool
    should make of it. *)

Inductive raw_event : Type :=
| RNew (ns tid : Z) (name : str)
| RSwitch (ns tid : Z)
| RCycleStart (ns : Z)
| RCycleEnd (ns : Z)
| RPid (pid : Z)
| REvent (ns : Z) (name : str)
| RStart (ns : Z) (name : str)
| REnd (ns : Z)
| RTraceEnd (ns : Z).

Definition u64_bytes (z : Z) : list byte := le_bytes 8 z.
Definition str_bytes (s : str) : list byte := u64_bytes (Z.of_nat (length s)) ++ s.

Definition encode (e : raw_event) : list byte :=
  match e with
  | RNew ns tid name => byte_of 0 :: u64_bytes ns ++ u64_bytes tid ++ str_bytes name
  | RSwitch ns tid => byte_of 1 :: u64_bytes ns ++ u64_bytes tid
  | RCycleStart ns => byte_of 2 :: u64_bytes ns
  | RCycleEnd ns => byte_of 3 :: u64_bytes ns
  | RPid pid => byte_of 4 :: u64_bytes pid
  | REvent ns name => byte_of 5 :: u64_bytes ns ++ str_bytes name
  | RStart ns name => byte_of 6 :: u64_bytes ns ++ str_bytes name
  | REnd ns => byte_of 7 :: u64_bytes ns
  | RTraceEnd ns => byte_of 8 :: u64_bytes ns
  end.

Definition event_of (e : raw_event) : TraceEvent :=
  match e with
  | RNew ns tid name => mkTraceEvent (f64_of_Z ns) (New tid name)
  | RSwitch ns tid => mkTraceEvent (f64_of_Z ns) (Switch tid)
  | RCycleStart ns => mkTraceEvent (f64_of_Z ns) CycleStart
  | RCycleEnd ns => mkTraceEvent (f64_of_Z ns) CycleEnd
  | RPid pid => mkTraceEvent (f64_of_Z 0) (Pid pid)
  | REvent ns name => mkTraceEvent (f64_of_Z ns) (Event name)
  | RStart ns name => mkTraceEvent (f64_of_Z ns) (Start name)
  | REnd ns => mkTraceEvent (f64_of_Z ns) End_
  | RTraceEnd ns => mkTraceEvent (f64_of_Z ns) TraceEnd
  end.

Definition is_u64 (z : Z) : bool := (0 <=? z) && (z <? 2 ^ 64).
Definition ok_str (s : str) : bool := utf8_valid s && is_u64 (Z.of_nat (length s)).
Definition ok_event (e : raw_event) : bool :=
  match e with
  | RNew ns tid name => is_u64 ns && is_u64 tid && ok_str name
  | RSwitch ns tid => is_u64 ns && is_u64 tid
  | REvent ns name | RStart ns name => is_u64 ns && ok_str name
  | RCycleStart ns | RCycleEnd ns | REnd ns | RTraceEnd ns => is_u64 ns
  | RPid pid => is_u64 pid
  end.

(** ** Specification: JSON string literals

    Reads the rest of a JSON string literal up to its closing quote; gives the
    decoded bytes and what follows.  Only the escapes of a quote and of a
    backslash are decoded. *)
Fixpoint json_string (l : list byte) : option (list byte * list byte) :=
  match l with
  | [] => None
  | b :: l =>
      if decide (b = quote) then Some ([], l)
      else if decide (b = backslash) then
        match l with
        | c :: l =>
            if decide (c = quote) then prod_map (cons quote) id <$> json_string l
            else if decide (c = backslash) then prod_map (cons backslash) id <$> json_string l
            else None
        | [] => None
        end
      else prod_map (cons b) id <$> json_string l
  end.

(** ** Specification: when the state machine does not panic

    Every event that ends a running task comes after a [Pid] event with a
    non-zero pid. *)
Definition ends_task (e : TraceEvent) : bool :=
  match data e with Switch _ | CycleEnd | TraceEnd => true | _ => false end.
Definition pid_after (pid : Z) (e : TraceEvent) : Z :=
  match data e with Pid p => p | _ => pid end.
Fixpoint pid_known (pid : Z) (events : list TraceEvent) : bool :=
  match events with
  | [] => true
  | e :: events => (negb (ends_task e) || negb (pid =? 0)) && pid_known (pid_after pid e) events
  end.

(** ** Specification: recurring tasks

    Tasks whose name starts with [R&] are shown under one thread: the thread
    ids a recurring name was announced with all map to the id it was first
    announced with. *)
Definition recurring_consistent (st : tstate) : Prop :=
  forall t s, seen_tids st !! t = Some s -> recurring s = true ->
  exists c, tidmap st !! t = Some c /\ recurring_map st !! s = Some c.

(** ** The parser reads what the format says *)

Lemma is_u64_range z : is_u64 z = true <-> 0 <= z < 2 ^ 64.
Proof. unfold is_u64. rewrite andb_true_iff, Z.leb_le, Z.ltb_lt. done. Qed.
Lemma u64_bytes_val z : is_u64 z = true -> le_val (u64_bytes z) = z.
Proof. intros H%is_u64_range. unfold u64_bytes. rewrite le_val_bytes. by apply Z.mod_small. Qed.
Lemma u64_bytes_length z : length (u64_bytes z) = 8%nat.
Proof. apply le_bytes_length. Qed.

(** A proper prefix of [a ++ r] is too short for [a], or extends [a] by a
    proper prefix of [r]. *)
Lemma short_prefix_app (p a r : list byte) :
  p `prefix_of` a ++ r -> (length p < length (a ++ r))%nat ->
  (length p < length a)%nat \/
  exists p', p = a ++ p' /\ p' `prefix_of` r /\ (length p' < length r)%nat.
Proof.
  intros [k Hk] Hl. destruct (decide (length p < length a)%nat) as [|Hn]; [by left|right].
  assert (Hp : p = a ++ drop (length a) p).
  { rewrite <-(take_drop (length a) p) at 1. f_equal.
    apply (f_equal (take (length a))) in Hk.
    rewrite take_app_length, take_app_le in Hk by lia. done. }
  exists (drop (length a) p). split; [done|]. split.
  - exists k. rewrite Hp in Hk. rewrite <-app_assoc in Hk. by apply app_inv_head in Hk.
  - rewrite length_drop. rewrite length_app in Hl. lia.
Qed.

Section ParserLemmas.
Context {N : Nom} {NL : NomLaws N}.

Lemma le_u64_bytes z i : is_u64 z = true -> le_u64 (u64_bytes z ++ i) = Done i z.
Proof. intros H. rewrite le_u64_app by apply u64_bytes_length. by rewrite u64_bytes_val. Qed.

Lemma length_data_str s i :
  ok_str s = true -> length_data le_u64 (str_bytes s ++ i) = Done i s.
Proof.
  unfold ok_str, str_bytes. intros [_ H]%andb_true_iff.
  apply length_data_app. rewrite <-app_assoc. by apply le_u64_bytes.
Qed.

Lemma length_data_str_short s p :
  ok_str s = true -> p `prefix_of` str_bytes s -> (length p < length (str_bytes s))%nat ->
  length_data le_u64 p = Incomplete.
Proof.
  unfold ok_str, str_bytes. intros [_ H]%andb_true_iff Hp Hl.
  destruct (short_prefix_app _ _ _ Hp Hl) as [Hs|(p' & -> & _ & Hs)].
  - apply length_data_incomplete, le_u64_short. by rewrite u64_bytes_length in Hs.
  - eapply length_data_short; [by apply le_u64_bytes|]. lia.
Qed.

Lemma le_u64_short_prefix z p :
  p `prefix_of` u64_bytes z -> (length p < length (u64_bytes z))%nat -> le_u64 p = Incomplete.
Proof. intros _ H. apply le_u64_short. by rewrite u64_bytes_length in H. Qed.

Lemma utf8_ok s : ok_str s = true -> from_utf8_unwrap s = Ret s.
Proof. unfold ok_str, from_utf8_unwrap. by intros [-> _]%andb_true_iff. Qed.

Lemma tag_case (k : Z) (l : list byte) :
  0 <= k < 256 -> le_u8 (byte_of k :: l) = Done l k.
Proof. intros. rewrite le_u8_cons, byte_val_of. unfold as_u. by rewrite Z.mod_small. Qed.
End ParserLemmas.

(** Reads the next field of an encoded event whose bytes are all there. *)
Ltac read_field :=
  first
    [ rewrite do_parse_eq; rewrite le_u64_bytes by done; cbn [on_done]
    | rewrite do_parse_eq; rewrite length_data_str by done; cbn [on_done] ].
(** Splits a proper prefix at the end of its first field. *)
Ltac split_field Hp Hl :=
  lazymatch type of Hp with
  | _ `prefix_of` (_ ++ _) =>
      let q := fresh "q" in let Hs := fresh "Hs" in
      let Hp' := fresh "Hp" in let Hl' := fresh "Hl" in
      destruct (short_prefix_app _ _ _ Hp Hl) as [Hs|(q & -> & Hp' & Hl')];
      [ rewrite do_parse_eq, le_u64_short by (by rewrite u64_bytes_length in Hs); done
      | clear Hp Hl; rename Hp' into Hp, Hl' into Hl; read_field ]
  end.

Section ParserEvents.
Context {N : Nom} {NL : NomLaws N}.

Lemma parse_trace_event_encode e i :
  ok_event e = true -> parse_trace_event (encode e ++ i) = Done i (event_of e).
Proof.
  intros He. unfold parse_trace_event. rewrite switch_eq.
  destruct e; simpl in He; rewrite ?andb_true_iff in He; destruct_and?;
    cbn [encode]; rewrite <-app_comm_cons, tag_case, <-?app_assoc by lia;
    cbn [on_done]; repeat read_field; unfold nom_value;
    rewrite ?utf8_ok by done; done.
Qed.

Lemma parse_trace_event_short e p :
  ok_event e = true -> p `prefix_of` encode e -> (length p < length (encode e))%nat ->
  parse_trace_event p = Incomplete.
Proof.
  intros He Hp Hl. unfold parse_trace_event. rewrite switch_eq.
  destruct p as [|b p]; [by rewrite le_u8_nil|].
  destruct e; simpl in He; rewrite ?andb_true_iff in He; destruct_and?;
    cbn [encode] in Hp, Hl;
    pose proof (prefix_cons_inv_1 _ _ _ _ Hp) as ->;
    apply prefix_cons_inv_2 in Hp; simpl length in Hl; apply Nat.succ_lt_mono in Hl;
    rewrite tag_case by lia; cbn [on_done];
    repeat split_field Hp Hl; rewrite do_parse_eq;
    first [ rewrite (le_u64_short_prefix _ _ Hp Hl); done
          | rewrite (length_data_str_short _ _ ltac:(eassumption) Hp Hl); done ].
Qed.

Lemma encode_nonempty e : (0 < length (encode e))%nat.
Proof. destruct e; simpl; lia. Qed.

Lemma parse_trace_events_app es tail :
  forallb ok_event es = true ->
  parse_trace_events (concat (map encode es) ++ tail)
  = on_done (fun r l => Done r (map (Some ∘ event_of) es ++ l)) (parse_trace_events tail).
Proof.
  unfold parse_trace_events. induction es as [|e es IH]; intros H; simpl in *.
  - by destruct (many0 _ tail).
  - apply andb_true_iff in H as [He Hes]. rewrite <-app_assoc.
    erewrite many0_step.
    2:{ rewrite complete_other; erewrite opt_done; [done| |done|];
          by apply parse_trace_event_encode. }
    2:{ pose proof (encode_nonempty e). rewrite !length_app. lia. }
    rewrite IH by done. by destruct (many0 _ tail).
Qed.

Lemma parse_trace_events_incomplete tail :
  parse_trace_event tail = Incomplete -> parse_trace_events tail = Done tail [].
Proof.
  intros H. unfold parse_trace_events. apply many0_stop, complete_incomplete.
  by apply opt_incomplete.
Qed.
End ParserEvents.

(** ** Properties of the parser *)

(** C2: the parser inverts the format. Bytes that are a sequence of well-formed
    events followed by a proper prefix of one more event (a trace cut short)
    parse to exactly those events, the cut event left unread. *)
Theorem parse_trace_events_roundtrip {N : Nom} {NL : NomLaws N} es e p :
  forallb ok_event es = true -> ok_event e = true ->
  p `prefix_of` encode e -> (length p < length (encode e))%nat ->
  parse_trace_events (concat (map encode es) ++ p) = Done p (map (Some ∘ event_of) es).
Proof.
  intros Hes He Hp Hl. rewrite parse_trace_events_app by done.
  rewrite (parse_trace_events_incomplete p) by (by eapply parse_trace_event_short).
  cbn [on_done]. by rewrite app_nil_r.
Qed.

Definition sample_trace : list raw_event :=
  [RPid 7; RNew 1000 1 (bytes_of_string "R&io"); RNew 1000 2 (bytes_of_string "R&io");
   RSwitch 2000 2; REvent 2500 (bytes_of_string "tick"); RCycleEnd 5000].

Lemma parse_trace_events_roundtrip_witness :
  parse_trace_events (concat (map encode sample_trace) ++ take 4 (encode (RSwitch 6000 1)))
  = Done (take 4 (encode (RSwitch 6000 1))) (map (Some ∘ event_of) sample_trace).
Proof.
  apply (parse_trace_events_roundtrip sample_trace (RSwitch 6000 1)).
  - vm_compute. reflexivity.
  - vm_compute. reflexivity.
  - apply prefix_take.
  - vm_compute. lia.
Defined.

(** A byte that is no event tag makes the whole parse fail, and the tool
    panics without printing any line, whatever events came before it. *)
Theorem process_file_unknown_tag {N : Nom} {NL : NomLaws N} es b rest :
  forallb ok_event es = true -> 8 < byte_val b ->
  process_file (concat (map encode es) ++ b :: rest) = ([], Panic "parsing failed").
Proof.
  intros Hes Hb. unfold process_file. rewrite parse_trace_events_app by done.
  assert (parse_trace_event (b :: rest) = NomError) as He.
  { unfold parse_trace_event. rewrite switch_eq, le_u8_cons. cbn [on_done].
    remember (byte_val b) as t eqn:Et.
    destruct t as [|t|t]; try lia. do 4 (destruct t as [t|t|]; try lia; try done). }
  unfold parse_trace_events. erewrite many0_no_progress; [done|].
  rewrite complete_other; erewrite opt_error; done.
Qed.

Lemma process_file_unknown_tag_witness :
  process_file (concat (map encode sample_trace) ++ byte_of 9 :: bytes_of_string "zz")
  = ([], Panic "parsing failed").
Proof. apply (process_file_unknown_tag sample_trace); vm_compute; reflexivity. Defined.

(** An event whose name is not UTF-8 panics, even though its length and its
    tag are right. *)
Theorem parse_trace_events_bad_utf8 {N : Nom} {NL : NomLaws N} es ns s rest :
  forallb ok_event es = true -> is_u64 ns = true -> is_u64 (Z.of_nat (length s)) = true ->
  utf8_valid s = false ->
  is_panic (process_file (concat (map encode es) ++ encode (REvent ns s) ++ rest)).2 = true.
Proof.
  intros Hes Hns Hlen Hs. unfold process_file. rewrite parse_trace_events_app by done.
  assert (parse_trace_event (encode (REvent ns s) ++ rest)
          = Unwinding "called `Result::unwrap()` on an `Err` value: FromUtf8Error") as He.
  { unfold parse_trace_event. rewrite switch_eq. cbn [encode]. unfold str_bytes.
    rewrite <-app_comm_cons, tag_case, <-!app_assoc by lia. cbn [on_done].
    rewrite do_parse_eq, le_u64_bytes by done. cbn [on_done].
    rewrite do_parse_eq, (length_data_app _ _ s rest) by (by apply le_u64_bytes).
    cbn [on_done]. unfold nom_value, from_utf8_unwrap. by rewrite Hs. }
  unfold parse_trace_events. erewrite many0_unwinding; [done|].
  rewrite complete_other; erewrite opt_unwinding; done.
Qed.

Lemma parse_trace_events_bad_utf8_witness :
  is_panic (process_file (concat (map encode sample_trace)
            ++ encode (REvent 1 [byte_of 65; byte_of 255]) ++ [])).2 = true.
Proof. apply (parse_trace_events_bad_utf8 sample_trace); vm_compute; reflexivity. Defined.

(** ** Properties of the state machine *)

Lemma complete_event_Ret tids pid cur pts ptask :
  pid <> 0 -> exists out, complete_event tids pid cur pts ptask = Ret out.
Proof.
  intros H. unfold complete_event. apply Z.eqb_neq in H. rewrite H. simpl.
  destruct ptask as [t|]; [|by eexists]. destruct (tids !! t); by eexists.
Qed.
Lemma complete_event_0 tids cur pts ptask :
  is_panic (complete_event tids 0 cur pts ptask) = true.
Proof. done. Qed.

(** What one step does to the pid, and when it succeeds. *)
Lemma step_pid st e :
  if negb (ends_task e) || negb (cur_pid st =? 0)
  then exists out st', step st e = Ret (out, st') /\ cur_pid st' = pid_after (cur_pid st) e
  else is_panic (step st e) = true.
Proof.
  destruct st as [seen rmap tmap pid cyc pts ptask], e as [ts d].
  unfold ends_task, pid_after. simpl cur_pid. simpl data.
  destruct d as [t s|t| | |p|s|s| |]; simpl negb; simpl orb;
    try (destruct (Z.eqb_spec pid 0) as [->|Hp]; simpl negb; cbn iota;
         [done|];
         cbn [step data ns_since_epoch]; cbv zeta;
         match goal with |- context [complete_event ?a ?b ?c ?d ?e] =>
           destruct (complete_event_Ret a b c d e Hp) as [out ->] end;
         simpl; by eexists _, _).
  - cbn [step data ns_since_epoch]. destruct (recurring s); simpl; by eexists _, _.
  - simpl. by eexists _, _.
  - simpl. by eexists _, _.
  - simpl. by eexists _, _.
  - simpl. by eexists _, _.
  - simpl. by eexists _, _.
Qed.

(** On a parsed trace the tool panics exactly when some task ends while the
    pid is not known: it runs to the end if and only if every switch, cycle end
    and trace end comes after a non-zero pid. *)
Theorem run_total_iff st events :
  is_ret (run st events).2 = pid_known (cur_pid st) events.
Proof.
  revert st. induction events as [|e events IH]; intros st; [done|].
  simpl. pose proof (step_pid st e) as Hs.
  destruct (negb (ends_task e) || negb (cur_pid st =? 0)) eqn:E.
  - destruct Hs as (out & st' & Hs & Hp). rewrite Hs, <-Hp, <-IH.
    by destruct (run st' events).
  - by destruct (step st e).
Qed.

Lemma lookup_insert_case `{Countable K} {A} (m : gmap K A) k x k' y :
  <[k := x]> m !! k' = Some y -> (k' = k /\ y = x) \/ (k' <> k /\ m !! k' = Some y).
Proof.
  rewrite lookup_insert. case_decide as Hk; [intros [= ->]; by left|]. by right.
Qed.

Lemma step_recurring st e out st' :
  recurring_consistent st -> step st e = Ret (out, st') -> recurring_consistent st'.
Proof.
  intros Hi. destruct st as [seen rmap tmap pid cyc pts ptask], e as [ts d].
  unfold recurring_consistent in *. simpl in Hi.
  destruct d as [t s|t| | |p|s|s| |]; cbn [step data ns_since_epoch].
  - destruct (recurring s) eqn:Hr; intros [= <- <-] t' s' Hs Hr'; simpl in *.
    + apply lookup_insert_case in Hs as [[-> ->]|[Hne Hs]].
      * eexists. by rewrite !lookup_insert_eq.
      * destruct (Hi _ _ Hs Hr') as (c & Hc1 & Hc2). exists c.
        rewrite lookup_insert_ne by done. split; [done|].
        destruct (decide (s' = s)) as [->|]; [|by rewrite lookup_insert_ne].
        by rewrite lookup_insert_eq, Hc2.
    + apply lookup_insert_case in Hs as [[-> ->]|[Hne Hs]]; [congruence|]. eauto.
  - intros (o & _ & [= <- <-])%bind_is_Ret. exact Hi.
  - intros [= <- <-]. exact Hi.
  - intros (o & _ & [= <- <-])%bind_is_Ret. exact Hi.
  - intros [= <- <-]. exact Hi.
  - intros [= <- <-]. exact Hi.
  - intros [= <- <-]. exact Hi.
  - intros [= <- <-]. exact Hi.
  - intros (o & _ & [= <- <-])%bind_is_Ret t' s'. simpl. by rewrite lookup_empty.
Qed.

Lemma run_recurring st events st' :
  recurring_consistent st -> (run st events).2 = Ret st' -> recurring_consistent st'.
Proof.
  revert st. induction events as [|e events IH]; intros st Hi; simpl; [by intros [= <-]|].
  destruct (step st e) as [[out st1]|err|msg] eqn:E; try done.
  destruct (run st1 events) as [o r] eqn:E'. simpl. intros ->.
  eapply IH; [by eapply step_recurring|]. by rewrite E'.
Qed.

(** Recurring tasks are merged. In every state the tool reaches from a
    fresh start, two thread ids announced with the same recurring name stand
    for one display thread [c]; switching to either makes [c] the running
    task. *)
Theorem recurring_threads_merged pid cyc pts events st t1 t2 s :
  (run (init_state pid cyc pts) events).2 = Ret st ->
  seen_tids st !! t1 = Some s -> seen_tids st !! t2 = Some s -> recurring s = true ->
  exists c, forall t ts, (t = t1 \/ t = t2) ->
    (cur_pid st <> 0 ->
     exists out st', step st (mkTraceEvent ts (Switch t)) = Ret (out, st') /\
       prev_task st' = Some c /\ tidmap st' !! t = Some c).
Proof.
  intros Hrun H1 H2 Hr.
  assert (recurring_consistent st) as Hi.
  { eapply run_recurring; [|done]. intros t' s'. simpl. by rewrite lookup_empty. }
  destruct (Hi _ _ H1 Hr) as (c & Hc1 & Hm). destruct (Hi _ _ H2 Hr) as (c' & Hc2 & Hm').
  rewrite Hm in Hm'. injection Hm' as <-.
  exists c. intros t ts Ht Hpid.
  destruct st as [seen rmap tmap pid' cyc' pts' ptask]. cbn [step data ns_since_epoch]. cbv zeta.
  simpl in Hpid, Hc1, Hc2.
  destruct (complete_event_Ret seen pid' ts pts'
    (option_or (ptask ≫= fun t => tmap !! t) ptask) Hpid) as [out Ho].
  rewrite Ho. simpl. eexists _, _. split; [done|]. simpl.
  assert (tmap !! t = Some c) as -> by (destruct Ht as [-> | ->]; done). done.
Qed.

Definition sample_start : tstate := init_state 0 (f64_of_Z 0) (f64_of_Z 0).
Definition sample_end : tstate :=
  match (run sample_start (map event_of sample_trace)).2 with Ret st => st | _ => sample_start end.

Lemma recurring_threads_merged_witness :
  exists c, forall t ts, (t = 1 \/ t = 2) -> (cur_pid sample_end <> 0 ->
    exists out st', step sample_end (mkTraceEvent ts (Switch t)) = Ret (out, st') /\
      prev_task st' = Some c /\ tidmap st' !! t = Some c).
Proof.
  apply (recurring_threads_merged 0 (f64_of_Z 0) (f64_of_Z 0) (map event_of sample_trace)
    sample_end 1 2 (bytes_of_string "R&io")); vm_compute; reflexivity.
Defined.

Lemma run_app st es1 es2 :
  run st (es1 ++ es2) =
  match run st es1 with
  | (out, Ret st') => let '(out', r) := run st' es2 in (out ++ out', r)
  | (out, r) => (out, r)
  end.
Proof.
  revert st. induction es1 as [|e es1 IH]; intros st; simpl.
  - by destruct (run st es2).
  - destruct (step st e) as [[out st1]| |]; [|done|done]. rewrite IH.
    destruct (run st1 es1) as [o [st2| |]]; try done.
    destruct (run st2 es2) as [o' r]. by rewrite app_assoc.
Qed.

Definition set_cycle_start (c : f64) (st : tstate) : tstate :=
  mkState (seen_tids st) (recurring_map st) (tidmap st) (cur_pid st) c (prev_ts st) (prev_task st).

Lemma run_cycle_start st c events :
  (run (set_cycle_start c st) events).1 = (run st events).1.
Proof.
  revert st c. induction events as [|e events IH]; intros st c; [done|].
  destruct st as [seen rmap tmap pid cyc pts ptask], e as [ts d].
  assert (step (set_cycle_start c (mkState seen rmap tmap pid cyc pts ptask)) (mkTraceEvent ts d) =
    '(out, st') ← step (mkState seen rmap tmap pid cyc pts ptask) (mkTraceEvent ts d);
    Ret (out, match d with CycleStart => st' | _ => set_cycle_start c st' end)) as Hs.
  { unfold set_cycle_start; destruct d as [t s|t| | |p|s|s| |]; cbn; try done.
    - by destruct (recurring s).
    - by destruct (complete_event _ _ _ _ _).
    - by destruct (complete_event _ _ _ _ _).
    - by destruct (complete_event _ _ _ _ _). }
  cbn [run]. rewrite Hs. clear Hs.
  destruct (step (mkState seen rmap tmap pid cyc pts ptask) _) as [[out st']| |]; [|done|done].
  cbn [mbind outcome_bind].
  assert ((run (match d with CycleStart => st' | _ => set_cycle_start c st' end) events).1
          = (run st' events).1) as He.
  { destruct d; try apply IH. reflexivity. }
  destruct (run (match d with CycleStart => _ | _ => _ end) events), (run st' events).
  simpl in *. by rewrite He.
Qed.

(** a trace end separates. What is printed after it is what a fresh tool
    started with the current pid at that time prints: no thread name, no
    recurring task and no running task survives. *)
Theorem trace_end_separates st es1 st1 ts es2 :
  (run st es1).2 = Ret st1 -> cur_pid st1 <> 0 ->
  (run st (es1 ++ mkTraceEvent ts TraceEnd :: es2)).1 =
  (run st (es1 ++ [mkTraceEvent ts TraceEnd])).1 ++
  (run (init_state (cur_pid st1) (f64_of_Z 0) ts) es2).1.
Proof.
  intros H1 Hpid. rewrite !run_app.
  destruct (run st es1) as [o r]. simpl in H1. subst r.
  destruct st1 as [seen rmap tmap pid cyc pts ptask]. simpl in Hpid. simpl cur_pid.
  destruct (complete_event_Ret seen pid ts pts ptask Hpid) as [out Ho].
  cbn [run step data ns_since_epoch]. cbv zeta. rewrite Ho. cbn [mbind outcome_bind].
  rewrite <-(run_cycle_start (init_state pid (f64_of_Z 0) ts) cyc es2).
  change (set_cycle_start cyc (init_state pid (f64_of_Z 0) ts))
    with (mkState ∅ ∅ ∅ pid cyc ts None).
  destruct (run (mkState _ _ _ _ _ _ _) es2) as [o2 r]. simpl.
  rewrite app_nil_r. by rewrite app_assoc.
Qed.

Lemma trace_end_separates_witness :
  (run sample_start (map event_of sample_trace
     ++ mkTraceEvent (f64_of_Z 9000) TraceEnd :: [mkTraceEvent (f64_of_Z 9500) (Switch 1)])).1 =
  (run sample_start (map event_of sample_trace ++ [mkTraceEvent (f64_of_Z 9000) TraceEnd])).1 ++
  (run (init_state (cur_pid sample_end) (f64_of_Z 0) (f64_of_Z 9000))
       [mkTraceEvent (f64_of_Z 9500) (Switch 1)]).1.
Proof.
  apply (trace_end_separates sample_start (map event_of sample_trace) sample_end).
  - vm_compute. reflexivity.
  - vm_compute. discriminate.
Defined.

(** ** Properties of the printed text *)

Lemma json_string_escape s rest :
  backslash ∉ s ->
  json_string (escape s ++ rest) = prod_map (app s) id <$> json_string rest.
Proof.
  induction s as [|b s IH]; intros Hs; simpl.
  - by destruct (json_string rest) as [[? ?]|].
  - apply not_elem_of_cons in Hs as [Hb Hs].
    assert (quote <> backslash) as Hqb by (vm_compute; discriminate).
    destruct (decide (b = quote)) as [->|Hq]; simpl.
    + rewrite IH by done.
      by destruct (json_string rest) as [[? ?]|].
    + rewrite !decide_False, IH by done.
      by destruct (json_string rest) as [[? ?]|].
Qed.

(** A task name without a backslash is printed as a JSON string literal
    that a JSON reader decodes back to the name, quotes included. *)
Theorem escape_json_roundtrip s rest :
  backslash ∉ s -> json_string (escape s ++ quote :: rest) = Some (s, rest).
Proof.
  intros Hs. rewrite json_string_escape by done. simpl.
  by rewrite app_nil_r.
Qed.

Lemma escape_json_roundtrip_witness :
  json_string (escape (bytes_of_string "say " ++ [quote] ++ bytes_of_string "hi") ++ quote :: lit ",")
  = Some (bytes_of_string "say " ++ [quote] ++ bytes_of_string "hi", lit ",").
Proof.
  apply escape_json_roundtrip. intros H%list_elem_of_In.
  vm_compute in H. repeat (destruct H as [H|H]; [discriminate|]). exact H.
Defined.

(** Backslashes are not escaped: when a name ends in one, the literal's
    closing quote is read as part of the name and the literal runs on into the
    rest of the line. *)
Theorem escape_trailing_backslash s rest :
  backslash ∉ s ->
  json_string (escape (s ++ [backslash]) ++ quote :: rest)
  = prod_map (fun more => s ++ quote :: more) id <$> json_string rest.
Proof.
  intros Hs.
  assert (escape (s ++ [backslash]) = escape s ++ [backslash]) as ->.
  { clear Hs. induction s as [|b s IH]; [done|]. simpl.
    destruct (decide (b = quote)); by rewrite IH. }
  rewrite <-app_assoc, json_string_escape by done. simpl.
  destruct (json_string rest) as [[? ?]|]; simpl; done.
Qed.

Lemma escape_trailing_backslash_witness :
  json_string (escape (bytes_of_string "C:" ++ [backslash]) ++ quote :: lit ",'pid':1")
  = prod_map (fun more => bytes_of_string "C:" ++ quote :: more) id
    <$> json_string (lit ",'pid':1").
Proof.
  apply escape_trailing_backslash. intros H%list_elem_of_In.
  vm_compute in H. repeat (destruct H as [H|H]; [discriminate|]). exact H.
Defined.
