(* ===== verification/TraceTimeline.v ===== *)
(** * What the trace tool prints, read off the trace

    A specification of the tool without its state: each line is determined by
    the event it is printed at and the events before it ([history], latest
    first), and the complete events are the [slice]s of a timeline in integer
    nanoseconds.  The theorems show that the fold of [main] over its three maps
    prints exactly this, and that the slices are in order and do not overlap. *)

From Stdlib Require Import ZArith Lia.
From stdpp Require Import base list strings gmap.
From S2P Require Import Prelude Float64 FloatBounds Nom TraceTool.

(** ** The events before *)

Abbreviation history := (list raw_event).

(** The thread that a recurring name was first announced with, since the last
    trace end. *)
Fixpoint first_named (s : str) (h : history) : option Tid :=
  match h with
  | [] | RTraceEnd _ :: _ => None
  | RNew _ t s' :: h =>
      if decide (s' = s) then Some (default t (first_named s h)) else first_named s h
  | _ :: h => first_named s h
  end.
(** The thread that [t] is shown as, when it was ever announced as recurring. *)
Fixpoint shown_as (t : Tid) (h : history) : option Tid :=
  match h with
  | [] | RTraceEnd _ :: _ => None
  | RNew _ t' s :: h =>
      if decide (t' = t) then
        if recurring s then Some (default t' (first_named s h)) else shown_as t h
      else shown_as t h
  | _ :: h => shown_as t h
  end.
(** The last name of [t]. *)
Fixpoint name_of (t : Tid) (h : history) : option str :=
  match h with
  | [] | RTraceEnd _ :: _ => None
  | RNew _ t' s :: h => if decide (t' = t) then Some s else name_of t h
  | _ :: h => name_of t h
  end.
Fixpoint pid_of (h : history) : Z :=
  match h with
  | [] => 0
  | RPid p :: _ => p
  | _ :: h => pid_of h
  end.
(** The running task: the last one switched to, unless its cycle or the trace
    has ended. *)
Fixpoint running (h : history) : option Tid :=
  match h with
  | [] => None
  | RSwitch _ t :: h => Some (default t (shown_as t h))
  | RCycleEnd _ :: _ | RTraceEnd _ :: _ => None
  | _ :: h => running h
  end.
(** When what runs now began: the last scheduling event, or the start. *)
Fixpoint since (start : Z) (h : history) : Z :=
  match h with
  | [] => start
  | (RSwitch ns _ | RCycleStart ns | RCycleEnd ns | RTraceEnd ns) :: _ => ns
  | _ :: h => since start h
  end.

(** ** Slices *)

Record slice : Type := Slice { sl_task : Tid; sl_name : option str; sl_pid : Z; sl_from : Z; sl_to : Z }.

(** The slice that ends at event [e]: what was running, from when it began. *)
Definition slice_at (start : Z) (h : history) (e : raw_event) : option slice :=
  match e with
  | RSwitch ns _ =>
      t ← running h; let t := default t (shown_as t h) in
      Some (Slice t (name_of t h) (pid_of h) (since start h) ns)
  | RCycleEnd ns | RTraceEnd ns =>
      t ← running h; Some (Slice t (name_of t h) (pid_of h) (since start h) ns)
  | _ => None
  end.

Definition slice_line (s : slice) : line :=
  LComplete (from_option escape (bytes_of_string "unnamed task") (sl_name s)) (sl_pid s)
    (div1000 (f64_of_Z (sl_from s)))
    (div1000 (f64_sub (f64_of_Z (sl_to s)) (f64_of_Z (sl_from s)))) (sl_task s).

(** The line printed at event [e], if there is one. *)
Definition line_at (start : Z) (h : history) (e : raw_event) : option line :=
  let tid := default 0 (running h) in
  match e with
  | RNew _ t s => Some (LThreadName (pid_of h) t (escape s))
  | RPid p => Some (LUnlabeledAsync p)
  | REvent ns s => Some (LInstant (escape s) (div1000 (f64_of_Z ns)) (pid_of h) tid)
  | RStart ns s => Some (LBegin (escape s) (div1000 (f64_of_Z ns)) (pid_of h) tid)
  | REnd ns => Some (LEnd (div1000 (f64_of_Z ns)) (pid_of h) tid)
  | RCycleStart _ => None
  | RSwitch _ _ | RCycleEnd _ | RTraceEnd _ => slice_line <$> slice_at start h e
  end.

(** The lines of a trace, up to the first task that ends before a pid is known. *)
Fixpoint lines_of (start : Z) (h : history) (es : list raw_event) : list line * outcome unit :=
  match es with
  | [] => ([], Ret tt)
  | e :: es =>
      if ends_task (event_of e) && (pid_of h =? 0) then ([], Panic "assertion failed: pid != 0")
      else let '(out, r) := lines_of start (e :: h) es in
           (option_list (line_at start h e) ++ out, r)
  end.

Fixpoint slices (start : Z) (h : history) (es : list raw_event) : list slice :=
  match es with
  | [] => []
  | e :: es => option_list (slice_at start h e) ++ slices start (e :: h) es
  end.

(** The timestamp of an event; the tool gives a [Pid] the time 0. *)
Definition time_of (e : raw_event) : Z :=
  match e with
  | RNew ns _ _ | RSwitch ns _ | RCycleStart ns | RCycleEnd ns | REvent ns _ | RStart ns _
  | REnd ns | RTraceEnd ns => ns
  | RPid _ => 0
  end.
Definition start_of (es : list raw_event) : Z := from_option time_of 0 (head es).

(** ** The fold prints the lines *)

(** The state of the fold after the events [h]. *)
Record tracks (start : Z) (h : history) (st : tstate) : Prop := {
  tr_seen : forall t, seen_tids st !! t = name_of t h;
  tr_rec : forall s, recurring s = true -> recurring_map st !! s = first_named s h;
  tr_map : forall t, tidmap st !! t = shown_as t h;
  tr_pid : cur_pid st = pid_of h;
  tr_ts : prev_ts st = f64_of_Z (since start h);
  tr_task : prev_task st = running h;
}.

Lemma complete_event_slice tids pid cur pts task :
  complete_event tids pid cur pts task =
    if pid =? 0 then Panic "assertion failed: pid != 0"
    else Ret (option_list ((fun t => LComplete
      (from_option escape (bytes_of_string "unnamed task") (tids !! t)) pid
      (div1000 pts) (div1000 (f64_sub cur pts)) t) <$> task)).
Proof.
  unfold complete_event. destruct (pid =? 0); [done|].
  destruct task as [t|]; [|done]. cbn. by destruct (tids !! t).
Qed.

(** Announcing a thread. *)
Lemma tracks_new start h st ns t s rmap tmap :
  tracks start h st ->
  (rmap, tmap) = (if recurring s then
      let real := default t (recurring_map st !! s) in
      (<[s := real]> (recurring_map st), <[t := real]> (tidmap st))
    else (recurring_map st, tidmap st)) ->
  tracks start (RNew ns t s :: h)
    (mkState (<[t := s]> (seen_tids st)) rmap tmap (cur_pid st) (cycle_start_ts st)
       (prev_ts st) (prev_task st)).
Proof.
  intros [Hseen Hrec Hmap Hpid Hts Htask] Heq.
  split; cbn; try done.
  - intros t'. rewrite lookup_insert. by case_decide.
  - intros s' Hs'. destruct (recurring s) eqn:Hs; injection Heq as -> ->.
    + rewrite lookup_insert, Hrec by done. case_decide as Hd; [by subst|]. by apply Hrec.
    + case_decide as Hd; [congruence|]. by apply Hrec.
  - intros t'. destruct (recurring s) eqn:Hs; injection Heq as -> ->.
    + rewrite lookup_insert, Hrec by done. case_decide as Hd; [done|]. by apply Hmap.
    + case_decide; apply Hmap.
Qed.

(** Ending a task prints its slice. *)
Lemma complete_event_tracks start h st task ns :
  tracks start h st -> (pid_of h =? 0) = false ->
  complete_event (seen_tids st) (cur_pid st) (f64_of_Z ns) (prev_ts st) task =
    Ret (option_list (slice_line <$> ((fun t =>
      Slice t (name_of t h) (pid_of h) (since start h) ns) <$> task))).
Proof.
  intros [Hseen _ _ Hpid Hts _] Hp. rewrite complete_event_slice, Hpid, Hp, Hts.
  destruct task as [t|]; [|done]. cbn. by rewrite Hseen.
Qed.

Lemma step_tracks start h st e :
  tracks start h st ->
  if ends_task (event_of e) && (pid_of h =? 0)
  then step st (event_of e) = Panic "assertion failed: pid != 0"
  else exists st', step st (event_of e) = Ret (option_list (line_at start h e), st') /\
         tracks start (e :: h) st'.
Proof.
  intros Ht. pose proof Ht as [Hseen Hrec Hmap Hpid Hts Htask].
  pose proof (fun task ns => complete_event_tracks start h st task ns Ht) as Hce.
  destruct st as [seen rmap tmap pid cyc pts task]. cbn in * |-.
  destruct e as [ns t s | ns t | ns | ns | p | ns s | ns s | ns | ns];
    cbn [event_of ends_task data ns_since_epoch step andb]; cbv zeta.
  - destruct (recurring s) eqn:Hs; rewrite Hpid; (eexists; split; [done|]);
      rewrite <- Hpid; apply (tracks_new start h _ ns t s _ _ Ht); by rewrite Hs.
  - destruct (pid_of h =? 0) eqn:Hp.
    + rewrite complete_event_slice, Hpid, Hp. done.
    + rewrite Hce by done. eexists. split.
      * cbn [mbind outcome_bind]. f_equal. f_equal. f_equal. f_equal. cbn.
        rewrite Htask. destruct (running h) as [t'|]; [|done]. cbn. rewrite Hmap.
        by destruct (shown_as t' h).
      * split; cbn; try done. rewrite Hmap. by destruct (shown_as t h).
  - eexists. split; [done|]. by split.
  - destruct (pid_of h =? 0) eqn:Hp.
    + rewrite complete_event_slice, Hpid, Hp. done.
    + rewrite Hce by done. eexists.
      split; [rewrite Htask; cbn; by destruct (running h) | by split].
  - eexists. split; [done|]. by split.
  - eexists. split; [cbn; by rewrite Hpid, Htask | by split].
  - eexists. split; [cbn; by rewrite Hpid, Htask | by split].
  - eexists. split; [cbn; by rewrite Hpid, Htask | by split].
  - destruct (pid_of h =? 0) eqn:Hp.
    + rewrite complete_event_slice, Hpid, Hp. done.
    + rewrite Hce by done. eexists. split; [rewrite Htask; cbn; by destruct (running h)|].
      split; cbn; try done.
Qed.

Lemma run_lines start es : forall h st, tracks start h st ->
  (let '(out, r) := run st (map event_of es) in (out, _ ← r; Ret tt)) = lines_of start h es.
Proof.
  induction es as [|e es IH]; intros h st Ht; [done|].
  cbn [map run lines_of]. pose proof (step_tracks start h st e Ht) as Hs.
  destruct (ends_task (event_of e) && (pid_of h =? 0)).
  - by rewrite Hs.
  - destruct Hs as (st' & -> & Ht'). rewrite <- (IH _ _ Ht').
    by destruct (run st' (map event_of es)) as [out r].
Qed.

Lemma tracks_init start : tracks start [] (init_state 0 (f64_of_Z 0) (f64_of_Z start)).
Proof. split; try done. Qed.

Lemma process_file_lines {N : Nom} {NL : NomLaws N} es e p :
  forallb ok_event es = true -> ok_event e = true ->
  p `prefix_of` encode e -> (length p < length (encode e))%nat ->
  process_file (concat (map encode es) ++ p) = lines_of (start_of es) [] es.
Proof.
  intros Hes He Hp Hl. unfold process_file. rewrite parse_trace_events_app by done.
  rewrite (parse_trace_events_incomplete p) by (by eapply parse_trace_event_short).
  cbn [on_done]. rewrite app_nil_r.
  replace (omap id (map (Some ∘ event_of) es)) with (map event_of es)
    by (induction es as [|e0 es IH]; [done|]; cbn in *; apply andb_true_iff in Hes as [_ Hes];
        by rewrite <- IH).
  rewrite <- (run_lines (start_of es) es []) with (st := init_state 0 (f64_of_Z 0)
    (first_ts (map (Some ∘ event_of) es))); [done|].
  replace (first_ts (map (Some ∘ event_of) es)) with (f64_of_Z (start_of es)); [apply tracks_init|].
  by destruct es as [|[] es].
Qed.

(** C3: The tool prints what the trace says: for the bytes of any well-formed
    trace, whole or cut within an event, the lines and the outcome are those read
    off the events alone: each line depends on its event and those before it (the
    running task, the names since the last trace end, the thread that a recurring
    name was first announced with, the last pid), the complete events are the
    slices of the timeline in integer nanoseconds, and the tool panics exactly at
    the first task that ends before a pid is known. *)
Theorem trace_timeline {N : Nom} {NL : NomLaws N} es e p :
  forallb ok_event es = true -> ok_event e = true ->
  p `prefix_of` encode e -> (length p < length (encode e))%nat ->
  process_file (concat (map encode es) ++ p) = lines_of (start_of es) [] es.
Proof. apply process_file_lines. Qed.

Definition trace_timeline_sample : list raw_event :=
  [RPid 7; RNew 1000 1 (bytes_of_string "R&io"); RNew 1000 2 (bytes_of_string "R&io");
   RCycleStart 1500; RSwitch 2000 2; REvent 2500 (bytes_of_string "tick"); RSwitch 3000 5;
   RCycleEnd 5000; RTraceEnd 6000].

Lemma trace_timeline_witness :
  process_file (concat (map encode trace_timeline_sample) ++ take 4 (encode (RSwitch 6000 1)))
  = lines_of (start_of trace_timeline_sample) [] trace_timeline_sample.
Proof.
  apply (trace_timeline trace_timeline_sample (RSwitch 6000 1)).
  - vm_compute. reflexivity.
  - vm_compute. reflexivity.
  - apply prefix_take.
  - vm_compute. lia.
Defined.

(** ** The slices *)

Definition complete_line (l : line) : option line :=
  match l with LComplete _ _ _ _ _ => Some l | _ => None end.

(** The clock after an event; a [Pid] does not advance it. *)
Definition clock (now : Z) (e : raw_event) : Z :=
  match e with RPid _ => now | _ => time_of e end.
Fixpoint in_order (now : Z) (es : list raw_event) : Prop :=
  match es with
  | [] => True
  | e :: es => now <= clock now e /\ in_order (clock now e) es
  end.

(** Slices one after the other, from [lo] on. *)
Fixpoint disjoint_slices (lo : Z) (l : list slice) : Prop :=
  match l with
  | [] => True
  | s :: l => lo <= sl_from s <= sl_to s /\ disjoint_slices (sl_to s) l
  end.

(** Cycles start while nothing runs. *)
Fixpoint cycles_idle (h : history) (es : list raw_event) : bool :=
  match es with
  | [] => true
  | e :: es =>
      match e with RCycleStart _ => bool_decide (running h = None) | _ => true end
      && cycles_idle (e :: h) es
  end.

(** How long tasks run, summed over the gaps between events. *)
Definition is_running (h : history) : bool := match running h with Some _ => true | None => false end.
Fixpoint busy (now : Z) (h : history) (es : list raw_event) : Z :=
  match es with
  | [] => 0
  | e :: es => (if is_running h then clock now e - now else 0) + busy (clock now e) (e :: h) es
  end.
Fixpoint total (l : list slice) : Z :=
  match l with [] => 0 | s :: l => (sl_to s - sl_from s) + total l end.

Lemma complete_lines start es : forall h,
  snd (lines_of start h es) = Ret tt ->
  omap complete_line (fst (lines_of start h es)) = map slice_line (slices start h es).
Proof.
  induction es as [|e es IH]; intros h; [done|]. cbn [lines_of slices].
  destruct (ends_task (event_of e) && (pid_of h =? 0)); [done|].
  specialize (IH (e :: h)). destruct (lines_of start (e :: h) es) as [out r]. cbn.
  intros Hr. rewrite omap_app, map_app, <- IH by done. f_equal.
  destruct e; cbn; try done; by destruct (running h).
Qed.

(** A slice starts no earlier than the last scheduling event. *)
Lemma slice_from start h e s : slice_at start h e = Some s ->
  sl_from s = since start h /\ sl_to s = time_of e /\ is_running h = true.
Proof.
  unfold is_running.
  destruct e; cbn; try done; destruct (running h); try done; by intros [= <-].
Qed.
Lemma since_clock start h now e : since start h <= now -> now <= clock now e ->
  since start (e :: h) <= clock now e.
Proof. intros Hs Hc. destruct e; cbn in *; lia. Qed.
Lemma slice_since start h e s : slice_at start h e = Some s -> since start (e :: h) = time_of e.
Proof. by destruct e. Qed.

Lemma slices_disjoint start es : forall h now lo,
  lo <= since start h <= now -> in_order now es -> disjoint_slices lo (slices start h es).
Proof.
  induction es as [|e es IH]; intros h now lo Hs Ho; [done|].
  destruct Ho as [Hc Ho]. cbn [slices].
  pose proof (since_clock start h now e ltac:(lia) Hc) as Hs'.
  destruct (slice_at start h e) as [s|] eqn:E; cbn.
  - destruct (slice_from _ _ _ _ E) as (-> & -> & _). pose proof (slice_since _ _ _ _ E) as He.
    assert (Ht : clock now e = time_of e) by (by destruct e).
    split; [lia|]. apply (IH (e :: h) (clock now e)); [lia|done].
  - apply (IH (e :: h) (clock now e)); [|done]. split; [|done].
    destruct e; cbn in *; try lia.
Qed.

(** What a task has run since its start is not lost: it ends in a slice, or goes on. *)
Definition open_time (start now : Z) (h : history) : Z :=
  if is_running h then now - since start h else 0.
Lemma slices_total start es : forall h now,
  cycles_idle h es = true ->
  total (slices start h es) + open_time start (foldl clock now es) (rev es ++ h)
  = open_time start now h + busy now h es.
Proof.
  induction es as [|e es IH]; intros h now Hc.
  - cbn. lia.
  - cbn [cycles_idle] in Hc. apply andb_true_iff in Hc as [He Hc].
    cbn [slices busy foldl rev]. rewrite <- app_assoc. cbn [app].
    specialize (IH (e :: h) (clock now e) Hc).
    assert (Hstep : total (option_list (slice_at start h e)) + open_time start (clock now e) (e :: h)
      = open_time start now h + (if is_running h then clock now e - now else 0)).
    { unfold open_time, is_running. destruct e; cbn in *; try (destruct (running h); cbn; lia).
      apply bool_decide_eq_true_1 in He. rewrite He. cbn. lia. }
    assert (Happ : forall a l, total (option_list a ++ l) = total (option_list a) + total l)
      by (intros [a|] l; cbn; lia).
    rewrite Happ. lia.
Qed.

(** C8: The complete events that the tool prints for a trace, whole or cut within an
    event, on which it does not panic, are the slices of the timeline, each with its
    task, name, pid, start and length; with timestamps in order they follow each
    other without overlap, none of negative length; and when cycles start while
    nothing runs, no time is lost or counted twice: their lengths, and the time since
    the last scheduling event if a task still runs at the end, add up to the time
    that tasks run. *)
Theorem timeline_tiles {N : Nom} {NL : NomLaws N} es e p :
  forallb ok_event es = true -> ok_event e = true ->
  p `prefix_of` encode e -> (length p < length (encode e))%nat ->
  snd (process_file (concat (map encode es) ++ p)) = Ret tt ->
  let l := slices (start_of es) [] es in
    omap complete_line (fst (process_file (concat (map encode es) ++ p))) = map slice_line l /\
    (in_order (start_of es) es -> disjoint_slices (start_of es) l) /\
    (cycles_idle [] es = true ->
     total l + open_time (start_of es) (foldl clock (start_of es) es) (rev es) = busy (start_of es) [] es).
Proof.
  intros Hes He Hp Hl. rewrite (process_file_lines es e p Hes He Hp Hl). intros Hr l.
  split; [by apply complete_lines|]. split.
  - intros Ho. apply (slices_disjoint _ es [] (start_of es)); [cbn; lia|done].
  - intros Hc. pose proof (slices_total (start_of es) es [] (start_of es) Hc) as Ht.
    rewrite app_nil_r in Ht. exact Ht.
Qed.

Lemma timeline_tiles_witness :
  let l := slices 0 [] trace_timeline_sample in
    omap complete_line (fst (process_file (concat (map encode trace_timeline_sample) ++ [])))
      = map slice_line l /\
    (in_order 0 trace_timeline_sample -> disjoint_slices 0 l) /\
    (cycles_idle [] trace_timeline_sample = true ->
     total l + open_time 0 6000 (rev trace_timeline_sample) = busy 0 [] trace_timeline_sample).
Proof.
  apply (timeline_tiles trace_timeline_sample (RSwitch 6000 1) []).
  - vm_compute. reflexivity.
  - vm_compute. reflexivity.
  - apply prefix_nil.
  - vm_compute. lia.
  - vm_compute. reflexivity.
Defined.

(** ** The printed numbers *)

Lemma ok_time e : ok_event e = true -> 0 <= time_of e < 2 ^ 64.
Proof.
  intros He. destruct e; cbn [ok_event time_of] in *; try lia;
    rewrite ?andb_true_iff in He; apply is_u64_range; tauto.
Qed.

(** The times that a line prints, when [times] are the timestamps of the trace. *)
Definition times_good (times : list Z) (l : line) : Prop :=
  match l with
  | LComplete _ _ ts dur _ => exists from to, from ∈ times /\ to ∈ times /\ 0 <= from <= to /\ to < 2 ^ 64 /\
      ts = div1000 (f64_of_Z from) /\ dur = div1000 (f64_sub (f64_of_Z to) (f64_of_Z from)) /\
      nonneg ts /\ nonneg dur /\ close from /\ close to
  | LInstant _ ts _ _ | LBegin _ ts _ _ | LEnd ts _ _ => exists ns, ns ∈ times /\ 0 <= ns < 2 ^ 64 /\
      ts = div1000 (f64_of_Z ns) /\ nonneg ts /\ close ns
  | LOpen | LThreadName _ _ _ | LUnlabeledAsync _ => True
  end.

Lemma nonneg_micros ns : 0 <= ns < 2 ^ 64 -> nonneg (div1000 (f64_of_Z ns)).
Proof. intros H. by apply f64_div_nonneg, regular_nonneg, f64_of_Z_u64. Qed.

(** A slice between two timestamps, and a line with one. *)
Lemma slice_times times s :
  sl_from s ∈ times -> sl_to s ∈ times -> 0 <= sl_from s <= sl_to s -> sl_to s < 2 ^ 64 ->
  times_good times (slice_line s).
Proof.
  intros Hf Ht Hft Hu. exists (sl_from s), (sl_to s).
  split_and!; try done; [lia|lia| | | |].
  - apply nonneg_micros. lia.
  - apply f64_div_nonneg, f64_of_Z_sub_nonneg; lia.
  - apply f64_of_Z_close. lia.
  - apply f64_of_Z_close. lia.
Qed.
Lemma single_time (times : list Z) ns : ns ∈ times -> 0 <= ns < 2 ^ 64 ->
  exists ns', ns' ∈ times /\ 0 <= ns' < 2 ^ 64 /\ div1000 (f64_of_Z ns) = div1000 (f64_of_Z ns') /\
    nonneg (div1000 (f64_of_Z ns)) /\ close ns'.
Proof. intros Hin H. exists ns. split_and!; try done; try lia; [by apply nonneg_micros|by apply f64_of_Z_close]. Qed.

Lemma line_times start times h e l :
  ok_event e = true -> time_of e ∈ times -> since start h ∈ times -> 0 <= since start h ->
  (forall s, slice_at start h e = Some s -> since start h <= time_of e) ->
  line_at start h e = Some l -> times_good times l.
Proof.
  intros He Hin Hs H0 Hle Hl. pose proof (ok_time e He) as Ht.
  destruct (slice_at start h e) as [s|] eqn:E.
  - specialize (Hle s eq_refl). destruct (slice_from _ _ _ _ E) as (Hf & Hto & _).
    assert (l = slice_line s) as ->.
    { destruct e; cbn [line_at] in Hl; try done; rewrite E in Hl; by injection Hl as <-. }
    apply slice_times; rewrite ?Hf, ?Hto; try done; lia.
  - destruct e; cbn [line_at] in Hl; try done; rewrite ?E in Hl; try done; injection Hl as <-;
      cbn [times_good]; try done; by apply single_time.
Qed.

Lemma lines_times start times es : forall h now,
  0 <= since start h <= now -> since start h ∈ times ->
  forallb ok_event es = true -> (forall e, e ∈ es -> time_of e ∈ times) -> in_order now es ->
  Forall (times_good times) (fst (lines_of start h es)).
Proof.
  induction es as [|e es IH]; intros h now Hs Hin Hes Hts Ho; [constructor|]. cbn [lines_of].
  destruct (ends_task (event_of e) && (pid_of h =? 0)); [constructor|].
  cbn [forallb] in Hes. apply andb_true_iff in Hes as [He Hes]. destruct Ho as [Hc Ho].
  pose proof (ok_time e He) as Ht. specialize (IH (e :: h) (clock now e)).
  destruct (lines_of start (e :: h) es) as [out r]. cbn [fst] in *. apply Forall_app. split.
  - destruct (line_at start h e) as [l|] eqn:El; [|constructor]. constructor; [|constructor].
    apply (line_times start times h e l); try done; [apply Hts; by left|lia|].
    intros s E. destruct e; cbn in E, Hc |- *; try done; lia.
  - apply IH; [|destruct e; cbn [since]; try done; apply (Hts _ (list_elem_of_here _ _))|done| |done].
    + destruct e; cbn in *; lia.
    + intros e' He'. apply Hts. by right.
Qed.

(** C22: The times the tool prints for a trace with timestamps in order. The
    timestamp of each instant event, begin and end is that of an event of the
    trace, as a float of microseconds that is neither negative nor NaN; the
    timestamp and the duration of each complete event are made of two timestamps of
    the trace in order, and are neither negative nor NaN either. The conversion of a
    timestamp to a float is off by at most 1024 ns, and exact below 2^53 ns. The other
    lines print no time. *)
Theorem timeline_numbers {N : Nom} {NL : NomLaws N} es e p :
  forallb ok_event es = true -> ok_event e = true ->
  p `prefix_of` encode e -> (length p < length (encode e))%nat ->
  in_order (start_of es) es ->
  Forall (times_good (map time_of es)) (fst (process_file (concat (map encode es) ++ p))).
Proof.
  intros Hes He Hp Hl Ho. rewrite (process_file_lines es e p Hes He Hp Hl).
  destruct es as [|e0 es]; [constructor|].
  apply (lines_times _ _ (e0 :: es) [] (start_of (e0 :: es))); try done.
  - cbn. pose proof Hes as [He0 _]%andb_true_iff. pose proof (ok_time e0 He0). lia.
  - cbn. by left.
  - intros e' He'. by apply list_elem_of_fmap_2.
Qed.

Lemma timeline_numbers_witness :
  Forall (times_good (map time_of trace_timeline_sample))
    (fst (process_file (concat (map encode trace_timeline_sample) ++ []))).
Proof.
  apply (timeline_numbers trace_timeline_sample (RSwitch 6000 1) []).
  - vm_compute. reflexivity.
  - vm_compute. reflexivity.
  - apply prefix_nil.
  - vm_compute. lia.
  - vm_compute. intuition discriminate.
Defined.

(** In the sample the recurring thread 2 is shown as thread 1, and the two slices
    cover the 3000 ns that tasks run. *)
Example timeline_sample :
  slices (start_of trace_timeline_sample) [] trace_timeline_sample
  = [Slice 1 (Some (bytes_of_string "R&io")) 7 2000 3000; Slice 5 None 7 3000 5000] /\
  busy 0 [] trace_timeline_sample = 3000.
Proof. vm_compute. done. Qed.
(** A cycle that starts while a task runs loses what it ran before. *)
Example timeline_lost :
  let es := [RPid 7; RSwitch 10 1; RCycleStart 20; RCycleEnd 30] in
  total (slices (start_of es) [] es) = 10 /\ busy (start_of es) [] es = 20.
Proof. vm_compute. done. Qed.
