(* ===== verification/TraceMain.v ===== *)
(** * The command line of the trace tool

    [main] of src/src/app/trace-tool/src/main.rs around the conversion of
    [TraceTool.v]: the files named on the command line, read one after the other,
    and [--dump-raw], which prints the parsed events instead of converting them.
    What clap makes of the command line is an argument ([Args]); the file system
    is a map of files; the text of a debug line is left open ([Dump]). *)

From Stdlib Require Import ZArith Lia.
From stdpp Require Import base list strings gmap.
From S2P Require Import Prelude Float64 Nom TraceTool.

Record Args : Type := { dump_raw : bool; inputs : list string }.

(** What a [println!] prints: a line of the conversion, or the debug
    representation of an [Option<TraceEvent>]. *)
Inductive out_line : Type :=
| Json (l : line)
| Dump (ev : option TraceEvent).

Section Main.
Context {N : Nom}.

(** The [dump_raw] branch, up to its [continue]. *)
Definition dump_file (contents : list byte) : list out_line * outcome unit :=
  match parse_trace_events contents with
  | Done _ events => (map Dump events, Ret tt)
  | Unwinding msg => ([], Panic msg)
  | _ => ([], Panic "parsing failed")
  end.

(** The loop over the inputs: [File::open(..).unwrap()] and [read_to_end]. *)
Fixpoint main_loop (fs : gmap string (list byte)) (dump : bool) (names : list string)
    : list out_line * outcome unit :=
  match names with
  | [] => ([], Ret tt)
  | filename :: names =>
      match fs !! filename with
      | None => ([], Panic "called `Result::unwrap()` on an `Err` value")
      | Some contents =>
          let '(out, r) :=
            if dump then dump_file contents
            else let '(out, r) := process_file contents in (map Json out, r) in
          match r with
          | Ret _ => let '(out', r') := main_loop fs dump names in (out ++ out', r')
          | _ => (out, r)
          end
      end
  end.

Definition main (fs : gmap string (list byte)) (args : Args) : list out_line * outcome unit :=
  let '(out, r) := main_loop fs (dump_raw args) (inputs args) in (Json LOpen :: out, r).

Lemma main_loop_app fs dump names1 names2 out :
  main_loop fs dump names1 = (out, Ret tt) ->
  main_loop fs dump (names1 ++ names2) =
    (out ++ fst (main_loop fs dump names2), snd (main_loop fs dump names2)).
Proof.
  revert out. induction names1 as [|n names1 IH]; intros out H.
  - injection H as <-. apply surjective_pairing.
  - cbn [app main_loop] in *. destruct (fs !! n) as [contents|]; [|done].
    destruct (if dump then _ else _) as [o r]. destruct r as [[]|e|m]; [|done|done].
    destruct (main_loop fs dump names1) as [o1 r1]. injection H as <- ->.
    by rewrite (IH o1 eq_refl), app_assoc.
Qed.

Lemma main_loop_convert fs names contents :
  Forall2 (fun n c => fs !! n = Some c) names contents ->
  main_loop fs false names = let '(out, r) := process_files contents in (map Json out, r).
Proof.
  induction 1 as [|n c names contents Hn _ IH]; [done|].
  cbn [main_loop process_files]. rewrite Hn. destruct (process_file c) as [o r].
  destruct r as [[]|e|m]; [|done|done]. rewrite IH.
  destruct (process_files contents) as [o' r']. by rewrite map_app.
Qed.

Lemma main_loop_dump {NL : NomLaws N} fs names traces :
  Forall2 (fun n es => fs !! n = Some (concat (map encode es)) /\ forallb ok_event es = true) names traces ->
  main_loop fs true names = (map (fun e => Dump (Some (event_of e))) (concat traces), Ret tt).
Proof.
  induction 1 as [|n es names traces [Hn Hes] _ IH]; [done|].
  cbn [main_loop]. rewrite Hn. unfold dump_file.
  pose proof (parse_trace_events_app es [] Hes) as E. rewrite app_nil_r in E. rewrite E.
  assert (parse_trace_events [] = Done [] []) as ->.
  { apply parse_trace_events_incomplete. apply (parse_trace_event_short (RPid 1)); [done|apply prefix_nil|].
    vm_compute. lia. }
  cbn [on_done]. rewrite app_nil_r, IH. cbn [concat]. by rewrite map_app, map_map.
Qed.

(** C38: the tool on its command line. It prints an opening bracket first. Without
    [--dump-raw], when all the files exist, what follows are the lines of their
    conversion, in order. With it, what follows is every event of every file,
    in the order written, also of traces that the conversion would refuse, and
    the tool does not stop at the first file. A file that cannot be opened ends
    it with a panic, after the output for the files named before it, and
    without looking at those named later. *)
Theorem main_spec {NL : NomLaws N} (fs : gmap string (list byte)) names contents traces dump missing later :
  (Forall2 (fun n c => fs !! n = Some c) names contents ->
     main fs {| dump_raw := false; inputs := names |} =
       let '(out, r) := trace_main contents in (map Json out, r)) /\
  (Forall2 (fun n es => fs !! n = Some (concat (map encode es)) /\ forallb ok_event es = true) names traces ->
     main fs {| dump_raw := true; inputs := names |} =
       (Json LOpen :: map (fun e => Dump (Some (event_of e))) (concat traces), Ret tt)) /\
  (fs !! missing = None ->
     snd (main fs {| dump_raw := dump; inputs := names |}) = Ret tt ->
     main fs {| dump_raw := dump; inputs := names ++ missing :: later |} =
       (fst (main fs {| dump_raw := dump; inputs := names |}),
        Panic "called `Result::unwrap()` on an `Err` value")).
Proof.
  unfold main, trace_main. cbn [dump_raw inputs]. split; [|split].
  - intros H. rewrite (main_loop_convert _ _ _ H). by destruct (process_files contents).
  - intros H. by rewrite (main_loop_dump _ _ _ H).
  - intros Hm H. destruct (main_loop fs dump names) as [out r] eqn:E. cbn [snd] in H. subst r.
    rewrite (main_loop_app _ _ _ (missing :: later) _ E). cbn [main_loop]. rewrite Hm. cbn [fst snd].
    by rewrite app_nil_r.
Qed.
End Main.

(** The event of a task before any pid: dumped, while the conversion panics. *)
Lemma main_spec_witness :
  let fs : gmap string (list byte) := {[ "a"%string := concat (map encode [RSwitch 1 2]) ]} in
  main fs {| dump_raw := true; inputs := ["a"%string] |} =
    ([Json LOpen; Dump (Some (event_of (RSwitch 1 2)))], Ret tt) /\
  main fs {| dump_raw := true; inputs := ["a"; "b"; "a"]%string |} =
    ([Json LOpen; Dump (Some (event_of (RSwitch 1 2)))], Panic "called `Result::unwrap()` on an `Err` value").
Proof.
  intros fs.
  assert (Forall2 (fun n es => fs !! n = Some (concat (map encode es)) /\ forallb ok_event es = true)
    ["a"%string] [[RSwitch 1 2]]) as H.
  { repeat constructor; vm_compute; reflexivity. }
  destruct (main_spec fs ["a"%string] [concat (map encode [RSwitch 1 2])] [[RSwitch 1 2]] true "b"%string ["a"%string])
    as (_ & Hd & Hm).
  specialize (Hd H). split; [exact Hd|]. rewrite Hd in Hm. apply Hm; reflexivity.
Defined.
