(* ===== verification/Crates.v ===== *)
(** * Interfaces of the number crates

    The bindings wrap types of [num-bigint], [ark-ff] and [mina-curves], which
    are not part of this repository.  What the bindings see of them is:

    - [BigInteger256]: four public 64-bit limbs, which the bindings read and
      build directly, so it is concrete here ([Big]), with its memory image on
      a little-endian machine ([big_mem], [big_of_mem]);
    - [NumBigint], [ArkBigInteger], [PrimeField]: the operations the bindings
      call, as classes, with the documented behaviour in the classes
      [NumBigintLaws], [ArkBigIntegerLaws], [PrimeFieldLaws].

    [Reference.v] has instances that satisfy the laws. *)

From Stdlib Require Import ZArith Lia Eqdep_dec.
From stdpp Require Import base list strings.
From S2P Require Import Prelude.

(** ** Bounded integers *)

Definition in_range (n z : Z) : bool := (0 <=? z) && (z <? n).
(** Integers from 0 to [n - 1]. *)
Definition range (n : Z) : Type := { z : Z | in_range n z = true }.
Definition rval {n} (r : range n) : Z := proj1_sig r.

Lemma in_range_iff n z : in_range n z = true <-> 0 <= z < n.
Proof. unfold in_range. rewrite andb_true_iff, Z.leb_le, Z.ltb_lt. done. Qed.
Lemma rval_range {n} (r : range n) : 0 <= rval r < n.
Proof. destruct r as [z Hz]. simpl. by apply in_range_iff. Qed.
Lemma rval_inj {n} (r1 r2 : range n) : rval r1 = rval r2 -> r1 = r2.
Proof.
  destruct r1 as [z1 H1], r2 as [z2 H2]. simpl. intros <-. f_equal.
  apply UIP_dec, Bool.bool_dec.
Qed.

Definition mk_range (n z : Z) : option (range n) :=
  match Bool.bool_dec (in_range n z) true with
  | left H => Some (exist _ z H)
  | right _ => None
  end.
Lemma mk_range_Some n z : 0 <= z < n -> exists r, mk_range n z = Some r /\ rval r = z.
Proof.
  intros H%in_range_iff. unfold mk_range.
  destruct (Bool.bool_dec _ _) as [H'|]; [|done]. by eexists.
Qed.
Lemma mk_range_None n z : ~ (0 <= z < n) -> mk_range n z = None.
Proof.
  intros H. unfold mk_range. destruct (Bool.bool_dec _ _) as [H'|]; [|done].
  destruct H. by apply in_range_iff.
Qed.
Lemma mk_range_rval {n} (r : range n) : mk_range n (rval r) = Some r.
Proof.
  destruct (mk_range_Some n (rval r) (rval_range r)) as (r' & -> & H).
  f_equal. by apply rval_inj.
Qed.

Abbreviation u64 := (range (2 ^ 64)).
Definition u64_zero : u64 := exist _ 0 eq_refl.
(** The 64-bit word of an integer, modulo 2^64. *)
Definition u64_of (z : Z) : u64 := default u64_zero (mk_range (2 ^ 64) (as_u64 z)).
Lemma u64_of_val z : rval (u64_of z) = as_u64 z.
Proof.
  unfold u64_of. destruct (mk_range_Some (2 ^ 64) (as_u64 z)) as (r & -> & H); [|done].
  apply as_u_range. lia.
Qed.
Lemma u64_of_rval (r : u64) : u64_of (rval r) = r.
Proof. apply rval_inj. rewrite u64_of_val. apply as_u_id, rval_range. Qed.

(** ** BigInteger256 *)

Inductive BigInteger256 : Type := Big (l0 l1 l2 l3 : u64).

Definition big_limbs (x : BigInteger256) : list u64 :=
  let '(Big a b c d) := x in [a; b; c; d].
Definition big_val (x : BigInteger256) : Z :=
  let '(Big a b c d) := x in
  rval a + 2 ^ 64 * (rval b + 2 ^ 64 * (rval c + 2 ^ 64 * rval d)).
(** The 32 bytes of the limbs in memory, and the limbs of 32 bytes. *)
Definition big_mem (x : BigInteger256) : list byte :=
  concat (map (fun l => le_bytes 8 (rval l)) (big_limbs x)).
Definition big_of_mem (l : list byte) : BigInteger256 :=
  Big (u64_of (le_val (take 8 l))) (u64_of (le_val (take 8 (drop 8 l))))
      (u64_of (le_val (take 8 (drop 16 l)))) (u64_of (le_val (take 8 (drop 24 l)))).
Definition big_of_val (z : Z) : BigInteger256 := big_of_mem (le_bytes 32 z).

Lemma big_mem_length x : length (big_mem x) = 32%nat.
Proof. by destruct x. Qed.
Lemma big_val_mem x : le_val (big_mem x) = big_val x.
Proof.
  destruct x as [a b c d]. unfold big_mem. cbn [big_limbs map concat].
  rewrite !le_val_app, !le_bytes_length, !le_val_bytes.
  change (256 ^ Z.of_nat 8) with (2 ^ 64).
  rewrite !Z.mod_small by apply rval_range. cbn [big_val le_val]. ring.
Qed.
Lemma big_val_range x : 0 <= big_val x < 2 ^ 256.
Proof.
  rewrite <-big_val_mem. pose proof (le_val_range (big_mem x)) as H.
  rewrite big_mem_length in H. exact H.
Qed.
Lemma le_val_8 l : (8 <= length l)%nat -> le_bytes 8 (as_u64 (le_val (take 8 l))) = take 8 l.
Proof.
  intros H. pose proof (le_val_range (take 8 l)) as Hr.
  rewrite length_take, Nat.min_l in Hr by done.
  rewrite as_u_id by exact Hr. rewrite <-(le_bytes_val (take 8 l)) at 2.
  by rewrite length_take, Nat.min_l by done.
Qed.
Lemma big_mem_of_mem l : length l = 32%nat -> big_mem (big_of_mem l) = l.
Proof.
  intros H. unfold big_mem, big_of_mem. cbn [big_limbs map concat].
  rewrite !u64_of_val, !le_val_8 by (rewrite ?length_drop; lia).
  assert (forall k, take 8 (drop k l) ++ drop (k + 8) l = drop k l) as Hs
    by (intros; rewrite <-drop_drop; apply take_drop).
  rewrite app_nil_r, (take_ge (drop 24 l)) by (rewrite length_drop; lia).
  pose proof (Hs 16%nat) as H16. pose proof (Hs 8%nat) as H8. simpl in H16, H8.
  rewrite H16, H8. apply take_drop.
Qed.
Lemma big_mem_inj x y : big_mem x = big_mem y -> x = y.
Proof.
  intros H.
  destruct x as [a b c d], y as [a' b' c' d']. unfold big_mem in H. simpl in H.
  cut (forall u v : u64, le_bytes 8 (rval u) = le_bytes 8 (rval v) -> u = v).
  - intros Hi.
    f_equal; apply Hi; simpl; congruence.
  - intros u v Huv. apply (f_equal le_val) in Huv. rewrite !le_val_bytes in Huv.
    change (256 ^ Z.of_nat 8) with (2 ^ 64) in Huv.
    rewrite !Z.mod_small in Huv by apply rval_range. by apply rval_inj.
Qed.
Lemma big_of_mem_mem x : big_of_mem (big_mem x) = x.
Proof. apply big_mem_inj, big_mem_of_mem, big_mem_length. Qed.
Lemma big_val_inj x y : big_val x = big_val y -> x = y.
Proof.
  intros H. apply big_mem_inj, le_val_inj; [by rewrite !big_mem_length|].
  by rewrite !big_val_mem.
Qed.
Lemma big_val_of_mem l : length l = 32%nat -> big_val (big_of_mem l) = le_val l.
Proof. intros H. by rewrite <-big_val_mem, big_mem_of_mem. Qed.
Lemma big_val_of_val z : big_val (big_of_val z) = z mod 2 ^ 256.
Proof.
  unfold big_of_val. rewrite big_val_of_mem by apply le_bytes_length.
  apply le_val_bytes.
Qed.
Lemma big_of_val_val x : big_of_val (big_val x) = x.
Proof.
  apply big_val_inj. rewrite big_val_of_val. apply Z.mod_small, big_val_range.
Qed.
#[export] Hint Rewrite big_mem_length big_val_mem big_of_mem_mem big_of_val_val : bytes.

(** ** num-bigint

    A [BigUint] is a natural number. *)

Abbreviation BigUint := N.

Class NumBigint : Type := {
  parse_bytes : list byte -> Z -> option BigUint;
  to_bytes_le : BigUint -> list byte;
  from_bytes_le : list byte -> BigUint;
  biguint_div : BigUint -> BigUint -> outcome BigUint;
  biguint_to_string : BigUint -> list byte;
}.

Class NumBigintLaws (B : NumBigint) : Prop := {
  parse_to_string n : parse_bytes (biguint_to_string n) 10 = Some n;
  to_bytes_le_val n : le_val (to_bytes_le n) = Z.of_N n;
  to_bytes_le_length n k :
    Z.of_N n < 256 ^ Z.of_nat k -> (0 < k)%nat -> (length (to_bytes_le n) <= k)%nat;
  from_bytes_le_val l : Z.of_N (from_bytes_le l) = le_val l;
  biguint_div_ok n d : d <> 0%N -> biguint_div n d = Ret (n / d)%N;
  biguint_div_zero n : is_panic (biguint_div n 0%N) = true;
}.

(** ** ark-ff: BigInteger256 *)

Class ArkBigInteger : Type := {
  big_try_from : BigUint -> option BigInteger256;    (* TryFrom<BigUint> *)
  big_into : BigInteger256 -> BigUint;               (* Into<BigUint> *)
  big_cmp : BigInteger256 -> BigInteger256 -> comparison;
  big_get_bit : BigInteger256 -> Z -> bool;
  big_serialize : BigInteger256 -> list byte;
  big_deserialize : list byte -> option BigInteger256;
  big_write : BigInteger256 -> list byte;            (* ToBytes::write *)
  limbs_read : list byte -> option BigInteger256;    (* FromBytes::read for [u64; 4] *)
}.

Class ArkBigIntegerLaws (B : ArkBigInteger) : Prop := {
  big_try_from_small n :
    Z.of_N n < 2 ^ 256 -> big_try_from n = Some (big_of_val (Z.of_N n));
  big_try_from_large n : 2 ^ 256 <= Z.of_N n -> big_try_from n = None;
  big_into_val x : Z.of_N (big_into x) = big_val x;
  big_cmp_val x y : big_cmp x y = (big_val x ?= big_val y);
  big_get_bit_val x i :
    0 <= i -> big_get_bit x i = if i <? 256 then Z.testbit (big_val x) i else false;
  big_serialize_mem x : big_serialize x = big_mem x;
  big_deserialize_mem l : length l = 32%nat -> big_deserialize l = Some (big_of_mem l);
  big_write_mem x : big_write x = big_mem x;
  limbs_read_mem l : length l = 32%nat -> limbs_read l = Some (big_of_mem l);
}.

(** ** ark-ff and mina-curves: a prime field of at most 256 bits

    A field element is a 256-bit memory image ([fe_mem], [fe_of_mem]); the
    images below the modulus are the ones arithmetic produces
    ([fe_canonical]). *)

Class PrimeField (F : Type) : Type := {
  fe_mem : F -> list byte;
  fe_of_mem : list byte -> F;
  modulus : BigInteger256;
  modulus_bits : Z;
  modulus_minus_one_div_two : BigInteger256;
  into_repr : F -> BigInteger256;
  from_repr : BigInteger256 -> option F;
  fe_write : F -> list byte;                 (* ToBytes::write *)
  fe_read : list byte -> option F;           (* FromBytes::read *)
  fe_zero : F;
  fe_one : F;
  fe_add : F -> F -> F;
  fe_sub : F -> F -> F;
  fe_mul : F -> F -> F;
  fe_neg : F -> F;
  fe_div : F -> F -> outcome F;              (* panics on zero *)
  fe_square : F -> F;
  fe_inverse : F -> option F;
  fe_sqrt : F -> option F;
  fe_pow : F -> BigInteger256 -> F;
  fe_from_u64 : Z -> F;
  fe_eqb : F -> F -> bool;
  fe_cmp : F -> F -> comparison;
  fe_rand_from_seed : Z -> F;                (* StdRng::seed_from_u64, then rand *)
  two_adic_root_of_unity : F;
  domain_group_gen : Z -> option F;          (* Radix2EvaluationDomain::new *)
}.

(** The value a field element stands for. *)
Definition fe_val {F} `{PrimeField F} (x : F) : Z := big_val (into_repr x).
Definition fe_p {F} `(PF : PrimeField F) : Z := big_val (@modulus F PF).
Definition fe_canonical {F} `{PF : PrimeField F} (x : F) : Prop :=
  le_val (fe_mem x) < fe_p PF.

Class PrimeFieldLaws {F} (PF : PrimeField F) : Prop := {
  modulus_pos : 0 < fe_p PF;
  fe_mem_length x : length (fe_mem x) = 32%nat;
  fe_of_mem_mem x : fe_of_mem (fe_mem x) = x;
  fe_mem_of_mem l : length l = 32%nat -> fe_mem (fe_of_mem l) = l;
  fe_val_range x : fe_canonical x -> fe_val x < fe_p PF;
  from_repr_small b :
    big_val b < fe_p PF -> exists x, from_repr b = Some x /\ fe_canonical x /\ into_repr x = b;
  from_repr_large b : fe_p PF <= big_val b -> from_repr b = None;
  from_into_repr x : fe_canonical x -> from_repr (into_repr x) = Some x;
  fe_write_repr x : fe_write x = big_mem (into_repr x);
  fe_read_repr l : length l = 32%nat -> fe_read l = from_repr (big_of_mem l);
  fe_from_u64_val z :
    0 <= z < 2 ^ 64 -> fe_canonical (fe_from_u64 z) /\ fe_val (fe_from_u64 z) = z mod fe_p PF;
  fe_zero_val : fe_canonical fe_zero /\ fe_val fe_zero = 0;
  fe_one_val : fe_canonical fe_one /\ fe_val fe_one = 1 mod fe_p PF;
  fe_add_val x y : fe_canonical x -> fe_canonical y ->
    fe_canonical (fe_add x y) /\ fe_val (fe_add x y) = (fe_val x + fe_val y) mod fe_p PF;
  fe_sub_val x y : fe_canonical x -> fe_canonical y ->
    fe_canonical (fe_sub x y) /\ fe_val (fe_sub x y) = (fe_val x - fe_val y) mod fe_p PF;
  fe_mul_val x y : fe_canonical x -> fe_canonical y ->
    fe_canonical (fe_mul x y) /\ fe_val (fe_mul x y) = (fe_val x * fe_val y) mod fe_p PF;
  fe_neg_val x : fe_canonical x ->
    fe_canonical (fe_neg x) /\ fe_val (fe_neg x) = (- fe_val x) mod fe_p PF;
  fe_square_mul x : fe_canonical x -> fe_square x = fe_mul x x;
  fe_eqb_eq x y : fe_eqb x y = true <-> x = y;
  fe_cmp_val x y : fe_cmp x y = (fe_val x ?= fe_val y);
}.

Section FieldLemmas.
Context {F : Type} {PF : PrimeField F} {L : PrimeFieldLaws PF}.

Lemma fe_val_inj x y : fe_canonical x -> fe_canonical y -> fe_val x = fe_val y -> x = y.
Proof.
  intros Hx Hy H%big_val_inj.
  apply from_into_repr in Hx, Hy. congruence.
Qed.
Lemma from_repr_val b :
  big_val b < fe_p PF -> exists x, from_repr b = Some x /\ fe_canonical x /\ fe_val x = big_val b.
Proof.
  intros (x & Hx & Hc & Hr)%from_repr_small. exists x. unfold fe_val. by rewrite Hr.
Qed.
End FieldLemmas.
