(* ===== verification/Reference.v ===== *)
(** * Reference implementations of the crate interfaces

    Concrete functions that satisfy the laws of [Crates.v].  They show that
    the laws can hold together, and the witnesses of the theorems run on them.
    [ref_field] is a field in Montgomery form: the memory image of the value
    [z] is [z * 2^256 mod p]. *)

From Stdlib Require Import ZArith Lia.
From stdpp Require Import base list strings.
From S2P Require Import Prelude Crates.

(** ** num-bigint *)

Fixpoint dec_digits (fuel : nat) (n : N) : list byte :=
  match fuel with
  | O => []
  | S fuel =>
      byte_of (48 + Z.of_N (n mod 10)) ::
      (if (n <? 10)%N then [] else dec_digits fuel (n / 10))
  end.
Definition dec_string (n : N) : list byte := reverse (dec_digits (S (N.to_nat (N.log2 n))) n).

Definition digit_of (b : byte) : option N :=
  if (48 <=? byte_val b) && (byte_val b <? 58) then Some (Z.to_N (byte_val b - 48)) else None.
Definition dec_push (acc : option N) (b : byte) : option N :=
  a ← acc; d ← digit_of b; Some (10 * a + d)%N.
Definition dec_parse (l : list byte) : option N :=
  match l with
  | [] => None
  | _ => foldr (fun b acc => dec_push acc b) (Some 0%N) (reverse l)
  end.

Definition byte_count (n : N) : nat := S (Z.to_nat (Z.log2 (Z.of_N n) / 8)).

#[export] Instance ref_bigint : NumBigint := {|
  parse_bytes := fun l radix => if radix =? 10 then dec_parse l else None;
  to_bytes_le := fun n => le_bytes (byte_count n) (Z.of_N n);
  from_bytes_le := fun l => Z.to_N (le_val l);
  biguint_div := fun n d =>
    if (d =? 0)%N then Panic "attempt to divide by zero" else Ret (n / d)%N;
  biguint_to_string := dec_string;
|}.

Lemma digit_of_digit d : (d < 10)%N -> digit_of (byte_of (48 + Z.of_N d)) = Some d.
Proof.
  intros H. unfold digit_of. rewrite byte_val_of, as_u_id by (change (2 ^ 8) with 256; lia).
  rewrite (proj2 (Z.leb_le _ _)), (proj2 (Z.ltb_lt _ _)) by lia. simpl andb. cbn iota.
  f_equal. lia.
Qed.
Lemma dec_digits_value fuel n :
  (n < 2 ^ N.of_nat fuel)%N -> (0 < fuel)%nat ->
  foldr (fun b acc => dec_push acc b) (Some 0%N) (dec_digits fuel n) = Some n.
Proof.
  revert n. induction fuel as [|fuel IH]; intros n Hn Hf; [lia|].
  pose proof (N.div_mod' n 10) as Hd. pose proof (N.mod_lt n 10 ltac:(lia)) as Hm.
  cbn [dec_digits foldr].
  destruct (N.ltb_spec n 10) as [Hs|Hs].
  - simpl foldr. unfold dec_push. simpl.
    rewrite digit_of_digit by done. simpl. f_equal. rewrite N.mod_small by done. lia.
  - destruct fuel as [|fuel].
    { change (N.of_nat 1) with 1%N in Hn. simpl in Hn. lia. }
    rewrite IH; [| |lia].
    + unfold dec_push. cbn [mbind option_bind]. rewrite digit_of_digit by done.
      cbn [mbind option_bind]. f_equal. lia.
    + rewrite Nat2N.inj_succ, N.pow_succ_r' in Hn. apply N.Div0.div_lt_upper_bound. lia.
Qed.
Lemma dec_parse_string n : dec_parse (dec_string n) = Some n.
Proof.
  assert (foldr (fun b acc => dec_push acc b) (Some 0%N) (reverse (dec_string n)) = Some n) as H.
  { unfold dec_string. rewrite reverse_involutive. apply dec_digits_value; [|lia].
    rewrite Nat2N.inj_succ, N2Nat.id.
    destruct (decide (n = 0%N)) as [->|Hn]; [done|]. apply N.log2_spec. lia. }
  unfold dec_parse. destruct (dec_string n) eqn:E; [|done].
  unfold dec_string in E. apply (f_equal length) in E. rewrite length_reverse in E. done.
Qed.

Lemma byte_count_spec n : Z.of_N n < 256 ^ Z.of_nat (byte_count n).
Proof.
  pose proof (Z.div_pos (Z.log2 (Z.of_N n)) 8 (Z.log2_nonneg _) ltac:(lia)) as Hd.
  unfold byte_count. rewrite Nat2Z.inj_succ, Z2Nat.id by done.
  change 256 with (2 ^ 8). rewrite <-Z.pow_mul_r by lia.
  destruct (decide (n = 0%N)) as [->|Hn]; [done|].
  pose proof (Z.log2_spec (Z.of_N n) ltac:(lia)) as [_ H].
  eapply Z.lt_le_trans; [exact H|]. apply Z.pow_le_mono_r; [lia|].
  pose proof (Z.mul_succ_div_gt (Z.log2 (Z.of_N n)) 8). lia.
Qed.
Lemma byte_count_min n k : Z.of_N n < 256 ^ Z.of_nat k -> (0 < k)%nat -> (byte_count n <= k)%nat.
Proof.
  intros H Hk. unfold byte_count.
  destruct (decide (n = 0%N)) as [->|Hn]; [change (1 <= k)%nat; lia|].
  change 256 with (2 ^ 8) in H. rewrite <-Z.pow_mul_r in H by lia.
  apply Z.log2_lt_pow2 in H; [|lia].
  assert (Z.log2 (Z.of_N n) / 8 < Z.of_nat k) by (apply Z.div_lt_upper_bound; lia).
  pose proof (Z.div_pos (Z.log2 (Z.of_N n)) 8 (Z.log2_nonneg _)). lia.
Qed.

#[export] Instance ref_bigint_laws : NumBigintLaws ref_bigint.
Proof.
  constructor; cbn [parse_bytes to_bytes_le from_bytes_le biguint_div biguint_to_string ref_bigint].
  - apply dec_parse_string.
  - intros n. rewrite le_val_bytes. apply Z.mod_small. split; [lia|]. apply byte_count_spec.
  - intros n k H Hk. rewrite le_bytes_length. by apply byte_count_min.
  - intros l. rewrite Z2N.id; [done|]. apply le_val_range.
  - intros n d H. apply N.eqb_neq in H. by rewrite H.
  - done.
Qed.

(** ** BigInteger256 *)

#[export] Instance ref_big : ArkBigInteger := {|
  big_try_from := fun n => if Z.of_N n <? 2 ^ 256 then Some (big_of_val (Z.of_N n)) else None;
  big_into := fun x => Z.to_N (big_val x);
  big_cmp := fun x y => big_val x ?= big_val y;
  big_get_bit := fun x i => if i <? 256 then Z.testbit (big_val x) i else false;
  big_serialize := big_mem;
  big_deserialize := fun l => if (length l =? 32)%nat then Some (big_of_mem l) else None;
  big_write := big_mem;
  limbs_read := fun l => if (length l <? 32)%nat then None else Some (big_of_mem l);
|}.
#[export] Instance ref_big_laws : ArkBigIntegerLaws ref_big.
Proof.
  constructor; simpl; try done.
  - intros n H. by rewrite (proj2 (Z.ltb_lt _ _) H).
  - intros n H. by rewrite (proj2 (Z.ltb_ge _ _) H).
  - intros x. rewrite Z2N.id; [done|]. apply big_val_range.
  - intros l ->. done.
  - intros l ->. done.
Qed.

(** ** A field in Montgomery form *)

Section Field.
Variables (p rinv : Z).

Definition mont_val (x : BigInteger256) : Z := (big_val x * rinv) mod p.
Definition mont_of (z : Z) : BigInteger256 := big_of_val ((z * 2 ^ 256) mod p).
Fixpoint mont_pow (fuel : nat) (x e : Z) : Z :=
  match fuel with
  | O => 1
  | S fuel =>
      let h := mont_pow fuel ((x * x) mod p) (e / 2) in
      if Z.odd e then (x * h) mod p else h
  end.

Definition ref_field : PrimeField BigInteger256 := {|
  fe_mem := big_mem;
  fe_of_mem := big_of_mem;
  modulus := big_of_val p;
  modulus_bits := Z.log2 p + 1;
  modulus_minus_one_div_two := big_of_val ((p - 1) / 2);
  into_repr := fun x => big_of_val (mont_val x);
  from_repr := fun b => if big_val b <? p then Some (mont_of (big_val b)) else None;
  fe_write := fun x => big_mem (big_of_val (mont_val x));
  fe_read := fun l =>
    if (length l <? 32)%nat then None
    else if big_val (big_of_mem l) <? p then Some (mont_of (big_val (big_of_mem l))) else None;
  fe_zero := mont_of 0;
  fe_one := mont_of 1;
  fe_add := fun x y => mont_of (mont_val x + mont_val y);
  fe_sub := fun x y => mont_of (mont_val x - mont_val y);
  fe_mul := fun x y => mont_of (mont_val x * mont_val y);
  fe_neg := fun x => mont_of (- mont_val x);
  fe_div := fun x y =>
    if mont_val y =? 0 then Panic "called `Option::unwrap()` on a `None` value"
    else Ret (mont_of (mont_val x * mont_pow 256 (mont_val y) (p - 2)));
  fe_square := fun x => mont_of (mont_val x * mont_val x);
  fe_inverse := fun x =>
    if mont_val x =? 0 then None else Some (mont_of (mont_pow 256 (mont_val x) (p - 2)));
  fe_sqrt := fun x => if mont_val x =? 0 then Some x else None;
  fe_pow := fun x e => mont_of (mont_pow 256 (mont_val x) (big_val e));
  fe_from_u64 := fun z => mont_of z;
  fe_eqb := fun x y => big_val x =? big_val y;
  fe_cmp := fun x y => mont_val x ?= mont_val y;
  fe_rand_from_seed := fun z => mont_of z;
  two_adic_root_of_unity := mont_of 1;
  domain_group_gen := fun n => if (0 <? n) && (n <=? 2 ^ 32) then Some (mont_of n) else None;
|}.

Hypothesis Hp : 0 < p <= 2 ^ 256.
Hypothesis Hinv : (2 ^ 256 * rinv) mod p = 1 mod p.

Lemma mont_val_range x : 0 <= mont_val x < p.
Proof. apply Z.mod_pos_bound. lia. Qed.
Lemma mont_of_val z : big_val (mont_of z) = (z * 2 ^ 256) mod p.
Proof.
  unfold mont_of. rewrite big_val_of_val. apply Z.mod_small.
  pose proof (Z.mod_pos_bound (z * 2 ^ 256) p). lia.
Qed.
Lemma mont_val_of z : mont_val (mont_of z) = z mod p.
Proof.
  unfold mont_val. rewrite mont_of_val, Zmult_mod_idemp_l, <-Z.mul_assoc.
  rewrite <-Zmult_mod_idemp_r, Hinv, Zmult_mod_idemp_r. f_equal. ring.
Qed.
Lemma mont_of_mont_val x : big_val x < p -> mont_of (mont_val x) = x.
Proof.
  intros H. apply big_val_inj. rewrite mont_of_val. unfold mont_val.
  rewrite Zmult_mod_idemp_l, <-Z.mul_assoc, (Z.mul_comm rinv).
  rewrite <-Zmult_mod_idemp_r, Hinv, Zmult_mod_idemp_r, Z.mul_1_r.
  apply Z.mod_small. pose proof (big_val_range x). lia.
Qed.
Lemma mont_repr x : big_val (big_of_val (mont_val x)) = mont_val x.
Proof. rewrite big_val_of_val. apply Z.mod_small. pose proof (mont_val_range x). lia. Qed.
Lemma mont_canonical z : le_val (big_mem (mont_of z)) < p.
Proof. rewrite big_val_mem, mont_of_val. apply Z.mod_pos_bound. lia. Qed.

Lemma ref_field_laws : (0 < p < 2 ^ 256) -> PrimeFieldLaws ref_field.
Proof.
  intros Hp'.
  assert (fe_p ref_field = p) as Ep.
  { unfold fe_p. cbn [modulus ref_field]. rewrite big_val_of_val. apply Z.mod_small. lia. }
  constructor; unfold fe_canonical, fe_val; rewrite ?Ep;
    cbn [fe_mem fe_of_mem modulus into_repr from_repr fe_write fe_read fe_zero fe_one fe_add fe_sub
         fe_mul fe_neg fe_square fe_from_u64 fe_eqb fe_cmp ref_field];
    try setoid_rewrite mont_repr; try setoid_rewrite big_val_mem.
  all: try (intros; split; [rewrite ?mont_of_val; apply Z.mod_pos_bound; lia | apply mont_val_of]).
  - lia.
  - apply big_mem_length.
  - apply big_of_mem_mem.
  - apply big_mem_of_mem.
  - intros x _. apply mont_val_range.
  - intros b Hb. rewrite (proj2 (Z.ltb_lt _ _) Hb). eexists. split; [done|].
    split; [rewrite mont_of_val; apply Z.mod_pos_bound; lia|].
    rewrite mont_val_of, Z.mod_small; [apply big_of_val_val|].
    pose proof (big_val_range b). lia.
  - intros b Hb. by rewrite (proj2 (Z.ltb_ge _ _) Hb).
  - intros x Hx. pose proof (mont_val_range x).
    rewrite (proj2 (Z.ltb_lt _ _)) by (rewrite ?mont_repr; lia).
    by rewrite ?mont_repr, mont_of_mont_val.
  - done.
  - intros l Hl. by rewrite Hl.
  - done.
  - intros x y. rewrite Z.eqb_eq. split; [apply big_val_inj | by intros ->].
  - done.
Qed.
End Field.

(** The base field of Pallas. *)
Definition pasta_fp_modulus : Z :=
  28948022309329048855892746252171976963363056481941560715954676764349967630337.
Definition pasta_fp_rinv : Z :=
  15353493766103302224812374511606760489073247795810767472367693728416386214313.
#[export] Instance ref_fp : PrimeField BigInteger256 := ref_field pasta_fp_modulus pasta_fp_rinv.
#[export] Instance ref_fp_laws : PrimeFieldLaws ref_fp.
Proof. by apply ref_field_laws; vm_compute. Qed.
