(* ===== verification/BigInt256.v ===== *)
(** * bigint_256.rs: 256-bit integers for OCaml and for JavaScript

    [Stubs] models stubs/src/arkworks/bigint_256.rs (native OCaml: errors are
    OCaml exceptions), [Wasm] models wasm/src/arkworks/bigint_256.rs
    (JavaScript: failures panic), both under
    src/src/lib/crypto/kimchi_bindings.  The two export the same functions;
    the properties say where they agree and where they do not. *)

From Stdlib Require Import ZArith Lia.
From stdpp Require Import base list strings.
From S2P Require Import Prelude Crates Reference.

(** Constants shared by both files. *)
Definition BIGINT256_NUM_BITS : Z := 256.
Definition BIGINT256_LIMB_BITS : Z := 64.
Definition BIGINT256_LIMB_BYTES : Z := BIGINT256_LIMB_BITS / 8.
Definition BIGINT256_NUM_LIMBS : Z :=
  (BIGINT256_NUM_BITS + BIGINT256_LIMB_BITS - 1) / BIGINT256_LIMB_BITS.
Definition BIGINT256_NUM_BYTES : Z := as_u64 BIGINT256_NUM_LIMBS * 8.

(** [Ordering] as the C and JavaScript convention. *)
Definition ordering_code (c : comparison) : Z :=
  match c with Lt => -1 | Eq => 0 | Gt => 1 end.
(** [std::mem::size_of::<BigInteger256>()]: four 64-bit limbs. *)
Definition size_of_big : nat := 32.

Module Stubs.
Section Stubs.
Context {NB : NumBigint} {AB : ArkBigInteger}.

(** [CamlBigInteger256] wraps a [BigInteger256]. *)
Definition CamlBigInteger256 : Type := BigInteger256.

Definition ocaml_compare (x y : CamlBigInteger256) : Z := ordering_code (big_cmp x y).

(** [From<CamlBigInteger256> for BigUint] and [TryFrom<BigUint>]. *)
Definition into_biguint (x : CamlBigInteger256) : BigUint := big_into x.
Definition try_from_biguint (x : BigUint) : option CamlBigInteger256 := big_try_from x.
Definition to_string (x : CamlBigInteger256) : list byte := biguint_to_string (into_biguint x).

Definition caml_bigint_256_of_numeral (s : list byte) (_len base : Z) : outcome CamlBigInteger256 :=
  base ← ok_or (Message "caml_bigint_256_of_numeral") (try_into_u 32 base);
  match parse_bytes s base with
  | Some data => ok_or (Message "caml_bigint_256_of_numeral") (try_from_biguint data)
  | None => Raise (Message "caml_bigint_256_of_numeral")
  end.

Definition caml_bigint_256_of_decimal_string (s : list byte) : outcome CamlBigInteger256 :=
  match parse_bytes s 10 with
  | Some data => ok_or (Message "caml_bigint_256_of_decimal_string") (try_from_biguint data)
  | None => Raise (Message "caml_bigint_256_of_decimal_string")
  end.

Definition caml_bigint_256_num_limbs : Z := as_i64 BIGINT256_NUM_LIMBS.
Definition caml_bigint_256_bytes_per_limb : Z := as_i64 BIGINT256_LIMB_BYTES.

Definition caml_bigint_256_div (x y : CamlBigInteger256) : outcome CamlBigInteger256 :=
  res ← biguint_div (into_biguint x) (into_biguint y);
  expect "BigUint division has a bug" (try_from_biguint res).

Definition caml_bigint_256_compare (x y : CamlBigInteger256) : Z := ordering_code (big_cmp x y).

(** The line printed. *)
Definition caml_bigint_256_print (x : CamlBigInteger256) : list byte := to_string x.
Definition caml_bigint_256_to_string (x : CamlBigInteger256) : list byte := to_string x.

Definition caml_bigint_256_test_bit (x : CamlBigInteger256) (i : Z) : outcome bool :=
  match try_into_u 64 i with
  | Some i => Ret (big_get_bit x i)
  | None => Raise (Invalid_argument "caml_bigint_256_test_bit")
  end.

(** The array written by [serialize] into a zeroed array of the same size; a
    longer serialization would not fit. *)
Definition caml_bigint_256_to_bytes (x : CamlBigInteger256) : outcome (list byte) :=
  let out := big_serialize x in
  _ ← rust_assert (length out <=? size_of_big)%nat "called `Result::unwrap()` on an `Err` value";
  Ret (out ++ replicate (size_of_big - length out) (byte_of 0)).

Definition caml_bigint_256_of_bytes (x : list byte) : outcome CamlBigInteger256 :=
  _ ← (if negb (length x =? size_of_big)%nat
       then Raise (Failure "caml_bigint_256_of_bytes") else Ret tt);
  ok_or (Message "deserialization error") (big_deserialize x).

Definition caml_bigint_256_deep_copy (x : CamlBigInteger256) : CamlBigInteger256 := x.
End Stubs.
End Stubs.

Module Wasm.
Section Wasm.
Context {NB : NumBigint} {AB : ArkBigInteger}.

Definition WasmBigInteger256 : Type := BigInteger256.

(** [FromWasmAbi] and [IntoWasmAbi]: the bytes that cross to JavaScript. *)
Definition from_abi (bytes : list byte) : outcome WasmBigInteger256 :=
  expect "called `Result::unwrap()` on an `Err` value" (limbs_read bytes).
Definition into_abi (x : WasmBigInteger256) : list byte := big_write x.

(** [x.0.as_ptr() as *const u8]: the bytes of the limbs in memory. *)
Definition to_biguint (x : BigInteger256) : BigUint := from_bytes_le (big_mem x).
(** [Vec::resize]: shorter is padded with zeros, longer is cut. *)
Definition vec_resize (n : nat) (l : list byte) : list byte :=
  take n l ++ replicate (n - length l) (byte_of 0).
Definition of_biguint (x : BigUint) : BigInteger256 :=
  let bytes := vec_resize (Z.to_nat BIGINT256_NUM_BYTES) (to_bytes_le x) in
  big_of_mem bytes.

Definition caml_bigint_256_of_numeral (s : list byte) (_len base : Z) : outcome WasmBigInteger256 :=
  match parse_bytes s base with
  | Some data => Ret (of_biguint data)
  | None => Panic "caml_bigint_256_of_numeral"
  end.

Definition caml_bigint_256_of_decimal_string (s : list byte) : outcome WasmBigInteger256 :=
  match parse_bytes s 10 with
  | Some data => Ret (of_biguint data)
  | None => Panic "caml_bigint_256_of_decimal_string"
  end.

Definition caml_bigint_256_num_limbs : Z := BIGINT256_NUM_LIMBS.
Definition caml_bigint_256_bytes_per_limb : Z := BIGINT256_LIMB_BYTES.

Definition caml_bigint_256_div (x y : WasmBigInteger256) : outcome WasmBigInteger256 :=
  res ← biguint_div (to_biguint x) (to_biguint y);
  Ret (of_biguint res).

Definition caml_bigint_256_compare (x y : WasmBigInteger256) : Z := ordering_code (big_cmp x y).
Definition caml_bigint_256_print (x : WasmBigInteger256) : list byte :=
  biguint_to_string (to_biguint x).
Definition caml_bigint_256_to_string (x : WasmBigInteger256) : list byte :=
  biguint_to_string (to_biguint x).

(** [usize] has 32 bits here. *)
Definition caml_bigint_256_test_bit (x : WasmBigInteger256) (i : Z) : outcome bool :=
  match try_into_u 32 i with
  | Some i => Ret (big_get_bit x i)
  | None => Panic "caml_bigint_256_test_bit"
  end.

Definition caml_bigint_256_to_bytes (x : WasmBigInteger256) : list byte := big_serialize x.

Definition caml_bigint_256_of_bytes (x : list byte) : outcome WasmBigInteger256 :=
  _ ← (if negb (length x =? size_of_big)%nat then Panic "caml_bigint_256_of_bytes" else Ret tt);
  expect "deserialization error" (big_deserialize x).

Definition caml_bigint_256_deep_copy (x : WasmBigInteger256) : WasmBigInteger256 := x.
End Wasm.
End Wasm.

(** ** The byte casts of the JavaScript side *)

Section Casts.
Context {NB : NumBigint} {NL : NumBigintLaws NB}.

Lemma to_biguint_val x : Z.of_N (Wasm.to_biguint x) = big_val x.
Proof. unfold Wasm.to_biguint. by rewrite from_bytes_le_val, big_val_mem. Qed.

Lemma vec_resize_length n l : length (Wasm.vec_resize n l) = n.
Proof. unfold Wasm.vec_resize. rewrite length_app, length_take, length_replicate. lia. Qed.

(** Cutting or padding a little-endian number to [n] bytes is reduction modulo
    [256 ^ n]. *)
Lemma vec_resize_val n l : le_val (Wasm.vec_resize n l) = le_val l mod 256 ^ Z.of_nat n.
Proof.
  unfold Wasm.vec_resize. rewrite le_val_app.
  change (byte_of 0) with Byte.x00. rewrite le_val_zeros, Z.mul_0_r, Z.add_0_r.
  rewrite <-(take_drop n l) at 2. rewrite le_val_app.
  destruct (decide (n <= length l)%nat) as [Hn|Hn].
  - rewrite length_take, Nat.min_l by done.
    rewrite Z.mul_comm, Z.mod_add by (pose proof (pow256_pos n); lia).
    symmetry. apply Z.mod_small. pose proof (le_val_range (take n l)) as H.
    by rewrite length_take, Nat.min_l in H.
  - rewrite drop_ge by lia. simpl le_val. rewrite Z.mul_0_r, Z.add_0_r.
    symmetry. apply Z.mod_small. pose proof (le_val_range (take n l)) as [H0 H1]. split; [done|].
    eapply Z.lt_le_trans; [done|]. apply Z.pow_le_mono_r; [lia|]. rewrite length_take. lia.
Qed.

Lemma of_biguint_val n : big_val (Wasm.of_biguint n) = Z.of_N n mod 2 ^ 256.
Proof.
  unfold Wasm.of_biguint. change (Z.to_nat BIGINT256_NUM_BYTES) with 32%nat.
  rewrite big_val_of_mem by apply vec_resize_length.
  by rewrite vec_resize_val, to_bytes_le_val.
Qed.
Lemma of_biguint_eq n : Wasm.of_biguint n = big_of_val (Z.of_N n).
Proof. apply big_val_inj. by rewrite of_biguint_val, big_val_of_val. Qed.
Lemma of_to_biguint x : Wasm.of_biguint (Wasm.to_biguint x) = x.
Proof. by rewrite of_biguint_eq, to_biguint_val, big_of_val_val. Qed.
End Casts.

Lemma big_into_wasm {NB : NumBigint} {NL : NumBigintLaws NB} {AB : ArkBigInteger}
    {AL : ArkBigIntegerLaws AB} x : big_into x = Wasm.to_biguint x.
Proof. apply N2Z.inj. by rewrite big_into_val, to_biguint_val. Qed.

(** ** Properties *)

Section Properties.
Context {NB : NumBigint} {NL : NumBigintLaws NB} {AB : ArkBigInteger} {AL : ArkBigIntegerLaws AB}.

Lemma try_from_biguint_eq n :
  Stubs.try_from_biguint n =
  if Z.of_N n <? 2 ^ 256 then Some (big_of_val (Z.of_N n)) else None.
Proof.
  unfold Stubs.try_from_biguint. destruct (Z.ltb_spec (Z.of_N n) (2 ^ 256)).
  - by rewrite big_try_from_small.
  - by rewrite big_try_from_large.
Qed.

(** C12: decimal strings. A string that is no number is an error on the OCaml
    side and a panic on the JavaScript side; a number below 2^256 gives the
    same value on both; a larger number is an error on the OCaml side, but is
    silently reduced modulo 2^256 on the JavaScript side. *)
Theorem decimal_string_stubs_wasm s :
  match parse_bytes s 10 with
  | None =>
      Stubs.caml_bigint_256_of_decimal_string s
        = Raise (Message "caml_bigint_256_of_decimal_string") /\
      Wasm.caml_bigint_256_of_decimal_string s = Panic "caml_bigint_256_of_decimal_string"
  | Some n =>
      exists x, Wasm.caml_bigint_256_of_decimal_string s = Ret x /\
        big_val x = Z.of_N n mod 2 ^ 256 /\
        Stubs.caml_bigint_256_of_decimal_string s =
          if Z.of_N n <? 2 ^ 256 then Ret x
          else Raise (Message "caml_bigint_256_of_decimal_string")
  end.
Proof.
  unfold Stubs.caml_bigint_256_of_decimal_string, Wasm.caml_bigint_256_of_decimal_string.
  destruct (parse_bytes s 10) as [n|]; [|done].
  eexists. split; [done|]. rewrite of_biguint_eq, big_val_of_val. split; [done|].
  rewrite try_from_biguint_eq. by destruct (Z.of_N n <? 2 ^ 256).
Qed.

(** Printing a 256-bit integer in decimal and parsing the text gives the
    integer back, on both sides and across them. *)
Theorem decimal_string_roundtrip x :
  Stubs.caml_bigint_256_of_decimal_string (Stubs.caml_bigint_256_to_string x) = Ret x /\
  Wasm.caml_bigint_256_of_decimal_string (Wasm.caml_bigint_256_to_string x) = Ret x /\
  Wasm.caml_bigint_256_to_string x = Stubs.caml_bigint_256_to_string x.
Proof.
  unfold Stubs.caml_bigint_256_of_decimal_string, Wasm.caml_bigint_256_of_decimal_string,
    Stubs.caml_bigint_256_to_string, Wasm.caml_bigint_256_to_string, Stubs.to_string,
    Stubs.into_biguint.
  rewrite big_into_wasm, parse_to_string, try_from_biguint_eq, of_to_biguint, to_biguint_val.
  pose proof (big_val_range x).
  rewrite (proj2 (Z.ltb_lt _ _)) by lia. by rewrite big_of_val_val.
Qed.

Lemma biguint_div_cases x y :
  biguint_div (Wasm.to_biguint x) (Wasm.to_biguint y) =
    Ret (Wasm.to_biguint x / Wasm.to_biguint y)%N /\ big_val y <> 0 \/
  is_panic (biguint_div (Wasm.to_biguint x) (Wasm.to_biguint y)) = true /\ big_val y = 0.
Proof.
  rewrite <-(to_biguint_val y). destruct (Wasm.to_biguint y) as [|p] eqn:E.
  - right. split; [apply biguint_div_zero|done].
  - left. split; [by apply biguint_div_ok|done].
Qed.

(** Division. By zero it panics on both sides; otherwise both give the
    truncated quotient, and the OCaml side's check that the quotient fits in
    256 bits never fires. *)
Theorem bigint_div_spec x y :
  (big_val y = 0 ->
     is_panic (Stubs.caml_bigint_256_div x y) = true /\
     is_panic (Wasm.caml_bigint_256_div x y) = true) /\
  (big_val y <> 0 -> exists z,
     Stubs.caml_bigint_256_div x y = Ret z /\ Wasm.caml_bigint_256_div x y = Ret z /\
     big_val z = big_val x / big_val y).
Proof.
  unfold Stubs.caml_bigint_256_div, Wasm.caml_bigint_256_div, Stubs.into_biguint.
  rewrite !big_into_wasm.
  destruct (biguint_div_cases x y) as [[-> Hy]|[Hp Hy]].
  - split; [done|]. intros _. simpl.
    assert (Z.of_N (Wasm.to_biguint x / Wasm.to_biguint y) = big_val x / big_val y) as Hq
      by (rewrite N2Z.inj_div, !to_biguint_val; done).
    pose proof (big_val_range x). pose proof (big_val_range y).
    assert (0 <= big_val x / big_val y <= big_val x).
    { split; [apply Z.div_pos; lia|]. apply Z.div_le_upper_bound; nia. }
    rewrite try_from_biguint_eq, Hq, (proj2 (Z.ltb_lt _ _)) by lia.
    eexists. split; [done|]. split; [by rewrite of_biguint_eq, Hq|].
    rewrite big_val_of_val. apply Z.mod_small. lia.
  - split; [|done]. intros _. by destruct (biguint_div _ _).
Qed.

(** Bytes. Both sides read back the 32 bytes they write, both write what the
    other reads, and a byte string of any other length is an error on the
    OCaml side and a panic on the JavaScript side. *)
Theorem bigint_bytes_roundtrip x l :
  (exists b, Stubs.caml_bigint_256_to_bytes x = Ret b /\ Wasm.caml_bigint_256_to_bytes x = b /\
     le_val b = big_val x /\
     Stubs.caml_bigint_256_of_bytes b = Ret x /\ Wasm.caml_bigint_256_of_bytes b = Ret x /\
     Wasm.from_abi (Wasm.into_abi x) = Ret x) /\
  (if (length l =? 32)%nat
   then exists y, Stubs.caml_bigint_256_of_bytes l = Ret y /\ Wasm.caml_bigint_256_of_bytes l = Ret y /\
          Wasm.caml_bigint_256_to_bytes y = l
   else Stubs.caml_bigint_256_of_bytes l = Raise (Failure "caml_bigint_256_of_bytes") /\
        Wasm.caml_bigint_256_of_bytes l = Panic "caml_bigint_256_of_bytes").
Proof.
  unfold Stubs.caml_bigint_256_to_bytes, Wasm.caml_bigint_256_to_bytes,
    Stubs.caml_bigint_256_of_bytes, Wasm.caml_bigint_256_of_bytes, Wasm.from_abi, Wasm.into_abi,
    size_of_big.
  split.
  - rewrite big_serialize_mem. exists (big_mem x).
    rewrite big_mem_length, big_deserialize_mem, big_write_mem, limbs_read_mem by apply big_mem_length.
    simpl replicate. rewrite app_nil_r, big_of_mem_mem, big_val_mem. done.
  - destruct (Nat.eqb_spec (length l) 32) as [Hl|Hl]; simpl; [|done].
    rewrite big_deserialize_mem by done. exists (big_of_mem l).
    by rewrite big_serialize_mem, big_mem_of_mem.
Qed.

(** Bits and order. Bit [i] of the value is read for every [0 <= i < 256]
    and higher bits are clear; a negative index is an error (OCaml) or a panic
    (JavaScript). Comparison is comparison of the values. *)
Theorem bigint_bits_and_order x y i :
  (0 <= i < 2 ^ 31 ->
     Stubs.caml_bigint_256_test_bit x i = Ret (Z.testbit (big_val x) i) /\
     Wasm.caml_bigint_256_test_bit x i = Ret (Z.testbit (big_val x) i)) /\
  (i < 0 ->
     Stubs.caml_bigint_256_test_bit x i = Raise (Invalid_argument "caml_bigint_256_test_bit") /\
     Wasm.caml_bigint_256_test_bit x i = Panic "caml_bigint_256_test_bit") /\
  Stubs.caml_bigint_256_compare x y = Z.sgn (big_val x - big_val y) /\
  Wasm.caml_bigint_256_compare x y = Z.sgn (big_val x - big_val y) /\
  Stubs.ocaml_compare x y = Z.sgn (big_val x - big_val y) /\
  (Wasm.caml_bigint_256_compare x y = 0 -> x = y).
Proof.
  assert (forall a b : Z, ordering_code (a ?= b) = Z.sgn (a - b)) as Ho.
  { intros a b. destruct (Z.compare_spec a b); simpl; lia. }
  unfold Stubs.caml_bigint_256_test_bit, Wasm.caml_bigint_256_test_bit,
    Stubs.caml_bigint_256_compare, Wasm.caml_bigint_256_compare, Stubs.ocaml_compare, try_into_u.
  rewrite !big_cmp_val, !Ho.
  split; [|split; [|split; [done|split; [done|split; [done|]]]]].
  - intros Hi. rewrite (proj2 (Z.leb_le 0 i)), !(proj2 (Z.ltb_lt i _)) by lia. cbn [andb].
    rewrite big_get_bit_val by lia. destruct (Z.ltb_spec i 256); [done|].
    rewrite Z.bits_above_log2; [done| |].
    + apply big_val_range.
    + pose proof (big_val_range x) as [Hx0 Hx].
      destruct (decide (big_val x = 0)) as [->|Hn]; [simpl; lia|].
      apply Z.log2_lt_pow2 in Hx; lia.
  - intros Hi. by rewrite (proj2 (Z.leb_gt 0 i)) by lia.
  - intros H. apply big_val_inj. lia.
Qed.
End Properties.

(** ** Witnesses *)

Definition two_to_256_plus_5 : list byte := bytes_of_string
  "115792089237316195423570985008687907853269984665640564039457584007913129639941".

Lemma decimal_string_stubs_wasm_witness :
  exists x, Wasm.caml_bigint_256_of_decimal_string two_to_256_plus_5 = Ret x /\ big_val x = 5 /\
    Stubs.caml_bigint_256_of_decimal_string two_to_256_plus_5
    = Raise (Message "caml_bigint_256_of_decimal_string").
Proof.
  pose proof (decimal_string_stubs_wasm two_to_256_plus_5) as H.
  assert (parse_bytes two_to_256_plus_5 10 = Some (2 ^ 256 + 5)%N) as Hp
    by (vm_compute; reflexivity).
  rewrite Hp in H. destruct H as (x & H1 & H2 & H3).
  exists x. split; [exact H1|]. split; [rewrite H2; vm_compute; reflexivity|].
  rewrite H3. vm_compute. reflexivity.
Defined.

Lemma decimal_string_roundtrip_witness :
  Stubs.caml_bigint_256_of_decimal_string (bytes_of_string "1234") = Ret (big_of_val 1234) /\
  Wasm.caml_bigint_256_to_string (big_of_val 1234) = bytes_of_string "1234".
Proof.
  destruct (decimal_string_roundtrip (big_of_val 1234)) as (H1 & _ & H3).
  replace (bytes_of_string "1234") with (Stubs.caml_bigint_256_to_string (big_of_val 1234))
    by (vm_compute; reflexivity).
  split; [exact H1 | exact H3].
Defined.

Lemma bigint_div_spec_witness :
  is_panic (Stubs.caml_bigint_256_div (big_of_val 7) (big_of_val 0)) = true /\
  exists z, Wasm.caml_bigint_256_div (big_of_val 1000) (big_of_val 7) = Ret z /\ big_val z = 142.
Proof.
  split.
  - apply (bigint_div_spec (big_of_val 7) (big_of_val 0)). vm_compute. reflexivity.
  - destruct (proj2 (bigint_div_spec (big_of_val 1000) (big_of_val 7))) as (z & _ & H & Hv);
      [vm_compute; discriminate|].
    exists z. split; [exact H|]. rewrite Hv. vm_compute. reflexivity.
Defined.

Lemma bigint_bytes_roundtrip_witness :
  Stubs.caml_bigint_256_of_bytes (le_bytes 32 77) = Ret (big_of_val 77) /\
  Stubs.caml_bigint_256_of_bytes [] = Raise (Failure "caml_bigint_256_of_bytes").
Proof.
  destruct (bigint_bytes_roundtrip (big_of_val 77) []) as [(b & _ & Hb & _ & Hs & _) [He _]].
  split; [|exact He].
  rewrite <-Hb in Hs. exact Hs.
Defined.

Lemma bigint_bits_and_order_witness :
  Stubs.caml_bigint_256_test_bit (big_of_val 6) 2 = Ret true /\
  Wasm.caml_bigint_256_test_bit (big_of_val 6) (-1) = Panic "caml_bigint_256_test_bit" /\
  Wasm.caml_bigint_256_compare (big_of_val 6) (big_of_val 9) = -1.
Proof.
  destruct (bigint_bits_and_order (big_of_val 6) (big_of_val 9) 2) as (H1 & _ & _ & H3 & _).
  destruct (bigint_bits_and_order (big_of_val 6) (big_of_val 9) (-1)) as (_ & H2 & _).
  split; [|split].
  - rewrite (proj1 (H1 ltac:(lia))). vm_compute. reflexivity.
  - apply H2. lia.
  - rewrite H3. vm_compute. reflexivity.
Defined.
