(* ===== verification/PastaField.v ===== *)
(** * pasta_fp.rs: the field of Pallas for OCaml and for JavaScript

    [Stubs] models stubs/src/arkworks/pasta_fp.rs and [Wasm] models
    wasm/src/arkworks/pasta_fp.rs (under
    src/src/lib/crypto/kimchi_bindings), over any prime field of [Crates.v].
    OCaml holds field elements behind pointers: functions that only read are
    functions of the values pointed to; the ones that write ([copy] and the
    [mut_] functions) act on a heap, where two arguments may be the same
    pointer. *)

From Stdlib Require Import ZArith Lia.
From stdpp Require Import base list strings gmap.
From S2P Require Import Prelude Crates Reference BigInt256.

(** [std::mem::size_of::<Fp>()]: a field element is four 64-bit limbs. *)
Definition size_of_fp : nat := 32.

(** [s.is_zero() || s.is_one()] *)
Definition is_zero_or_one {F} {PF : PrimeField F} (s : F) : bool :=
  fe_eqb s fe_zero || fe_eqb s fe_one.

(** The OCaml heap cells that hold field elements. *)
Abbreviation loc := positive.
Abbreviation heap F := (gmap loc F).

Module Stubs.
Section Stubs.
Context {NB : NumBigint} {AB : ArkBigInteger} {F : Type} {PF : PrimeField F}.

(** [CamlFp] wraps an [Fp]. *)
Abbreviation CamlFp := F.

Definition ocaml_compare (x y : CamlFp) : Z := ordering_code (big_cmp (into_repr x) (into_repr y)).

Definition try_from_bigint (x : BigInt256.Stubs.CamlBigInteger256) : outcome CamlFp :=
  ok_or (Message "TryFrom<CamlBigInteger256>: integer is larger than order") (from_repr x).

Definition caml_pasta_fp_size_in_bits : Z := modulus_bits.
Definition caml_pasta_fp_size : BigInt256.Stubs.CamlBigInteger256 := modulus.

Definition caml_pasta_fp_add (x y : CamlFp) : CamlFp := fe_add x y.
Definition caml_pasta_fp_sub (x y : CamlFp) : CamlFp := fe_sub x y.
Definition caml_pasta_fp_negate (x : CamlFp) : CamlFp := fe_neg x.
Definition caml_pasta_fp_mul (x y : CamlFp) : CamlFp := fe_mul x y.
Definition caml_pasta_fp_div (x y : CamlFp) : outcome CamlFp := fe_div x y.
Definition caml_pasta_fp_inv (x : CamlFp) : option CamlFp := fe_inverse x.
Definition caml_pasta_fp_square (x : CamlFp) : CamlFp := fe_square x.
Definition caml_pasta_fp_is_square (x : CamlFp) : bool :=
  let s := fe_pow x modulus_minus_one_div_two in is_zero_or_one s.
Definition caml_pasta_fp_sqrt (x : CamlFp) : option CamlFp := fe_sqrt x.

(** [ocaml::Int] is a signed machine word; the cast is [i as u64]. *)
Definition caml_pasta_fp_of_int (i : Z) : CamlFp := fe_from_u64 (as_u64 i).

Definition caml_pasta_fp_to_string (x : CamlFp) : list byte :=
  BigInt256.Stubs.to_string (into_repr x).

Definition caml_pasta_fp_of_string (s : list byte) : outcome CamlFp :=
  biguint ← ok_or (Message "caml_pasta_fp_of_string: couldn't parse input") (parse_bytes s 10);
  camlbigint ← ok_or (Message "caml_pasta_fp_of_string: Biguint is too large")
                 (BigInt256.Stubs.try_from_biguint biguint);
  map_err (fun _ => Message "caml_pasta_fp_of_string") (try_from_bigint camlbigint).

(** The line printed. *)
Definition caml_pasta_fp_print (x : CamlFp) : list byte :=
  BigInt256.Stubs.to_string (into_repr x).

(** [None]: a pointer that is not allocated, which OCaml never passes. *)
Definition caml_pasta_fp_copy (h : heap CamlFp) (x y : loc) : option (heap CamlFp) :=
  _ ← h !! x; vy ← h !! y; Some (<[x := vy]> h).
Definition caml_pasta_fp_mut_add (h : heap CamlFp) (x y : loc) : option (heap CamlFp) :=
  vx ← h !! x; vy ← h !! y; Some (<[x := fe_add vx vy]> h).
Definition caml_pasta_fp_mut_sub (h : heap CamlFp) (x y : loc) : option (heap CamlFp) :=
  vx ← h !! x; vy ← h !! y; Some (<[x := fe_sub vx vy]> h).
Definition caml_pasta_fp_mut_mul (h : heap CamlFp) (x y : loc) : option (heap CamlFp) :=
  vx ← h !! x; vy ← h !! y; Some (<[x := fe_mul vx vy]> h).
Definition caml_pasta_fp_mut_square (h : heap CamlFp) (x : loc) : option (heap CamlFp) :=
  vx ← h !! x; Some (<[x := fe_square vx]> h).

Definition caml_pasta_fp_compare (x y : CamlFp) : Z :=
  ordering_code (big_cmp (into_repr x) (into_repr y)).
Definition caml_pasta_fp_equal (x y : CamlFp) : bool := fe_eqb x y.

(** [i as u32] first, then widened. *)
Definition caml_pasta_fp_rng (i : Z) : CamlFp := fe_rand_from_seed (as_u32 i).

Definition caml_pasta_fp_to_bigint (x : CamlFp) : BigInt256.Stubs.CamlBigInteger256 := into_repr x.
Definition caml_pasta_fp_of_bigint (x : BigInt256.Stubs.CamlBigInteger256) : outcome CamlFp :=
  ok_or (DynError "caml_pasta_fp_of_bigint was given an invalid CamlBigInteger256") (from_repr x).

Definition caml_pasta_fp_two_adic_root_of_unity : CamlFp := two_adic_root_of_unity.

Definition caml_pasta_fp_domain_generator (overflow_checks : bool) (log2_size : Z) : outcome CamlFp :=
  n ← shl_one overflow_checks 64 log2_size;
  ok_or (Message "caml_pasta_fp_domain_generator") (domain_group_gen n).

(** The array written into 32 zeroed bytes; a longer text would not fit. *)
Definition caml_pasta_fp_to_bytes (x : CamlFp) : outcome (list byte) :=
  let out := fe_write x in
  _ ← rust_assert (length out <=? size_of_fp)%nat "called `Result::unwrap()` on an `Err` value";
  Ret (out ++ replicate (size_of_fp - length out) (byte_of 0)).

(** [*(x.as_ptr() as *const CamlFp)]: the bytes are taken as the element's
    memory. *)
Definition caml_pasta_fp_of_bytes (x : list byte) : outcome CamlFp :=
  _ ← (if negb (length x =? size_of_fp)%nat
       then Raise (Failure "caml_pasta_fp_of_bytes") else Ret tt);
  Ret (fe_of_mem x).

Definition caml_pasta_fp_deep_copy (x : CamlFp) : CamlFp := x.
End Stubs.
End Stubs.

Module Wasm.
Section Wasm.
Context {NB : NumBigint} {AB : ArkBigInteger} {F : Type} {PF : PrimeField F}.

(** [WasmPastaFp] wraps an [Fp]. *)
Abbreviation WasmPastaFp := F.

(** [FlatVectorElem] *)
Definition FLATTENED_SIZE : nat := size_of_fp.
Definition flatten (x : WasmPastaFp) : list byte := fe_write x.
Definition unflatten (flat : list byte) : outcome WasmPastaFp :=
  expect "called `Result::unwrap()` on an `Err` value" (fe_read flat).

(** [FromWasmAbi] and [IntoWasmAbi] *)
Definition from_abi (bytes : list byte) : outcome WasmPastaFp :=
  expect "called `Result::unwrap()` on an `Err` value" (fe_read bytes).
Definition into_abi (x : WasmPastaFp) : list byte := fe_write x.

Definition caml_pasta_fp_size_in_bits : Z := modulus_bits.
Definition caml_pasta_fp_size : BigInt256.Wasm.WasmBigInteger256 := modulus.

Definition caml_pasta_fp_add (x y : WasmPastaFp) : WasmPastaFp := fe_add x y.
Definition caml_pasta_fp_sub (x y : WasmPastaFp) : WasmPastaFp := fe_sub x y.
Definition caml_pasta_fp_negate (x : WasmPastaFp) : WasmPastaFp := fe_neg x.
Definition caml_pasta_fp_mul (x y : WasmPastaFp) : WasmPastaFp := fe_mul x y.
Definition caml_pasta_fp_div (x y : WasmPastaFp) : outcome WasmPastaFp := fe_div x y.
Definition caml_pasta_fp_inv (x : WasmPastaFp) : option WasmPastaFp := fe_inverse x.
Definition caml_pasta_fp_square (x : WasmPastaFp) : WasmPastaFp := fe_square x.
Definition caml_pasta_fp_is_square (x : WasmPastaFp) : bool :=
  let s := fe_pow x modulus_minus_one_div_two in is_zero_or_one s.
Definition caml_pasta_fp_sqrt (x : WasmPastaFp) : option WasmPastaFp := fe_sqrt x.

(** [i : i32]: wasm-bindgen keeps the low 32 bits of JavaScript's number;
    [i as u64] sign-extends. *)
Definition caml_pasta_fp_of_int (i : Z) : WasmPastaFp := fe_from_u64 (as_u64 (as_i32 i)).

Definition caml_pasta_fp_to_string (x : WasmPastaFp) : list byte :=
  biguint_to_string (BigInt256.Wasm.to_biguint (into_repr x)).

Definition caml_pasta_fp_of_string (s : list byte) : outcome WasmPastaFp :=
  biguint ← ok_or (JsError "caml_pasta_fp_of_string") (parse_bytes s 10);
  match from_repr (BigInt256.Wasm.of_biguint biguint) with
  | Some x => Ret x
  | None => Raise (JsError "caml_pasta_fp_of_string")
  end.

Definition caml_pasta_fp_print (x : WasmPastaFp) : list byte :=
  biguint_to_string (BigInt256.Wasm.to_biguint (into_repr x)).

Definition caml_pasta_fp_compare (x y : WasmPastaFp) : Z := ordering_code (fe_cmp x y).
Definition caml_pasta_fp_equal (x y : WasmPastaFp) : bool := fe_eqb x y.
Definition caml_pasta_fp_rng (i : Z) : WasmPastaFp := fe_rand_from_seed (as_u32 i).

Definition caml_pasta_fp_to_bigint (x : WasmPastaFp) : BigInt256.Wasm.WasmBigInteger256 := into_repr x.
Definition caml_pasta_fp_of_bigint (x : BigInt256.Wasm.WasmBigInteger256) : outcome WasmPastaFp :=
  match from_repr x with
  | Some x => Ret x
  | None => Raise (JsError "caml_pasta_fp_of_bigint")
  end.

Definition caml_pasta_fp_two_adic_root_of_unity : WasmPastaFp := two_adic_root_of_unity.

Definition caml_pasta_fp_domain_generator (overflow_checks : bool) (log2_size : Z) : outcome WasmPastaFp :=
  n ← shl_one overflow_checks 32 log2_size;
  expect "caml_pasta_fp_domain_generator" (domain_group_gen n).

(** The element is stored into the bytes of the vector. *)
Definition caml_pasta_fp_to_bytes (x : WasmPastaFp) : list byte := fe_mem x.
Definition caml_pasta_fp_of_bytes (x : list byte) : outcome WasmPastaFp :=
  _ ← (if negb (length x =? size_of_fp)%nat then Panic "caml_pasta_fp_of_bytes" else Ret tt);
  Ret (fe_of_mem x).

Definition caml_pasta_fp_deep_copy (x : WasmPastaFp) : WasmPastaFp := x.
End Wasm.
End Wasm.

(** ** Properties *)

Section Properties.
Context {NB : NumBigint} {NL : NumBigintLaws NB} {AB : ArkBigInteger} {AL : ArkBigIntegerLaws AB}.
Context {F : Type} {PF : PrimeField F} {PL : PrimeFieldLaws PF}.

Lemma fe_p_range : 0 < fe_p PF < 2 ^ 256.
Proof. split; [apply modulus_pos|]. apply big_val_range. Qed.

(** Both sides convert integers below 2^256 with [from_repr]. *)
Lemma from_repr_of_val z :
  0 <= z < 2 ^ 256 ->
  (z < fe_p PF /\ exists x, from_repr (big_of_val z) = Some x /\ fe_canonical x /\ fe_val x = z) \/
  (fe_p PF <= z /\ from_repr (F := F) (big_of_val z) = None).
Proof.
  intros Hz. assert (big_val (big_of_val z) = z) as Hv
    by (rewrite big_val_of_val; by apply Z.mod_small).
  destruct (Z.lt_ge_cases z (fe_p PF)) as [Hlt|Hge].
  - left. split; [done|]. destruct (from_repr_val (big_of_val z)) as (x & ? & ? & Hx); [by rewrite Hv|].
    exists x. by rewrite Hx, Hv.
  - right. split; [done|]. apply from_repr_large. by rewrite Hv.
Qed.

Lemma fe_write_val x : le_val (fe_write x) = fe_val x.
Proof. by rewrite fe_write_repr, big_val_mem. Qed.
Lemma fe_write_length x : length (fe_write x) = 32%nat.
Proof. by rewrite fe_write_repr, big_mem_length. Qed.
Lemma fe_read_write x : fe_canonical x -> fe_read (fe_write x) = Some x.
Proof.
  intros Hx. rewrite fe_read_repr by apply fe_write_length.
  rewrite fe_write_repr, big_of_mem_mem. by apply from_into_repr.
Qed.
Lemma stubs_to_bytes_write x : Stubs.caml_pasta_fp_to_bytes x = Ret (fe_write x).
Proof.
  unfold Stubs.caml_pasta_fp_to_bytes. rewrite fe_write_length. simpl.
  by rewrite app_nil_r.
Qed.

(** C13: decimal strings into the field. Text that is no number is an error on
    both sides; a number below the order gives the element of that value; a
    number between the order and 2^256 is an error on both; above 2^256 the
    OCaml side reports an error, while the JavaScript side reduces modulo
    2^256 first and accepts the string whenever the remainder is below the
    order. *)
Theorem fp_of_string_spec s :
  match parse_bytes s 10 with
  | None =>
      Stubs.caml_pasta_fp_of_string (F := F) s
        = Raise (Message "caml_pasta_fp_of_string: couldn't parse input") /\
      Wasm.caml_pasta_fp_of_string (F := F) s = Raise (JsError "caml_pasta_fp_of_string")
  | Some n =>
      (exists x, fe_canonical x /\ fe_val x = Z.of_N n mod 2 ^ 256 /\
         Z.of_N n mod 2 ^ 256 < fe_p PF /\
         Wasm.caml_pasta_fp_of_string (F := F) s = Ret x /\
         Stubs.caml_pasta_fp_of_string s =
           if Z.of_N n <? 2 ^ 256 then Ret x
           else Raise (Message "caml_pasta_fp_of_string: Biguint is too large")) \/
      (fe_p PF <= Z.of_N n mod 2 ^ 256 /\
         Wasm.caml_pasta_fp_of_string (F := F) s = Raise (JsError "caml_pasta_fp_of_string") /\
         Stubs.caml_pasta_fp_of_string (F := F) s =
           Raise (Message (if Z.of_N n <? 2 ^ 256 then "caml_pasta_fp_of_string"
                           else "caml_pasta_fp_of_string: Biguint is too large")))
  end.
Proof.
  unfold Stubs.caml_pasta_fp_of_string, Wasm.caml_pasta_fp_of_string.
  destruct (parse_bytes s 10) as [n|]; [|done]. cbn [ok_or mbind outcome_bind].
  rewrite try_from_biguint_eq, of_biguint_eq.
  assert (0 <= Z.of_N n mod 2 ^ 256 < 2 ^ 256) as Hm by (apply Z.mod_pos_bound; lia).
  assert (big_of_val (Z.of_N n) = big_of_val (Z.of_N n mod 2 ^ 256)) as E.
  { apply big_val_inj. by rewrite !big_val_of_val, Z.mod_mod by lia. }
  rewrite E. unfold Stubs.try_from_bigint.
  destruct (from_repr_of_val _ Hm) as [(Hlt & x & Hx & Hc & Hv)|(Hge & Hn)].
  - left. exists x. rewrite Hx. repeat (split; [done|]). by destruct (_ <? _); cbn; rewrite ?Hx.
  - right. rewrite Hn. repeat (split; [done|]). by destruct (_ <? _); cbn; rewrite ?Hn.
Qed.

(** Printing an element in decimal and parsing the text gives it back, on
    both sides and across them, and so does the conversion to a 256-bit integer
    and back; an integer at or above the order is refused. *)
Theorem fp_string_bigint_roundtrip (x : F) (b : BigInteger256) :
  fe_canonical x ->
  Stubs.caml_pasta_fp_of_string (Stubs.caml_pasta_fp_to_string x) = Ret x /\
  Wasm.caml_pasta_fp_of_string (Wasm.caml_pasta_fp_to_string x) = Ret x /\
  Wasm.caml_pasta_fp_to_string x = Stubs.caml_pasta_fp_to_string x /\
  Stubs.caml_pasta_fp_of_bigint (Stubs.caml_pasta_fp_to_bigint x) = Ret x /\
  Wasm.caml_pasta_fp_of_bigint (Wasm.caml_pasta_fp_to_bigint x) = Ret x /\
  (forall y, Stubs.caml_pasta_fp_of_bigint b = Ret y <-> Wasm.caml_pasta_fp_of_bigint b = Ret y) /\
  is_ret (Stubs.caml_pasta_fp_of_bigint b) = (big_val b <? fe_p PF).
Proof.
  intros Hx.
  assert (Wasm.caml_pasta_fp_to_string x = Stubs.caml_pasta_fp_to_string x) as Es.
  { unfold Wasm.caml_pasta_fp_to_string, Stubs.caml_pasta_fp_to_string, BigInt256.Stubs.to_string,
      BigInt256.Stubs.into_biguint. by rewrite big_into_wasm. }
  unfold Stubs.caml_pasta_fp_of_string, Wasm.caml_pasta_fp_of_string. rewrite <-Es.
  unfold Wasm.caml_pasta_fp_to_string. rewrite parse_to_string.
  cbn [ok_or mbind outcome_bind]. rewrite try_from_biguint_eq, of_to_biguint, to_biguint_val.
  pose proof (big_val_range (into_repr x)). rewrite (proj2 (Z.ltb_lt _ _)) by lia.
  rewrite big_of_val_val. cbn [ok_or mbind outcome_bind]. unfold Stubs.try_from_bigint.
  unfold Stubs.caml_pasta_fp_of_bigint, Wasm.caml_pasta_fp_of_bigint, Stubs.caml_pasta_fp_to_bigint,
    Wasm.caml_pasta_fp_to_bigint.
  rewrite from_into_repr by done. repeat (split; [done|]).
  split; [intros y; by destruct (from_repr b); simpl; split; try discriminate; intros [= ->]|].
  destruct (Z.ltb_spec (big_val b) (fe_p PF)) as [Hb|Hb].
  - apply (from_repr_small b) in Hb as (y & -> & _). done.
  - by rewrite (from_repr_large b Hb).
Qed.

(** C15: bytes of field elements. On the JavaScript side [to_bytes] and
    [of_bytes] are inverse: both use the bytes the element has in memory. On
    the OCaml side [to_bytes] writes the 32 bytes of the element's value but
    [of_bytes] takes its bytes as memory: reading back what was written gives
    the element exactly when memory and value are the same bytes, and the two
    sides write the same bytes for exactly those elements. Every other length
    is refused. *)
Theorem fp_bytes_spec (x : F) (l : list byte) :
  Wasm.caml_pasta_fp_of_bytes (Wasm.caml_pasta_fp_to_bytes x) = Ret x /\
  (exists w, Stubs.caml_pasta_fp_to_bytes x = Ret w /\ length w = 32%nat /\ le_val w = fe_val x /\
     (Stubs.caml_pasta_fp_of_bytes w = Ret x <-> le_val (fe_mem x) = fe_val x) /\
     (Wasm.caml_pasta_fp_to_bytes x = w <-> le_val (fe_mem x) = fe_val x)) /\
  (length l = 32%nat ->
     exists y, Wasm.caml_pasta_fp_of_bytes l = Ret y /\ Stubs.caml_pasta_fp_of_bytes l = Ret y /\
       Wasm.caml_pasta_fp_to_bytes y = l) /\
  (length l <> 32%nat ->
     is_panic (Wasm.caml_pasta_fp_of_bytes (F := F) l) = true /\
     Stubs.caml_pasta_fp_of_bytes (F := F) l = Raise (Failure "caml_pasta_fp_of_bytes")).
Proof.
  unfold Stubs.caml_pasta_fp_of_bytes, Wasm.caml_pasta_fp_of_bytes, Wasm.caml_pasta_fp_to_bytes,
    size_of_fp.
  rewrite fe_mem_length, stubs_to_bytes_write. split; [cbn; by rewrite fe_of_mem_mem|].
  assert (forall w, length w = 32%nat -> fe_of_mem w = x <-> le_val (fe_mem x) = le_val w) as Hw.
  { intros w Hw. split; [intros <-; by rewrite fe_mem_of_mem|].
    intros E%le_val_inj; [by rewrite <-E, fe_of_mem_mem|by rewrite fe_mem_length]. }
  repeat split.
  - exists (fe_write x). rewrite fe_write_length, fe_write_val. repeat (split; [done|]). cbn.
    rewrite <-(fe_write_val x). split.
    + rewrite <-Hw by apply fe_write_length. split; [by intros [= ->]|by intros ->].
    + split; [by intros ->|]. intros E%le_val_inj; [done|].
      by rewrite fe_mem_length, fe_write_length.
  - intros H. rewrite H. cbn. eexists. split; [done|]. split; [done|]. by apply fe_mem_of_mem.
  - apply Nat.eqb_neq in H. by rewrite H.
  - apply Nat.eqb_neq in H. by rewrite H.
Qed.

(** The JavaScript ABI and the flat vectors carry the value, so they give
    back every element arithmetic produces; and all the arithmetic of the two
    sides is that of the integers modulo the order and stays canonical, the
    comparison is the order of the values, and equality holds exactly for
    compare = 0. *)
Theorem fp_arith_spec (x y : F) :
  fe_canonical x -> fe_canonical y ->
  let p := fe_p PF in
  (fe_canonical (Stubs.caml_pasta_fp_add x y) /\
     fe_val (Stubs.caml_pasta_fp_add x y) = (fe_val x + fe_val y) mod p) /\
  (fe_canonical (Stubs.caml_pasta_fp_sub x y) /\
     fe_val (Stubs.caml_pasta_fp_sub x y) = (fe_val x - fe_val y) mod p) /\
  (fe_canonical (Stubs.caml_pasta_fp_mul x y) /\
     fe_val (Stubs.caml_pasta_fp_mul x y) = (fe_val x * fe_val y) mod p) /\
  fe_val (Stubs.caml_pasta_fp_negate x) = (- fe_val x) mod p /\
  fe_val (Stubs.caml_pasta_fp_square x) = (fe_val x * fe_val x) mod p /\
  (Wasm.caml_pasta_fp_add x y = Stubs.caml_pasta_fp_add x y /\
   Wasm.caml_pasta_fp_sub x y = Stubs.caml_pasta_fp_sub x y /\
   Wasm.caml_pasta_fp_mul x y = Stubs.caml_pasta_fp_mul x y /\
   Wasm.caml_pasta_fp_negate x = Stubs.caml_pasta_fp_negate x) /\
  Stubs.caml_pasta_fp_add (Stubs.caml_pasta_fp_sub x y) y = x /\
  Stubs.caml_pasta_fp_compare x y = Wasm.caml_pasta_fp_compare x y /\
  Stubs.ocaml_compare x y = Stubs.caml_pasta_fp_compare x y /\
  (Stubs.caml_pasta_fp_compare x y = 0 <-> Stubs.caml_pasta_fp_equal x y = true) /\
  (Wasm.caml_pasta_fp_equal x y = true <-> x = y) /\
  Wasm.from_abi (Wasm.into_abi x) = Ret x /\ Wasm.unflatten (Wasm.flatten x) = Ret x.
Proof.
  intros Hx Hy p. unfold Stubs.caml_pasta_fp_add, Stubs.caml_pasta_fp_sub, Stubs.caml_pasta_fp_mul,
    Stubs.caml_pasta_fp_negate, Stubs.caml_pasta_fp_square, Stubs.caml_pasta_fp_compare,
    Wasm.caml_pasta_fp_compare, Stubs.ocaml_compare, Stubs.caml_pasta_fp_equal,
    Wasm.caml_pasta_fp_equal, Wasm.from_abi, Wasm.into_abi, Wasm.unflatten, Wasm.flatten.
  rewrite fe_read_write, fe_square_mul, big_cmp_val, fe_cmp_val, fe_eqb_eq by done.
  destruct (fe_sub_val x y Hx Hy) as [Hsc Hsv].
  repeat match goal with |- _ /\ _ => split end; try done.
  1-4: by apply fe_add_val || by apply fe_sub_val || by apply fe_mul_val.
  - by apply fe_neg_val.
  - by apply fe_mul_val.
  - destruct (fe_add_val _ _ Hsc Hy) as [Hac Hav]. apply fe_val_inj; [done..|].
    rewrite Hav, Hsv, Zplus_mod_idemp_l.
    replace (fe_val x - fe_val y + fe_val y) with (fe_val x) by lia.
    apply Z.mod_small. split; [apply big_val_range|]. by apply fe_val_range.
  - unfold ordering_code. fold (fe_val x) (fe_val y). split.
    + destruct (Z.compare_spec (fe_val x) (fe_val y)) as [E|E|E]; try done. intros _.
      by apply fe_val_inj.
    + intros ->. by rewrite Z.compare_refl.
Qed.

(** Small integers into the field. Both sides cast to 64 unsigned bits, so
    a non-negative integer becomes its value modulo the order, while a negative
    one becomes 2^64 + i; the JavaScript function is the OCaml one on the low 32
    bits, so they agree on 32-bit integers; the seed of [rng] only depends on the low 32 bits. *)
Theorem fp_of_int_spec (i j : Z) :
  - 2 ^ 63 <= i < 2 ^ 63 ->
  fe_canonical (Stubs.caml_pasta_fp_of_int i) /\
  fe_val (Stubs.caml_pasta_fp_of_int i) = (if i <? 0 then 2 ^ 64 + i else i) mod fe_p PF /\
  Wasm.caml_pasta_fp_of_int i = Stubs.caml_pasta_fp_of_int (as_i32 i) /\
  (- 2 ^ 31 <= i < 2 ^ 31 -> Wasm.caml_pasta_fp_of_int i = Stubs.caml_pasta_fp_of_int i) /\
  Stubs.caml_pasta_fp_rng (i + 2 ^ 32 * j) = Wasm.caml_pasta_fp_rng i.
Proof.
  intros Hi. unfold Stubs.caml_pasta_fp_of_int, Wasm.caml_pasta_fp_of_int.
  destruct (fe_from_u64_val (as_u64 i) (as_u_range 64 i ltac:(lia))) as [Hc Hv].
  split; [done|]. split; [|split; [done|split]].
  - rewrite Hv. f_equal. destruct (Z.ltb_spec i 0).
    + by apply as_u_neg; lia.
    + apply as_u_id; lia.
  - intros H. by rewrite as_i_id by lia.
  - unfold Stubs.caml_pasta_fp_rng, Wasm.caml_pasta_fp_rng, as_u.
    by rewrite Z.mul_comm, Z.mod_add by lia.
Qed.

Definition heap_canonical (h : heap F) : Prop := map_Forall (fun _ x => fe_canonical x) h.

(** The in-place operations. On allocated pointers, the same or different,
    each stores at [x] the result of the pure operation on the values both
    pointers had before the call, leaves every other cell as it was and keeps
    the heap free of non-canonical elements; copying cuts no other alias. *)
Theorem fp_mut_ops_spec (h : heap F) (x y : loc) (vx vy : F) :
  h !! x = Some vx -> h !! y = Some vy -> heap_canonical h ->
  forall op pure,
  (op, pure) ∈ [(Stubs.caml_pasta_fp_copy, fun _ b => b);
                (Stubs.caml_pasta_fp_mut_add, Stubs.caml_pasta_fp_add);
                (Stubs.caml_pasta_fp_mut_sub, Stubs.caml_pasta_fp_sub);
                (Stubs.caml_pasta_fp_mut_mul, Stubs.caml_pasta_fp_mul);
                (fun h x _ => Stubs.caml_pasta_fp_mut_square h x,
                 fun a _ => Stubs.caml_pasta_fp_square a)] ->
  exists h', op h x y = Some h' /\ h' !! x = Some (pure vx vy) /\
    (forall z, z <> x -> h' !! z = h !! z) /\ heap_canonical h'.
Proof.
  intros Hx Hy Hh op pure Hin.
  assert (fe_canonical vx /\ fe_canonical vy) as [Cx Cy] by (split; by eapply Hh).
  assert (op h x y = Some (<[x := pure vx vy]> h) /\ fe_canonical (pure vx vy)) as [-> Hc].
  { set_unfold in Hin.
    destruct Hin as [[= -> ->]|[[= -> ->]|[[= -> ->]|[[= -> ->]|[[= -> ->]|[]]]]]].
    all: unfold Stubs.caml_pasta_fp_copy, Stubs.caml_pasta_fp_mut_add, Stubs.caml_pasta_fp_mut_sub,
      Stubs.caml_pasta_fp_mut_mul, Stubs.caml_pasta_fp_mut_square; rewrite Hx; simpl;
      rewrite ?Hy; (split; [done|]).
    - done.
    - by apply fe_add_val.
    - by apply fe_sub_val.
    - by apply fe_mul_val.
    - unfold Stubs.caml_pasta_fp_square. rewrite fe_square_mul by done. by apply fe_mul_val. }
  eexists. split; [done|]. rewrite lookup_insert_eq. split; [done|]. split.
  - intros z Hz. by rewrite lookup_insert_ne.
  - by apply map_Forall_insert_2.
Qed.
End Properties.

(** ** Witnesses on Pasta Fp *)

Definition fp_seven : BigInteger256 := fe_from_u64 7.
Definition fp_minus_one : BigInteger256 := fe_neg fe_one.

(** 2^256 + 5 is 5 for JavaScript and an error for OCaml. *)
Lemma fp_of_string_spec_witness :
  let s := biguint_to_string (2 ^ 256 + 5)%N in
  parse_bytes s 10 = Some (2 ^ 256 + 5)%N /\
  (exists x, fe_canonical x /\ fe_val x = 5 /\
     Wasm.caml_pasta_fp_of_string s = Ret x /\
     Stubs.caml_pasta_fp_of_string (F := BigInteger256) s
       = Raise (Message "caml_pasta_fp_of_string: Biguint is too large")).
Proof.
  intros s. assert (parse_bytes s 10 = Some (2 ^ 256 + 5)%N) as Hs by (vm_compute; reflexivity).
  split; [exact Hs|].
  pose proof (fp_of_string_spec (NB := ref_bigint) (AB := ref_big) (PF := ref_fp) s) as H.
  rewrite Hs in H. destruct H as [(x & Hc & Hv & _ & Hw & Hst)|[Hge _]].
  - exists x. split; [exact Hc|]. split; [rewrite Hv; vm_compute; reflexivity|].
    split; [exact Hw|]. rewrite Hst. vm_compute. reflexivity.
  - exfalso. revert Hge. vm_compute. intros Hge. by apply Hge.
Defined.

Lemma fp_string_bigint_roundtrip_witness :
  fe_canonical fp_minus_one /\
  Stubs.caml_pasta_fp_of_string (Stubs.caml_pasta_fp_to_string fp_minus_one) = Ret fp_minus_one /\
  is_ret (Stubs.caml_pasta_fp_of_bigint (F := BigInteger256) modulus) = false.
Proof.
  assert (fe_canonical fp_minus_one) as Hc by (vm_compute; reflexivity).
  destruct (fp_string_bigint_roundtrip (NB := ref_bigint) (AB := ref_big) (PF := ref_fp)
              fp_minus_one modulus Hc) as (H1 & _ & _ & _ & _ & _ & H2).
  split; [exact Hc|]. split; [exact H1|]. rewrite H2. vm_compute. reflexivity.
Defined.

(** In Montgomery form 1 is not stored as 1: the OCaml side reads back another
    element than it wrote. *)
Lemma fp_bytes_spec_witness :
  let x := Stubs.caml_pasta_fp_of_int (F := BigInteger256) 1 in
  exists w, Stubs.caml_pasta_fp_to_bytes x = Ret w /\ Stubs.caml_pasta_fp_of_bytes w <> Ret x /\
    Wasm.caml_pasta_fp_of_bytes (Wasm.caml_pasta_fp_to_bytes x) = Ret x.
Proof.
  intros x. destruct (fp_bytes_spec (PF := ref_fp) x []) as (H1 & (w & Hw & _ & _ & Hi & _) & _).
  exists w. split; [exact Hw|]. split; [|exact H1].
  intros E%Hi. revert E. vm_compute. discriminate.
Defined.

Lemma fp_arith_spec_witness :
  fe_val (Stubs.caml_pasta_fp_add fp_minus_one fp_seven) = 6 /\
  Stubs.caml_pasta_fp_add (Stubs.caml_pasta_fp_sub fp_seven fp_minus_one) fp_minus_one = fp_seven.
Proof.
  assert (fe_canonical fp_minus_one) as H1 by (vm_compute; reflexivity).
  assert (fe_canonical fp_seven) as H7 by (vm_compute; reflexivity).
  split.
  - destruct (fp_arith_spec (AB := ref_big) (PF := ref_fp) _ _ H1 H7) as ((_ & Ha) & _).
    rewrite Ha. vm_compute. reflexivity.
  - by apply (fp_arith_spec (AB := ref_big) (PF := ref_fp) _ _ H7 H1).
Defined.

(** -1 is not sent to the element -1. *)
Lemma fp_of_int_spec_witness :
  fe_val (Stubs.caml_pasta_fp_of_int (F := BigInteger256) (-1)) = 2 ^ 64 - 1 /\
  Stubs.caml_pasta_fp_of_int (-1) <> fp_minus_one.
Proof.
  destruct (fp_of_int_spec (PF := ref_fp) (-1) 0) as (_ & Hv & _); [lia|].
  split; [rewrite Hv; vm_compute; reflexivity|].
  intros E. rewrite E in Hv. revert Hv. vm_compute. discriminate.
Defined.

(** [mut_add x x] doubles. *)
Lemma fp_mut_ops_spec_witness :
  exists h', Stubs.caml_pasta_fp_mut_add {[ 1%positive := fp_seven ]} 1 1 = Some h' /\
    h' !! 1%positive = Some (fe_from_u64 14).
Proof.
  destruct (fp_mut_ops_spec (PF := ref_fp) {[ 1%positive := fp_seven ]} 1 1 fp_seven fp_seven
              (lookup_singleton_eq _ _) (lookup_singleton_eq _ _)) with (op := Stubs.caml_pasta_fp_mut_add (F := BigInteger256))
    (pure := Stubs.caml_pasta_fp_add (F := BigInteger256)) as (h' & Hh & Hx & _).
  - apply map_Forall_singleton. vm_compute. reflexivity.
  - right. left.
  - exists h'. split; [exact Hh|]. rewrite Hx. vm_compute. reflexivity.
Defined.
