(* ===== verification/PastaFq.v ===== *)
(** * pasta_fq.rs: the scalar field of Pallas for OCaml and for JavaScript

    [Stubs] models stubs/src/arkworks/pasta_fq.rs and [Wasm] models
    wasm/src/arkworks/pasta_fq.rs (under
    src/src/lib/crypto/kimchi_bindings), the twins of the files of
    [PastaField.v] with the other field and messages of their own.  [FieldBinding.v]
    states what all four promise. *)

From Stdlib Require Import ZArith Lia.
From stdpp Require Import base list strings gmap.
From S2P Require Import Prelude Crates Reference BigInt256 PastaField.

(** [std::mem::size_of::<Fq>()] *)
Definition size_of_fq : nat := 32.

Module Stubs.
Section Stubs.
Context {NB : NumBigint} {AB : ArkBigInteger} {F : Type} {PF : PrimeField F}.

(** [CamlFq] wraps an [Fq]. *)
Abbreviation CamlFq := F.

Definition ocaml_compare (x y : CamlFq) : Z := ordering_code (big_cmp (into_repr x) (into_repr y)).

Definition try_from_bigint (x : BigInt256.Stubs.CamlBigInteger256) : outcome CamlFq :=
  ok_or (Message "TryFrom<CamlBigInteger256>: integer is larger than order") (from_repr x).

Definition caml_pasta_fq_size_in_bits : Z := modulus_bits.
Definition caml_pasta_fq_size : BigInt256.Stubs.CamlBigInteger256 := modulus.

Definition caml_pasta_fq_add (x y : CamlFq) : CamlFq := fe_add x y.
Definition caml_pasta_fq_sub (x y : CamlFq) : CamlFq := fe_sub x y.
Definition caml_pasta_fq_negate (x : CamlFq) : CamlFq := fe_neg x.
Definition caml_pasta_fq_mul (x y : CamlFq) : CamlFq := fe_mul x y.
Definition caml_pasta_fq_div (x y : CamlFq) : outcome CamlFq := fe_div x y.
Definition caml_pasta_fq_inv (x : CamlFq) : option CamlFq := fe_inverse x.
Definition caml_pasta_fq_square (x : CamlFq) : CamlFq := fe_square x.
Definition caml_pasta_fq_is_square (x : CamlFq) : bool :=
  let s := fe_pow x modulus_minus_one_div_two in is_zero_or_one s.
Definition caml_pasta_fq_sqrt (x : CamlFq) : option CamlFq := fe_sqrt x.

(** [ocaml::Int] is a signed machine word; the cast is [i as u64]. *)
Definition caml_pasta_fq_of_int (i : Z) : CamlFq := fe_from_u64 (as_u64 i).

Definition caml_pasta_fq_to_string (x : CamlFq) : list byte :=
  BigInt256.Stubs.to_string (into_repr x).

Definition caml_pasta_fq_of_string (s : list byte) : outcome CamlFq :=
  biguint ← ok_or (Message "caml_pasta_fq_of_string: couldn't parse input") (parse_bytes s 10);
  camlbigint ← ok_or (Message "caml_pasta_fq_of_string: Biguint is too large")
                 (BigInt256.Stubs.try_from_biguint biguint);
  map_err (fun _ => Message "caml_pasta_fq_of_string") (try_from_bigint camlbigint).

(** The line printed. *)
Definition caml_pasta_fq_print (x : CamlFq) : list byte :=
  BigInt256.Stubs.to_string (into_repr x).

(** [None]: a pointer that is not allocated, which OCaml never passes. *)
Definition caml_pasta_fq_copy (h : heap CamlFq) (x y : loc) : option (heap CamlFq) :=
  _ ← h !! x; vy ← h !! y; Some (<[x := vy]> h).
Definition caml_pasta_fq_mut_add (h : heap CamlFq) (x y : loc) : option (heap CamlFq) :=
  vx ← h !! x; vy ← h !! y; Some (<[x := fe_add vx vy]> h).
Definition caml_pasta_fq_mut_sub (h : heap CamlFq) (x y : loc) : option (heap CamlFq) :=
  vx ← h !! x; vy ← h !! y; Some (<[x := fe_sub vx vy]> h).
Definition caml_pasta_fq_mut_mul (h : heap CamlFq) (x y : loc) : option (heap CamlFq) :=
  vx ← h !! x; vy ← h !! y; Some (<[x := fe_mul vx vy]> h).
Definition caml_pasta_fq_mut_square (h : heap CamlFq) (x : loc) : option (heap CamlFq) :=
  vx ← h !! x; Some (<[x := fe_square vx]> h).

Definition caml_pasta_fq_compare (x y : CamlFq) : Z :=
  ordering_code (big_cmp (into_repr x) (into_repr y)).
Definition caml_pasta_fq_equal (x y : CamlFq) : bool := fe_eqb x y.

(** [i as u32] first, then widened. *)
Definition caml_pasta_fq_rng (i : Z) : CamlFq := fe_rand_from_seed (as_u32 i).

Definition caml_pasta_fq_to_bigint (x : CamlFq) : BigInt256.Stubs.CamlBigInteger256 := into_repr x.
Definition caml_pasta_fq_of_bigint (x : BigInt256.Stubs.CamlBigInteger256) : outcome CamlFq :=
  ok_or (DynError "caml_pasta_fq_of_bigint was given an invalid CamlBigInteger256") (from_repr x).

Definition caml_pasta_fq_two_adic_root_of_unity : CamlFq := two_adic_root_of_unity.

Definition caml_pasta_fq_domain_generator (overflow_checks : bool) (log2_size : Z) : outcome CamlFq :=
  n ← shl_one overflow_checks 64 log2_size;
  ok_or (Message "caml_pasta_fq_domain_generator") (domain_group_gen n).

(** The array written into 32 zeroed bytes; a longer text would not fit. *)
Definition caml_pasta_fq_to_bytes (x : CamlFq) : outcome (list byte) :=
  let out := fe_write x in
  _ ← rust_assert (length out <=? size_of_fq)%nat "called `Result::unwrap()` on an `Err` value";
  Ret (out ++ replicate (size_of_fq - length out) (byte_of 0)).

(** [*(x.as_ptr() as *const CamlFq)]: the bytes are taken as the element's
    memory. *)
Definition caml_pasta_fq_of_bytes (x : list byte) : outcome CamlFq :=
  _ ← (if negb (length x =? size_of_fq)%nat
       then Raise (Failure "caml_pasta_fq_of_bytes") else Ret tt);
  Ret (fe_of_mem x).

Definition caml_pasta_fq_deep_copy (x : CamlFq) : CamlFq := x.
End Stubs.
End Stubs.

Module Wasm.
Section Wasm.
Context {NB : NumBigint} {AB : ArkBigInteger} {F : Type} {PF : PrimeField F}.

(** [WasmPastaFq] wraps an [Fq]. *)
Abbreviation WasmPastaFq := F.

(** [FlatVectorElem] *)
Definition FLATTENED_SIZE : nat := size_of_fq.
Definition flatten (x : WasmPastaFq) : list byte := fe_write x.
Definition unflatten (flat : list byte) : outcome WasmPastaFq :=
  expect "called `Result::unwrap()` on an `Err` value" (fe_read flat).

(** [FromWasmAbi] and [IntoWasmAbi] *)
Definition from_abi (bytes : list byte) : outcome WasmPastaFq :=
  expect "called `Result::unwrap()` on an `Err` value" (fe_read bytes).
Definition into_abi (x : WasmPastaFq) : list byte := fe_write x.

Definition caml_pasta_fq_size_in_bits : Z := modulus_bits.
Definition caml_pasta_fq_size : BigInt256.Wasm.WasmBigInteger256 := modulus.

Definition caml_pasta_fq_add (x y : WasmPastaFq) : WasmPastaFq := fe_add x y.
Definition caml_pasta_fq_sub (x y : WasmPastaFq) : WasmPastaFq := fe_sub x y.
Definition caml_pasta_fq_negate (x : WasmPastaFq) : WasmPastaFq := fe_neg x.
Definition caml_pasta_fq_mul (x y : WasmPastaFq) : WasmPastaFq := fe_mul x y.
Definition caml_pasta_fq_div (x y : WasmPastaFq) : outcome WasmPastaFq := fe_div x y.
Definition caml_pasta_fq_inv (x : WasmPastaFq) : option WasmPastaFq := fe_inverse x.
Definition caml_pasta_fq_square (x : WasmPastaFq) : WasmPastaFq := fe_square x.
Definition caml_pasta_fq_is_square (x : WasmPastaFq) : bool :=
  let s := fe_pow x modulus_minus_one_div_two in is_zero_or_one s.
Definition caml_pasta_fq_sqrt (x : WasmPastaFq) : option WasmPastaFq := fe_sqrt x.

(** [i : i32]: wasm-bindgen keeps the low 32 bits of JavaScript's number;
    [i as u64] sign-extends. *)
Definition caml_pasta_fq_of_int (i : Z) : WasmPastaFq := fe_from_u64 (as_u64 (as_i32 i)).

Definition caml_pasta_fq_to_string (x : WasmPastaFq) : list byte :=
  biguint_to_string (BigInt256.Wasm.to_biguint (into_repr x)).

Definition caml_pasta_fq_of_string (s : list byte) : outcome WasmPastaFq :=
  biguint ← ok_or (JsError "caml_pasta_fq_of_string") (parse_bytes s 10);
  match from_repr (BigInt256.Wasm.of_biguint biguint) with
  | Some x => Ret x
  | None => Raise (JsError "caml_pasta_fq_of_string")
  end.

Definition caml_pasta_fq_print (x : WasmPastaFq) : list byte :=
  biguint_to_string (BigInt256.Wasm.to_biguint (into_repr x)).

Definition caml_pasta_fq_compare (x y : WasmPastaFq) : Z := ordering_code (fe_cmp x y).
Definition caml_pasta_fq_equal (x y : WasmPastaFq) : bool := fe_eqb x y.
Definition caml_pasta_fq_rng (i : Z) : WasmPastaFq := fe_rand_from_seed (as_u32 i).

Definition caml_pasta_fq_to_bigint (x : WasmPastaFq) : BigInt256.Wasm.WasmBigInteger256 := into_repr x.
Definition caml_pasta_fq_of_bigint (x : BigInt256.Wasm.WasmBigInteger256) : outcome WasmPastaFq :=
  match from_repr x with
  | Some x => Ret x
  | None => Raise (JsError "caml_pasta_fq_of_bigint")
  end.

Definition caml_pasta_fq_two_adic_root_of_unity : WasmPastaFq := two_adic_root_of_unity.

Definition caml_pasta_fq_domain_generator (overflow_checks : bool) (log2_size : Z) : outcome WasmPastaFq :=
  n ← shl_one overflow_checks 32 log2_size;
  expect "caml_pasta_fq_domain_generator" (domain_group_gen n).

(** The element is stored into the bytes of the vector. *)
Definition caml_pasta_fq_to_bytes (x : WasmPastaFq) : list byte := fe_mem x.
Definition caml_pasta_fq_of_bytes (x : list byte) : outcome WasmPastaFq :=
  _ ← (if negb (length x =? size_of_fq)%nat then Panic "caml_pasta_fq_of_bytes" else Ret tt);
  Ret (fe_of_mem x).

Definition caml_pasta_fq_deep_copy (x : WasmPastaFq) : WasmPastaFq := x.
End Wasm.
End Wasm.

(** ** The field Fq *)

Definition pasta_fq_modulus : Z :=
  28948022309329048855892746252171976963363056481941647379679742748393362948097.
Definition pasta_fq_rinv : Z :=
  14238205147845459960272226733876560297615832660064601289232577236146637664127.
Definition ref_fq : PrimeField BigInteger256 := ref_field pasta_fq_modulus pasta_fq_rinv.
Lemma ref_fq_laws : PrimeFieldLaws ref_fq.
Proof. by apply ref_field_laws; vm_compute. Qed.
