(* ===== verification/FieldBinding.v ===== *)
(** * What the bindings of a field promise

    The node's OCaml code uses each field through one interface, whether it runs
    natively or in JavaScript.  [FieldBinding] is that interface,
    [FieldContract] what an implementation promises about it: it is the integers
    modulo [p], numbers cross as decimal strings and as 256-bit integers, and
    what is no element is refused.  The four implementations (arkworks/pasta_fp.rs
    and arkworks/pasta_fq.rs, both targets) meet the contract; what follows for
    clients is proved from the contract alone. *)

From Stdlib Require Import ZArith Lia.
From stdpp Require Import base list strings gmap.
From S2P Require Import Prelude Crates Reference BigInt256 PastaField PastaFq.

(** ** The interface *)

Class FieldBinding : Type := {
  elt : Type;
  b_bits : Z;                    (* the width of the integers it reads *)
  b_size : BigInteger256;
  b_add : elt -> elt -> elt;
  b_sub : elt -> elt -> elt;
  b_mul : elt -> elt -> elt;
  b_negate : elt -> elt;
  b_square : elt -> elt;
  b_of_int : Z -> elt;
  b_to_string : elt -> list byte;
  b_of_string : list byte -> outcome elt;
  b_compare : elt -> elt -> Z;
  b_equal : elt -> elt -> bool;
  b_to_bigint : elt -> BigInteger256;
  b_of_bigint : BigInteger256 -> outcome elt
}.
Arguments elt : clear implicits.

Definition is_raise {A} (m : outcome A) : bool := match m with Raise _ => true | _ => false end.

(** [ct_rel x z]: the element [x] stands for the integer [z]. *)
Class FieldContract {NB : NumBigint} (B : FieldBinding) (p : Z) : Type := {
  ct_rel : elt B -> Z -> Prop;
  ct_size : big_val b_size = p;
  ct_range x z : ct_rel x z -> 0 <= z < p;
  ct_inj x y z : ct_rel x z -> ct_rel y z -> x = y;
  ct_fun x z z' : ct_rel x z -> ct_rel x z' -> z = z';
  ct_add x y a b : ct_rel x a -> ct_rel y b -> ct_rel (b_add x y) ((a + b) mod p);
  ct_sub x y a b : ct_rel x a -> ct_rel y b -> ct_rel (b_sub x y) ((a - b) mod p);
  ct_mul x y a b : ct_rel x a -> ct_rel y b -> ct_rel (b_mul x y) ((a * b) mod p);
  ct_negate x a : ct_rel x a -> ct_rel (b_negate x) ((- a) mod p);
  ct_square x a : ct_rel x a -> ct_rel (b_square x) ((a * a) mod p);
  ct_of_int i : - 2 ^ 63 <= i < 2 ^ 63 -> ct_rel (b_of_int i) (as_u64 (as_i b_bits i) mod p);
  ct_to_string x a : ct_rel x a -> b_to_string x = biguint_to_string (Z.to_N a);
  ct_of_string_bad s : parse_bytes s 10 = None -> is_raise (b_of_string s) = true;
  ct_of_string s n : parse_bytes s 10 = Some n -> Z.of_N n < 2 ^ 256 ->
    if Z.of_N n <? p then exists x, b_of_string s = Ret x /\ ct_rel x (Z.of_N n)
    else is_raise (b_of_string s) = true;
  ct_compare x y a b : ct_rel x a -> ct_rel y b -> b_compare x y = ordering_code (a ?= b);
  ct_equal x y a b : ct_rel x a -> ct_rel y b -> b_equal x y = (a =? b);
  ct_to_bigint x a : ct_rel x a -> big_val (b_to_bigint x) = a;
  ct_of_bigint b :
    if big_val b <? p then exists x, b_of_bigint b = Ret x /\ ct_rel x (big_val b)
    else is_raise (b_of_bigint b) = true
}.

(** ** The implementations *)

Section Implementations.
Context {NB : NumBigint} {NL : NumBigintLaws NB} {AB : ArkBigInteger} {AL : ArkBigIntegerLaws AB}.
Context {F : Type} (PF : PrimeField F) {PL : PrimeFieldLaws PF}.

Definition fp_stubs : FieldBinding := {|
  elt := F;
  b_bits := 64;
  b_size := PastaField.Stubs.caml_pasta_fp_size;
  b_add := PastaField.Stubs.caml_pasta_fp_add;
  b_sub := PastaField.Stubs.caml_pasta_fp_sub;
  b_mul := PastaField.Stubs.caml_pasta_fp_mul;
  b_negate := PastaField.Stubs.caml_pasta_fp_negate;
  b_square := PastaField.Stubs.caml_pasta_fp_square;
  b_of_int := PastaField.Stubs.caml_pasta_fp_of_int;
  b_to_string := PastaField.Stubs.caml_pasta_fp_to_string;
  b_of_string := PastaField.Stubs.caml_pasta_fp_of_string;
  b_compare := PastaField.Stubs.caml_pasta_fp_compare;
  b_equal := PastaField.Stubs.caml_pasta_fp_equal;
  b_to_bigint := PastaField.Stubs.caml_pasta_fp_to_bigint;
  b_of_bigint := PastaField.Stubs.caml_pasta_fp_of_bigint
|}.
Definition fp_wasm : FieldBinding := {|
  elt := F;
  b_bits := 32;
  b_size := PastaField.Wasm.caml_pasta_fp_size;
  b_add := PastaField.Wasm.caml_pasta_fp_add;
  b_sub := PastaField.Wasm.caml_pasta_fp_sub;
  b_mul := PastaField.Wasm.caml_pasta_fp_mul;
  b_negate := PastaField.Wasm.caml_pasta_fp_negate;
  b_square := PastaField.Wasm.caml_pasta_fp_square;
  b_of_int := PastaField.Wasm.caml_pasta_fp_of_int;
  b_to_string := PastaField.Wasm.caml_pasta_fp_to_string;
  b_of_string := PastaField.Wasm.caml_pasta_fp_of_string;
  b_compare := PastaField.Wasm.caml_pasta_fp_compare;
  b_equal := PastaField.Wasm.caml_pasta_fp_equal;
  b_to_bigint := PastaField.Wasm.caml_pasta_fp_to_bigint;
  b_of_bigint := PastaField.Wasm.caml_pasta_fp_of_bigint
|}.
Definition fq_stubs : FieldBinding := {|
  elt := F;
  b_bits := 64;
  b_size := PastaFq.Stubs.caml_pasta_fq_size;
  b_add := PastaFq.Stubs.caml_pasta_fq_add;
  b_sub := PastaFq.Stubs.caml_pasta_fq_sub;
  b_mul := PastaFq.Stubs.caml_pasta_fq_mul;
  b_negate := PastaFq.Stubs.caml_pasta_fq_negate;
  b_square := PastaFq.Stubs.caml_pasta_fq_square;
  b_of_int := PastaFq.Stubs.caml_pasta_fq_of_int;
  b_to_string := PastaFq.Stubs.caml_pasta_fq_to_string;
  b_of_string := PastaFq.Stubs.caml_pasta_fq_of_string;
  b_compare := PastaFq.Stubs.caml_pasta_fq_compare;
  b_equal := PastaFq.Stubs.caml_pasta_fq_equal;
  b_to_bigint := PastaFq.Stubs.caml_pasta_fq_to_bigint;
  b_of_bigint := PastaFq.Stubs.caml_pasta_fq_of_bigint
|}.
Definition fq_wasm : FieldBinding := {|
  elt := F;
  b_bits := 32;
  b_size := PastaFq.Wasm.caml_pasta_fq_size;
  b_add := PastaFq.Wasm.caml_pasta_fq_add;
  b_sub := PastaFq.Wasm.caml_pasta_fq_sub;
  b_mul := PastaFq.Wasm.caml_pasta_fq_mul;
  b_negate := PastaFq.Wasm.caml_pasta_fq_negate;
  b_square := PastaFq.Wasm.caml_pasta_fq_square;
  b_of_int := PastaFq.Wasm.caml_pasta_fq_of_int;
  b_to_string := PastaFq.Wasm.caml_pasta_fq_to_string;
  b_of_string := PastaFq.Wasm.caml_pasta_fq_of_string;
  b_compare := PastaFq.Wasm.caml_pasta_fq_compare;
  b_equal := PastaFq.Wasm.caml_pasta_fq_equal;
  b_to_bigint := PastaFq.Wasm.caml_pasta_fq_to_bigint;
  b_of_bigint := PastaFq.Wasm.caml_pasta_fq_of_bigint
|}.

(** An element stands for its value, if arithmetic can produce it. *)
Definition fe_rel (x : F) (z : Z) : Prop := fe_canonical x /\ fe_val x = z.

Lemma fe_rel_from_repr b :
  if big_val b <? fe_p PF then exists x, from_repr b = Some x /\ fe_rel x (big_val b)
  else from_repr (F := F) b = None.
Proof.
  destruct (Z.ltb_spec (big_val b) (fe_p PF)) as [H|H]; [|by apply from_repr_large].
  destruct (from_repr_val b H) as (x & ? & ? & ?). by exists x.
Qed.
Lemma fe_rel_of_string n :
  Z.of_N n < 2 ^ 256 ->
  if Z.of_N n <? fe_p PF then exists x, from_repr (big_of_val (Z.of_N n)) = Some x /\ fe_rel x (Z.of_N n)
  else from_repr (F := F) (big_of_val (Z.of_N n)) = None.
Proof.
  intros Hn. pose proof (fe_rel_from_repr (big_of_val (Z.of_N n))) as H.
  by rewrite big_val_of_val, Z.mod_small in H by lia.
Qed.
Lemma fe_rel_op (op : F -> F -> F) (z : Z -> Z -> Z) :
  (forall x y, fe_canonical x -> fe_canonical y ->
     fe_canonical (op x y) /\ fe_val (op x y) = z (fe_val x) (fe_val y)) ->
  forall x y a b, fe_rel x a -> fe_rel y b -> fe_rel (op x y) (z a b).
Proof. intros H x y a b [Hx <-] [Hy <-]. by apply H. Qed.
Lemma fe_rel_inj x y z : fe_rel x z -> fe_rel y z -> x = y.
Proof. intros [Hx <-] [Hy E]. by apply fe_val_inj. Qed.
Lemma fe_rel_range x z : fe_rel x z -> 0 <= z < fe_p PF.
Proof. intros [Hx <-]. split; [apply big_val_range|by apply fe_val_range]. Qed.
Lemma fe_rel_of_int i : fe_rel (fe_from_u64 (as_u64 i)) (as_u64 i mod fe_p PF).
Proof. apply fe_from_u64_val, as_u_range. lia. Qed.
Lemma fe_rel_eqb x y a b : fe_rel x a -> fe_rel y b -> fe_eqb x y = (a =? b).
Proof.
  intros Hx Hy. apply eq_true_iff_eq. rewrite fe_eqb_eq, Z.eqb_eq. split.
  - intros ->. destruct Hx as [_ <-]. by destruct Hy.
  - intros ->. by eapply fe_rel_inj.
Qed.
Lemma into_repr_string x a :
  fe_rel x a -> biguint_to_string (big_into (into_repr x)) = biguint_to_string (Z.to_N a).
Proof. intros [_ <-]. f_equal. rewrite <-(N2Z.id (big_into _)). f_equal. apply big_into_val. Qed.

(** The definitions of the four implementations that the laws look into. *)
Ltac unfold_bindings :=
  cbv [fp_stubs fp_wasm fq_stubs fq_wasm b_to_string b_of_string b_compare b_of_bigint
       PastaField.Stubs.caml_pasta_fp_to_string PastaField.Wasm.caml_pasta_fp_to_string
       PastaFq.Stubs.caml_pasta_fq_to_string PastaFq.Wasm.caml_pasta_fq_to_string
       PastaField.Stubs.caml_pasta_fp_of_string PastaField.Wasm.caml_pasta_fp_of_string
       PastaFq.Stubs.caml_pasta_fq_of_string PastaFq.Wasm.caml_pasta_fq_of_string
       PastaField.Stubs.try_from_bigint PastaFq.Stubs.try_from_bigint
       PastaField.Stubs.caml_pasta_fp_compare PastaField.Wasm.caml_pasta_fp_compare
       PastaFq.Stubs.caml_pasta_fq_compare PastaFq.Wasm.caml_pasta_fq_compare
       PastaField.Stubs.caml_pasta_fp_of_bigint PastaField.Wasm.caml_pasta_fp_of_bigint
       PastaFq.Stubs.caml_pasta_fq_of_bigint PastaFq.Wasm.caml_pasta_fq_of_bigint
       BigInt256.Stubs.to_string BigInt256.Stubs.into_biguint].

Ltac of_string_law :=
  let Hs := fresh in let Hn := fresh in let Hr := fresh in
  intros s n Hs Hn; pose proof (fe_rel_of_string n Hn) as Hr; unfold_bindings; rewrite Hs;
  cbn [ok_or mbind outcome_bind];
  rewrite ?try_from_biguint_eq, ?of_biguint_eq, ?(proj2 (Z.ltb_lt _ _) Hn);
  cbn [ok_or mbind outcome_bind];
  destruct (Z.of_N n <? fe_p PF); [destruct Hr as (x & Hr & ?); exists x|]; by rewrite Hr.

(** The laws in the order of the class. *)
Ltac contract_laws :=
  unshelve econstructor;
  [ exact fe_rel
  | done
  | exact fe_rel_range
  | exact fe_rel_inj
  | by intros x z z' [_ <-] [_ <-]
  | exact (fe_rel_op _ (fun a b => (a + b) mod fe_p PF) fe_add_val)
  | exact (fe_rel_op _ (fun a b => (a - b) mod fe_p PF) fe_sub_val)
  | exact (fe_rel_op _ (fun a b => (a * b) mod fe_p PF) fe_mul_val)
  | intros x a [Hx <-]; exact (fe_neg_val x Hx)
  | intros x a [Hx <-]; change (fe_rel (fe_square x) ((fe_val x * fe_val x) mod fe_p PF));
    rewrite (fe_square_mul x Hx); exact (fe_mul_val x x Hx Hx)
  | intros i Hi; first [exact (fe_rel_of_int (as_i 32 i))
                       |cbn [b_bits fp_stubs fq_stubs]; rewrite as_i_id by lia; exact (fe_rel_of_int i)]
  | intros x a Hx; rewrite <-(into_repr_string x a Hx); unfold_bindings; by rewrite ?big_into_wasm
  | intros s Hs; unfold_bindings; by rewrite Hs
  | of_string_law
  | intros x y a b [_ <-] [_ <-]; unfold_bindings; by rewrite ?fe_cmp_val, ?big_cmp_val
  | exact fe_rel_eqb
  | by intros x a [_ <-]
  | intros b; pose proof (fe_rel_from_repr b) as Hr; unfold_bindings;
    destruct (big_val b <? fe_p PF); [destruct Hr as (x & Hr & ?); exists x|]; by rewrite Hr ].

#[export] Instance fp_stubs_contract : FieldContract fp_stubs (fe_p PF).
Proof. contract_laws. Defined.
#[export] Instance fp_wasm_contract : FieldContract fp_wasm (fe_p PF).
Proof. contract_laws. Defined.
#[export] Instance fq_stubs_contract : FieldContract fq_stubs (fe_p PF).
Proof. contract_laws. Defined.
#[export] Instance fq_wasm_contract : FieldContract fq_wasm (fe_p PF).
Proof. contract_laws. Defined.
End Implementations.

(** ** Clients of the interface

    What OCaml code does with a field: expressions over literals, in order, with
    the exception of a literal that does not parse. *)

Inductive prog : Type :=
| Int (i : Z)
| Str (s : list byte)
| Add (a b : prog)
| Sub (a b : prog)
| Mul (a b : prog)
| Negate (a : prog)
| Square (a : prog)
| ViaString (a : prog)      (* [of_string (to_string a)] *)
| ViaBigint (a : prog).     (* [of_bigint (to_bigint a)] *)

Fixpoint eval {B : FieldBinding} (e : prog) : outcome (elt B) :=
  match e with
  | Int i => Ret (b_of_int i)
  | Str s => b_of_string s
  | Add a b => x ← eval a; y ← eval b; Ret (b_add x y)
  | Sub a b => x ← eval a; y ← eval b; Ret (b_sub x y)
  | Mul a b => x ← eval a; y ← eval b; Ret (b_mul x y)
  | Negate a => x ← eval a; Ret (b_negate x)
  | Square a => x ← eval a; Ret (b_square x)
  | ViaString a => x ← eval a; b_of_string (b_to_string x)
  | ViaBigint a => x ← eval a; b_of_bigint (b_to_bigint x)
  end.

(** The meaning of an expression: an integer modulo [p], or an error.  An integer
    literal is read with [bits] bits and sign-extended to 64, which are taken as
    unsigned. *)
Fixpoint denote {NB : NumBigint} (bits p : Z) (e : prog) : option Z :=
  match e with
  | Int i => Some (as_u64 (as_i bits i) mod p)
  | Str s => n ← parse_bytes s 10; if Z.of_N n <? p then Some (Z.of_N n) else None
  | Add a b => x ← denote bits p a; y ← denote bits p b; Some ((x + y) mod p)
  | Sub a b => x ← denote bits p a; y ← denote bits p b; Some ((x - y) mod p)
  | Mul a b => x ← denote bits p a; y ← denote bits p b; Some (x * y mod p)
  | Negate a => x ← denote bits p a; Some (- x mod p)
  | Square a => x ← denote bits p a; Some (x * x mod p)
  | ViaString a | ViaBigint a => denote bits p a
  end.

(** Integers fit [bits] bits, strings are no numbers or fit 256 bits. *)
Fixpoint literals_fit {NB : NumBigint} (bits : Z) (e : prog) : bool :=
  match e with
  | Int i => (- 2 ^ (bits - 1) <=? i) && (i <? 2 ^ (bits - 1))
  | Str s => match parse_bytes s 10 with Some n => Z.of_N n <? 2 ^ 256 | None => true end
  | Add a b | Sub a b | Mul a b => literals_fit bits a && literals_fit bits b
  | Negate a | Square a | ViaString a | ViaBigint a => literals_fit bits a
  end.

(** [m] computes the denotation [d]. *)
Definition computes {NB : NumBigint} {B : FieldBinding} {p} {C : FieldContract B p}
    (m : outcome (elt B)) (d : option Z) : Prop :=
  match d with
  | Some z => exists x, m = Ret x /\ ct_rel x z
  | None => is_raise m = true
  end.

Section Clients.
Context {NB : NumBigint} {NL : NumBigintLaws NB}.

Lemma computes_bind {B : FieldBinding} {p} {C : FieldContract B p} m (f : elt B -> outcome (elt B)) d g :
  computes m d -> (forall x z, ct_rel x z -> computes (f x) (g z)) -> computes (m ≫= f) (d ≫= g).
Proof.
  intros Hm Hf. destruct d as [z|]; simpl in *.
  - destruct Hm as (x & -> & Hx). simpl. by apply Hf.
  - by destruct m.
Qed.
Lemma computes_Ret {B : FieldBinding} {p} {C : FieldContract B p} (x : elt B) z :
  ct_rel x z -> computes (Ret x) (Some z).
Proof. by exists x. Qed.

(** An element that crosses as a string or as a 256-bit integer. *)
Lemma of_string_to_string {B1 B2 : FieldBinding} {p1 p2} {C1 : FieldContract B1 p1}
    {C2 : FieldContract B2 p2} (x : elt B1) z :
  ct_rel x z -> computes (B := B2) (b_of_string (b_to_string x)) (if z <? p2 then Some z else None).
Proof.
  intros Hx. rewrite (ct_to_string x z Hx). pose proof (ct_range x z Hx) as Hz.
  pose proof (big_val_range (b_size (FieldBinding := B1))) as Hp. rewrite ct_size in Hp.
  pose proof (ct_of_string (B := B2) _ (Z.to_N z) (parse_to_string _)) as H.
  rewrite Z2N.id in H by lia. specialize (H ltac:(lia)). by destruct (z <? p2).
Qed.
Lemma of_bigint_to_bigint {B1 B2 : FieldBinding} {p1 p2} {C1 : FieldContract B1 p1}
    {C2 : FieldContract B2 p2} (x : elt B1) z :
  ct_rel x z -> computes (B := B2) (b_of_bigint (b_to_bigint x)) (if z <? p2 then Some z else None).
Proof.
  intros Hx. pose proof (ct_of_bigint (B := B2) (b_to_bigint x)) as H.
  rewrite (ct_to_bigint x z Hx) in H. by destruct (z <? p2).
Qed.

Lemma denote_range bits p e z : 0 < p -> denote bits p e = Some z -> 0 <= z < p.
Proof.
  intros Hp. revert z. induction e; intros z; simpl; try (by apply IHe).
  - intros [= <-]. by apply Z.mod_pos_bound.
  - destruct (parse_bytes s 10) as [n|]; simpl; [|done].
    destruct (Z.ltb_spec (Z.of_N n) p); [|done]. intros [= <-]. lia.
  - destruct (denote bits p e1), (denote bits p e2); try done. intros [= <-]. by apply Z.mod_pos_bound.
  - destruct (denote bits p e1), (denote bits p e2); try done. intros [= <-]. by apply Z.mod_pos_bound.
  - destruct (denote bits p e1), (denote bits p e2); try done. intros [= <-]. by apply Z.mod_pos_bound.
  - destruct (denote bits p e); try done. intros [= <-]. by apply Z.mod_pos_bound.
  - destruct (denote bits p e); try done. intros [= <-]. by apply Z.mod_pos_bound.
Qed.

Lemma eval_computes {B : FieldBinding} {p} {C : FieldContract B p} e :
  literals_fit 64 e = true -> computes (eval e) (denote b_bits p e).
Proof.
  induction e as [i|s|a IHa b IHb|a IHa b IHb|a IHa b IHb|a IH|a IH|a IH|a IH]; cbn [literals_fit];
    intros Hf; try apply andb_true_iff in Hf as [Ha Hb].
  - apply computes_Ret, ct_of_int. lia.
  - cbn [eval denote]. destruct (parse_bytes s 10) as [n|] eqn:E; cbn [mbind option_bind].
    + pose proof (ct_of_string (B := B) s n E ltac:(lia)) as H. by destruct (_ <? p).
    + by apply ct_of_string_bad.
  - cbn [eval denote]. apply computes_bind; [by apply IHa|]. intros x u Hx.
    apply computes_bind; [by apply IHb|]. intros y v Hy. by apply computes_Ret, ct_add.
  - cbn [eval denote]. apply computes_bind; [by apply IHa|]. intros x u Hx.
    apply computes_bind; [by apply IHb|]. intros y v Hy. by apply computes_Ret, ct_sub.
  - cbn [eval denote]. apply computes_bind; [by apply IHa|]. intros x u Hx.
    apply computes_bind; [by apply IHb|]. intros y v Hy. by apply computes_Ret, ct_mul.
  - cbn [eval denote]. apply computes_bind; [by apply IH|]. intros x u Hx. by apply computes_Ret, ct_negate.
  - cbn [eval denote]. apply computes_bind; [by apply IH|]. intros x u Hx. by apply computes_Ret, ct_square.
  - specialize (IH Hf). cbn [eval denote]. destruct (denote b_bits p a) as [z|]; [|by destruct (eval a)].
    destruct IH as (x & -> & Hx). pose proof (of_string_to_string (B2 := B) x z Hx) as H.
    by rewrite (proj2 (Z.ltb_lt _ _) (proj2 (ct_range x z Hx))) in H.
  - specialize (IH Hf). cbn [eval denote]. destruct (denote b_bits p a) as [z|]; [|by destruct (eval a)].
    destruct IH as (x & -> & Hx). pose proof (of_bigint_to_bigint (B2 := B) x z Hx) as H.
    by rewrite (proj2 (Z.ltb_lt _ _) (proj2 (ct_range x z Hx))) in H.
Qed.

(** An element sent from one implementation to another, as a decimal
    string or as a 256-bit integer. Between any two implementations that meet
    the contract, for the same field or for different ones, the receiver gets
    the element that stands for the same integer exactly when the integer is
    below its order, and sending it back then gives the original; it raises an
    error for every other element, on both ways. *)
Theorem field_transfer {B1 B2 : FieldBinding} {p1 p2} {C1 : FieldContract B1 p1}
    {C2 : FieldContract B2 p2} (x : elt B1) z :
  ct_rel x z ->
  (z < p2 -> exists y : elt B2, ct_rel y z /\
     b_of_string (b_to_string x) = Ret y /\ b_of_bigint (b_to_bigint x) = Ret y /\
     b_to_string y = b_to_string x /\
     b_of_string (b_to_string y) = Ret x /\ b_of_bigint (b_to_bigint y) = Ret x) /\
  (p2 <= z -> is_raise (b_of_string (FieldBinding := B2) (b_to_string x)) = true /\
              is_raise (b_of_bigint (FieldBinding := B2) (b_to_bigint x)) = true).
Proof.
  intros Hx. pose proof (of_string_to_string (B2 := B2) x z Hx) as Hs.
  pose proof (of_bigint_to_bigint (B2 := B2) x z Hx) as Hb. split; intros Hz.
  - rewrite (proj2 (Z.ltb_lt _ _) Hz) in Hs, Hb.
    destruct Hs as (y & Hs & Hy), Hb as (y' & Hb & Hy').
    rewrite (ct_inj _ _ _ Hy' Hy) in Hb. exists y. repeat (split; [done|]).
    split; [by rewrite (ct_to_string x z Hx), (ct_to_string y z Hy)|].
    pose proof (of_string_to_string (B2 := B1) y z Hy) as Hs'.
    pose proof (of_bigint_to_bigint (B2 := B1) y z Hy) as Hb'.
    rewrite (proj2 (Z.ltb_lt _ _) (proj2 (ct_range x z Hx))) in Hs', Hb'.
    destruct Hs' as (x1 & -> & H1), Hb' as (x2 & -> & H2).
    by rewrite (ct_inj _ _ _ H1 Hx), (ct_inj _ _ _ H2 Hx).
  - by rewrite (proj2 (Z.ltb_ge _ _) Hz) in Hs, Hb.
Qed.
End Clients.

(** Integers of 32 bits are read the same everywhere. *)
Lemma denote_bits {NB : NumBigint} v w p e : 0 < v <= w -> literals_fit v e = true -> denote w p e = denote v p e.
Proof.
  intros Hvw. assert (2 ^ (v - 1) <= 2 ^ (w - 1)) as Hp by (apply Z.pow_le_mono_r; lia).
  induction e; cbn [literals_fit denote]; rewrite ?andb_true_iff; try done; try tauto.
  - intros Hi. by rewrite !as_i_id by lia.
  - intros [H1 H2]. by rewrite IHe1, IHe2.
  - intros [H1 H2]. by rewrite IHe1, IHe2.
  - intros [H1 H2]. by rewrite IHe1, IHe2.
  - intros H. by rewrite IHe.
  - intros H. by rewrite IHe.
Qed.

(** The element, or the error, that [d] asks for; and the same from two
    implementations, with its decimal text. *)
Definition means {F} (PF : PrimeField F) (m : outcome F) (d : option Z) : Prop :=
  match d with
  | Some z => exists x, m = Ret x /\ fe_rel PF x z
  | None => is_raise m = true
  end.
Definition agree {NB : NumBigint} {F} (PF : PrimeField F) (text : F -> list byte) (m1 m2 : outcome F)
    (d : option Z) : Prop :=
  match d with
  | Some z => exists x, m1 = Ret x /\ m2 = Ret x /\ fe_rel PF x z /\ text x = biguint_to_string (Z.to_N z)
  | None => is_raise m1 = true /\ is_raise m2 = true
  end.
Lemma means_agree {NB : NumBigint} {F} (PF : PrimeField F) {PL : PrimeFieldLaws PF} text m1 m2 d :
  (forall x a, fe_rel PF x a -> text x = biguint_to_string (Z.to_N a)) ->
  means PF m1 d -> means PF m2 d -> agree PF text m1 m2 d.
Proof.
  intros Ht H1 H2. destruct d as [z|]; [|done]. destruct H1 as (x & -> & Hx), H2 as (y & -> & Hy).
  exists x. rewrite (fe_rel_inj PF y x z Hy Hx). repeat (split; [done|]). by apply Ht.
Qed.

(** C14: the bindings of both fields compute in the integers modulo the order.
    Take an expression a client builds from integers of at most 64 bits and decimal
    strings with the field operations. Natively it evaluates to the element of the
    value the expression denotes modulo the order of its field, and raises an error
    when it denotes none. In JavaScript it does the same, with the low 32 bits of every
    integer in place of the integer. So when all integers fit 32 bits, both give
    the same element, with the decimal text of its value, or both raise an error.
    Strings of 2^256 or more, which JavaScript truncates, are excluded throughout. *)
Theorem field_programs_refine {NB : NumBigint} {NL : NumBigintLaws NB} {AB : ArkBigInteger}
    {AL : ArkBigIntegerLaws AB} {F G : Type} (Fp : PrimeField F) (Fq : PrimeField G)
    {LFp : PrimeFieldLaws Fp} {LFq : PrimeFieldLaws Fq} e :
  literals_fit 64 e = true ->
  means Fp (eval (B := fp_stubs Fp) e) (denote 64 (fe_p Fp) e) /\
  means Fp (eval (B := fp_wasm Fp) e) (denote 32 (fe_p Fp) e) /\
  means Fq (eval (B := fq_stubs Fq) e) (denote 64 (fe_p Fq) e) /\
  means Fq (eval (B := fq_wasm Fq) e) (denote 32 (fe_p Fq) e) /\
  (literals_fit 32 e = true ->
     agree Fp PastaField.Wasm.caml_pasta_fp_to_string (eval (B := fp_stubs Fp) e) (eval (B := fp_wasm Fp) e)
       (denote 32 (fe_p Fp) e) /\
     agree Fq PastaFq.Wasm.caml_pasta_fq_to_string (eval (B := fq_stubs Fq) e) (eval (B := fq_wasm Fq) e)
       (denote 32 (fe_p Fq) e)).
Proof.
  intros Hf.
  assert (means Fp (eval (B := fp_stubs Fp) e) (denote 64 (fe_p Fp) e)) as H1
    by exact (eval_computes (B := fp_stubs Fp) e Hf).
  assert (means Fp (eval (B := fp_wasm Fp) e) (denote 32 (fe_p Fp) e)) as H2
    by exact (eval_computes (B := fp_wasm Fp) e Hf).
  assert (means Fq (eval (B := fq_stubs Fq) e) (denote 64 (fe_p Fq) e)) as H3
    by exact (eval_computes (B := fq_stubs Fq) e Hf).
  assert (means Fq (eval (B := fq_wasm Fq) e) (denote 32 (fe_p Fq) e)) as H4
    by exact (eval_computes (B := fq_wasm Fq) e Hf).
  split; [exact H1|]. split; [exact H2|]. split; [exact H3|]. split; [exact H4|].
  intros H32.
  rewrite (denote_bits 32) in H1 by (done || lia). rewrite (denote_bits 32) in H3 by (done || lia).
  split; apply means_agree; try assumption.
  - exact (ct_to_string (B := fp_wasm Fp)).
  - exact (ct_to_string (B := fq_wasm Fq)).
Qed.

(** ** Witnesses on the Pasta fields *)

(** The order of Fp is a number of Fq: -1 + 1 with -1 from its text. *)
Definition minus_one_text : list byte := biguint_to_string (Z.to_N (pasta_fp_modulus - 1)).

Lemma field_programs_refine_witness :
  (exists x, eval (B := fp_stubs ref_fp) (Add (Str minus_one_text) (Int 1)) = Ret x /\
     eval (B := fp_wasm ref_fp) (Add (Str minus_one_text) (Int 1)) = Ret x /\ fe_rel ref_fp x 0) /\
  (exists x, eval (B := fq_stubs ref_fq) (Add (Str minus_one_text) (Int 1)) = Ret x /\
     fe_rel ref_fq x pasta_fp_modulus) /\
  (* 2^32 + 5 is cut to 5 *)
  (exists x y, eval (B := fp_stubs ref_fp) (Int 4294967301) = Ret x /\ fe_rel ref_fp x 4294967301 /\
     eval (B := fp_wasm ref_fp) (Int 4294967301) = Ret y /\ fe_rel ref_fp y 5).
Proof.
  destruct (field_programs_refine (LFq := ref_fq_laws) ref_fp ref_fq (Add (Str minus_one_text) (Int 1)))
    as (_ & _ & H3 & _ & H); [vm_compute; reflexivity|].
  destruct H as [H1 _]; [vm_compute; reflexivity|].
  destruct (field_programs_refine (LFq := ref_fq_laws) ref_fp ref_fq (Int 4294967301))
    as (H5 & H6 & _); [vm_compute; reflexivity|].
  assert (denote 32 (fe_p ref_fp) (Add (Str minus_one_text) (Int 1)) = Some 0) as E1
    by (vm_compute; reflexivity).
  assert (denote 64 (fe_p ref_fq) (Add (Str minus_one_text) (Int 1)) = Some pasta_fp_modulus) as E2
    by (vm_compute; reflexivity).
  assert (denote 64 (fe_p ref_fp) (Int 4294967301) = Some 4294967301) as E3 by (vm_compute; reflexivity).
  assert (denote 32 (fe_p ref_fp) (Int 4294967301) = Some 5) as E4 by (vm_compute; reflexivity).
  rewrite E1 in H1. rewrite E2 in H3. rewrite E3 in H5. rewrite E4 in H6.
  destruct H1 as (x & Hs & Hw & Hx & _). destruct H5 as (y & Hy & Hry), H6 as (z & Hz & Hrz).
  split; [exists x; split; [exact Hs|split; [exact Hw|exact Hx]]|]. split; [exact H3|].
  exists y, z. split; [exact Hy|]. split; [exact Hry|]. split; [exact Hz|exact Hrz].
Defined.

(** The order of Fp itself cannot be sent from Fq to Fp. *)
Lemma field_transfer_witness :
  let x := mont_of pasta_fq_modulus pasta_fp_modulus in
  fe_rel ref_fq x pasta_fp_modulus /\
  is_raise (b_of_string (FieldBinding := fp_stubs ref_fp) (b_to_string (FieldBinding := fq_wasm ref_fq) x)) = true.
Proof.
  intros x. assert (fe_rel ref_fq x pasta_fp_modulus) as Hx by (split; vm_compute; reflexivity).
  split; [exact Hx|].
  assert (fe_p ref_fp <= pasta_fp_modulus) as Hle by (vm_compute; discriminate).
  destruct (field_transfer (B1 := fq_wasm ref_fq) (B2 := fp_stubs ref_fp)
           (C1 := fq_wasm_contract ref_fq (PL := ref_fq_laws)) (C2 := fp_stubs_contract ref_fp)
           x pasta_fp_modulus Hx) as [_ H].
  destruct (H Hle) as [H' _]. exact H'.
Defined.
