(* ===== verification/FlatVector.v ===== *)
(** * wasm_flat_vector.rs and wasm_vector.rs

    [WasmFlatVector] crosses to JavaScript as one byte array holding elements
    of a fixed size; [FlatVectorElem] is the trait its elements implement, and
    the field elements of [PastaField.v] are an instance.  [VecVec] models the
    vectors of field vectors of wasm_vector.rs (both under
    src/src/lib/crypto/kimchi_bindings/wasm/src). *)

From Stdlib Require Import ZArith Lia.
From stdpp Require Import base list strings.
From S2P Require Import Prelude Crates Reference PastaField.

(** The trait. *)
Class FlatVectorElem (T : Type) : Type := {
  FLATTENED_SIZE : nat;
  flatten : T -> list byte;
  unflatten : list byte -> outcome T;
}.

(** What the vectors rely on: a fixed positive size, and that elements of [ok]
    are read back. *)
Class FlatVectorElemLaws {T} (E : FlatVectorElem T) (ok : T -> Prop) : Prop := {
  flattened_size_pos : (0 < FLATTENED_SIZE)%nat;
  flatten_length x : length (flatten x) = FLATTENED_SIZE;
  unflatten_flatten x : ok x -> unflatten (flatten x) = Ret x;
}.

#[export] Instance pasta_flat {F} {PF : PrimeField F} : FlatVectorElem F := {|
  FLATTENED_SIZE := PastaField.Wasm.FLATTENED_SIZE;
  flatten := PastaField.Wasm.flatten;
  unflatten := PastaField.Wasm.unflatten;
|}.
#[export] Instance pasta_flat_laws {F} {PF : PrimeField F} {PL : PrimeFieldLaws PF} :
  FlatVectorElemLaws pasta_flat (fe_canonical (F := F)).
Proof.
  constructor; cbn [FLATTENED_SIZE flatten unflatten pasta_flat].
  - by apply Nat.ltb_lt.
  - apply fe_write_length.
  - intros x Hx. unfold PastaField.Wasm.unflatten, PastaField.Wasm.flatten. by rewrite fe_read_write.
Qed.

Section FlatVector.
Context {T : Type} {E : FlatVectorElem T}.

(** One turn of the loop of [from_abi]: the bytes of the element being read and
    the elements read. *)
Definition abi_step (st : list byte * list T) (x : byte) : outcome (list byte * list T) :=
  let '(buf, res) := st in
  _ ← rust_assert (length buf <? FLATTENED_SIZE)%nat
        "assertion failed: buf.len() < T::FLATTENED_SIZE";
  let buf := buf ++ [x] in
  if (FLATTENED_SIZE <=? length buf)%nat
  then y ← unflatten buf; Ret ([], res ++ [y])
  else Ret (buf, res).
Fixpoint abi_loop (data : list byte) (st : list byte * list T) : outcome (list byte * list T) :=
  match data with
  | [] => Ret st
  | x :: data => st ← abi_step st x; abi_loop data st
  end.
Definition from_abi (data : list byte) : outcome (list T) :=
  _ ← rust_assert (negb (FLATTENED_SIZE =? 0)%nat) "attempt to divide by zero";
  '(buf, res) ← abi_loop data ([], []);
  _ ← rust_assert (length buf =? 0)%nat "assertion `left == right` failed";
  Ret res.

Fixpoint into_abi (v : list T) : list byte :=
  match v with
  | [] => []
  | x :: v => flatten x ++ into_abi v
  end.
End FlatVector.

(** [WasmVecVecFp]: [usize] has 32 bits, a [Vec] header 12 bytes. *)
Module VecVec.
Section VecVec.
Context {F : Type}.

Definition WasmVecVec : Type := list (list F).
(** [Vec::with_capacity] panics when the bytes exceed [isize::MAX]. *)
Definition create (n : Z) : outcome WasmVecVec :=
  if as_u32 n * 12 <=? 2 ^ 31 - 1 then Ret [] else Panic "capacity overflow".
Definition push (self : WasmVecVec) (x : list F) : WasmVecVec := self ++ [x].
Definition get (self : WasmVecVec) (i : Z) : outcome (list F) := index self (as_u32 i).
Definition set (self : WasmVecVec) (i : Z) (x : list F) : outcome WasmVecVec :=
  index_set self (as_u32 i) x.
End VecVec.
End VecVec.

(** ** The loop reads the array chunk by chunk *)

Section Loop.
Context {T : Type} {E : FlatVectorElem T}.

Lemma abi_loop_app l1 l2 st :
  abi_loop (T := T) (l1 ++ l2) st = (st ← abi_loop l1 st; abi_loop l2 st).
Proof.
  revert st. induction l1 as [|x l1 IH]; intros st; simpl; [done|].
  destruct (abi_step st x); simpl; [apply IH|done|done].
Qed.
(** Fewer bytes than an element needs are only buffered. *)
Lemma abi_loop_partial l buf (res : list T) :
  (length buf + length l < FLATTENED_SIZE)%nat -> abi_loop l (buf, res) = Ret (buf ++ l, res).
Proof.
  revert buf. induction l as [|x l IH]; intros buf H; simpl in *; [by rewrite app_nil_r|].
  rewrite (proj2 (Nat.ltb_lt _ _)) by lia. simpl.
  rewrite (proj2 (Nat.leb_gt _ _)) by (rewrite length_app; simpl; lia). simpl.
  rewrite IH by (rewrite length_app; simpl; lia). by rewrite <-app_assoc.
Qed.
(** The bytes of one element are handed to [unflatten]. *)
Lemma abi_loop_chunk c (res : list T) :
  (0 < FLATTENED_SIZE)%nat -> length c = FLATTENED_SIZE ->
  abi_loop c ([], res) = (y ← unflatten c; Ret ([], res ++ [y])).
Proof.
  intros Hpos Hc. destruct c as [|x c _] using rev_ind; [simpl in Hc; lia|].
  rewrite length_app in Hc. simpl in Hc.
  rewrite abi_loop_app, abi_loop_partial by (simpl; lia). simpl.
  rewrite (proj2 (Nat.ltb_lt _ _)) by lia. simpl.
  rewrite (proj2 (Nat.leb_le _ _)) by (rewrite length_app; simpl; lia). simpl.
  by destruct (unflatten (c ++ [x])).
Qed.
Lemma abi_loop_chunks cs rest (res : list T) :
  (0 < FLATTENED_SIZE)%nat -> Forall (fun c => length c = FLATTENED_SIZE) cs ->
  (length rest < FLATTENED_SIZE)%nat ->
  abi_loop (concat cs ++ rest) ([], res) = (ys ← collect unflatten cs; Ret (rest, res ++ ys)).
Proof.
  intros Hpos Hcs Hrest. revert res.
  induction Hcs as [|c cs Hc _ IH]; intros res; cbn [concat collect].
  - simpl. rewrite abi_loop_partial by done. by rewrite app_nil_r.
  - rewrite <-app_assoc, abi_loop_app, abi_loop_chunk by done.
    destruct (unflatten c) as [y|e|s]; cbn; [|done|done]. rewrite IH.
    destruct (collect unflatten cs); cbn; [|done|done]. by rewrite <-app_assoc.
Qed.
Lemma into_abi_concat (v : list T) : into_abi v = concat (map flatten v).
Proof. induction v as [|x v IH]; simpl; [done|]. by rewrite IH. Qed.
End Loop.

(** ** Properties *)

Section Properties.
Context {T : Type} {E : FlatVectorElem T} {ok : T -> Prop} {L : FlatVectorElemLaws E ok}.

(** C21: reading a flat vector is reading its array element by element: the
    byte loop decodes the whole chunks of the element size in order, failing
    with the first element that does not decode, and then panics exactly when
    bytes are left over. *)
Theorem flat_from_abi_spec (data : list byte) :
  exists cs rest, data = concat cs ++ rest /\
    Forall (fun c => length c = FLATTENED_SIZE) cs /\
    length rest = (length data mod FLATTENED_SIZE)%nat /\
    from_abi (T := T) data =
      (ys ← collect unflatten cs;
       if (length data mod FLATTENED_SIZE =? 0)%nat then Ret ys
       else Panic "assertion `left == right` failed").
Proof.
  pose proof flattened_size_pos as Hpos.
  destruct (split_chunks FLATTENED_SIZE data Hpos) as (cs & rest & Ed & Hcs & Hr & Hm).
  exists cs, rest. repeat (split; [done|]). unfold from_abi.
  rewrite (proj2 (Nat.eqb_neq _ _)) by lia.
  assert (abi_loop data ([], []) = (ys ← collect unflatten cs; Ret (rest, [] ++ ys))) as ->
    by (rewrite Ed; by apply abi_loop_chunks).
  cbn. destruct (collect unflatten cs); cbn; [|done|done].
  rewrite Hm. by destruct (_ =? 0)%nat.
Qed.

(** What was flattened is read back; a partial element after it panics. *)
Lemma from_into_abi_extra (v : list T) (extra : list byte) :
  Forall ok v -> (length extra < FLATTENED_SIZE)%nat ->
  from_abi (into_abi v ++ extra) =
    if (length extra =? 0)%nat then Ret v else Panic "assertion `left == right` failed".
Proof.
  intros Hv Hx. pose proof flattened_size_pos as Hpos.
  assert (Forall (fun c => length c = FLATTENED_SIZE) (map flatten v)) as Hc.
  { apply Forall_map, Forall_forall. intros x _. apply flatten_length. }
  assert (collect unflatten (map flatten v) = Ret v) as Hcol.
  { induction Hv as [|x v Hok _ IH]; simpl; [done|].
    rewrite unflatten_flatten by done. simpl. rewrite IH; [done|]. by inversion Hc. }
  unfold from_abi. rewrite (proj2 (Nat.eqb_neq _ _)) by lia.
  rewrite into_abi_concat, abi_loop_chunks, Hcol by done. cbn. by destruct (length extra =? 0)%nat.
Qed.
Lemma from_into_abi (v : list T) : Forall ok v -> from_abi (into_abi v) = Ret v.
Proof.
  intros Hv. pose proof flattened_size_pos. rewrite <-(app_nil_r (into_abi v)).
  by rewrite from_into_abi_extra by (simpl; lia || done).
Qed.

(** A vector that crosses to JavaScript and back is unchanged, its array
    has as many bytes as elements times the element size, and an array with a
    partial element after it panics. *)
Theorem flat_vector_roundtrip (v : list T) (extra : list byte) :
  Forall ok v -> (length extra < FLATTENED_SIZE)%nat ->
  from_abi (into_abi v) = Ret v /\
  length (into_abi v) = (length v * FLATTENED_SIZE)%nat /\
  is_panic (from_abi (T := T) (into_abi v ++ extra)) = negb (length extra =? 0)%nat.
Proof.
  intros Hv Hx. split; [by apply from_into_abi|split].
  - clear -L. induction v as [|x v IH]; simpl; [done|]. rewrite length_app, flatten_length. lia.
  - rewrite from_into_abi_extra by done. by destruct (_ =? 0)%nat.
Qed.
End Properties.

(** Vectors of vectors. A vector can be created with a capacity from 0 up
    to the 32-bit limit and any other argument panics; after [push] the pushed
    vector is at the old length; [set] and [get] at an index in range act on
    that element only; a negative index or one at or past the length panics. *)
Theorem vec_vec_spec {F : Type} (v : list (list F)) (i n : Z) (x : list F) :
  Z.of_nat (length v) < 2 ^ 31 - 1 -> - 2 ^ 31 <= i < 2 ^ 31 -> - 2 ^ 31 <= n < 2 ^ 31 ->
  is_ret (VecVec.create (F := F) n) = (0 <=? n) && (n <=? 178956970) /\
  VecVec.get (VecVec.push v x) (Z.of_nat (length v)) = Ret x /\
  (0 <= i < Z.of_nat (length v) ->
     VecVec.get (VecVec.push v x) i = VecVec.get v i /\
     exists v', VecVec.set v i x = Ret v' /\ length v' = length v /\ VecVec.get v' i = Ret x /\
       forall j, 0 <= j < 2 ^ 31 -> j <> i -> VecVec.get v' j = VecVec.get v j) /\
  (i < 0 \/ Z.of_nat (length v) <= i ->
     is_panic (VecVec.get v i) = true /\ is_panic (VecVec.set v i x) = true).
Proof.
  intros Hl Hi Hn. unfold VecVec.create, VecVec.get, VecVec.set, VecVec.push.
  assert (forall z, 0 <= z < 2 ^ 31 -> as_u32 z = z) as Hu by (intros; apply as_u_id; lia).
  assert (forall z, - 2 ^ 31 <= z < 0 -> 2 ^ 31 <= as_u32 z) as Hneg
    by (intros z Hz; rewrite as_u_neg; lia).
  split; [|split; [|split]].
  - destruct (Z.leb_spec 0 n); [rewrite Hu by lia|specialize (Hneg n)];
      repeat case_match; simpl; lia || (symmetry; apply Z.leb_le + apply Z.leb_gt; lia).
  - rewrite Hu by lia. apply index_lookup. by rewrite lookup_app_r, Nat.sub_diag by lia.
  - intros Hr. rewrite (Hu i) by lia. unfold index, index_set.
    rewrite (proj2 (Z.ltb_ge _ _)), (proj2 (Z.leb_le _ _)), (proj2 (Z.ltb_lt _ _)) by lia. simpl.
    rewrite lookup_app_l by lia. split; [done|]. eexists. split; [done|].
    rewrite length_insert, list_lookup_insert_eq by lia. split; [done|]. split; [done|].
    intros j Hj Hne. rewrite Hu by lia. destruct (j <? 0); [done|].
    by rewrite list_lookup_insert_ne by lia.
  - intros Hr. assert (Z.of_nat (length v) <= as_u32 i) as Ho.
    { destruct Hr; [specialize (Hneg i); lia|rewrite Hu; lia]. }
    split; [apply index_oob; by right|]. unfold index_set.
    rewrite (proj2 (Z.ltb_ge _ _)) by done. by rewrite andb_false_r.
Qed.

(** ** Witnesses *)

Lemma flat_from_abi_spec_witness :
  let data := fe_write fp_seven ++ [byte_of 1] in
  exists cs rest, data = concat cs ++ rest /\ length rest = 1%nat /\
    from_abi (T := BigInteger256) data =
      (ys ← collect (unflatten (T := BigInteger256)) cs;
       Panic "assertion `left == right` failed").
Proof.
  intros data.
  destruct (flat_from_abi_spec (L := pasta_flat_laws (PL := ref_fp_laws)) data)
    as (cs & rest & Ed & _ & Hr & Hf).
  assert (length data = 33%nat) as Hd by (vm_compute; reflexivity).
  rewrite Hd in Hr, Hf. exists cs, rest.
  split; [exact Ed|]. split; [exact Hr|exact Hf].
Defined.

Lemma flat_vector_roundtrip_witness :
  let v := [fp_seven; fp_minus_one] in
  from_abi (into_abi v) = Ret v /\ length (into_abi v) = 64%nat /\
  is_panic (from_abi (T := BigInteger256) (into_abi v ++ [byte_of 0])) = true.
Proof.
  intros v.
  assert (Forall (fe_canonical (F := BigInteger256)) v) as Hv
    by (repeat constructor; vm_compute; reflexivity).
  destruct (flat_vector_roundtrip (L := pasta_flat_laws (PL := ref_fp_laws)) v [byte_of 0] Hv)
    as (H1 & H2 & H3); [by apply Nat.ltb_lt|].
  split; [exact H1|]. split; [exact H2|exact H3].
Defined.

Lemma vec_vec_spec_witness :
  is_panic (VecVec.get (F := Z) [[1]; [2]] (-1)) = true /\
  exists v', VecVec.set [[1]; [2]] 1 [3; 4] = Ret v' /\ VecVec.get v' 1 = Ret [3; 4].
Proof.
  split.
  - apply (vec_vec_spec [[1]; [2]] (-1) 0 []); simpl; lia.
  - destruct (vec_vec_spec [[1]; [2]] 1 0 [3; 4]) as (_ & _ & H & _); try (simpl; lia).
    destruct H as (_ & v' & Hs & _ & Hg & _); [simpl; lia|]. by exists v'.
Defined.
