(* ===== verification/FieldVector.v ===== *)
(** * field_vector.rs: vectors of field elements shared with OCaml

    Models stubs/src/field_vector.rs over the shared pointers of
    stubs/src/caml/caml_pointer.rs (under
    src/src/lib/crypto/kimchi_bindings).  An OCaml value [CamlFpVector] is a
    reference-counted pointer: taking it from OCaml clones the pointer, not the
    vector, so all handles of a vector see every mutation.  The Rust heap is
    the state; each function maps it to its result and the heap after it. *)

From Stdlib Require Import ZArith Lia.
From stdpp Require Import base list strings gmap.
From S2P Require Import Prelude.

(** ** caml_pointer.rs *)

Abbreviation ptr := positive.
Abbreviation store A := (gmap ptr A).

(** [create]: a fresh [Rc]. *)
Definition rc_new {A} (s : store A) (x : A) : ptr * store A :=
  let p := fresh (dom s) in (p, <[p := x]> s).
(** [from_value]: the pointer is cloned, so the handle is the same. *)
Definition rc_from_value (v : ptr) : ptr := v.
(** [deref] and [deref_mut]. *)
Definition rc_deref {A} (s : store A) (p : ptr) : outcome A :=
  expect "dangling pointer" (s !! p).
(** [caml_pointer_compare] always answers equal. *)
Definition caml_pointer_compare (_ _ : ptr) : Z := 0.

Lemma rc_new_spec {A} (s : store A) x p s' :
  rc_new s x = (p, s') -> s !! p = None /\ s' = <[p := x]> s.
Proof.
  unfold rc_new. intros [= <- <-]. split; [|done].
  apply not_elem_of_dom. apply is_fresh.
Qed.

(** ** field_vector.rs

    [impl_vector_old!(CamlFpVector, CamlFp, Fp)]. *)

Section FieldVector.
Context {F : Type}.

Definition caml_fp_vector_create (s : store (list F)) : ptr * store (list F) := rc_new s [].

Definition caml_fp_vector_length (s : store (list F)) (v : ptr) : outcome Z :=
  l ← rc_deref s (rc_from_value v); Ret (as_i64 (Z.of_nat (length l))).

Definition caml_fp_vector_emplace_back (s : store (list F)) (v : ptr) (x : F)
    : outcome (store (list F)) :=
  let v := rc_from_value v in
  l ← rc_deref s v; Ret (<[v := l ++ [x]]> s).

(** [v.get(i as usize)] *)
Definition caml_fp_vector_get (s : store (list F)) (v : ptr) (i : Z) : outcome F :=
  l ← rc_deref s (rc_from_value v);
  match l !! Z.to_nat (as_u64 i) with
  | Some x => Ret x
  | None => Raise (Invalid_argument "vector_get")
  end.

Definition caml_fp_vector_set (s : store (list F)) (v : ptr) (i : Z) (value : F)
    : outcome (store (list F)) :=
  let v := rc_from_value v in
  l ← rc_deref s v;
  match l !! Z.to_nat (as_u64 i) with
  | Some _ => Ret (<[v := <[Z.to_nat (as_u64 i) := value]> l]> s)
  | None => Raise (Invalid_argument "vector_set")
  end.

(** What a client that builds a vector does: create it and append. *)
Fixpoint emplace_all (s : store (list F)) (v : ptr) (xs : list F) : outcome (store (list F)) :=
  match xs with
  | [] => Ret s
  | x :: xs => s ← caml_fp_vector_emplace_back s v x; emplace_all s v xs
  end.
End FieldVector.

(** ** Properties *)

Section Properties.
Context {F : Type}.
Implicit Types (s : store (list F)) (l : list F).

(** A Rust vector never holds 2^63 elements. *)
Definition vec_len_ok l : Prop := Z.of_nat (length l) < 2 ^ 63.

Lemma cast_index l i :
  vec_len_ok l -> - 2 ^ 63 <= i < 2 ^ 63 ->
  l !! Z.to_nat (as_u64 i) = (if 0 <=? i then l !! Z.to_nat i else None) /\
  (is_Some (l !! Z.to_nat (as_u64 i)) <-> 0 <= i < Z.of_nat (length l)).
Proof.
  unfold vec_len_ok. intros Hl Hi. rewrite lookup_lt_is_Some. destruct (Z.leb_spec 0 i).
  - rewrite as_u_id by lia. split; [done|lia].
  - rewrite as_u_neg by lia. split; [apply lookup_ge_None_2; lia|lia].
Qed.

Lemma emplace_all_spec s v l xs :
  s !! v = Some l -> emplace_all s v xs = Ret (<[v := l ++ xs]> s).
Proof.
  revert s l. induction xs as [|x xs IH]; intros s l Hv; simpl.
  - by rewrite app_nil_r, insert_id.
  - unfold caml_fp_vector_emplace_back, rc_from_value, rc_deref. rewrite Hv. simpl.
    rewrite (IH _ (l ++ [x])) by apply lookup_insert_eq.
    by rewrite insert_insert_eq, <-app_assoc.
Qed.

(** Building a vector. A created vector is new, so no handle OCaml already
    holds is affected; after appending [xs] its length is theirs, index [i]
    holds the i-th and any other index is the error vector_get. *)
Theorem field_vector_build s xs :
  vec_len_ok xs ->
  let '(v, s1) := caml_fp_vector_create s in
  s !! v = None /\
  exists s2, emplace_all s1 v xs = Ret s2 /\
    caml_fp_vector_length s2 v = Ret (Z.of_nat (length xs)) /\
    (forall i, - 2 ^ 63 <= i < 2 ^ 63 ->
       caml_fp_vector_get s2 v i =
         match (if 0 <=? i then xs !! Z.to_nat i else None) with
         | Some x => Ret x
         | None => Raise (Invalid_argument "vector_get")
         end) /\
    (forall w, w <> v -> s2 !! w = s !! w).
Proof.
  intros Hl. destruct (caml_fp_vector_create s) as [v s1] eqn:E.
  apply rc_new_spec in E as [Hf ->]. split; [done|].
  eexists. split; [apply (emplace_all_spec _ _ []); apply lookup_insert_eq|].
  rewrite insert_insert_eq. unfold caml_fp_vector_length, caml_fp_vector_get, rc_from_value, rc_deref.
  rewrite lookup_insert_eq. simpl. repeat split.
  - f_equal. unfold vec_len_ok in Hl. apply as_i_id; lia.
  - intros i Hi. by rewrite (proj1 (cast_index xs i Hl Hi)).
  - intros w Hw. by rewrite lookup_insert_ne.
Qed.

(** Reading and writing through shared handles. [set] succeeds exactly for
    an index in range (negative ones are refused, not wrapped); then every
    handle of the same vector reads the new value there and the old values
    elsewhere, the length is unchanged and other vectors are untouched. Out of
    range, [set] and [get] are errors. *)
Theorem field_vector_set_get s v l i x :
  s !! v = Some l -> vec_len_ok l -> - 2 ^ 63 <= i < 2 ^ 63 ->
  (0 <= i < Z.of_nat (length l) ->
     exists s', caml_fp_vector_set s v i x = Ret s' /\
       caml_fp_vector_get s' v i = Ret x /\
       caml_fp_vector_length s' v = caml_fp_vector_length s v /\
       (forall j, - 2 ^ 63 <= j < 2 ^ 63 -> j <> i ->
          caml_fp_vector_get s' v j = caml_fp_vector_get s v j) /\
       (forall w, w <> v -> s' !! w = s !! w)) /\
  (~ 0 <= i < Z.of_nat (length l) ->
     caml_fp_vector_set s v i x = Raise (Invalid_argument "vector_set") /\
     caml_fp_vector_get s v i = Raise (Invalid_argument "vector_get")).
Proof.
  intros Hv Hl Hi. destruct (cast_index l i Hl Hi) as [Hc Hs].
  unfold caml_fp_vector_set, caml_fp_vector_get, caml_fp_vector_length, rc_from_value, rc_deref.
  rewrite Hv. simpl. split.
  - intros Hr. pose proof (proj2 Hs Hr) as [y Hy]. rewrite Hy. simpl.
    eexists. split; [done|]. rewrite lookup_insert_eq. simpl.
    pose proof (lookup_lt_Some _ _ _ Hy). rewrite list_lookup_insert_eq, length_insert by done.
    repeat split.
    + intros j Hj Hne. rewrite list_lookup_insert_ne; [done|].
      rewrite as_u_id by lia. destruct (Z.le_gt_cases 0 j).
      * rewrite as_u_id by lia. lia.
      * rewrite as_u_neg by lia. lia.
    + intros w Hw. by rewrite lookup_insert_ne.
  - intros Hr. destruct (l !! Z.to_nat (as_u64 i)) as [y|]; [|done].
    destruct Hr. apply Hs. by eexists.
Qed.
End Properties.

Lemma field_vector_build_witness :
  let '(v, s1) := caml_fp_vector_create (F := Z) ∅ in
  exists s2, emplace_all s1 v [7; 8] = Ret s2 /\
    caml_fp_vector_get s2 v 1 = Ret 8 /\
    caml_fp_vector_get s2 v (-1) = Raise (Invalid_argument "vector_get").
Proof.
  pose proof (field_vector_build (F := Z) ∅ [7; 8]) as H.
  destruct (caml_fp_vector_create ∅) as [v s1].
  destruct H as (_ & s2 & He & _ & Hg & _); [by vm_compute|].
  exists s2. split; [exact He|]. split; rewrite Hg by lia; reflexivity.
Defined.

Lemma field_vector_set_get_witness :
  exists s', caml_fp_vector_set {[ 1%positive := [7; 8]; 2%positive := [9] ]} 1 0 5 = Ret s' /\
    caml_fp_vector_get s' 1 0 = Ret 5 /\ s' !! 2%positive = Some [9].
Proof.
  destruct (field_vector_set_get {[ 1%positive := [7; 8]; 2%positive := [9] ]} 1 [7; 8] 0 5)
    as [H _]; [reflexivity|by vm_compute|lia|].
  destruct H as (s' & Hs & Hg & _ & _ & Hf); [simpl; lia|].
  exists s'. split; [exact Hs|]. split; [exact Hg|]. rewrite Hf by done. reflexivity.
Defined.
