(* ===== verification/SharedPointer.v ===== *)
(** * Shared pointers and their lifetimes

    The macros of stubs/src/caml: [impl_caml_pointer] (an [Rc]),
    [impl_shared_reference] (an [Arc]) and [impl_shared_rwlock] (an [Arc] of an
    [RwLock]).  Other files take the heap of a shared pointer as a map that only
    grows ([FieldVector.store]); here its objects have reference counts, OCaml's
    custom blocks hold handles, and finalizers and Rust's owners drop them.  The
    theorems: no handle ever dangles and every object is freed once, when its last
    handle goes, so that a call sees what the map without lifetimes says; and the
    vectors under a lock behave as the vectors without. *)

From Stdlib Require Import ZArith Lia.
From stdpp Require Import base list strings gmap.
From S2P Require Import Prelude FieldVector.

(** ** Reference counts *)

Section Pointers.
Context {A : Type}.

(** Objects with their strong counts, and the objects dropped so far. *)
Record heap : Type := Heap { cells : gmap ptr (A * nat); freed : list ptr }.

(** [Rc::new], [Arc::new]. *)
Definition rc_alloc (x : A) (h : heap) : ptr * heap :=
  let p := fresh (dom (cells h) ∪ list_to_set (freed h)) in
  (p, Heap (<[p := (x, 1%nat)]> (cells h)) (freed h)).
(** [clone]; nothing is a use after free. *)
Definition rc_clone (p : ptr) (h : heap) : option heap :=
  '(x, n) ← cells h !! p; Some (Heap (<[p := (x, S n)]> (cells h)) (freed h)).
(** Dropping a handle; the last one drops the object. *)
Definition rc_drop (p : ptr) (h : heap) : option heap :=
  '(x, n) ← cells h !! p;
  match n with
  | S (S n) => Some (Heap (<[p := (x, S n)]> (cells h)) (freed h))
  | _ => Some (Heap (delete p (cells h)) (p :: freed h))
  end.
(** Writing through [deref_mut]. *)
Definition rc_update (f : A -> A) (p : ptr) (h : heap) : option heap :=
  '(x, n) ← cells h !! p; Some (Heap (<[p := (f x, n)]> (cells h)) (freed h)).

(** The heap, the custom blocks of OCaml with the handle each holds, and the
    handles that Rust objects own (an index owns its reference string). *)
Record memory : Type := Mem { mheap : heap; blocks : gmap positive ptr; held : list ptr }.

Definition empty_memory : memory := Mem (Heap ∅ []) ∅ [].

(** A handle given to OCaml: a new block. *)
Definition into_value (p : ptr) (h : heap) (m : memory) : positive * memory :=
  let b := fresh (dom (blocks m)) in (b, Mem h (<[b := p]> (blocks m)) (held m)).
(** [from_value]: a clone of the handle in the block. *)
Definition from_value (b : positive) (m : memory) : option (ptr * heap) :=
  p ← blocks m !! b; h ← rc_clone p (mheap m); Some (p, h).
(** [create] and [new], returned to OCaml. *)
Definition create (x : A) (m : memory) : positive * memory :=
  let '(p, h) := rc_alloc x (mheap m) in into_value p h m.
(** [caml_pointer_finalize]: drops the handle of the block. *)
Definition caml_pointer_finalize (b : positive) (m : memory) : option memory :=
  p ← blocks m !! b; h ← rc_drop p (mheap m);
  Some (Mem h (delete b (blocks m)) (held m)).
(** A function that takes the value of [b], works on the object and returns. *)
Definition call (b : positive) (f : A -> A) (m : memory) : option memory :=
  '(p, h) ← from_value b m; h ← rc_update f p h; h ← rc_drop p h;
  Some (Mem h (blocks m) (held m)).

(** ** What OCaml and Rust do with them *)

Inductive action : Type :=
| Create (x : A)                    (* a function returns a new value *)
| Call (b : positive) (f : A -> A)  (* a function works on the object of [b] *)
| Share (b : positive)              (* a function returns the pointer it was given *)
| Keep (b : positive)               (* a Rust object takes the pointer it was given *)
| Expose (p : ptr)                  (* a function returns a pointer that an object owns *)
| Release (p : ptr)                 (* an object that owns the pointer is dropped *)
| Finalize (b : positive).          (* the collector finalizes an unreachable block *)

(** OCaml uses blocks it has, and Rust objects the handles they own. *)
Definition enabled (m : memory) (a : action) : Prop :=
  match a with
  | Create _ => True
  | Call b _ | Share b | Keep b | Finalize b => is_Some (blocks m !! b)
  | Expose p | Release p => p ∈ held m
  end.

Fixpoint remove_one (p : ptr) (l : list ptr) : list ptr :=
  match l with
  | [] => []
  | q :: l => if decide (q = p) then l else q :: remove_one p l
  end.

Definition exec (a : action) (m : memory) : option memory :=
  match a with
  | Create x => Some (snd (create x m))
  | Call b f => call b f m
  | Share b => '(p, h) ← from_value b m; Some (snd (into_value p h m))
  | Keep b => '(p, h) ← from_value b m; Some (Mem h (blocks m) (p :: held m))
  | Expose p => h ← rc_clone p (mheap m); Some (snd (into_value p h m))
  | Release p => h ← rc_drop p (mheap m); Some (Mem h (blocks m) (remove_one p (held m)))
  | Finalize b => caml_pointer_finalize b m
  end.

(** Executions; a use after free is no result. *)
Fixpoint exec_all (acts : list action) (m : memory) : option memory :=
  match acts with
  | [] => Some m
  | a :: acts => m ← exec a m; exec_all acts m
  end.
Fixpoint allowed (acts : list action) (m : memory) : Prop :=
  match acts with
  | [] => True
  | a :: acts => enabled m a /\ forall m', exec a m = Some m' -> allowed acts m'
  end.

(** The map without lifetimes that the other files work on. *)
Definition live (m : memory) : store A := fst <$> cells (mheap m).
End Pointers.
Arguments heap : clear implicits.
Arguments memory : clear implicits.
Arguments action : clear implicits.

(** ** The invariant: a count is the number of handles *)

Section Invariant.
Context {A : Type}.

Fixpoint count (p : ptr) (l : list ptr) : nat :=
  match l with
  | [] => 0
  | q :: l => (if decide (q = p) then 1 else 0) + count p l
  end%nat.

Lemma count_perm p l l' : l ≡ₚ l' -> count p l = count p l'.
Proof. induction 1; cbn; lia. Qed.
Lemma count_pos p l : p ∈ l <-> (0 < count p l)%nat.
Proof.
  induction l as [|q l IH]; cbn.
  - rewrite elem_of_nil. lia.
  - rewrite elem_of_cons, IH. destruct (decide (q = p)) as [->|Hne]; cbn; [intuition lia|].
    split; [intros [->|?]; [done|lia] | intros; right; lia].
Qed.
Lemma remove_one_perm p l : p ∈ l -> l ≡ₚ p :: remove_one p l.
Proof.
  induction l as [|q l IH]; [by rewrite elem_of_nil|].
  rewrite elem_of_cons. cbn. destruct (decide (q = p)) as [->|Hne]; [done|].
  intros [->|Hin]; [done|]. rewrite (IH Hin) at 1. apply Permutation_swap.
Qed.

(** The handles [l] are all there are to the heap. *)
Record counted (h : heap A) (l : list ptr) : Prop := {
  counted_cells : forall p, match cells h !! p with
    | Some (_, n) => n = count p l /\ (0 < n)%nat
    | None => count p l = 0%nat
    end;
  counted_freed : forall p, p ∈ freed h -> cells h !! p = None;
  counted_once : NoDup (freed h)
}.

Lemma counted_perm h l l' : l ≡ₚ l' -> counted h l -> counted h l'.
Proof.
  intros Hp [Hc Hf Hn]. split; try done. intros p. rewrite <- (count_perm p _ _ Hp). apply Hc.
Qed.

Lemma counted_handle h l p : counted h l -> p ∈ l -> exists x n, cells h !! p = Some (x, n).
Proof.
  intros [Hc _ _] Hp%count_pos. specialize (Hc p).
  destruct (cells h !! p) as [[x n]|]; [by exists x, n|]. rewrite Hc in Hp. by apply Nat.lt_irrefl in Hp.
Qed.

Lemma counted_alloc h l x p h' : counted h l -> rc_alloc x h = (p, h') ->
  counted h' (p :: l) /\ cells h' = <[p := (x, 1%nat)]> (cells h) /\ cells h !! p = None.
Proof.
  intros [Hc Hf Hn] E. unfold rc_alloc in E.
  assert (Hfr : p ∉ dom (cells h) ∪ list_to_set (freed h))
    by (injection E as <- _; apply is_fresh).
  injection E as E1 <-. rewrite E1.
  apply not_elem_of_union in Hfr as [Hd Hl]. apply not_elem_of_dom in Hd.
  rewrite elem_of_list_to_set in Hl.
  split; [|done]. split; cbn; [|intros q Hq|done].
  - intros q. rewrite lookup_insert. specialize (Hc q).
    case_decide as Hq; [subst q; rewrite Hd in Hc; split; lia | exact Hc].
  - rewrite lookup_insert_ne by (intros ->; done). by apply Hf.
Qed.

Lemma counted_clone h l p : counted h l -> p ∈ l ->
  exists h', rc_clone p h = Some h' /\ counted h' (p :: l) /\
    (fst <$> cells h' : store A) = fst <$> cells h.
Proof.
  intros HC Hp. destruct (counted_handle h l p HC Hp) as (x & n & Hx).
  destruct HC as [Hc Hf Hn]. unfold rc_clone. rewrite Hx. eexists. split; [reflexivity|].
  split; [split; cbn; [|intros q Hq|done]|].
  - intros q. rewrite lookup_insert. specialize (Hc q).
    case_decide as Hq; [subst q; rewrite Hx in Hc; split; lia | exact Hc].
  - rewrite lookup_insert_ne; [by apply Hf|]. intros ->. apply Hf in Hq. congruence.
  - cbn. rewrite fmap_insert, insert_id; [done|]. by rewrite lookup_fmap, Hx.
Qed.

(** A handle goes; the object goes with the last one. *)
Lemma counted_drop h l p : counted h (p :: l) ->
  exists h', rc_drop p h = Some h' /\ counted h' l /\
    (fst <$> cells h' : store A) =
      if decide (p ∈ l) then fst <$> cells h else delete p (fst <$> cells h).
Proof.
  intros HC. destruct (counted_handle h _ p HC ltac:(left)) as (x & n & Hx).
  destruct HC as [Hc Hf Hn]. unfold rc_drop. rewrite Hx. cbn.
  pose proof (Hc p) as Hp. rewrite Hx in Hp. cbn in Hp. rewrite decide_True in Hp by done.
  pose proof (count_pos p l) as Hin. destruct Hp as [-> _].
  destruct (count p l) as [|k] eqn:Ek; cbn.
  - eexists. split; [done|]. rewrite decide_False by (rewrite Hin; lia). cbn.
    split; [split; cbn; [|intros q Hq|]|by rewrite fmap_delete].
    + intros q. specialize (Hc q). destruct (decide (q = p)) as [->|Hq].
      * by rewrite lookup_delete_eq.
      * rewrite lookup_delete_ne by done. cbn in Hc. by rewrite decide_False in Hc by congruence.
    + destruct (decide (q = p)) as [->|Hne]; [by rewrite lookup_delete_eq|].
      rewrite lookup_delete_ne by done. apply Hf. by apply elem_of_cons in Hq as [?|?].
    + apply NoDup_cons. split; [|done]. intros H%Hf. congruence.
  - eexists. split; [done|]. rewrite decide_True by (rewrite Hin; lia). cbn.
    split; [split; cbn; [|intros q Hq|done]|].
    + intros q. rewrite lookup_insert. specialize (Hc q).
      case_decide as Hq; [subst q; split; lia|]. cbn in Hc. by rewrite decide_False in Hc.
    + rewrite lookup_insert_ne; [by apply Hf|]. intros ->. apply Hf in Hq. congruence.
    + rewrite fmap_insert, insert_id; [done|]. by rewrite lookup_fmap, Hx.
Qed.

Lemma counted_update h l f p : counted h l -> p ∈ l ->
  exists x h', (fst <$> cells h : store A) !! p = Some x /\ rc_update f p h = Some h' /\
    counted h' l /\ (fst <$> cells h' : store A) = <[p := f x]> (fst <$> cells h).
Proof.
  intros HC Hp. destruct (counted_handle h l p HC Hp) as (x & n & Hx).
  destruct HC as [Hc Hf Hn]. unfold rc_update. rewrite Hx. eexists x, _.
  split; [by rewrite lookup_fmap, Hx|]. split; [reflexivity|].
  split; [split; cbn; [|intros q Hq|done] | cbn; by rewrite fmap_insert].
  - intros q. rewrite lookup_insert. specialize (Hc q).
    case_decide as Hq; [subst q; by rewrite Hx in Hc | exact Hc].
  - rewrite lookup_insert_ne; [by apply Hf|]. intros ->. apply Hf in Hq. congruence.
Qed.
End Invariant.

(** ** Safety *)

Section Safety.
Context {A : Type}.
Implicit Types (m : memory A) (h : heap A).

(** Every handle: one per block, and those that Rust objects own. *)
Definition handles m : list ptr := (map_to_list (blocks m)).*2 ++ held m.
Definition wf m : Prop := counted (mheap m) (handles m).

Lemma handles_block m b p : blocks m !! b = Some p ->
  handles m ≡ₚ p :: (map_to_list (delete b (blocks m))).*2 ++ held m.
Proof.
  intros Hb. unfold handles. rewrite <- (map_to_list_delete (blocks m) b p Hb) at 1. done.
Qed.
Lemma block_handle m b p : blocks m !! b = Some p -> p ∈ handles m.
Proof. intros Hb. rewrite (handles_block m b p Hb). left. Qed.
Lemma elem_of_handles m p : p ∈ handles m <-> (exists b, blocks m !! b = Some p) \/ p ∈ held m.
Proof.
  unfold handles. rewrite elem_of_app, list_elem_of_fmap. split.
  - intros [([b q] & -> & Hb%elem_of_map_to_list)|Hp]; [left; by exists b | by right].
  - intros [[b Hb]|Hp]; [left | by right]. exists (b, p). split; [done|].
    by apply elem_of_map_to_list.
Qed.

Lemma into_value_wf m p h : counted h (p :: handles m) -> wf (snd (into_value p h m)).
Proof.
  intros Hc. unfold wf, into_value, handles. cbn. eapply counted_perm; [|exact Hc].
  rewrite map_to_list_insert; [done|]. apply not_elem_of_dom, is_fresh.
Qed.

(** How many objects there are and were. *)
Definition objects h : nat := size (cells h) + length (freed h).
Lemma objects_alloc h x p h' : rc_alloc x h = (p, h') -> cells h !! p = None ->
  objects h' = S (objects h).
Proof.
  unfold rc_alloc. intros [= <- <-] Hp. unfold objects. cbn.
  rewrite map_size_insert_None by done. done.
Qed.
Lemma objects_clone p h h' : rc_clone p h = Some h' -> objects h' = objects h.
Proof.
  unfold rc_clone. destruct (cells h !! p) as [[x n]|] eqn:Hp; [|done]. intros [= <-].
  unfold objects. cbn. by rewrite map_size_insert_Some by eauto.
Qed.
Lemma objects_update f p h h' : rc_update f p h = Some h' -> objects h' = objects h.
Proof.
  unfold rc_update. destruct (cells h !! p) as [[x n]|] eqn:Hp; [|done]. intros [= <-].
  unfold objects. cbn. by rewrite map_size_insert_Some by eauto.
Qed.
Lemma objects_drop p h h' : rc_drop p h = Some h' -> objects h' = objects h.
Proof.
  unfold rc_drop. destruct (cells h !! p) as [[x n]|] eqn:Hp; [|done].
  assert (Hs : size (cells h) <> 0%nat)
    by (intros Hs; apply map_size_empty_inv in Hs; rewrite Hs, lookup_empty in Hp; done).
  destruct n as [|[|n]]; intros [= <-]; unfold objects; cbn;
    rewrite ?map_size_insert_Some by eauto; try rewrite map_size_delete, Hp; cbn; lia.
Qed.

(** Taking a value from OCaml. *)
Lemma from_value_wf m b : wf m -> is_Some (blocks m !! b) ->
  exists p h, blocks m !! b = Some p /\ from_value b m = Some (p, h) /\
    counted h (p :: handles m) /\ (fst <$> cells h : store A) = live m /\
    objects h = objects (mheap m).
Proof.
  intros Hw [p Hb]. destruct (counted_clone _ _ p Hw (block_handle _ _ _ Hb)) as (h & Hh & Hc & Hl).
  exists p, h. unfold from_value. rewrite Hb. cbn. rewrite Hh. split_and!; try done.
  by eapply objects_clone.
Qed.

(** A call acts on the object of its block and on nothing else. *)
Lemma call_wf m b p f : wf m -> blocks m !! b = Some p ->
  exists x m', live m !! p = Some x /\ call b f m = Some m' /\ wf m' /\
    blocks m' = blocks m /\ held m' = held m /\ live m' = <[p := f x]> (live m) /\
    objects (mheap m') = objects (mheap m).
Proof.
  intros Hw Hb. destruct (from_value_wf m b Hw) as (q & h1 & Hq & Hfv & Hc1 & Hl1 & Ho1); [by eauto|].
  assert (q = p) as -> by congruence.
  destruct (counted_update h1 _ f p Hc1) as (x & h2 & Hx & Hu & Hc2 & Hl2); [left|].
  destruct (counted_drop h2 _ p Hc2) as (h3 & Hd & Hc3 & Hl3).
  rewrite decide_True in Hl3 by (by eapply block_handle).
  exists x, (Mem h3 (blocks m) (held m)). unfold call. rewrite Hfv. cbn. rewrite Hu. cbn. rewrite Hd.
  split_and!; try done.
  - by rewrite <- Hl1.
  - unfold live. cbn. by rewrite Hl3, Hl2, Hl1.
  - cbn. rewrite (objects_drop _ _ _ Hd), (objects_update _ _ _ _ Hu). exact Ho1.
Qed.

Definition creates (a : action A) : nat := match a with Create _ => 1 | _ => 0 end.

Lemma exec_wf m a : wf m -> enabled m a ->
  exists m', exec a m = Some m' /\ wf m' /\ objects (mheap m') = (creates a + objects (mheap m))%nat.
Proof.
  intros Hw He. destruct a as [x|b f|b|b|p|p|b]; cbn [enabled exec creates] in *.
  - unfold create. destruct (rc_alloc x (mheap m)) as [p h] eqn:E.
    destruct (counted_alloc _ _ _ _ _ Hw E) as (Hc & _ & Hp).
    eexists. split; [reflexivity|]. split; [by apply into_value_wf|]. by apply (objects_alloc _ _ _ _ E).
  - destruct He as [p Hb]. destruct (call_wf m b p f Hw Hb) as (x & m' & _ & Hm & Hw' & _ & _ & _ & Ho).
    by exists m'.
  - destruct (from_value_wf m b Hw He) as (p & h & _ & -> & Hc & _ & Ho).
    eexists. split; [reflexivity|]. split; [by apply into_value_wf|done].
  - destruct (from_value_wf m b Hw He) as (p & h & _ & -> & Hc & _ & Ho).
    eexists. split; [reflexivity|]. split; [|done]. unfold wf, handles. cbn.
    eapply counted_perm; [|exact Hc]. apply Permutation_middle.
  - destruct (counted_clone _ _ p Hw) as (h & Hh & Hc & _); [apply elem_of_handles; by right|].
    rewrite Hh. eexists. split; [reflexivity|]. split; [by apply into_value_wf|].
    by apply (objects_clone _ _ _ Hh).
  - assert (Hw' : counted (mheap m) (p :: (map_to_list (blocks m)).*2 ++ remove_one p (held m))).
    { eapply counted_perm; [|exact Hw]. unfold handles.
      rewrite (remove_one_perm p (held m) He) at 1. symmetry. apply Permutation_middle. }
    destruct (counted_drop _ _ _ Hw') as (h & Hh & Hc & _). rewrite Hh.
    eexists. split; [reflexivity|]. split; [exact Hc|]. by apply (objects_drop _ _ _ Hh).
  - destruct He as [p Hb]. unfold caml_pointer_finalize. rewrite Hb. cbn.
    pose proof (counted_perm _ _ _ (handles_block m b p Hb) Hw) as Hw'.
    destruct (counted_drop _ _ _ Hw') as (h & Hh & Hc & _). rewrite Hh.
    eexists. split; [reflexivity|]. split; [exact Hc|]. by apply (objects_drop _ _ _ Hh).
Qed.

Lemma exec_all_wf acts : forall m, wf m -> allowed acts m ->
  exists m', exec_all acts m = Some m' /\ wf m' /\
    objects (mheap m') = (sum_list_with creates acts + objects (mheap m))%nat.
Proof.
  induction acts as [|a acts IH]; intros m Hw Ha; [by exists m|].
  destruct Ha as [He Ha]. destruct (exec_wf m a Hw He) as (m1 & E & Hw1 & Ho1).
  destruct (IH m1 Hw1 (Ha m1 E)) as (m' & E' & Hw' & Ho').
  exists m'. cbn. rewrite E. split; [exact E'|]. split; [done|]. lia.
Qed.

Lemma live_handle m p : wf m -> is_Some (live m !! p) <-> p ∈ handles m.
Proof.
  intros [Hc _ _]. unfold live. rewrite lookup_fmap, fmap_is_Some, count_pos. specialize (Hc p).
  destruct (cells (mheap m) !! p) as [[x n]|].
  - split; [lia | by eauto].
  - split; [by intros [? ?] | lia].
Qed.

(** C19: Shared pointers are memory safe under every interleaving of calls,
    finalizers and drops: if OCaml uses only blocks it has and Rust objects drop
    only handles they own, no step uses an object after it is freed; an object
    is alive exactly while a block or a Rust object holds it, is freed once, and
    every object created is alive or freed.  A call sees and changes the object
    of its block and nothing else, which is what a heap without lifetimes says. *)
Theorem shared_pointers_safe acts :
  allowed acts empty_memory ->
  exists m, exec_all acts empty_memory = Some m /\
    (forall p, is_Some (live m !! p) <-> (exists b, blocks m !! b = Some p) \/ p ∈ held m) /\
    NoDup (freed (mheap m)) /\ (forall p, p ∈ freed (mheap m) -> live m !! p = None) /\
    (size (live m) + length (freed (mheap m)) = sum_list_with creates acts)%nat /\
    (forall b p f, blocks m !! b = Some p ->
       exists x m', live m !! p = Some x /\ exec (Call b f) m = Some m' /\
         blocks m' = blocks m /\ held m' = held m /\ live m' = <[p := f x]> (live m)).
Proof.
  intros Ha. assert (Hw : wf (empty_memory (A := A))).
  { split; cbn; [by intros p; rewrite lookup_empty | by intros p ?%elem_of_nil | constructor]. }
  destruct (exec_all_wf acts _ Hw Ha) as (m & E & Hw' & Ho). exists m. split; [done|].
  split_and!.
  - intros p. rewrite live_handle by done. apply elem_of_handles.
  - apply Hw'.
  - intros p Hp. unfold live. by rewrite lookup_fmap, (counted_freed _ _ Hw' p Hp).
  - unfold live. rewrite map_size_fmap. unfold objects in Ho.
    cbn [empty_memory mheap cells freed length] in Ho. rewrite map_size_empty in Ho. lia.
  - intros b p f Hb. destruct (call_wf m b p f Hw' Hb) as (x & m' & Hx & Hm & _ & H1 & H2 & H3 & _).
    by exists x, m'.
Qed.
End Safety.

(** A vector that OCaml shares, that an index keeps, and that outlives its blocks. *)
Definition sample_actions : list (action (list Z)) :=
  [Create []; Call 1 (fun l => l ++ [7]); Share 1; Keep 1; Finalize 1; Call 2 (fun l => l ++ [8]);
   Finalize 2; Expose 1; Release 1; Create [9]; Finalize 1].

Lemma sample_allowed : allowed sample_actions empty_memory.
Proof.
  repeat (split; [first [done | by eexists | by left] | intros ? H; vm_compute in H; injection H as <-]).
  done.
Qed.

Lemma shared_pointers_safe_witness :
  exists m, exec_all sample_actions empty_memory = Some m /\ live m = {[ 2%positive := [9] ]}.
Proof.
  destruct (shared_pointers_safe sample_actions sample_allowed) as (m & Hm & _).
  exists m. split; [exact Hm|]. vm_compute in Hm. injection Hm as <-. reflexivity.
Defined.

(** ** Vectors under a lock

    The macro [impl_vector] of field_vector.rs, over [impl_shared_rwlock]: each
    function holds the lock of its vector while it runs.  A lock whose holder
    panicked is poisoned, and refuses. *)

Module LockedVector.
Record rwlock (A : Type) : Type := RwLock { poisoned : bool; inner : A }.
Arguments RwLock {A}.
Arguments poisoned {A}.
Arguments inner {A}.

(** [read()], [write()] with [map_err(|_| CamlError::Failure(msg))]. *)
Definition acquire {A} (msg : string) (l : rwlock A) : outcome A :=
  if poisoned l then Raise (Failure msg) else Ret (inner l).

Section Vectors.
Context {F : Type}.
Implicit Types (s : store (rwlock (list F))).

Definition caml_fp_vector_create s : ptr * store (rwlock (list F)) := rc_new s (RwLock false []).

Definition caml_fp_vector_length s (v : ptr) : outcome Z :=
  lk ← rc_deref s (rc_from_value v);
  l ← acquire "vector_length: could not capture lock" lk; Ret (as_i64 (Z.of_nat (length l))).

Definition caml_fp_vector_emplace_back s (v : ptr) (x : F) : outcome (store (rwlock (list F))) :=
  let v := rc_from_value v in
  lk ← rc_deref s v;
  l ← acquire "vector_emplace_back: could not capture lock" lk;
  Ret (<[v := RwLock (poisoned lk) (l ++ [x])]> s).

Definition caml_fp_vector_get s (v : ptr) (i : Z) : outcome F :=
  lk ← rc_deref s (rc_from_value v);
  l ← acquire "vector_get: could not capture lock" lk;
  match l !! Z.to_nat (as_u64 i) with
  | Some x => Ret x
  | None => Raise (Invalid_argument "vector_get")
  end.

Definition caml_fp_vector_set s (v : ptr) (i : Z) (value : F) : outcome (store (rwlock (list F))) :=
  let v := rc_from_value v in
  lk ← rc_deref s v;
  l ← acquire "vector_set: could not capture lock" lk;
  match l !! Z.to_nat (as_u64 i) with
  | Some _ => Ret (<[v := RwLock (poisoned lk) (<[Z.to_nat (as_u64 i) := value]> l)]> s)
  | None => Raise (Invalid_argument "vector_set")
  end.

(** The vectors without their locks. *)
Definition unlock s : store (list F) := inner <$> s.

Lemma deref_unlock s v :
  rc_deref (unlock s) (rc_from_value v) = inner <$> rc_deref s (rc_from_value v).
Proof.
  unfold rc_deref, unlock. rewrite lookup_fmap. by destruct (s !! rc_from_value v).
Qed.

(** Under a lock that is not poisoned the functions are those of
    [FieldVector]; under a poisoned one each is its error. *)
Theorem locked_vector_agrees s v lk x i :
  s !! v = Some lk ->
  let '(p, s') := caml_fp_vector_create s in
  (p, unlock s') = FieldVector.caml_fp_vector_create (unlock s) /\
  (poisoned lk = false ->
    caml_fp_vector_length s v = FieldVector.caml_fp_vector_length (unlock s) v /\
    unlock <$> caml_fp_vector_emplace_back s v x
      = FieldVector.caml_fp_vector_emplace_back (unlock s) v x /\
    caml_fp_vector_get s v i = FieldVector.caml_fp_vector_get (unlock s) v i /\
    unlock <$> caml_fp_vector_set s v i x
      = FieldVector.caml_fp_vector_set (unlock s) v i x) /\
  (poisoned lk = true ->
    caml_fp_vector_length s v = Raise (Failure "vector_length: could not capture lock") /\
    caml_fp_vector_emplace_back s v x
      = Raise (Failure "vector_emplace_back: could not capture lock") /\
    caml_fp_vector_get s v i = Raise (Failure "vector_get: could not capture lock") /\
    caml_fp_vector_set s v i x = Raise (Failure "vector_set: could not capture lock")).
Proof.
  intros Hv. unfold caml_fp_vector_create, FieldVector.caml_fp_vector_create, rc_new.
  assert (Hs : rc_deref s (rc_from_value v) = Ret lk) by (unfold rc_deref, rc_from_value; by rewrite Hv).
  split; [|split].
  - unfold unlock. rewrite dom_fmap_L. f_equal. by rewrite fmap_insert.
  - intros Hp.
    unfold caml_fp_vector_length, caml_fp_vector_emplace_back, caml_fp_vector_get, caml_fp_vector_set,
      FieldVector.caml_fp_vector_length, FieldVector.caml_fp_vector_emplace_back,
      FieldVector.caml_fp_vector_get, FieldVector.caml_fp_vector_set.
    cbv zeta. rewrite deref_unlock, Hs. cbn. unfold acquire. rewrite Hp. cbn.
    split_and!; try done.
    + unfold unlock. by rewrite fmap_insert.
    + destruct (inner lk !! _); [|done]. cbn. unfold unlock. by rewrite fmap_insert.
  - intros Hp.
    unfold caml_fp_vector_length, caml_fp_vector_emplace_back, caml_fp_vector_get, caml_fp_vector_set.
    cbv zeta. rewrite Hs. cbn. unfold acquire. by rewrite Hp.
Qed.
End Vectors.
End LockedVector.
