(* ===== verification/GateVector.v ===== *)
(** * gate_vector.rs: circuits as vectors of gates

    [Stubs] models stubs/src/gate_vector.rs and [Wasm] models
    wasm/src/gate_vector.rs (under src/src/lib/crypto/kimchi_bindings), both
    for the field of Pallas.  [CircuitGate] and [Wire] belong to the kimchi
    crate; the bindings use their public fields [typ], [wires], [coeffs] and
    [row], [col].  Gate types, the digest and the JSON text of a circuit are
    parameters. *)

From Stdlib Require Import ZArith Lia.
From stdpp Require Import base list strings.
From S2P Require Import Prelude.

Record Wire : Type := { row : Z; col : Z }.
(** [PERMUTS] of the kimchi crate: the wires of a gate, as the seven fields of
    [WasmGateWires] show. *)
Definition PERMUTS : nat := 7.

Section Types.
Context {GateType F : Type}.
Record CircuitGate : Type := { typ : GateType; wires : list Wire; coeffs : list F }.
End Types.
Arguments CircuitGate : clear implicits.

(** [wires] is an array of [PERMUTS] wires. *)
Definition gate_ok {GT F} (g : CircuitGate GT F) : Prop := length (wires g) = PERMUTS.
Definition set_wires {GT F} (g : CircuitGate GT F) (w : list Wire) : CircuitGate GT F :=
  {| typ := typ g; wires := w; coeffs := coeffs g |}.

(** [v[r].wires[c] = h], on machine indices. *)
Definition set_wire {GT F} (v : list (CircuitGate GT F)) (r c : Z) (h : Wire)
    : outcome (list (CircuitGate GT F)) :=
  g ← index v r;
  ws ← index_set (wires g) c h;
  index_set v r (set_wires g ws).

(** A wire as OCaml has it: signed integers. *)
Record CamlWire : Type := { caml_row : Z; caml_col : Z }.

(** What the bindings call of the kimchi crate. *)
Class KimchiGates (GateType F CamlGate : Type) : Type := {
  wire_of_caml : CamlWire -> outcome Wire;               (* From<CamlWire> *)
  gate_of_caml : CamlGate -> CircuitGate GateType F;     (* From<CamlCircuitGate> *)
  gate_to_caml : CircuitGate GateType F -> CamlGate;     (* From<&CircuitGate> *)
  circuit_digest : Z -> list (CircuitGate GateType F) -> list byte;
  circuit_json : Z -> list (CircuitGate GateType F) -> option (list byte);
}.
(** The OCaml representation of a gate is faithful. *)
Class KimchiGatesLaws {GT F CG} (K : KimchiGates GT F CG) : Prop := {
  gate_to_of_caml g : gate_ok (gate_of_caml g) /\ gate_to_caml (gate_of_caml g) = g;
}.

Module Stubs.
Section Stubs.
Context {GateType F CamlGate : Type} {K : KimchiGates GateType F CamlGate}.
Abbreviation gates := (list (CircuitGate GateType F)).

Definition caml_pasta_fp_plonk_gate_vector_create : gates := [].
Definition caml_pasta_fp_plonk_gate_vector_add (v : gates) (gate : CamlGate) : gates :=
  let gate := gate_of_caml gate in v ++ [gate].
Definition caml_pasta_fp_plonk_gate_vector_get (v : gates) (i : Z) : outcome CamlGate :=
  gate ← index v (as_u64 i); Ret (gate_to_caml gate).
Definition caml_pasta_fp_plonk_gate_vector_len (v : gates) : Z := Z.of_nat (length v).
Definition caml_pasta_fp_plonk_gate_vector_wrap (v : gates) (t h : CamlWire) : outcome gates :=
  h ← wire_of_caml h;
  set_wire v (as_u64 (caml_row t)) (as_u64 (caml_col t)) h.
Definition caml_pasta_fp_plonk_gate_vector_digest (public_input_size : Z) (v : gates)
    : outcome (list byte) :=
  n ← expect "called `Result::unwrap()` on an `Err` value" (try_into_u 64 public_input_size);
  Ret (circuit_digest n v).
Definition caml_pasta_fp_plonk_circuit_serialize (public_input_size : Z) (v : gates)
    : outcome (list byte) :=
  n ← expect "called `Result::unwrap()` on an `Err` value" (try_into_u 64 public_input_size);
  expect "couldn't serialize constraints" (circuit_json n v).
End Stubs.
End Stubs.

Module Wasm.
Section Wasm.
Context {GateType F CamlGate : Type} {K : KimchiGates GateType F CamlGate}.
Abbreviation gates := (list (CircuitGate GateType F)).

Record WasmGateWires : Type :=
  { w0 : Wire; w1 : Wire; w2 : Wire; w3 : Wire; w4 : Wire; w5 : Wire; w6 : Wire }.
Record WasmFpGate : Type :=
  { wasm_typ : GateType; wasm_wires : WasmGateWires; wasm_coeffs : list F }.
Definition WasmFpGate_new (typ : GateType) (wires : WasmGateWires) (coeffs : list F) : WasmFpGate :=
  {| wasm_typ := typ; wasm_wires := wires; wasm_coeffs := coeffs |}.

(** [From<&CircuitGate>] indexes the seven wires. *)
Definition gate_to_wasm (cg : CircuitGate GateType F) : outcome WasmFpGate :=
  a ← index (wires cg) 0; b ← index (wires cg) 1; c ← index (wires cg) 2;
  d ← index (wires cg) 3; e ← index (wires cg) 4; f ← index (wires cg) 5;
  g ← index (wires cg) 6;
  Ret {| wasm_typ := typ cg;
         wasm_wires := {| w0 := a; w1 := b; w2 := c; w3 := d; w4 := e; w5 := f; w6 := g |};
         wasm_coeffs := coeffs cg |}.
Definition gate_of_wasm (ccg : WasmFpGate) : CircuitGate GateType F :=
  let w := wasm_wires ccg in
  {| typ := wasm_typ ccg;
     wires := [w0 w; w1 w; w2 w; w3 w; w4 w; w5 w; w6 w];
     coeffs := wasm_coeffs ccg |}.

Definition caml_pasta_fp_plonk_gate_vector_create : gates := [].
Definition caml_pasta_fp_plonk_gate_vector_add (v : gates) (gate : WasmFpGate) : gates :=
  let gate := gate_of_wasm gate in v ++ [gate].
Definition caml_pasta_fp_plonk_gate_vector_get (v : gates) (i : Z) : outcome WasmFpGate :=
  cg ← index v (as_u32 i); gate_to_wasm cg.
Definition caml_pasta_fp_plonk_gate_vector_len (v : gates) : Z := Z.of_nat (length v).
(** The fields of a [Wire] are machine integers already. *)
Definition caml_pasta_fp_plonk_gate_vector_wrap (v : gates) (t h : Wire) : outcome gates :=
  set_wire v (row t) (col t) h.
Definition caml_pasta_fp_plonk_gate_vector_digest (public_input_size : Z) (v : gates) : list byte :=
  circuit_digest public_input_size v.
Definition caml_pasta_fp_plonk_circuit_serialize (public_input_size : Z) (v : gates)
    : outcome (list byte) :=
  expect "couldn't serialize constraints" (circuit_json public_input_size v).
End Wasm.
End Wasm.

(** ** Properties *)

Section Properties.
Context {GT F CG : Type} {K : KimchiGates GT F CG} {L : KimchiGatesLaws K}.
Implicit Types (v : list (CircuitGate GT F)) (g : CircuitGate GT F).

Lemma seven {A} (l : list A) :
  length l = PERMUTS -> exists a0 a1 a2 a3 a4 a5 a6, l = [a0; a1; a2; a3; a4; a5; a6].
Proof.
  intros H. do 8 (destruct l as [|? l]; [try (by inversion H)|]); [|by inversion H].
  by do 7 eexists.
Qed.

(** The conversions to and from the JavaScript gate are inverse. *)
Lemma gate_to_of_wasm w : Wasm.gate_to_wasm (GateType := GT) (F := F) (Wasm.gate_of_wasm w) = Ret w.
Proof. by destruct w as [? [] ?]. Qed.
Lemma gate_of_to_wasm g :
  gate_ok g -> exists w, Wasm.gate_to_wasm g = Ret w /\ Wasm.gate_of_wasm w = g.
Proof.
  intros (a & b & c & d & e & f & h & E)%seven. unfold Wasm.gate_to_wasm. rewrite E.
  eexists. split; [done|]. destruct g. simpl in E. by subst.
Qed.

Lemma index_app_l {A} (l1 l2 : list A) (i : Z) :
  0 <= i < Z.of_nat (length l1) -> index (l1 ++ l2) i = index l1 i.
Proof. intros H. unfold index. by rewrite lookup_app_l by lia. Qed.
Lemma index_end {A} (l : list A) x : index (l ++ [x]) (Z.of_nat (length l)) = Ret x.
Proof. apply index_lookup. by rewrite lookup_app_r, Nat.sub_diag by lia. Qed.

(** Adding and reading gates. A gate added at the end is read back as the
    client gave it, on both sides, and earlier gates are as before; reading at a
    negative index or at or past the end panics. *)
Theorem gate_vector_add_get v (g : CG) (w : Wasm.WasmFpGate (GateType := GT) (F := F)) (i : Z) :
  Z.of_nat (length v) < 2 ^ 31 - 1 -> - 2 ^ 31 <= i < 2 ^ 31 ->
  let vs := Stubs.caml_pasta_fp_plonk_gate_vector_add v g in
  let vw := Wasm.caml_pasta_fp_plonk_gate_vector_add v w in
  let n := Stubs.caml_pasta_fp_plonk_gate_vector_len v in
  Stubs.caml_pasta_fp_plonk_gate_vector_len vs = n + 1 /\
  Wasm.caml_pasta_fp_plonk_gate_vector_len vw = n + 1 /\
  Stubs.caml_pasta_fp_plonk_gate_vector_get vs n = Ret g /\
  Wasm.caml_pasta_fp_plonk_gate_vector_get vw n = Ret w /\
  (0 <= i < n ->
     Stubs.caml_pasta_fp_plonk_gate_vector_get vs i = Stubs.caml_pasta_fp_plonk_gate_vector_get v i /\
     Wasm.caml_pasta_fp_plonk_gate_vector_get vw i = Wasm.caml_pasta_fp_plonk_gate_vector_get v i) /\
  (~ 0 <= i < n ->
     is_panic (Stubs.caml_pasta_fp_plonk_gate_vector_get v i) = true /\
     is_panic (Wasm.caml_pasta_fp_plonk_gate_vector_get v i) = true).
Proof.
  intros Hl Hi vs vw n. subst vs vw n.
  unfold Stubs.caml_pasta_fp_plonk_gate_vector_get, Wasm.caml_pasta_fp_plonk_gate_vector_get,
    Stubs.caml_pasta_fp_plonk_gate_vector_len, Wasm.caml_pasta_fp_plonk_gate_vector_len,
    Stubs.caml_pasta_fp_plonk_gate_vector_add, Wasm.caml_pasta_fp_plonk_gate_vector_add.
  assert (forall k, (k = 32 \/ k = 64) -> as_u k (Z.of_nat (length v)) = Z.of_nat (length v)) as Hn
    by (intros k [-> | ->]; apply as_u_id; lia).
  rewrite !Hn, !index_end by auto. cbn [mbind outcome_bind].
  rewrite gate_to_of_wasm. destruct (gate_to_of_caml g) as [_ ->].
  rewrite !length_app. simpl length. repeat (split; [lia || done|]). split.
  - intros Hr. by rewrite !(as_u_id _ i), !index_app_l by lia.
  - intros Hr.
    assert (forall k, (k = 32 \/ k = 64) -> Z.of_nat (length v) <= as_u k i) as Ho.
    { intros k Hk. destruct (Z.le_gt_cases 0 i).
      - rewrite as_u_id by (destruct Hk as [-> | ->]; lia). lia.
      - rewrite as_u_neg by (destruct Hk as [-> | ->]; lia). destruct Hk as [-> | ->]; lia. }
    pose proof (index_oob v (as_u32 i) (or_intror (Ho 32 (or_introl eq_refl)))) as H32.
    pose proof (index_oob v (as_u64 i) (or_intror (Ho 64 (or_intror eq_refl)))) as H64.
    by destruct (index v (as_u64 i)), (index v (as_u32 i)).
Qed.

Lemma map_insert_same {A B} (f : A -> B) l i x y :
  l !! i = Some y -> f x = f y -> map f (<[i := x]> l) = map f l.
Proof.
  revert i. induction l as [|z l IH]; intros [|i] Hy Hf; simpl in *; try done.
  - congruence.
  - f_equal. by apply IH.
Qed.
Lemma index_set_Ret {A} (l : list A) (i : Z) x :
  0 <= i < Z.of_nat (length l) -> index_set l i x = Ret (<[Z.to_nat i := x]> l).
Proof.
  intros H. unfold index_set. by rewrite (proj2 (Z.leb_le _ _)), (proj2 (Z.ltb_lt _ _)) by lia.
Qed.
Lemma index_set_panic {A} (l : list A) (i : Z) x :
  i < 0 \/ Z.of_nat (length l) <= i -> is_panic (index_set l i x) = true.
Proof.
  intros [H|H]; unfold index_set.
  - by rewrite (proj2 (Z.leb_gt _ _)) by lia.
  - by rewrite (proj2 (Z.ltb_ge _ _)), andb_false_r by lia.
Qed.

(** C30: rewiring. Setting the wire at row [r], column [c] panics exactly when
    there is no such gate or wire; otherwise the number of gates, the type and
    coefficients of every gate and every other wire are as before, that wire is
    the new one, and every gate still has its seven wires. Both bindings do
    this, the OCaml one after casting the row and column. *)
Theorem gate_vector_wrap_spec v (r c : Z) (h : Wire) :
  Forall gate_ok v -> 0 <= r < 2 ^ 31 -> 0 <= c < 2 ^ 31 ->
  let v' := Wasm.caml_pasta_fp_plonk_gate_vector_wrap v {| row := r; col := c |} h in
  (forall ch, wire_of_caml ch = Ret h ->
     Stubs.caml_pasta_fp_plonk_gate_vector_wrap v {| caml_row := r; caml_col := c |} ch = v') /\
  (~ (r < Z.of_nat (length v) /\ c < 7) -> is_panic v' = true) /\
  (r < Z.of_nat (length v) /\ c < 7 ->
     exists u, v' = Ret u /\ Forall gate_ok u /\ length u = length v /\
       map typ u = map typ v /\ map coeffs u = map coeffs v /\
       forall i j, (g ← u !! i; wires g !! j) =
         if decide (i = Z.to_nat r /\ j = Z.to_nat c) then Some h
         else (g ← v !! i; wires g !! j)).
Proof.
  intros Hv Hr Hc v'. subst v'.
  unfold Stubs.caml_pasta_fp_plonk_gate_vector_wrap, Wasm.caml_pasta_fp_plonk_gate_vector_wrap.
  split; [intros ch ->; simpl; by rewrite !as_u_id by lia|]. simpl. unfold set_wire.
  destruct (decide (r < Z.of_nat (length v))) as [Hlt|Hge].
  2: { split; [|lia]. intros _. pose proof (index_oob v r ltac:(lia)) as H. by destruct (index v r). }
  destruct (lookup_lt_is_Some_2 v (Z.to_nat r)) as [g Hg]; [lia|].
  pose proof (index_lookup _ _ _ Hg) as Hi. rewrite Z2Nat.id in Hi by lia. rewrite Hi. simpl.
  pose proof (Forall_lookup_1 _ _ _ _ Hv Hg) as Hw. unfold gate_ok, PERMUTS in Hw.
  split.
  { intros Hn. pose proof (index_set_panic (wires g) c h ltac:(rewrite Hw; simpl; lia)) as H.
    by destruct (index_set (wires g) c h). }
  intros [_ Hc7]. rewrite !index_set_Ret by (rewrite ?Hw; simpl; lia). simpl.
  rewrite index_set_Ret by lia. eexists. split; [done|].
  split; [|rewrite length_insert; split; [done|split; [|split]]].
  - apply Forall_insert; [done|]. unfold gate_ok. simpl. by rewrite length_insert.
  - by apply (map_insert_same _ _ _ _ g).
  - by apply (map_insert_same _ _ _ _ g).
  - intros i j. destruct (decide (i = Z.to_nat r)) as [->|Hne].
    + rewrite list_lookup_insert_eq by lia. rewrite Hg. simpl.
      destruct (decide (j = Z.to_nat c)) as [->|Hj].
      * rewrite list_lookup_insert_eq by (rewrite Hw; lia). by rewrite decide_True.
      * rewrite list_lookup_insert_ne by done. by rewrite decide_False by (intros [? ?]; congruence).
    + rewrite list_lookup_insert_ne by done. by rewrite decide_False by (intros [? ?]; congruence).
Qed.
End Properties.

(** ** Witnesses: the OCaml gate is the gate itself, restricted to seven wires *)

Definition wire0 : Wire := {| row := 0; col := 0 |}.
Definition seven_wires (w : list Wire) : list Wire := take 7 (w ++ replicate 7 wire0).

Inductive demo_gate : Type := Demo (t : Z) (a b c d e f g : Wire) (k : list Z).
#[local] Instance demo_kimchi : KimchiGates Z Z demo_gate := {|
  wire_of_caml w :=
    if (0 <=? caml_row w) && (0 <=? caml_col w)
    then Ret {| row := caml_row w; col := caml_col w |} else Panic "negative wire";
  gate_of_caml '(Demo t a b c d e f g k) :=
    {| typ := t; wires := [a; b; c; d; e; f; g]; coeffs := k |};
  gate_to_caml cg :=
    let w n := nth n (wires cg) wire0 in
    Demo (typ cg) (w 0%nat) (w 1%nat) (w 2%nat) (w 3%nat) (w 4%nat) (w 5%nat) (w 6%nat) (coeffs cg);
  circuit_digest n v := [];
  circuit_json n v := None;
|}.
#[local] Instance demo_kimchi_laws : KimchiGatesLaws demo_kimchi.
Proof. constructor. by intros []. Qed.

Definition demo : demo_gate := Demo 1 wire0 wire0 wire0 wire0 wire0 wire0 wire0 [5].

Lemma gate_vector_add_get_witness :
  let w : Wasm.WasmFpGate (GateType := Z) (F := Z) :=
    {| Wasm.wasm_typ := 2; Wasm.wasm_wires := Wasm.Build_WasmGateWires wire0 wire0 wire0 wire0 wire0 wire0 wire0;
       Wasm.wasm_coeffs := [] |} in
  let v := [gate_of_caml demo] in
  Stubs.caml_pasta_fp_plonk_gate_vector_get (Stubs.caml_pasta_fp_plonk_gate_vector_add v demo) 1 = Ret demo /\
  is_panic (Stubs.caml_pasta_fp_plonk_gate_vector_get v (-1)) = true.
Proof.
  intros w v.
  destruct (gate_vector_add_get v demo w (-1)) as (_ & _ & H1 & _ & _ & H2); [simpl; lia|lia|].
  split; [exact H1|]. apply H2. lia.
Defined.

Lemma gate_vector_wrap_spec_witness :
  let h := {| row := 9; col := 4 |} in
  exists u, Wasm.caml_pasta_fp_plonk_gate_vector_wrap [gate_of_caml demo] {| row := 0; col := 2 |} h = Ret u /\
    (g ← u !! 0%nat; wires g !! 2%nat) = Some h /\ (g ← u !! 0%nat; wires g !! 1%nat) = Some wire0.
Proof.
  intros h.
  destruct (gate_vector_wrap_spec (K := demo_kimchi) [gate_of_caml demo] 0 2 h) as (_ & _ & H);
    [by repeat constructor|lia|lia|].
  destruct H as (u & Hu & _ & _ & _ & _ & Hw); [simpl; lia|].
  exists u. split; [exact Hu|]. split; rewrite Hw; reflexivity.
Defined.
