(* ===== verification/GateText.v ===== *)
(** * The text of a gate

    Models [format_circuit_gate] of wasm/src/pasta_fp_plonk_index.rs (under
    src/src/lib/crypto/kimchi_bindings).  How a field element and a gate type are
    printed is the crates', as arguments. *)

From Stdlib Require Import ZArith Lia.
From Stdlib Require Strings.Byte.
From stdpp Require Import base list strings.
From S2P Require Import Prelude Crates Reference GateVector.

(** [format!("{}", n)] of a [usize] *)
Definition show_usize (n : Z) : list byte := dec_string (Z.to_N n).

(** [join] of slices *)
Fixpoint join (sep : list byte) (l : list (list byte)) : list byte :=
  match l with
  | [] => []
  | [x] => x
  | x :: l => x ++ sep ++ join sep l
  end.

(** [enumerate] *)
Definition enumerate {A} (l : list A) : list (Z * A) :=
  zip (map Z.of_nat (seq 0 (length l))) l.

Section Text.
Context {GateType F : Type} (debug : GateType -> list byte) (format_field : F -> list byte).
Abbreviation newline := (bytes_of_string (String.String (Ascii.ascii_of_nat 10) String.EmptyString)).

Definition format_wire (i : Z) (jw : Z * Wire) : list byte :=
  bytes_of_string "(" ++ show_usize i ++ bytes_of_string ", " ++ show_usize (fst jw) ++
  bytes_of_string ") --> (" ++ show_usize (row (snd jw)) ++ bytes_of_string ", " ++
  show_usize (col (snd jw)) ++ bytes_of_string ")".
Definition rewired (i : Z) (jw : Z * Wire) : bool :=
  negb (row (snd jw) =? i) || negb (col (snd jw) =? fst jw).
Definition format_circuit_gate (i : Z) (gate : CircuitGate GateType F) : list byte :=
  let coeffs := join newline (map format_field (coeffs gate)) in
  let wires := join newline (map (format_wire i) (List.filter (rewired i) (enumerate (wires gate)))) in
  bytes_of_string "c[" ++ show_usize i ++ bytes_of_string "][" ++ debug (typ gate) ++
  bytes_of_string "]:" ++ newline ++ bytes_of_string "constraints" ++ newline ++ coeffs ++ newline ++
  bytes_of_string "wires" ++ newline ++ wires ++ newline.

(** ** What can be read off the text *)

Definition wire_ok (w : Wire) : Prop := 0 <= row w /\ 0 <= col w.

Lemma cut_at (c : byte) a a' r r' : c ∉ a -> c ∉ a' -> a ++ c :: r = a' ++ c :: r' -> a = a' /\ r = r'.
Proof.
  revert a'. induction a as [|x a IH]; intros [|x' a'] Ha Ha' H; simplify_eq/=.
  - done.
  - destruct Ha'. left.
  - destruct Ha. left.
  - apply not_elem_of_cons in Ha as [_ Ha], Ha' as [_ Ha'].
    by destruct (IH a' Ha Ha') as [-> ->].
Qed.

Lemma not_among (c : byte) (l : list byte) : bool_decide (c ∈ l) = false -> c ∉ l.
Proof. by intros H%bool_decide_eq_false. Qed.

Lemma not_app (c : byte) a b : c ∉ a -> c ∉ b -> c ∉ a ++ b.
Proof. intros Ha Hb [H|H]%elem_of_app; [by apply Ha|by apply Hb]. Qed.

Lemma dec_digits_digit fuel n b : b ∈ dec_digits fuel n -> exists d, (d < 10)%N /\ b = byte_of (48 + Z.of_N d).
Proof.
  revert n. induction fuel as [|fuel IH]; intros n Hb; cbn in Hb; [by apply not_elem_of_nil in Hb|].
  apply elem_of_cons in Hb as [->|Hb].
  - exists (n mod 10)%N. split; [by apply N.mod_lt|done].
  - destruct (n <? 10)%N; [by apply not_elem_of_nil in Hb|]. by apply IH in Hb.
Qed.
Lemma show_usize_not b n : digit_of b = None -> b ∉ show_usize n.
Proof.
  intros Hb Hin. unfold show_usize, dec_string in Hin. rewrite elem_of_reverse in Hin.
  apply dec_digits_digit in Hin as (d & Hd & ->). by rewrite digit_of_digit in Hb.
Qed.
Lemma show_usize_inj n m : 0 <= n -> 0 <= m -> show_usize n = show_usize m -> n = m.
Proof.
  intros Hn Hm H. apply (f_equal dec_parse) in H. unfold show_usize in H.
  rewrite !dec_parse_string in H. injection H as H. lia.
Qed.

(** Lines of a text come back from its [join]. *)
Lemma join_inj (l l' : list (list byte)) :
  (forall x, x ∈ l ++ l' -> x <> [] /\ Byte.x0a ∉ x) -> join newline l = join newline l' -> l = l'.
Proof.
  change newline with [Byte.x0a]. revert l'. induction l as [|x l IH]; intros l' Hok H.
  - destruct l' as [|y l']; [done|]. destruct (Hok y) as [Hy _]; [by left|].
    destruct y; [done|]. by destruct l'.
  - destruct (Hok x) as [Hx Hx']; [by left|]. destruct l' as [|y l'].
    { destruct x; [done|]. by destruct l. }
    destruct (Hok y) as [Hy Hy']; [apply elem_of_app; right; left|].
    assert (forall z, z ∈ l ++ l' -> z <> [] /\ Byte.x0a ∉ z) as Hok'.
    { intros z Hz. apply Hok. rewrite elem_of_app, !elem_of_cons in *. tauto. }
    specialize (IH l' Hok').
    destruct l as [|x2 l], l' as [|y2 l']; cbn [join] in H.
    + by f_equal.
    + subst x. destruct Hx'. rewrite elem_of_app. right. left.
    + subst y. destruct Hy'. rewrite elem_of_app. right. left.
    + apply cut_at in H as [-> H]; [|done..]. f_equal. by apply IH.
Qed.

Lemma map_inj_on {A A'} (f : A -> A') (P : A -> Prop) l l' :
  Forall P l -> Forall P l' -> (forall x y, P x -> P y -> f x = f y -> x = y) ->
  map f l = map f l' -> l = l'.
Proof.
  intros Hl. revert l'. induction Hl as [|x l Hx _ IH]; intros [|y l'] Hl' Hf H; try done.
  apply Forall_cons in Hl' as [Hy Hl']. injection H as E H. f_equal; auto.
Qed.

Lemma format_wire_inj i jw jw' :
  0 <= fst jw -> 0 <= fst jw' -> wire_ok (snd jw) -> wire_ok (snd jw') ->
  format_wire i jw = format_wire i jw' -> jw = jw'.
Proof.
  destruct jw as [j [r c]], jw' as [j' [r' c']]. unfold format_wire, wire_ok. cbn [fst snd row col].
  intros Hj Hj' [Hr Hc] [Hr' Hc'] H.
  apply (app_inv_head (bytes_of_string "(")), app_inv_head, (app_inv_head (bytes_of_string ", ")) in H.
  apply cut_at in H as [Ej H]; [|by apply show_usize_not..].
  apply (app_inv_head (tail (bytes_of_string ") --> ("))) in H.
  apply cut_at in H as [Er H]; [|by apply show_usize_not..].
  apply (app_inv_head (tail (bytes_of_string ", "))), app_inv_tail in H.
  apply show_usize_inj in Ej, Er, H; [|done..]. by subst.
Qed.
Lemma format_wire_line i jw : format_wire i jw <> [] /\ Byte.x0a ∉ format_wire i jw.
Proof.
  split; [done|]. unfold format_wire. repeat apply not_app; auto using show_usize_not, not_among.
Qed.

(** The wires that are not printed lead to themselves. *)
Lemma filtered_inj (i : Z) (l l' : list Wire) (start : nat) :
  length l = length l' ->
  List.filter (rewired i) (zip (map Z.of_nat (seq start (length l))) l) =
    List.filter (rewired i) (zip (map Z.of_nat (seq start (length l'))) l') -> l = l'.
Proof.
  revert l' start. induction l as [|w l IH]; intros [|w' l'] start Hl H; try done.
  injection Hl as Hl. cbn [length seq map zip zip_with List.filter] in H.
  assert (forall k (ws : list Wire) jw, jw ∈ List.filter (rewired i) (zip (map Z.of_nat (seq k (length ws))) ws)
    -> Z.of_nat k <= fst jw) as Hge.
  { intros k ws [j v] [Hin _]%list_elem_of_In%List.filter_In. apply list_elem_of_In, elem_of_zip_l in Hin.
    apply list_elem_of_fmap in Hin as (m & -> & Hm). apply elem_of_seq in Hm. cbn. lia. }
  destruct (rewired i (Z.of_nat start, w)) eqn:E, (rewired i (Z.of_nat start, w')) eqn:E'.
  - injection H as -> H. f_equal. by eapply IH.
  - exfalso. specialize (Hge (S start) l' (Z.of_nat start, w)). rewrite <-H in Hge.
    specialize (Hge ltac:(left)). cbn in Hge. lia.
  - exfalso. specialize (Hge (S start) l (Z.of_nat start, w')). rewrite H in Hge.
    specialize (Hge ltac:(left)). cbn in Hge. lia.
  - f_equal; [|by eapply IH]. unfold rewired in E, E'. cbn [fst snd] in E, E'.
    apply orb_false_iff in E as [E1%negb_false_iff E2%negb_false_iff].
    apply orb_false_iff in E' as [E1'%negb_false_iff E2'%negb_false_iff].
    destruct w, w'; cbn in *. f_equal; lia.
Qed.

Lemma enumerate_ok i (ws : list Wire) : Forall wire_ok ws ->
  Forall (fun jw => 0 <= fst jw /\ wire_ok (snd jw)) (List.filter (rewired i) (enumerate ws)).
Proof.
  intros Hok. apply List.Forall_forall. intros [j w] [Hin _]%List.filter_In.
  apply list_elem_of_In in Hin. split.
  - apply elem_of_zip_l, list_elem_of_fmap in Hin as (m & -> & _). cbn. lia.
  - apply elem_of_zip_r in Hin. by eapply Forall_forall in Hok.
Qed.

(** No rewiring of a gate is invisible: gates of the same type and coefficients,
    with as many wires, are printed alike at a row only when they are equal. *)
Theorem format_circuit_gate_wires i (g g' : CircuitGate GateType F) :
  typ g = typ g' -> coeffs g = coeffs g' -> length (wires g) = length (wires g') ->
  Forall wire_ok (wires g) -> Forall wire_ok (wires g') ->
  format_circuit_gate i g = format_circuit_gate i g' -> g = g'.
Proof.
  intros Ht Hc Hl Hok Hok' H. unfold format_circuit_gate in H. cbv zeta in H. rewrite Ht, Hc in H.
  do 12 apply app_inv_head in H. apply app_inv_tail, join_inj in H.
  - apply (map_inj_on (format_wire i) (fun jw => 0 <= fst jw /\ wire_ok (snd jw))) in H.
    + destruct g, g'. cbn in *. subst. f_equal. by apply (filtered_inj i _ _ 0).
    + by apply enumerate_ok.
    + by apply enumerate_ok.
    + intros x y [Hx Hx'] [Hy Hy']. by apply format_wire_inj.
  - intros x. rewrite <-map_app, list_elem_of_fmap. intros (jw & -> & _). apply format_wire_line.
Qed.
End Text.

Lemma format_circuit_gate_wires_witness :
  let gate w : CircuitGate Z Z :=
    {| typ := 1; wires := [{| row := 3; col := 0 |}; w]; coeffs := [7] |} in
  let text w := format_circuit_gate (fun _ => bytes_of_string "Generic") show_usize 3 (gate w) in
  text {| row := 3; col := 1 |} <> text {| row := 12; col := 1 |}.
Proof.
  intros gate text H.
  assert (gate {| row := 3; col := 1 |} = gate {| row := 12; col := 1 |}) as E; [|by injection E].
  apply (format_circuit_gate_wires (fun _ => bytes_of_string "Generic") show_usize 3);
    [done..| | |exact H]; repeat constructor; cbn; lia.
Defined.
