(* ===== verification/Poseidon.v ===== *)
(** * The Poseidon permutation, and circuits as JSON

    [Stubs] models stubs/src/pasta_fp_poseidon.rs and
    stubs/src/pasta_fq_poseidon.rs, [Wasm] models wasm/src/poseidon.rs and
    wasm/src/circuit.rs (under src/src/lib/crypto/kimchi_bindings).  The
    permutation is the mina_poseidon crate's ([Permutation]).  OCaml permutes a
    shared vector in place; JavaScript sends a flat vector and gets another. *)

From Stdlib Require Import ZArith Lia.
From stdpp Require Import base list strings gmap.
From S2P Require Import Prelude Crates Reference PastaField FlatVector FieldVector GateVector.

(** [poseidon_block_cipher::<F, PlonkSpongeConstantsKimchi>] on a slice. *)
Class Permutation (F Params : Type) : Type := {
  kimchi_params : Params;
  poseidon_block_cipher : Params -> list F -> outcome (list F)
}.
(** A slice keeps its length, and arithmetic gives canonical elements. *)
Class PermutationLaws {F Params} {PF : PrimeField F} (X : Permutation F Params) : Prop := {
  cipher_length p l l' : poseidon_block_cipher p l = Ret l' -> length l' = length l;
  cipher_canonical p l l' :
    Forall fe_canonical l -> poseidon_block_cipher p l = Ret l' -> Forall (fe_canonical (F := F)) l'
}.

Module Stubs.
Section Stubs.
Context {Fp Fq Params ParamsQ : Type} {Xp : Permutation Fp Params} {Xq : Permutation Fq ParamsQ}.

Definition caml_pasta_fp_poseidon_params_create : Params := kimchi_params.
(** [state.as_mut()]: what other handles of the vector see is permuted. *)
Definition caml_pasta_fp_poseidon_block_cipher (s : store (list Fp)) (params : Params) (state : ptr)
    : outcome (store (list Fp)) :=
  let state := rc_from_value state in
  l ← rc_deref s state; l ← poseidon_block_cipher params l; Ret (<[state := l]> s).

Definition caml_pasta_fq_poseidon_params_create : ParamsQ := kimchi_params.
Definition caml_pasta_fq_poseidon_block_cipher (s : store (list Fq)) (params : ParamsQ) (state : ptr)
    : outcome (store (list Fq)) :=
  let state := rc_from_value state in
  l ← rc_deref s state; l ← poseidon_block_cipher params l; Ret (<[state := l]> s).
End Stubs.
End Stubs.

Module Wasm.
Section Wasm.
Context {Fp Fq Params ParamsQ : Type} {Xp : Permutation Fp Params} {Xq : Permutation Fq ParamsQ}.

Definition caml_pasta_fp_poseidon_block_cipher (state : list Fp) : outcome (list Fp) :=
  poseidon_block_cipher kimchi_params state.
Definition caml_pasta_fq_poseidon_block_cipher (state : list Fq) : outcome (list Fq) :=
  poseidon_block_cipher kimchi_params state.

(** circuit.rs; [to_string] of serde_json is a parameter. *)
Record Circuit (GT : Type) : Type := { public_input_size : Z; circuit_gates : list (CircuitGate GT Fp) }.
Arguments Build_Circuit {GT}.
Definition circuit_of_cs {CS GT} (cs_public : CS -> Z) (cs_gates : CS -> list (CircuitGate GT Fp)) (cs : CS)
    : Circuit GT :=
  Build_Circuit (cs_public cs) (cs_gates cs).
Definition prover_to_json {PI CS GT} (px_cs : PI -> CS) (cs_public : CS -> Z)
    (cs_gates : CS -> list (CircuitGate GT Fp)) (to_string : Circuit GT -> option (list byte))
    (prover_index : PI) : outcome (list byte) :=
  let circuit := circuit_of_cs cs_public cs_gates (px_cs prover_index) in
  expect "couldn't serialize constraints" (to_string circuit).
End Wasm.
End Wasm.

(** ** Properties *)

Section Properties.
Context {F Params : Type} {PF : PrimeField F} {PL : PrimeFieldLaws PF}.
Context {X : Permutation F Params} {XL : PermutationLaws X}.

(** What a client does to hash: permute [n] times, on the shared vector, and
    through the byte arrays of the JavaScript ABI. *)
Fixpoint permute_shared (n : nat) (s : store (list F)) (v : ptr) : outcome (store (list F)) :=
  match n with
  | O => Ret s
  | S n =>
      s ← Stubs.caml_pasta_fp_poseidon_block_cipher s Stubs.caml_pasta_fp_poseidon_params_create v;
      permute_shared n s v
  end.
Fixpoint permute_bytes (n : nat) (bytes : list byte) : outcome (list byte) :=
  match n with
  | O => Ret bytes
  | S n =>
      state ← FlatVector.from_abi (T := F) bytes;
      state ← Wasm.caml_pasta_fp_poseidon_block_cipher state;
      permute_bytes n (FlatVector.into_abi state)
  end.
(** The permutation, [n] times. *)
Fixpoint permute (n : nat) (l : list F) : outcome (list F) :=
  match n with
  | O => Ret l
  | S n => l ← poseidon_block_cipher kimchi_params l; permute n l
  end.

Lemma permute_shared_eq n s v l :
  s !! v = Some l -> permute_shared n s v = (l' ← permute n l; Ret (<[v := l']> s)).
Proof.
  revert s l. induction n as [|n IH]; intros s l Hv; cbn [permute_shared permute mbind outcome_bind].
  - by rewrite insert_id.
  - unfold Stubs.caml_pasta_fp_poseidon_block_cipher, Stubs.caml_pasta_fp_poseidon_params_create, rc_from_value,
      rc_deref. rewrite Hv. cbn [expect mbind outcome_bind].
    destruct (poseidon_block_cipher kimchi_params l) as [l1|e|m]; cbn [mbind outcome_bind]; [|done|done].
    rewrite (IH _ l1) by apply lookup_insert_eq.
    destruct (permute n l1); cbn [mbind outcome_bind]; [|done|done]. by rewrite insert_insert_eq.
Qed.
Lemma permute_bytes_eq n l :
  Forall fe_canonical l ->
  permute_bytes n (FlatVector.into_abi l) = (l' ← permute n l; Ret (FlatVector.into_abi l')).
Proof.
  revert l. induction n as [|n IH]; intros l Hl; [done|]. cbn [permute_bytes permute].
  rewrite (from_into_abi _ Hl). cbn [mbind outcome_bind]. unfold Wasm.caml_pasta_fp_poseidon_block_cipher.
  destruct (poseidon_block_cipher kimchi_params l) as [l1|e|m] eqn:E; cbn [mbind outcome_bind]; [|done|done].
  apply IH. by eapply cipher_canonical.
Qed.
Lemma permute_length n l l' : permute n l = Ret l' -> length l' = length l.
Proof.
  revert l. induction n as [|n IH]; intros l H; [by injection H as ->|].
  cbn [permute] in H. apply bind_is_Ret in H as (l1 & H1 & H).
  rewrite (IH _ H). by eapply cipher_length.
Qed.

(** permuting in place and permuting bytes agree. Start from a vector of
    canonical elements that OCaml holds behind [v], and from its bytes in
    JavaScript, and permute [n] times on each side: both panic or fail together,
    or the vector behind [v] then has the elements whose bytes JavaScript got,
    as many as before; every handle equal to [v] sees them, and no other vector
    has changed. *)
Theorem poseidon_agree n (s : store (list F)) v l :
  s !! v = Some l -> Forall fe_canonical l ->
  match permute_shared n s v, permute_bytes n (FlatVector.into_abi l) with
  | Ret s', Ret bytes =>
      exists l', rc_deref s' v = Ret l' /\ FlatVector.into_abi l' = bytes /\ length l' = length l /\
        (forall w, w <> v -> s' !! w = s !! w) /\ FlatVector.from_abi bytes = Ret l'
  | Raise e, Raise e' => e = e'
  | Panic m, Panic m' => m = m'
  | _, _ => False
  end.
Proof.
  intros Hv Hl. rewrite (permute_shared_eq n s v l Hv), (permute_bytes_eq n l Hl).
  destruct (permute n l) as [l'|e|m] eqn:E; cbn [mbind outcome_bind]; [|done|done].
  exists l'. unfold rc_deref. rewrite lookup_insert_eq. split; [done|]. split; [done|].
  split; [by eapply permute_length|]. split; [intros w Hw; by rewrite lookup_insert_ne|].
  apply from_into_abi. clear -Hl E XL. revert l Hl E. induction n as [|n IH]; intros l Hl E.
  - by injection E as <-.
  - cbn [permute] in E. apply bind_is_Ret in E as (l1 & H1 & E).
    eapply IH; [|exact E]. by eapply cipher_canonical.
Qed.
End Properties.

(** ** Witness *)

(** A permutation of three field elements: it reverses them, and panics on
    another width. *)
Definition demo_permutation : Permutation BigInteger256 unit := {|
  kimchi_params := tt;
  poseidon_block_cipher _ l := if (length l =? 3)%nat then Ret (rev l) else Panic "width"
|}.
Lemma demo_permutation_laws : PermutationLaws (PF := ref_fp) demo_permutation.
Proof.
  constructor.
  - intros p l l' H. cbn in H. destruct (_ =? 3)%nat; [|done]. injection H as <-. apply length_rev.
  - intros p l l' Hl H. cbn in H. destruct (_ =? 3)%nat; [|done]. injection H as <-. by apply Forall_rev.
Qed.

Lemma poseidon_agree_witness :
  let l := [fp_seven; fp_minus_one; fp_seven] in
  let s : store (list BigInteger256) := {[ 4%positive := l ]} in
  match permute_shared (X := demo_permutation) 2 s 4%positive,
        permute_bytes (X := demo_permutation) 2 (FlatVector.into_abi l) with
  | Ret s', Ret bytes => rc_deref s' 4%positive = Ret l /\ FlatVector.from_abi bytes = Ret l
  | _, _ => False
  end.
Proof.
  intros l s.
  assert (Forall (fe_canonical (F := BigInteger256)) l) as Hl
    by (repeat constructor; vm_compute; reflexivity).
  pose proof (poseidon_agree (PL := ref_fp_laws) (XL := demo_permutation_laws) 2 s 4%positive l
                (lookup_singleton_eq 4%positive l) Hl) as H.
  destruct (permute_shared _ _ _) as [s'| |] eqn:Es; destruct (permute_bytes _ _) as [bytes| |];
    try exact (False_rect _ H); try discriminate Es.
  injection Es as <-. destruct H as (l' & Hd & _ & _ & _ & Hf).
  rewrite Hd, Hf. injection Hd as <-. split; reflexivity.
Defined.
