(* ===== verification/Curves.v ===== *)
(** * Curve points and polynomial commitments

    Models group_affine.rs, group_projective.rs and projective.rs of the OCaml
    bindings ([Stubs]) and of the JavaScript bindings ([Wasm]), and poly_comm.rs
    of the latter (all under src/src/lib/crypto/kimchi_bindings).  The code is
    the same for the two curves, so it is modelled once, over any curve with
    base field [F], scalar field [S] and projective points [P]. *)

From Stdlib Require Import ZArith Lia.
From stdpp Require Import base list strings.
From S2P Require Import Prelude Crates Reference.

(** [GroupAffine] of ark-ec, by its public fields. *)
Record GroupAffine (F : Type) : Type := Affine { x : F; y : F; infinity : bool }.
Arguments Affine {F} x y infinity.
Arguments x {F} g. Arguments y {F} g. Arguments infinity {F} g.

(** What the bindings call of ark-ec and mina-curves. *)
Class Curve (F S P : Type) : Type := {
  affine_zero : GroupAffine F;
  prime_subgroup_generator : P;
  generator_x : F;                 (* G_GENERATOR_X, G_GENERATOR_Y *)
  generator_y : F;
  pr_add : P -> P -> P;
  pr_sub : P -> P -> P;
  pr_neg : P -> P;
  pr_double : P -> P;
  pr_mul : P -> BigInteger256 -> P;
  pr_rand_from_seed : Z -> P;
  into_affine : P -> GroupAffine F;
  into_projective : GroupAffine F -> P;
  pr_new : F -> F -> F -> P;
  base_one : F;
  endo_q : F;
  endo_r : S;
  scalar_repr : S -> BigInteger256;
}.

(** [zero] is the point at infinity, and points survive the change of
    coordinates, infinity in its one normal form. *)
Class CurveLaws {F S P} (C : Curve F S P) : Prop := {
  affine_zero_infinity : infinity affine_zero = true;
  into_affine_projective a :
    into_affine (into_projective a) = if infinity a then affine_zero else a;
}.

Module Stubs.
Section Stubs.
Context {F S P : Type} {C : Curve F S P}.

Inductive CamlGroupAffine : Type := Infinity | Finite (xy : F * F).

Definition caml_of_affine (point : GroupAffine F) : CamlGroupAffine :=
  if infinity point then Infinity else Finite (x point, y point).
Definition affine_of_caml (camlg : CamlGroupAffine) : GroupAffine F :=
  match camlg with
  | Infinity => affine_zero
  | Finite (x, y) => Affine x y false
  end.

(** group_projective.rs: the operators of the wrapper. *)
Definition add (x y : P) : P := pr_add x y.
Definition sub (x y : P) : P := pr_sub x y.
Definition neg (x : P) : P := pr_neg x.

Definition caml_one : P := prime_subgroup_generator.
Definition caml_add (x y : P) : P := add x y.
Definition caml_sub (x y : P) : P := sub x y.
Definition caml_negate (x : P) : P := neg x.
Definition caml_double (x : P) : P := pr_double x.
Definition caml_scale (x : P) (y : S) : P := let y := scalar_repr y in pr_mul x y.
Definition caml_rng (i : Z) : P := pr_rand_from_seed (as_u32 i).
Definition caml_endo_base : F := endo_q.
Definition caml_endo_scalar : S := endo_r.
Definition caml_to_affine (x : P) : CamlGroupAffine := caml_of_affine (into_affine x).
Definition caml_of_affine_point (x : CamlGroupAffine) : P := into_projective (affine_of_caml x).
Definition caml_of_affine_coordinates (x y : F) : P := pr_new x y base_one.
Definition caml_affine_deep_copy (x : CamlGroupAffine) : CamlGroupAffine := x.
End Stubs.
Arguments CamlGroupAffine : clear implicits.
End Stubs.

Module Wasm.
Section Wasm.
Context {F S P : Type} {C : Curve F S P}.

Record WasmG : Type := { wx : F; wy : F; winfinity : bool }.

Definition wasm_of_affine (point : GroupAffine F) : WasmG :=
  {| wx := x point; wy := y point; winfinity := infinity point |}.
Definition affine_of_wasm (point : WasmG) : GroupAffine F :=
  Affine (wx point) (wy point) (winfinity point).
Definition caml_affine_one : WasmG :=
  {| wx := generator_x; wy := generator_y; winfinity := false |}.

Definition add (x y : P) : P := pr_add x y.
Definition sub (x y : P) : P := pr_sub x y.
Definition neg (x : P) : P := pr_neg x.

Definition caml_one : P := prime_subgroup_generator.
Definition caml_add (x y : P) : P := add x y.
Definition caml_sub (x y : P) : P := sub x y.
Definition caml_negate (x : P) : P := neg x.
Definition caml_double (x : P) : P := pr_double x.
Definition caml_scale (x : P) (y : S) : P := let y := scalar_repr y in pr_mul x y.
Definition caml_rng (i : Z) : P := pr_rand_from_seed (as_u32 i).
Definition caml_endo_base : F := endo_q.
Definition caml_endo_scalar : S := endo_r.
Definition caml_to_affine (x : P) : WasmG := wasm_of_affine (into_affine x).
Definition caml_of_affine_point (x : WasmG) : P := into_projective (affine_of_wasm x).
Definition caml_of_affine_coordinates (x y : F) : P := pr_new x y base_one.
Definition caml_affine_deep_copy (x : WasmG) : WasmG := x.

(** poly_comm.rs. [PolyComm] of the poly_commitment crate is its [elems]. *)
Record WasmPolyComm : Type := { unshifted : list WasmG; shifted : option WasmG }.
Definition shifted_message : string :=
  "mina#14628: Shifted commitments are deprecated and must not be used".
Definition WasmPolyComm_new (unshifted : list WasmG) (shifted : option WasmG) : outcome WasmPolyComm :=
  _ ← rust_assert (negb (bool_decide (is_Some shifted))) shifted_message;
  Ret {| unshifted := unshifted; shifted := shifted |}.
Definition get_unshifted (self : WasmPolyComm) : list WasmG := unshifted self.
Definition set_unshifted (self : WasmPolyComm) (x : list WasmG) : WasmPolyComm :=
  {| unshifted := x; shifted := shifted self |}.
Definition wasm_of_poly_comm (elems : list (GroupAffine F)) : WasmPolyComm :=
  {| unshifted := map wasm_of_affine elems; shifted := None |}.
Definition poly_comm_of_wasm (x : WasmPolyComm) : outcome (list (GroupAffine F)) :=
  _ ← rust_assert (negb (bool_decide (is_Some (shifted x)))) shifted_message;
  Ret (map affine_of_wasm (unshifted x)).
End Wasm.
Arguments WasmG : clear implicits.
Arguments WasmPolyComm : clear implicits.
End Wasm.

(** ** Properties *)

Section Properties.
Context {F S P : Type} {C : Curve F S P} {L : CurveLaws C}.

Lemma affine_of_of_wasm (a : GroupAffine F) : Wasm.affine_of_wasm (Wasm.wasm_of_affine a) = a.
Proof. by destruct a. Qed.
Lemma map_affine_of_of_wasm (l : list (GroupAffine F)) :
  map Wasm.affine_of_wasm (map Wasm.wasm_of_affine l) = l.
Proof. rewrite map_map. rewrite <-(map_id l) at 2. apply map_ext, affine_of_of_wasm. Qed.

(** Affine points. The OCaml representation drops the coordinates of the
    point at infinity and is otherwise faithful in both directions; the
    JavaScript one is faithful in both directions. Going to projective
    coordinates and back gives every OCaml point, and every finite JavaScript
    point, back; a JavaScript point at infinity comes back in normal form. *)
Theorem affine_conversions (a : GroupAffine F) (c : Stubs.CamlGroupAffine F) (w : Wasm.WasmG F) :
  Stubs.affine_of_caml (Stubs.caml_of_affine a) = (if infinity a then affine_zero else a) /\
  Stubs.caml_of_affine (Stubs.affine_of_caml c) = c /\
  Wasm.affine_of_wasm (Wasm.wasm_of_affine a) = a /\
  Wasm.wasm_of_affine (Wasm.affine_of_wasm w) = w /\
  Stubs.caml_to_affine (Stubs.caml_of_affine_point c) = c /\
  Wasm.caml_to_affine (Wasm.caml_of_affine_point w) =
    (if Wasm.winfinity w then Wasm.wasm_of_affine affine_zero else w).
Proof.
  pose proof affine_zero_infinity as Hz.
  assert (Stubs.caml_of_affine (Stubs.affine_of_caml c) = c) as Hc.
  { destruct c as [|[p q]]; unfold Stubs.caml_of_affine; simpl; by rewrite ?Hz. }
  split; [by destruct a as [? ? []]|]. split; [done|].
  split; [by apply affine_of_of_wasm|]. split; [by destruct w|].
  unfold Stubs.caml_to_affine, Stubs.caml_of_affine_point, Wasm.caml_to_affine, Wasm.caml_of_affine_point.
  rewrite !into_affine_projective. split; [|by destruct w as [? ? []]].
  destruct (infinity (Stubs.affine_of_caml c)) eqn:E; [|done].
  destruct c as [|[p q]]; [|done]. unfold Stubs.caml_of_affine. by rewrite Hz.
Qed.

(** Polynomial commitments. A commitment that crosses to JavaScript and
    back is unchanged, also when its points are read and set again, and the
    deprecated shifted part never gets in or is dropped: the constructor and the
    conversion panic exactly when it is present. *)
Theorem poly_comm_conversions (elems : list (GroupAffine F)) (u : list (Wasm.WasmG F)) (s : option (Wasm.WasmG F)) :
  let w := Wasm.wasm_of_poly_comm elems in
  Wasm.poly_comm_of_wasm w = Ret elems /\
  Wasm.set_unshifted w (Wasm.get_unshifted w) = w /\
  Wasm.poly_comm_of_wasm (Wasm.set_unshifted w u) = Ret (map Wasm.affine_of_wasm u) /\
  is_panic (Wasm.WasmPolyComm_new u s) = bool_decide (is_Some s) /\
  is_panic (Wasm.poly_comm_of_wasm {| Wasm.unshifted := u; Wasm.shifted := s |})
    = bool_decide (is_Some s) /\
  (s = None ->
     (c ← Wasm.WasmPolyComm_new u s; l ← Wasm.poly_comm_of_wasm c; Ret (Wasm.wasm_of_poly_comm l))
     = Ret {| Wasm.unshifted := u; Wasm.shifted := None |}).
Proof.
  unfold Wasm.poly_comm_of_wasm, Wasm.WasmPolyComm_new. simpl.
  rewrite map_affine_of_of_wasm. repeat (split; [done || by destruct s|]).
  intros ->. simpl. unfold Wasm.wasm_of_poly_comm. do 2 f_equal.
  rewrite map_map. rewrite <-(map_id u) at 2. apply map_ext. by intros [].
Qed.
End Properties.

(** ** Witness: a curve of pairs *)

#[local] Instance demo_curve : Curve Z Z (GroupAffine Z) := {|
  affine_zero := Affine 0 1 true;
  prime_subgroup_generator := Affine 1 2 false;
  generator_x := 1; generator_y := 2;
  pr_add a b := a; pr_sub a b := a; pr_neg a := a; pr_double a := a; pr_mul a _ := a;
  pr_rand_from_seed i := Affine i i false;
  into_affine a := a;
  into_projective a := if infinity a then Affine 0 1 true else a;
  pr_new x y z := Affine x y false;
  base_one := 1; endo_q := 3; endo_r := 5;
  scalar_repr := big_of_val;
|}.
#[local] Instance demo_curve_laws : CurveLaws demo_curve.
Proof. by constructor. Qed.

Lemma affine_conversions_witness :
  Stubs.affine_of_caml (Stubs.caml_of_affine (Affine 7 8 true)) = Affine 0 1 true /\
  Wasm.affine_of_wasm (Wasm.wasm_of_affine (Affine 7 8 true)) = Affine 7 8 true.
Proof.
  destruct (affine_conversions (C := demo_curve) (Affine 7 8 true) Stubs.Infinity
              {| Wasm.wx := 1; Wasm.wy := 2; Wasm.winfinity := true |}) as (H1 & _ & H2 & _).
  split; [exact H1|exact H2].
Defined.

Lemma poly_comm_conversions_witness :
  let g := {| Wasm.wx := 1; Wasm.wy := 2; Wasm.winfinity := false |} in
  is_panic (Wasm.WasmPolyComm_new [g] (Some g)) = true /\
  (c ← Wasm.WasmPolyComm_new [g] None; Wasm.poly_comm_of_wasm c) = Ret [Affine 1 2 false].
Proof.
  intros g. split.
  - apply (poly_comm_conversions [] [g] (Some g)).
  - destruct (poly_comm_conversions [Affine 1 2 false] [g] None) as (H & _). exact H.
Defined.
