(* ===== verification/CustomBlock.v ===== *)
(** * OCaml's custom blocks and what they own

    Field elements, big integers, points, vectors of gates, Poseidon parameters,
    prover indexes and reference strings cross to OCaml as custom blocks that hold
    the Rust value itself.  For each type the sources say how a function gets the
    value of a block ([FromValue]: a copy of its bits, a clone of the shared pointer,
    or not at all, where functions take an [ocaml::Pointer]) and what its finalizer
    does.  A reference string is behind an [Arc]; a prover index owns such an [Arc]
    too, which it shares with the blocks of the reference string it was made with.
    The theorem: with these conversions and finalizers no reference string is used
    after it is freed, freed twice or leaked, in any order of calls and finalizers.
    Copying the bits of a value that owns a pointer, or a finalizer that drops
    nothing, would break it. *)

From Stdlib Require Import ZArith Lia.
From stdpp Require Import base list strings gmap.
From S2P Require Import Prelude FieldVector SharedPointer.

(** ** Values and types *)

(** The field, or the curve with that scalar field. *)
Inductive curve : Type := fp | fq.
Inductive kind : Type :=
| KBigInteger256 | KField (c : curve) | KProjective (c : curve) | KGateVector (c : curve)
| KPoseidonParams (c : curve) | KSrs (c : curve) | KIndex (c : curve).

(** [P] are the values without pointers, [I] what an index has besides its [srs],
    [A] the reference strings. *)
Section Blocks.
Context {P I A : Type}.

Inductive value : Type :=
| VPlain (x : P)
| VSrs (srs : ptr)
| VIndex (i : I) (srs : ptr).

(** The shared pointers that a value owns. *)
Definition owns (v : value) : list ptr :=
  match v with VPlain _ => [] | VSrs p | VIndex _ p => [p] end.

Definition well_kinded (k : kind) (v : value) : bool :=
  match k, v with
  | KSrs _, VSrs _ | KIndex _, VIndex _ _ => true
  | KSrs _, _ | KIndex _, _ => false
  | _, VPlain _ => true
  | _, _ => false
  end.

(** [*x.as_ref()] of a [Copy] type: the same bits. *)
Definition copied (v : value) (h : heap A) : option (value * heap A) := Some (v, h).
(** [Self(x.as_ref().0.clone())]: another owner. *)
Fixpoint clone_handles (l : list ptr) (h : heap A) : option (heap A) :=
  match l with [] => Some h | p :: l => h ← rc_clone p h; clone_handles l h end.
Definition cloned (v : value) (h : heap A) : option (value * heap A) :=
  h ← clone_handles (owns v) h; Some (v, h).
(** [drop_in_place]: drops what the value owns. *)
Fixpoint drop_handles (l : list ptr) (h : heap A) : option (heap A) :=
  match l with [] => Some h | p :: l => h ← rc_drop p h; drop_handles l h end.
Definition drop_in_place (v : value) (h : heap A) : option (heap A) := drop_handles (owns v) h.

(** What [ocaml::custom!], [FromValue] and [Custom] say of a type. *)
Record CustomType : Type := {
  custom_name : string;
  custom_from_value : option (value -> heap A -> option (value * heap A));
  custom_finalize : value -> heap A -> option (heap A)
}.

Definition CamlBigInteger256 : CustomType := {|
  custom_name := "CamlBigInteger256"; custom_from_value := Some copied; custom_finalize := drop_in_place |}.
Definition CamlFp : CustomType := {|
  custom_name := "CamlFp"; custom_from_value := Some copied; custom_finalize := drop_in_place |}.
Definition CamlFq : CustomType := {|
  custom_name := "CamlFq"; custom_from_value := Some copied; custom_finalize := drop_in_place |}.
Definition CamlGroupProjectivePallas : CustomType := {|
  custom_name := "CamlGroupProjectivePallas"; custom_from_value := Some copied; custom_finalize := drop_in_place |}.
Definition CamlGroupProjectiveVesta : CustomType := {|
  custom_name := "CamlGroupProjectiveVesta"; custom_from_value := Some copied; custom_finalize := drop_in_place |}.
Definition CamlPastaFpPlonkGateVector : CustomType := {|
  custom_name := "CamlPastaFpPlonkGateVector"; custom_from_value := None; custom_finalize := drop_in_place |}.
Definition CamlPastaFqPlonkGateVector : CustomType := {|
  custom_name := "CamlPastaFqPlonkGateVector"; custom_from_value := None; custom_finalize := drop_in_place |}.
Definition CamlPastaFpPoseidonParams : CustomType := {|
  custom_name := "CamlPastaFpPoseidonParams"; custom_from_value := None; custom_finalize := drop_in_place |}.
Definition CamlPastaFqPoseidonParams : CustomType := {|
  custom_name := "CamlPastaFqPoseidonParams"; custom_from_value := None; custom_finalize := drop_in_place |}.
Definition CamlPastaFpPlonkIndex : CustomType := {|
  custom_name := "CamlPastaFpPlonkIndex"; custom_from_value := None; custom_finalize := drop_in_place |}.
Definition CamlPastaFqPlonkIndex : CustomType := {|
  custom_name := "CamlPastaFqPlonkIndex"; custom_from_value := None; custom_finalize := drop_in_place |}.
(** [impl_shared_reference!] *)
Definition CamlFpSrs : CustomType := {|
  custom_name := "CamlFpSrs"; custom_from_value := Some cloned; custom_finalize := drop_in_place |}.
Definition CamlFqSrs : CustomType := {|
  custom_name := "CamlFqSrs"; custom_from_value := Some cloned; custom_finalize := drop_in_place |}.

Definition type_of (k : kind) : CustomType :=
  match k with
  | KBigInteger256 => CamlBigInteger256
  | KField fp => CamlFp
  | KField fq => CamlFq
  | KProjective fp => CamlGroupProjectiveVesta
  | KProjective fq => CamlGroupProjectivePallas
  | KGateVector fp => CamlPastaFpPlonkGateVector
  | KGateVector fq => CamlPastaFqPlonkGateVector
  | KPoseidonParams fp => CamlPastaFpPoseidonParams
  | KPoseidonParams fq => CamlPastaFqPoseidonParams
  | KSrs fp => CamlFpSrs
  | KSrs fq => CamlFqSrs
  | KIndex fp => CamlPastaFpPlonkIndex
  | KIndex fq => CamlPastaFqPlonkIndex
  end.

(** ** The functions, as far as they create, share and drop *)

(** The reference strings, and the blocks that OCaml has. *)
Record memory : Type := Mem { mheap : heap A; blocks : gmap positive (kind * value) }.
Definition start : memory := Mem (Heap ∅ []) ∅.

(** A result is moved into a new block. *)
Definition into_value (k : kind) (v : value) (h : heap A) (m : memory) : memory :=
  Mem h (<[fresh (dom (blocks m)) := (k, v)]> (blocks m)).

(** An argument taken by value. *)
Definition from_value (b : positive) (m : memory) : option (kind * value * heap A) :=
  '(k, v) ← blocks m !! b; get ← custom_from_value (type_of k);
  '(v, h) ← get v (mheap m); Some (k, v, h).

(** [caml_fp_srs_create], [caml_fp_srs_read], the dummy verifier index. *)
Definition srs_create (c : curve) (s : A) (m : memory) : memory :=
  let '(p, h) := rc_alloc s (mheap m) in into_value (KSrs c) (VSrs p) h m.

(** A function that takes [CamlFpSrs], works on the string, and drops its argument. *)
Definition srs_call (b : positive) (f : A -> A) (m : memory) : option memory :=
  '(_, v, h) ← from_value b m;
  match v with
  | VSrs p => h ← rc_update f p h; h ← drop_in_place v h; Some (Mem h (blocks m))
  | _ => None
  end.

(** [deep_copy] of any type that is taken by value: the argument is the result. *)
Definition deep_copy (b : positive) (m : memory) : option memory :=
  '(k, v, h) ← from_value b m; Some (into_value k v h m).

(** [caml_pasta_fp_plonk_index_create]: without a constraint system the argument
    [srs] is only dropped; with one, the basis of its domain is added ([f]), and the
    index keeps a clone. *)
Definition index_create (b : positive) (built : option (I * (A -> A))) (m : memory) : option memory :=
  '(k, v, h) ← from_value b m;
  match k, v, built with
  | KSrs c, VSrs p, Some (i, f) =>
      h ← rc_update f p h; h ← rc_clone p h; h ← drop_in_place v h;
      Some (into_value (KIndex c) (VIndex i p) h m)
  | KSrs _, VSrs _, None => h ← drop_in_place v h; Some (Mem h (blocks m))
  | _, _, _ => None
  end.

(** A function of a prover index, through its pointer, that writes to the reference
    string of the index, as creating a proof does. *)
Definition index_call (b : positive) (f : A -> A) (m : memory) : option memory :=
  '(_, v) ← blocks m !! b;
  match v with
  | VIndex _ p => h ← rc_update f p (mheap m); Some (Mem h (blocks m))
  | _ => None
  end.

(** [caml_pasta_fp_plonk_verifier_index_create]: the verifier index has a clone of
    the prover index's [srs], [caml_of_vi] gives OCaml a clone of that, and the
    verifier index is dropped. *)
Definition verifier_index_create (b : positive) (f : A -> A) (m : memory) : option memory :=
  '(k, v) ← blocks m !! b;
  match k, v with
  | KIndex c, VIndex _ p =>
      h ← rc_update f p (mheap m); h ← rc_clone p h; h ← rc_clone p h; h ← rc_drop p h;
      Some (into_value (KSrs c) (VSrs p) h m)
  | _, _ => None
  end.

(** The collector finalizes a block. *)
Definition caml_pointer_finalize (b : positive) (m : memory) : option memory :=
  '(k, v) ← blocks m !! b;
  h ← custom_finalize (type_of k) v (mheap m); Some (Mem h (delete b (blocks m))).

Inductive action : Type :=
| NewValue (k : kind) (x : P)
| SrsCreate (c : curve) (s : A)
| SrsCall (b : positive) (f : A -> A)
| DeepCopy (b : positive)
| IndexCreate (b : positive) (built : option (I * (A -> A)))
| IndexCall (b : positive) (f : A -> A)
| VerifierIndexCreate (b : positive) (f : A -> A)
| Finalize (b : positive).

Definition exec (a : action) (m : memory) : option memory :=
  match a with
  | NewValue k x => Some (into_value k (VPlain x) (mheap m) m)
  | SrsCreate c s => Some (srs_create c s m)
  | SrsCall b f => srs_call b f m
  | DeepCopy b => deep_copy b m
  | IndexCreate b built => index_create b built m
  | IndexCall b f => index_call b f m
  | VerifierIndexCreate b f => verifier_index_create b f m
  | Finalize b => caml_pointer_finalize b m
  end.

(** OCaml passes blocks it has, of the type a function asks for. *)
Definition kind_at (m : memory) (b : positive) : option kind := fst <$> blocks m !! b.
Definition enabled (m : memory) (a : action) : Prop :=
  match a with
  | NewValue k x => well_kinded k (VPlain x) = true
  | SrsCreate _ _ => True
  | SrsCall b _ | IndexCreate b _ => exists c, kind_at m b = Some (KSrs c)
  | DeepCopy b => exists k, kind_at m b = Some k /\ is_Some (custom_from_value (type_of k))
  | IndexCall b _ | VerifierIndexCreate b _ => exists c, kind_at m b = Some (KIndex c)
  | Finalize b => is_Some (blocks m !! b)
  end.

(** Executions; a use after free is no result. *)
Fixpoint exec_all (acts : list action) (m : memory) : option memory :=
  match acts with
  | [] => Some m
  | a :: acts => m ← exec a m; exec_all acts m
  end.
Fixpoint allowed (acts : list action) (m : memory) : Prop :=
  match acts with
  | [] => True
  | a :: acts => enabled m a /\ forall m', exec a m = Some m' -> allowed acts m'
  end.
Definition creates (a : action) : nat := match a with SrsCreate _ _ => 1 | _ => 0 end.

(** The reference strings without their counts. *)
Definition live (m : memory) : store A := fst <$> cells (mheap m).

(** ** The invariant: the blocks own all there is *)

Implicit Types (m : memory) (h : heap A) (v : value) (k : kind).

Definition handles_of (bl : gmap positive (kind * value)) : list ptr :=
  flat_map (fun x => owns x.2.2) (map_to_list bl).
Definition handles m : list ptr := handles_of (blocks m).
Record wf m : Prop := {
  wf_counted : counted (mheap m) (handles m);
  wf_kinds : map_Forall (fun _ kv => well_kinded kv.1 kv.2 = true) (blocks m)
}.

Lemma handles_insert bl b k v : bl !! b = None ->
  handles_of (<[b := (k, v)]> bl) ≡ₚ owns v ++ handles_of bl.
Proof. intros Hb. unfold handles_of. by rewrite (map_to_list_insert bl b (k, v) Hb). Qed.
Lemma handles_delete bl b k v : bl !! b = Some (k, v) ->
  handles_of bl ≡ₚ owns v ++ handles_of (delete b bl).
Proof. intros Hb. unfold handles_of. by rewrite <-(map_to_list_delete bl b (k, v) Hb). Qed.
Lemma elem_of_owned m p :
  p ∈ handles m <-> exists b k v, blocks m !! b = Some (k, v) /\ p ∈ owns v.
Proof.
  unfold handles, handles_of. rewrite list_elem_of_In, in_flat_map. split.
  - intros ([b [k v]] & Hin%list_elem_of_In%elem_of_map_to_list & Hp%list_elem_of_In). by exists b, k, v.
  - intros (b & k & v & Hb%elem_of_map_to_list%list_elem_of_In & Hp%list_elem_of_In). by exists (b, (k, v)).
Qed.
Lemma owns_handles m b k v : blocks m !! b = Some (k, v) -> owns v ⊆ handles m.
Proof. intros Hb p Hp. apply elem_of_owned. by exists b, k, v. Qed.

(** Cloning and dropping what a value owns. *)
Lemma clone_counted l h L : l ⊆ L -> counted h L ->
  exists h', clone_handles l h = Some h' /\ counted h' (l ++ L) /\
    (fst <$> cells h' : store A) = fst <$> cells h /\ objects h' = objects h.
Proof.
  revert h L. induction l as [|p l IH]; intros h L Hl Hc; [by exists h|].
  destruct (counted_clone h L p Hc) as (h1 & E & Hc1 & Hl1); [apply Hl; by left|].
  destruct (IH h1 (p :: L)) as (h2 & E2 & Hc2 & Hl2 & Ho2); [|done|].
  { intros q Hq. right. apply Hl. by right. }
  exists h2. cbn. rewrite E. cbn. split; [done|].
  split; [|split; [congruence|by rewrite Ho2, (objects_clone _ _ _ E)]].
  eapply counted_perm; [|exact Hc2]. symmetry. apply Permutation_middle.
Qed.
Lemma drop_counted l h L : counted h (l ++ L) ->
  exists h', drop_handles l h = Some h' /\ counted h' L /\ objects h' = objects h /\
    (l ⊆ L -> (fst <$> cells h' : store A) = fst <$> cells h).
Proof.
  revert h. induction l as [|p l IH]; intros h Hc; [by exists h|].
  destruct (counted_drop h (l ++ L) p Hc) as (h1 & E & Hc1 & Hl1).
  destruct (IH h1 Hc1) as (h2 & E2 & Hc2 & Ho2 & Hl2).
  exists h2. cbn. rewrite E. cbn. split; [done|]. split; [done|].
  split; [by rewrite Ho2, (objects_drop _ _ _ E)|]. intros Hs.
  rewrite Hl2 by (intros q Hq; apply Hs; by right). rewrite Hl1, decide_True; [done|].
  apply elem_of_app. right. apply Hs. by left.
Qed.

(** The conversions of the types are sound: what they give a function is owned. *)
Lemma get_sound k v get h L :
  well_kinded k v = true -> custom_from_value (type_of k) = Some get ->
  counted h L -> owns v ⊆ L ->
  exists h', get v h = Some (v, h') /\ counted h' (owns v ++ L) /\
    (fst <$> cells h' : store A) = fst <$> cells h /\ objects h' = objects h.
Proof.
  intros Hk Hg Hc Hl.
  assert (get = cloned \/ (get = copied /\ owns v = [])) as [-> | [-> Hv]].
  { destruct k as [|[]|[]|[]|[]|[]|[]]; cbn in Hg; try discriminate; injection Hg as <-;
      try (by left); right; split; try done; by destruct v. }
  - destruct (clone_counted (owns v) h L Hl Hc) as (h' & E & H). exists h'. unfold cloned. by rewrite E.
  - exists h. by rewrite Hv.
Qed.
Lemma finalize_sound k v h L : counted h (owns v ++ L) ->
  exists h', custom_finalize (type_of k) v h = Some h' /\ counted h' L /\ objects h' = objects h.
Proof.
  intros Hc. destruct (drop_counted (owns v) h L Hc) as (h' & E & Hc' & Ho & _).
  exists h'. split; [|done]. rewrite <-E. by destruct k as [|[]|[]|[]|[]|[]|[]].
Qed.

Lemma given_wf k v h m :
  wf m -> well_kinded k v = true -> counted h (owns v ++ handles m) -> wf (into_value k v h m).
Proof.
  intros [_ Hk] Hv Hc. assert (blocks m !! fresh (dom (blocks m)) = None) as Hf
    by (apply not_elem_of_dom, is_fresh).
  split; cbn.
  - eapply counted_perm; [|exact Hc]. symmetry. by apply handles_insert.
  - by apply map_Forall_insert_2.
Qed.
Lemma taken_wf m b k v get :
  wf m -> blocks m !! b = Some (k, v) -> custom_from_value (type_of k) = Some get ->
  exists h, from_value b m = Some (k, v, h) /\ counted h (owns v ++ handles m) /\
    (fst <$> cells h : store A) = live m /\ objects h = objects (mheap m).
Proof.
  intros [Hc Hk] Hb Hg.
  destruct (get_sound k v get (mheap m) (handles m)) as (h & E & H); try done.
  - exact (Hk b (k, v) Hb).
  - by eapply owns_handles.
  - exists h. unfold from_value. rewrite Hb. cbn. rewrite Hg. cbn. by rewrite E.
Qed.

Lemma kind_block m b k : kind_at m b = Some k -> exists v, blocks m !! b = Some (k, v).
Proof. unfold kind_at. intros ([k' v] & Hb & ->)%fmap_Some. by exists v. Qed.
Lemma srs_block m b c : wf m -> kind_at m b = Some (KSrs c) ->
  exists p, blocks m !! b = Some (KSrs c, VSrs p).
Proof.
  intros [_ Hk] [v Hb]%kind_block. pose proof (Hk b _ Hb) as H. destruct v as [|p|]; try done. by exists p.
Qed.
Lemma index_block m b c : wf m -> kind_at m b = Some (KIndex c) ->
  exists i p, blocks m !! b = Some (KIndex c, VIndex i p).
Proof.
  intros [_ Hk] [v Hb]%kind_block. pose proof (Hk b _ Hb) as H. destruct v as [| |i p]; try done. by exists i, p.
Qed.

(** A function that writes to the reference string of a block, given by value or
    through an index. *)
Definition call k (b : positive) (f : A -> A) : action :=
  match k with KIndex _ => IndexCall b f | _ => SrsCall b f end.

Lemma block_call_wf m b k v p f : wf m -> blocks m !! b = Some (k, v) -> p ∈ owns v ->
  exists x m', live m !! p = Some x /\ exec (call k b f) m = Some m' /\ wf m' /\
    blocks m' = blocks m /\ live m' = <[p := f x]> (live m) /\
    objects (mheap m') = objects (mheap m).
Proof.
  intros Hw Hb Hp. pose proof (wf_kinds m Hw b _ Hb) as Hk. pose proof (wf_counted m Hw) as Hc.
  pose proof (owns_handles m b k v Hb) as Ho.
  destruct k as [|?|?|?|?|c|c], v as [y|q|i q]; try discriminate Hk; cbn [owns] in Hp;
    try (by apply elem_of_nil in Hp); apply list_elem_of_singleton in Hp as ->; cbn [call exec].
  - destruct (taken_wf m b (KSrs c) (VSrs q) cloned Hw Hb) as (h1 & E & Hc1 & Hl1 & Ho1);
      [by destruct c|].
    destruct (counted_update h1 _ f q Hc1) as (x & h2 & Hx & Eu & Hc2 & Hl2); [by left|].
    destruct (drop_counted [q] h2 (handles m) Hc2) as (h3 & Ed & Hc3 & Ho3 & Hl3).
    exists x, (Mem h3 (blocks m)). unfold srs_call. rewrite E. cbn [mbind option_bind].
    rewrite Eu. cbn [mbind option_bind]. unfold drop_in_place. cbn [owns]. rewrite Ed. split_and!; try done.
    + by rewrite <-Hl1.
    + by split; [|apply Hw].
    + unfold live. cbn. rewrite Hl3 by exact Ho. by rewrite Hl2, Hl1.
    + cbn. by rewrite Ho3, (objects_update _ _ _ _ Eu).
  - destruct (counted_update (mheap m) _ f q Hc) as (x & h2 & Hx & Eu & Hc2 & Hl2); [apply Ho; by left|].
    exists x, (Mem h2 (blocks m)). unfold index_call. rewrite Hb. cbn [mbind option_bind]. rewrite Eu.
    split_and!; try done; [by split; [|apply Hw]|]. by apply (objects_update _ _ _ _ Eu).
Qed.

Lemma index_create_wf m b c p built : wf m -> blocks m !! b = Some (KSrs c, VSrs p) ->
  exists m', index_create b built m = Some m' /\ wf m' /\ objects (mheap m') = objects (mheap m).
Proof.
  intros Hw Hb. pose proof (owns_handles m b _ _ Hb) as Ho.
  destruct (taken_wf m b (KSrs c) (VSrs p) cloned Hw Hb) as (h1 & E & Hc1 & _ & Ho1);
    [by destruct c|].
  unfold index_create. rewrite E. cbn [mbind option_bind]. destruct built as [[i f]|].
  - destruct (counted_update h1 _ f p Hc1) as (x & h2 & _ & Eu & Hc2 & _); [by left|].
    destruct (counted_clone h2 _ p Hc2) as (h3 & Ec & Hc3 & _); [by left|].
    destruct (drop_counted [p] h3 (p :: handles m) Hc3) as (h4 & Ed & Hc4 & Ho4 & _).
    rewrite Eu. cbn [mbind option_bind]. rewrite Ec. cbn [mbind option_bind].
    unfold drop_in_place. cbn [owns]. rewrite Ed. eexists. split; [done|].
    split; [by apply given_wf|]. cbn.
    by rewrite Ho4, (objects_clone _ _ _ Ec), (objects_update _ _ _ _ Eu).
  - destruct (drop_counted [p] h1 (handles m) Hc1) as (h2 & Ed & Hc2 & Ho2 & _).
    unfold drop_in_place. cbn [owns]. rewrite Ed. eexists. split; [done|].
    split; [by split; [|apply Hw]|]. by rewrite <-Ho1.
Qed.

Lemma verifier_index_create_wf m b c i p f : wf m -> blocks m !! b = Some (KIndex c, VIndex i p) ->
  exists m', verifier_index_create b f m = Some m' /\ wf m' /\ objects (mheap m') = objects (mheap m).
Proof.
  intros Hw Hb. pose proof (owns_handles m b _ _ Hb) as Ho. pose proof (wf_counted m Hw) as Hc.
  destruct (counted_update (mheap m) _ f p Hc) as (x & h1 & _ & Eu & Hc1 & _); [apply Ho; by left|].
  destruct (counted_clone h1 _ p Hc1) as (h2 & E2 & Hc2 & _); [apply Ho; by left|].
  destruct (counted_clone h2 _ p Hc2) as (h3 & E3 & Hc3 & _); [by left|].
  destruct (counted_drop h3 _ p Hc3) as (h4 & E4 & Hc4 & _).
  unfold verifier_index_create. rewrite Hb. cbn [mbind option_bind]. rewrite Eu. cbn [mbind option_bind].
  rewrite E2. cbn [mbind option_bind]. rewrite E3. cbn [mbind option_bind]. rewrite E4.
  eexists. split; [done|]. split; [by apply given_wf|]. cbn.
  by rewrite (objects_drop _ _ _ E4), (objects_clone _ _ _ E3), (objects_clone _ _ _ E2), (objects_update _ _ _ _ Eu).
Qed.

Lemma block_exec_wf m a : wf m -> enabled m a ->
  exists m', exec a m = Some m' /\ wf m' /\ objects (mheap m') = (creates a + objects (mheap m))%nat.
Proof.
  intros Hw He. pose proof (wf_counted m Hw) as Hc.
  destruct a as [k x|c s|b f|b|b built|b f|b f|b]; cbn [enabled exec creates] in *.
  - eexists. split; [done|]. split; [by apply given_wf|done].
  - unfold srs_create. destruct (rc_alloc s (mheap m)) as [p h] eqn:E.
    destruct (counted_alloc _ _ _ _ _ Hc E) as (Hc' & _ & Hp).
    eexists. split; [done|]. split; [by apply given_wf|]. by apply (objects_alloc _ _ _ _ E).
  - destruct He as [c Hk]. destruct (srs_block m b c Hw Hk) as [p Hb].
    destruct (block_call_wf m b _ _ p f Hw Hb) as (x & m' & _ & E & Hw' & _ & _ & Ho); [by left|]. by exists m'.
  - destruct He as (k & Hk & [get Hg]). destruct (kind_block m b k Hk) as [v Hb].
    destruct (taken_wf m b k v get Hw Hb Hg) as (h & E & Hc' & _ & Ho).
    unfold deep_copy. rewrite E. eexists. split; [done|]. split; [|done].
    apply given_wf; [done| |done]. exact (wf_kinds m Hw b _ Hb).
  - destruct He as [c Hk]. destruct (srs_block m b c Hw Hk) as [p Hb]. by eapply index_create_wf.
  - destruct He as [c Hk]. destruct (index_block m b c Hw Hk) as (i & p & Hb).
    destruct (block_call_wf m b _ _ p f Hw Hb) as (x & m' & _ & E & Hw' & _ & _ & Ho); [by left|]. by exists m'.
  - destruct He as [c Hk]. destruct (index_block m b c Hw Hk) as (i & p & Hb).
    by eapply verifier_index_create_wf.
  - destruct He as [[k v] Hb]. unfold caml_pointer_finalize. rewrite Hb. cbn [mbind option_bind].
    pose proof (counted_perm _ _ _ (handles_delete _ b k v Hb) Hc) as Hc'.
    destruct (finalize_sound k v _ _ Hc') as (h & E & Hc2 & Ho). rewrite E.
    eexists. split; [done|]. split; [|done]. split; [exact Hc2|].
    apply map_Forall_delete, Hw.
Qed.

Lemma block_exec_all_wf acts : forall m, wf m -> allowed acts m ->
  exists m', exec_all acts m = Some m' /\ wf m' /\
    objects (mheap m') = (sum_list_with creates acts + objects (mheap m))%nat.
Proof.
  induction acts as [|a acts IH]; intros m Hw Ha; [by exists m|].
  destruct Ha as [He Ha]. destruct (block_exec_wf m a Hw He) as (m1 & E & Hw1 & Ho1).
  destruct (IH m1 Hw1 (Ha m1 E)) as (m' & E' & Hw' & Ho').
  exists m'. cbn. rewrite E. split; [exact E'|]. split; [done|]. lia.
Qed.

Lemma live_owned m p : wf m -> is_Some (live m !! p) <-> p ∈ handles m.
Proof.
  intros [[Hc _ _] _]. unfold live. rewrite lookup_fmap, fmap_is_Some, count_pos. specialize (Hc p).
  destruct (cells (mheap m) !! p) as [[x n]|].
  - split; [lia|by eauto].
  - split; [by intros [? ?]|lia].
Qed.

(** C20: reference strings live as long as something that needs them. Let OCaml
    create values of all custom types, take them by value or through their pointers
    as the types allow, create prover indexes from reference strings and verifier
    indexes from prover indexes, and let its collector finalize blocks, in any
    order. Nothing uses a reference string after it is freed: every call goes
    through. A reference string is alive exactly while OCaml has a block of it or a
    block of a prover index that was made with it; it is freed once; each one created
    is alive or freed, so none is left when the last block is finalized. And blocks
    that share it, indexes included, see each other's changes: a call through any
    of them changes that string and nothing else. *)
Theorem custom_blocks_safe (acts : list action) : allowed acts start ->
  exists m, exec_all acts start = Some m /\
    (forall p, is_Some (live m !! p) <-> exists b k v, blocks m !! b = Some (k, v) /\ p ∈ owns v) /\
    NoDup (freed (mheap m)) /\ (forall p, p ∈ freed (mheap m) -> live m !! p = None) /\
    (size (live m) + length (freed (mheap m)) = sum_list_with creates acts)%nat /\
    (forall b k v p f, blocks m !! b = Some (k, v) -> p ∈ owns v ->
       exists x m', live m !! p = Some x /\ exec (call k b f) m = Some m' /\
         blocks m' = blocks m /\ live m' = <[p := f x]> (live m)).
Proof.
  intros Ha. assert (Hw : wf start).
  { split; [split; cbn|apply map_Forall_empty];
      [by intros p; rewrite lookup_empty | by intros p ?%elem_of_nil | constructor]. }
  destruct (block_exec_all_wf acts _ Hw Ha) as (m & E & Hw' & Ho). exists m. split; [done|]. split_and!.
  - intros p. rewrite live_owned by done. apply elem_of_owned.
  - apply Hw'.
  - intros p Hp. unfold live. by rewrite lookup_fmap, (counted_freed _ _ (wf_counted m Hw') p Hp).
  - unfold live. rewrite map_size_fmap. unfold objects in Ho.
    cbn [start mheap cells freed length] in Ho. rewrite map_size_empty in Ho. lia.
  - intros b k v p f Hb Hp. destruct (block_call_wf m b k v p f Hw' Hb Hp) as (x & m' & Hx & Hm & _ & H1 & H2 & _).
    by exists x, m'.
Qed.
End Blocks.
Arguments memory : clear implicits.
Arguments action : clear implicits.

(** ** A witness

    An index outlives the block of its reference string; a verifier index and its
    copy outlive the index; a second reference string stays. *)

Definition demo_actions : list (action unit string (list Z)) :=
  [NewValue (KField fp) tt; DeepCopy 1; SrsCreate fp [1]; IndexCreate 3 (Some ("index"%string, fun l => l ++ [2]));
   IndexCreate 3 None; Finalize 3; Finalize 1; IndexCall 4 (fun l => l ++ [3]);
   VerifierIndexCreate 4 (fun l => l); DeepCopy 5; Finalize 4; Finalize 5; SrsCall 6 (fun l => l ++ [4]);
   SrsCreate fq [9]; Finalize 6].

Lemma demo_allowed : allowed demo_actions start.
Proof.
  repeat (split;
    [first [done | by eexists | by eexists; split; [|by eexists] ]
    | intros ? H; vm_compute in H; injection H as <-]).
  done.
Qed.

Lemma custom_blocks_safe_witness :
  exists m, exec_all demo_actions start = Some m /\ live m = {[ 2%positive := [9] ]} /\
    freed (mheap m) = [1%positive].
Proof.
  destruct (custom_blocks_safe demo_actions demo_allowed) as (m & Hm & _).
  exists m. split; [exact Hm|]. vm_compute in Hm. injection Hm as <-. split; reflexivity.
Defined.
