(* ===== verification/UrsUtils.v ===== *)
(** * urs_utils.rs: batched check of discrete-log accumulators

    Models batch_dlog_accumulator_check and batch_dlog_accumulator_generate of
    stubs/src/urs_utils.rs (wasm/src/urs_utils.rs is the same text; both under
    src/src/lib/crypto/kimchi_bindings).  Scalars [S], affine points [A] and
    projective points [P] are those of the curve crates, as a class; the random
    scalar of the check is an argument.

    The specification: the commitment of a list of challenges is the
    combination of the basis [g] with the coefficients of the polynomial those
    challenges define, and the check tests one random linear combination of the
    differences between the given points and these commitments. *)

From Stdlib Require Import ZArith Lia.
From stdpp Require Import base list strings.
From S2P Require Import Prelude Crates Reference.

Class Commitments (S A P : Type) : Type := {
  s_zero : S;
  s_one : S;
  s_mul : S -> S -> S;
  s_sub : S -> S -> S;
  s_into_repr : S -> BigInteger256;
  batch_inversion : list S -> list S;
  b_poly_coefficients : list S -> list S;
  multi_scalar_mul : list A -> list BigInteger256 -> P;
  p_zero : P;
  p_eqb : P -> P -> bool;
  p_into_affine : P -> A;
}.

(** The points are a module over the scalars, and the multi-scalar
    multiplication is the sum of the products. *)
Class CommitmentsLaws {S A P} (C : Commitments S A P) : Type := {
  pt : A -> P;                      (* the point in projective form *)
  p_add : P -> P -> P;
  p_neg : P -> P;
  s_act : S -> P -> P;
  p_add_assoc u v w : p_add u (p_add v w) = p_add (p_add u v) w;
  p_add_comm u v : p_add u v = p_add v u;
  p_add_zero u : p_add u p_zero = u;
  p_add_neg u : p_add u (p_neg u) = p_zero;
  act_zero u : s_act s_zero u = p_zero;
  act_one u : s_act s_one u = u;
  act_mul a b u : s_act (s_mul a b) u = s_act a (s_act b u);
  act_sub a b u : s_act (s_sub a b) u = p_add (s_act a u) (p_neg (s_act b u));
  act_add a u v : s_act a (p_add u v) = p_add (s_act a u) (s_act a v);
  act_comm a b : s_mul a b = s_mul b a;
  msm_sum ps ss :
    length ps = length ss ->
    multi_scalar_mul ps (map s_into_repr ss)
      = foldr (fun '(s, p) acc => p_add (s_act s (pt p)) acc) p_zero (zip ss ps);
  p_eqb_eq u v : p_eqb u v = true <-> u = v;
  pt_into_affine u : pt (p_into_affine u) = u;
  batch_inversion_length l : length (batch_inversion l) = length l;
}.

Section UrsUtils.
Context {S A P : Type} {C : Commitments S A P}.

(** [vec![one; k]], then [rs[i] = r * rs[i - 1]] for [i] from 1 to [k - 1]. *)
Definition rs_step (r : S) (rs : list S) (i : nat) : list S :=
  match rs !! (i - 1)%nat with
  | Some p => <[i := s_mul r p]> rs
  | None => rs
  end.
Definition compute_rs (r : S) (k : nat) : list S :=
  fold_left (rs_step r) (seq 1 (k - 1)) (replicate k s_one).

(** [scalars[i] -= &terms[i]] for [i] below [n]; an index out of range would
    panic. *)
Definition sub_step (terms : list S) (scalars : outcome (list S)) (i : nat) : outcome (list S) :=
  scalars ← scalars;
  s ← index scalars (Z.of_nat i);
  t ← index terms (Z.of_nat i);
  index_set scalars (Z.of_nat i) (s_sub s t).
Definition sub_terms (n : nat) (scalars terms : list S) : outcome (list S) :=
  _ ← rust_assert (length terms =? n)%nat "assertion `left == right` failed";
  fold_left (sub_step terms) (seq 0 n) (Ret scalars).

(** The divisions of [chals.len() / k] and [chals.len() % rounds]. *)
Definition rounds_of (len k : nat) : outcome nat :=
  let rounds := (len / k)%nat in
  _ ← rust_assert (negb (rounds =? 0)%nat)
        "attempt to calculate the remainder with a divisor of zero";
  _ ← rust_assert (len mod rounds =? 0)%nat "assertion `left == right` failed";
  Ret rounds.

Definition batch_dlog_accumulator_check (r : S) (urs_g : list A) (comms : list A) (chals : list S)
    : outcome bool :=
  let k := length comms in
  if (k =? 0)%nat then
    _ ← rust_assert (length chals =? 0)%nat "assertion `left == right` failed";
    Ret true
  else
    rounds ← rounds_of (length chals) k;
    let rs := compute_rs r k in
    let points := urs_g in
    let n := length points in
    let points := points ++ comms in
    let scalars := replicate n s_zero ++ rs in
    let chal_invs := batch_inversion chals in
    let termss := zip_with (fun chunk r =>
        let chals := map fst chunk in
        map (fun c => s_mul c r) (b_poly_coefficients chals))
      (chunks rounds (zip chals chal_invs)) rs in
    scalars ← fold_left (fun acc terms => scalars ← acc; sub_terms n scalars terms)
                termss (Ret scalars);
    let scalars := map s_into_repr scalars in
    Ret (p_eqb (multi_scalar_mul points scalars) p_zero).

Definition batch_dlog_accumulator_generate (urs_g : list A) (num_comms : nat) (chals : list S)
    : outcome (list A) :=
  let k := num_comms in
  if (k =? 0)%nat then
    _ ← rust_assert (length chals =? 0)%nat "assertion `left == right` failed";
    Ret []
  else
    rounds ← rounds_of (length chals) k;
    Ret (map (fun chals =>
           let scalars := map s_into_repr (b_poly_coefficients chals) in
           p_into_affine (multi_scalar_mul urs_g scalars)) (chunks rounds chals)).
End UrsUtils.

(** ** The loops *)

Section Loops.
Context {S A P : Type} {C : Commitments S A P}.

Fixpoint powers (r x : S) (k : nat) : list S :=
  match k with
  | O => []
  | Datatypes.S k => x :: powers r (s_mul r x) k
  end.

Lemma powers_length r x k : length (powers r x k) = k.
Proof. revert x. induction k; intros; simpl; auto. Qed.
Lemma powers_snoc r x k :
  (0 < k)%nat ->
  exists p, powers r x k !! (k - 1)%nat = Some p /\
    powers r x (Datatypes.S k) = powers r x k ++ [s_mul r p].
Proof.
  revert x. induction k as [|k IH]; intros x Hk; [lia|].
  destruct (decide (k = 0)%nat) as [->|Hne]; [by exists x|].
  destruct (IH (s_mul r x)) as (p & Hp & E); [lia|].
  exists p. replace (Datatypes.S k - 1)%nat with (Datatypes.S (k - 1)) by lia. split; [exact Hp|].
  cbn [powers]. cbn [powers] in E. by rewrite E.
Qed.

(** The loop over [rs] computes the powers of [r]. *)
Lemma compute_rs_powers r k : compute_rs r k = powers r s_one k.
Proof.
  unfold compute_rs. destruct k as [|k]; [done|].
  replace (Datatypes.S k - 1)%nat with k by lia.
  cut (forall m j, (1 <= j)%nat ->
    fold_left (rs_step r) (seq j m) (powers r s_one j ++ replicate m s_one)
      = powers r s_one (j + m)).
  { intros H. specialize (H k 1%nat). simpl in H. by apply H. }
  induction m as [|m IH]; intros j Hj; cbn [seq fold_left].
  - by rewrite app_nil_r, Nat.add_0_r.
  - destruct (powers_snoc r s_one j) as (p & Hp & E); [lia|].
    assert (rs_step r (powers r s_one j ++ replicate (Datatypes.S m) s_one) j
            = powers r s_one (Datatypes.S j) ++ replicate m s_one) as ->.
    { unfold rs_step. rewrite lookup_app_l by (rewrite powers_length; lia). rewrite Hp, E.
      replace j with (length (powers r s_one j) + 0)%nat at 1 by (rewrite powers_length; lia).
      rewrite insert_app_r. cbn. by rewrite <-app_assoc. }
    rewrite IH by lia. f_equal. lia.
Qed.

(** The subtraction loop changes the first [n] scalars. *)
Lemma sub_terms_spec n terms (ss tl : list S) :
  length terms = n -> length ss = n ->
  sub_terms n (ss ++ tl) terms = Ret (zip_with s_sub ss terms ++ tl).
Proof.
  intros Ht Hs. unfold sub_terms. rewrite (proj2 (Nat.eqb_eq _ _)) by done. cbn [rust_assert mbind outcome_bind].
  cut (forall m j, (j + m = n)%nat ->
    fold_left (sub_step terms) (seq j m)
      (Ret (zip_with s_sub (take j ss) (take j terms) ++ drop j ss ++ tl))
    = Ret (zip_with s_sub ss terms ++ tl)).
  { intros H. apply (H n 0%nat). lia. }
  induction m as [|m IH]; intros j Hj; cbn [seq fold_left].
  - rewrite !take_ge, drop_ge by lia. done.
  - destruct (lookup_lt_is_Some_2 ss j) as [s Es]; [lia|].
    destruct (lookup_lt_is_Some_2 terms j) as [t Et]; [lia|].
    assert (length (zip_with s_sub (take j ss) (take j terms)) = j) as Hz
      by (rewrite length_zip_with, !length_take; lia).
    rewrite (drop_S ss s j Es). unfold sub_step at 2. cbn [mbind outcome_bind].
    rewrite (index_lookup terms j t Et).
    rewrite (index_lookup _ j s) by (rewrite lookup_app_r, Hz, Nat.sub_diag by lia; done). cbn [mbind outcome_bind].
    unfold index_set. rewrite (proj2 (Z.leb_le _ _)), (proj2 (Z.ltb_lt _ _))
      by (rewrite ?length_app, ?Hz; simpl; lia).
    cbn [andb]. rewrite Nat2Z.id.
    rewrite <-(IH (Datatypes.S j)) by lia. do 2 f_equal.
    replace j with (length (zip_with s_sub (take j ss) (take j terms)) + 0)%nat at 1 by lia.
    rewrite insert_app_r. cbn [insert list_insert app].
    rewrite (take_S_r ss j s Es), (take_S_r terms j t Et).
    rewrite zip_with_app by (rewrite !length_take; lia). by rewrite <-app_assoc.
Qed.

Lemma sub_all_spec n termss (ss tl : list S) :
  Forall (fun t => length t = n) termss -> length ss = n ->
  fold_left (fun acc terms => scalars ← acc; sub_terms n scalars terms) termss (Ret (ss ++ tl))
  = Ret (fold_left (zip_with s_sub) termss ss ++ tl).
Proof.
  intros H. revert ss. induction H as [|t termss Ht _ IH]; intros ss Hs; cbn [fold_left]; [done|].
  cbn [mbind outcome_bind]. rewrite sub_terms_spec by done. apply IH.
  rewrite length_zip_with. lia.
Qed.
Lemma sub_all_panic n termss m :
  is_panic m = true ->
  is_panic (fold_left (fun (acc : outcome (list S)) terms => scalars ← acc; sub_terms n scalars terms)
              termss m) = true.
Proof.
  revert m. induction termss as [|t ts IH]; intros m H; [done|]. apply IH. by destruct m.
Qed.
End Loops.

(** ** Linear combinations *)

Section Algebra.
Context {S A P : Type} {C : Commitments S A P} {L : CommitmentsLaws C}.
Implicit Types (u v w : P) (Ds : list P) (r a : S).

Definition lin_comb (ss : list S) (Ps : list P) : P :=
  foldr (fun '(s, p) acc => p_add (s_act s p) acc) p_zero (zip ss Ps).
Definition p_minus u v : P := p_add u (p_neg v).
(** [D_0 + r D_1 + r^2 D_2 + ...] *)
Fixpoint at_scalar r Ds : P :=
  match Ds with
  | [] => p_zero
  | D :: Ds => p_add D (s_act r (at_scalar r Ds))
  end.
(** The commitment of a list of challenges, and the difference of each given
    point to the commitment of its challenges. *)
Definition commitment (g : list A) (chals : list S) : P :=
  lin_comb (b_poly_coefficients chals) (map pt g).
Definition differences (g : list A) (comms : list A) (cs : list (list S)) : list P :=
  zip_with (fun cm c => p_minus (pt cm) (commitment g c)) comms cs.

Lemma p_zero_add u : p_add p_zero u = u.
Proof. by rewrite p_add_comm, p_add_zero. Qed.
Lemma p_add_swap u v w : p_add u (p_add v w) = p_add v (p_add u w).
Proof. by rewrite !p_add_assoc, (p_add_comm u). Qed.
Lemma p_add_cancel u v w : p_add u v = p_add u w -> v = w.
Proof.
  intros H. apply (f_equal (p_add (p_neg u))) in H.
  rewrite !p_add_assoc, (p_add_comm (p_neg u)), p_add_neg in H. by rewrite !p_zero_add in H.
Qed.
Lemma p_neg_unique u v : p_add u v = p_zero -> v = p_neg u.
Proof. intros H. apply (p_add_cancel u). by rewrite H, p_add_neg. Qed.
Lemma p_neg_add u v : p_neg (p_add u v) = p_add (p_neg u) (p_neg v).
Proof.
  symmetry. apply p_neg_unique. rewrite <-p_add_assoc, (p_add_swap v), p_add_neg, p_add_zero.
  apply p_add_neg.
Qed.
Lemma act_p_zero a : s_act a p_zero = p_zero.
Proof. apply (p_add_cancel (s_act a p_zero)). by rewrite <-act_add, !p_add_zero. Qed.
Lemma act_neg a u : s_act a (p_neg u) = p_neg (s_act a u).
Proof. apply p_neg_unique. by rewrite <-act_add, p_add_neg, act_p_zero. Qed.
Lemma p_minus_zero u v : p_minus u v = p_zero <-> u = v.
Proof.
  unfold p_minus. split; [|intros ->; apply p_add_neg]. intros H.
  apply (p_add_cancel (p_neg v)). by rewrite p_add_comm, H, p_add_comm, p_add_neg.
Qed.
Lemma p_neg_zero : p_neg p_zero = p_zero.
Proof. symmetry. apply p_neg_unique, p_add_zero. Qed.

Lemma msm_lin_comb ps ss :
  length ps = length ss -> multi_scalar_mul ps (map s_into_repr ss) = lin_comb ss (map pt ps).
Proof.
  intros H. rewrite msm_sum by done. clear H. unfold lin_comb. revert ss.
  induction ps as [|p ps IH]; intros [|s ss]; try done. cbn. by rewrite IH.
Qed.
Lemma lin_comb_app s1 s2 P1 P2 :
  length s1 = length P1 ->
  lin_comb (s1 ++ s2) (P1 ++ P2) = p_add (lin_comb s1 P1) (lin_comb s2 P2).
Proof.
  unfold lin_comb. revert P1. induction s1 as [|s s1 IH]; intros [|p P1] H; try done; cbn.
  - by rewrite p_zero_add.
  - rewrite IH by (simpl in H; lia). by rewrite p_add_assoc.
Qed.
Lemma lin_comb_zeros n Ps : lin_comb (replicate n s_zero) Ps = p_zero.
Proof.
  unfold lin_comb. revert Ps. induction n as [|n IH]; intros [|p Ps]; try done. cbn.
  by rewrite IH, act_zero, p_add_zero.
Qed.
Lemma lin_comb_sub ss tt Ps :
  length ss = length tt ->
  lin_comb (zip_with s_sub ss tt) Ps = p_minus (lin_comb ss Ps) (lin_comb tt Ps).
Proof.
  unfold lin_comb, p_minus. revert tt Ps. induction ss as [|s ss IH]; intros [|t tt] Ps H; try done.
  - cbn. by rewrite p_neg_zero, p_add_zero.
  - destruct Ps as [|p Ps]; cbn; [by rewrite p_neg_zero, p_add_zero|].
    rewrite IH by (simpl in H; lia). rewrite act_sub, p_neg_add.
    rewrite <-!p_add_assoc. f_equal. rewrite (p_add_swap (p_neg _)). done.
Qed.
Lemma lin_comb_scale r ss Ps :
  lin_comb (map (fun c => s_mul c r) ss) Ps = s_act r (lin_comb ss Ps).
Proof.
  unfold lin_comb. revert Ps. induction ss as [|s ss IH]; intros [|p Ps]; cbn;
    rewrite ?act_p_zero; try done.
  by rewrite IH, act_add, act_comm, act_mul.
Qed.
(** A combination with the powers of [r] is the value at [r]. *)
Lemma lin_comb_powers r a Ds :
  lin_comb (powers r a (length Ds)) Ds = s_act a (at_scalar r Ds).
Proof.
  unfold lin_comb. revert a. induction Ds as [|D Ds IH]; intros a; cbn; [by rewrite act_p_zero|].
  by rewrite IH, act_add, act_comm, act_mul.
Qed.

(** The combination the check computes. *)
Lemma checked_sum g comms cs rs ss :
  length rs = length comms -> (length comms <= length cs)%nat -> length ss = length g ->
  Forall (fun c => length (b_poly_coefficients c) = length g) (take (length comms) cs) ->
  p_add (lin_comb (fold_left (zip_with s_sub)
           (zip_with (fun c r => map (fun x => s_mul x r) (b_poly_coefficients c)) cs rs) ss) (map pt g))
        (lin_comb rs (map pt comms))
  = p_add (lin_comb ss (map pt g)) (lin_comb rs (differences g comms cs)).
Proof.
  revert comms cs ss. induction rs as [|r rs IH]; intros comms cs ss Hr Hc Hs Hall.
  - destruct comms; [|done]. unfold differences. by destruct cs.
  - destruct comms as [|cm comms]; [done|]. destruct cs as [|c cs]; [simpl in Hc; lia|].
    apply Forall_cons in Hall as [Hb Hall]. simpl in Hr, Hc. cbn [zip_with fold_left map].
    change (lin_comb (r :: rs) (pt cm :: map pt comms))
      with (p_add (s_act r (pt cm)) (lin_comb rs (map pt comms))).
    rewrite p_add_swap, IH; [|lia|lia|rewrite length_zip_with, length_map; lia|done].
    rewrite lin_comb_sub by (rewrite length_map; lia). rewrite lin_comb_scale.
    unfold differences. cbn [zip_with].
    change (lin_comb (r :: rs) (?D :: ?l)) with (p_add (s_act r D) (lin_comb rs l)).
    unfold p_minus, commitment. rewrite act_add, act_neg.
    rewrite <-!p_add_assoc. rewrite (p_add_swap (s_act r (pt cm))). done.
Qed.
End Algebra.

(** ** Properties *)

Section Properties.
Context {S A P : Type} {C : Commitments S A P} {L : CommitmentsLaws C}.
Implicit Types (g comms : list A) (chals : list S) (r : S).

(** The number of rounds both functions compute, when they do not panic. *)
Lemma rounds_of_Ret len k rounds :
  (0 < k)%nat -> rounds_of len k = Ret rounds ->
  (0 < rounds)%nat /\ rounds = (len / k)%nat /\ (len mod rounds = 0)%nat /\ (k * rounds <= len)%nat.
Proof.
  intros Hk. unfold rounds_of.
  destruct (Nat.eqb_spec (len / k) 0) as [|Hn]; [discriminate|]. cbn.
  destruct (Nat.eqb_spec (len mod (len / k)) 0) as [Hm|]; [|discriminate]. cbn. intros [= <-].
  repeat split; [lia|done|]. apply Nat.Div0.mul_div_le.
Qed.
Lemma rounds_of_exact k rounds :
  (0 < k)%nat -> (0 < rounds)%nat -> rounds_of (k * rounds) k = Ret rounds.
Proof.
  intros Hk Hr. unfold rounds_of. rewrite Nat.mul_comm, Nat.div_mul by lia.
  rewrite (proj2 (Nat.eqb_neq rounds 0)) by lia. cbn.
  by rewrite Nat.mul_comm, Nat.Div0.mod_mul.
Qed.

Lemma chunk_count chals k rounds :
  (0 < k)%nat -> rounds_of (length chals) k = Ret rounds ->
  (k <= length (chunks rounds chals))%nat.
Proof.
  intros Hk (Hr & _ & Hm & Hle)%rounds_of_Ret; [|done].
  destruct (chunks_divides rounds chals Hr Hm) as [Hc _]. nia.
Qed.

(** The scalars the check subtracts, without the unused inverses. *)
Lemma check_terms (rs : list S) rounds chals :
  zip_with (fun chunk r =>
      map (fun c => s_mul c r) (b_poly_coefficients (map fst chunk)))
    (chunks rounds (zip chals (batch_inversion chals))) rs =
  zip_with (fun c r => map (fun x => s_mul x r) (b_poly_coefficients c)) (chunks rounds chals) rs.
Proof.
  assert (map (map fst) (chunks rounds (zip chals (batch_inversion chals))) = chunks rounds chals) as <-.
  { rewrite chunks_map. f_equal. apply (fst_zip chals). by rewrite batch_inversion_length. }
  generalize (chunks rounds (zip chals (batch_inversion chals))). intros l. revert rs.
  induction l as [|c l IH]; intros [|x rs]; try done. cbn. by rewrite IH.
Qed.

Lemma terms_length g k cs rs :
  length rs = k ->
  Forall (fun c => length (b_poly_coefficients c) = length g) (take k cs) ->
  Forall (fun t => length t = length g)
    (zip_with (fun c r => map (fun x => s_mul x r) (b_poly_coefficients c)) cs rs).
Proof.
  intros <-. revert cs. induction rs as [|r rs IH]; intros [|c cs] H; try by constructor.
  apply Forall_cons in H as [Hc H]. constructor; [by rewrite length_map|]. by apply IH.
Qed.

Definition check_value g comms chals r : P :=
  at_scalar r (differences g comms (chunks (length chals / length comms) chals)).

Lemma check_eq r g comms chals rounds :
  comms <> [] -> rounds_of (length chals) (length comms) = Ret rounds ->
  Forall (fun c => length (b_poly_coefficients c) = length g)
    (take (length comms) (chunks rounds chals)) ->
  batch_dlog_accumulator_check r g comms chals = Ret (p_eqb (check_value g comms chals r) p_zero).
Proof.
  intros Hne Hr Hall. unfold batch_dlog_accumulator_check.
  assert (0 < length comms)%nat as Hk by (destruct comms; simpl; [done|lia]).
  rewrite (proj2 (Nat.eqb_neq _ _)), Hr by lia. cbn [mbind outcome_bind].
  rewrite check_terms, compute_rs_powers.
  rewrite sub_all_spec; [|by eapply terms_length; [apply powers_length|]|apply length_replicate].
  cbn [mbind outcome_bind]. do 2 f_equal.
  set (ts := zip_with _ _ _).
  assert (length (fold_left (zip_with s_sub) ts (replicate (length g) s_zero)) = length g) as Hl.
  { assert (Forall (fun t => length t = length g) ts) as Ht
      by (eapply terms_length; [apply powers_length|done]).
    cut (forall ss : list S, length ss = length g ->
      length (fold_left (zip_with s_sub) ts ss) = length g); [intros H; apply H, length_replicate|].
    induction Ht as [|t ts' Ht _ IH]; intros ss Hs; [done|]. apply IH. rewrite length_zip_with. lia. }
  rewrite msm_lin_comb by (rewrite !length_app, Hl, powers_length; lia).
  rewrite map_app, lin_comb_app by (by rewrite length_map).
  unfold ts. rewrite checked_sum; [|apply powers_length|by apply chunk_count|apply length_replicate|done].
  rewrite lin_comb_zeros, p_zero_add. unfold check_value.
  destruct (rounds_of_Ret _ _ _ Hk Hr) as (_ & -> & _).
  rewrite <-(act_one (at_scalar r _)), <-lin_comb_powers. unfold differences.
  rewrite length_zip_with, Nat.min_l; [done|]. by apply chunk_count.
Qed.

(** C1: what the check tests. When the challenges split evenly and each of the
    first [k] groups has a commitment of the size of the basis, the check
    answers, and its answer is whether the random combination
    [D_0 + r D_1 + ... + r^(k-1) D_(k-1)] of the differences between the given
    points and the commitments of their challenges is zero. In particular a
    list of true commitments is accepted for every [r]. *)
Theorem check_spec r g comms chals rounds :
  comms <> [] -> rounds_of (length chals) (length comms) = Ret rounds ->
  let cs := take (length comms) (chunks rounds chals) in
  Forall (fun c => length (b_poly_coefficients c) = length g) cs ->
  length cs = length comms /\
  exists b, batch_dlog_accumulator_check r g comms chals = Ret b /\
    (b = true <-> at_scalar r (differences g comms cs) = p_zero) /\
    (Forall2 (fun cm c => pt cm = commitment g c) comms cs -> b = true).
Proof.
  intros Hne Hr cs Hall.
  assert (0 < length comms)%nat as Hk by (destruct comms; simpl; [done|lia]).
  pose proof (chunk_count _ _ _ Hk Hr) as Hcc.
  assert (length cs = length comms) as Hl by (unfold cs; rewrite length_take; lia).
  split; [done|]. eexists. split; [by eapply check_eq|].
  assert (differences g comms (chunks (length chals / length comms) chals) = differences g comms cs) as E.
  { destruct (rounds_of_Ret _ _ _ Hk Hr) as (_ & <- & _). unfold differences, cs.
    rewrite <-(take_drop (length comms) (chunks rounds chals)) at 1.
    rewrite <-(app_nil_r comms) at 1. rewrite zip_with_app by done. by rewrite app_nil_r. }
  unfold check_value. rewrite E, p_eqb_eq. split; [done|].
  clear. unfold differences. induction 1 as [|cm c comms cs Hc _ IH]; [done|].
  cbn. rewrite IH, act_p_zero, p_add_zero. by apply p_minus_zero.
Qed.

(** C17: generated commitments pass. For [k] groups of challenges of equal
    positive size whose coefficients fit the basis, generate returns [k]
    commitments, the i-th that of the i-th group, and the check accepts them
    for every random scalar. *)
Theorem generate_check r g k rounds chals :
  (0 < k)%nat -> (0 < rounds)%nat -> length chals = (k * rounds)%nat ->
  Forall (fun c => length (b_poly_coefficients c) = length g) (chunks rounds chals) ->
  exists comms, batch_dlog_accumulator_generate g k chals = Ret comms /\
    length comms = k /\
    Forall2 (fun cm c => pt cm = commitment g c) comms (chunks rounds chals) /\
    batch_dlog_accumulator_check r g comms chals = Ret true.
Proof.
  intros Hk Hr Hl Hall. unfold batch_dlog_accumulator_generate.
  rewrite (proj2 (Nat.eqb_neq _ _)), Hl, rounds_of_exact by lia. cbn [mbind outcome_bind].
  assert (length (chunks rounds chals) = k) as Hc.
  { destruct (chunks_divides rounds chals Hr) as [H _]; [rewrite Hl; apply Nat.Div0.mod_mul|]. nia. }
  set (comms := map _ _). assert (length comms = k) as Hk' by (unfold comms; by rewrite length_map).
  assert (Forall2 (fun cm c => pt cm = commitment g c) comms (chunks rounds chals)) as HF.
  { unfold comms. clear -Hall. induction Hall as [|c cs Hc _ IH]; constructor; [|done].
    rewrite pt_into_affine. apply msm_lin_comb. lia. }
  exists comms. repeat (split; [done|]).
  assert (comms <> []) as Hne by (intros E; rewrite E in Hk'; simpl in Hk'; lia).
  rewrite (check_eq r g comms chals rounds); [| done| |].
  - f_equal. apply p_eqb_eq. unfold check_value. rewrite Hl, Hk', Nat.mul_comm, Nat.div_mul by lia.
    clear -HF. unfold differences. induction HF as [|cm c cms cs Hc _ IH]; [done|].
    cbn. rewrite IH, act_p_zero, p_add_zero. by apply p_minus_zero.
  - rewrite Hk', Hl. by apply rounds_of_exact.
  - rewrite Hk', take_ge by lia. done.
Qed.
End Properties.

(** ** Soundness

    A false list of points passes for fewer than [k] random scalars. *)

Section Soundness.
Context {S A P : Type} {C : Commitments S A P} {L : CommitmentsLaws C}.

(** [a] and [b] are told apart by every point; in a field of prime order
    acting on its group, any two different scalars are. *)
Definition separated (a b : S) : Prop :=
  forall u : P, s_act (s_sub a b) u = p_zero -> u = p_zero.

(** Synthetic division of [D_0 + x D_1 + ...] by [x - a]. *)
Fixpoint quotient (a : S) (Ds : list P) : list P :=
  match Ds with
  | [] => []
  | D :: Ds' => match Ds' with
                | [] => []
                | _ => at_scalar a Ds' :: quotient a Ds'
                end
  end.

Lemma quotient_length a Ds : length (quotient a Ds) = pred (length Ds).
Proof.
  induction Ds as [|D [|D' Ds] IH]; [done|done|].
  change (quotient a (D :: D' :: Ds)) with (at_scalar a (D' :: Ds) :: quotient a (D' :: Ds)).
  simpl length in *. by rewrite IH.
Qed.
Lemma act_sub_add a b (u : P) : p_add (s_act a u) (s_act (s_sub b a) u) = s_act b u.
Proof.
  rewrite act_sub, p_add_swap, p_add_neg. apply p_add_zero.
Qed.
Lemma quotient_spec a b Ds :
  at_scalar b Ds = p_add (at_scalar a Ds) (s_act (s_sub b a) (at_scalar b (quotient a Ds))).
Proof.
  induction Ds as [|D [|D' Ds] IH].
  - cbn. by rewrite act_p_zero, p_add_zero.
  - cbn. by rewrite !act_p_zero, !p_add_zero.
  - change (quotient a (D :: D' :: Ds)) with (at_scalar a (D' :: Ds) :: quotient a (D' :: Ds)).
    set (l := D' :: Ds) in *. cbn [at_scalar].
    rewrite IH at 1. rewrite !act_add, <-!act_mul, (act_comm b), act_mul.
    rewrite <-!p_add_assoc. f_equal. rewrite p_add_assoc, act_sub_add. by rewrite <-act_mul.
Qed.
Lemma quotient_zero a Ds :
  at_scalar a Ds = p_zero -> Forall (eq p_zero) (quotient a Ds) -> Forall (eq p_zero) Ds.
Proof.
  induction Ds as [|D [|D' Ds] IH]; [done|..].
  - cbn. rewrite act_p_zero, p_add_zero. by repeat constructor.
  - change (quotient a (D :: D' :: Ds)) with (at_scalar a (D' :: Ds) :: quotient a (D' :: Ds)).
    set (l := D' :: Ds) in *. cbn [at_scalar]. intros H Hq.
    apply Forall_cons in Hq as [Hz Hq]. constructor; [|by apply IH].
    rewrite <-Hz, act_p_zero, p_add_zero in H. done.
Qed.

(** A list of [n] coefficients that vanishes at [n] separated scalars is zero. *)
Lemma many_roots_zero (roots : list S) Ds :
  (length Ds <= length roots)%nat ->
  ForallOrdPairs (fun a b => separated b a) roots ->
  Forall (fun a => at_scalar a Ds = p_zero) roots ->
  Forall (eq p_zero) Ds.
Proof.
  revert Ds. induction roots as [|a roots IH]; intros Ds Hl Hs Hz.
  - by destruct Ds; [constructor|simpl in Hl; lia].
  - inversion Hs as [|? ? Ha Hs']; subst. apply Forall_cons in Hz as [Hza Hz].
    apply (quotient_zero a); [done|].
    apply IH; [rewrite quotient_length; simpl in Hl; lia|done|].
    apply Forall_forall. intros b Hb.
    rewrite Forall_forall in Hz, Ha. specialize (Hz b Hb). specialize (Ha b Hb).
    apply Ha. rewrite (quotient_spec a b Ds), Hza, p_zero_add in Hz. exact Hz.
Qed.

(** C5: soundness of the batching. If the check accepts for as many pairwise
    separated random scalars as there are points, then every point is the
    commitment of its challenges; so a list with a wrong point is accepted for
    fewer than [k] scalars. *)
Theorem check_sound g comms (chals : list S) rounds (accepted : list S) :
  comms <> [] -> rounds_of (length chals) (length comms) = Ret rounds ->
  let cs := take (length comms) (chunks rounds chals) in
  Forall (fun c => length (b_poly_coefficients c) = length g) cs ->
  ForallOrdPairs (fun a b => separated b a) accepted ->
  Forall (fun r => batch_dlog_accumulator_check r g comms chals = Ret true) accepted ->
  (length comms <= length accepted)%nat ->
  Forall2 (fun cm c => pt cm = commitment g c) comms cs.
Proof.
  intros Hne Hr cs Hall Hs Hacc Hlen.
  assert (0 < length comms)%nat as Hk by (destruct comms; simpl; [done|lia]).
  pose proof (chunk_count _ _ _ Hk Hr) as Hcc.
  destruct (rounds_of_Ret _ _ _ Hk Hr) as (_ & Er & _).
  assert (Forall (eq p_zero) (differences g comms (chunks rounds chals))) as Hz.
  { apply (many_roots_zero accepted); [|done|].
    - unfold differences. rewrite length_zip_with. lia.
    - eapply Forall_impl; [exact Hacc|]. intros r H. cbv beta in H.
      rewrite (check_eq r g comms chals rounds) in H by done. injection H as H%p_eqb_eq.
      unfold check_value in H. by rewrite <-Er in H. }
  clear -Hz Hcc. subst cs. revert Hz Hcc. generalize (chunks rounds chals) as cs.
  unfold differences. induction comms as [|cm comms IH]; intros [|c cs] Hz Hl; simpl in *; try lia;
    try by constructor.
  apply Forall_cons in Hz as [Hd Hz]. constructor; [by apply p_minus_zero|]. apply IH; [done|lia].
Qed.

Lemma sub_all_bad n termss (ss tl : list S) :
  Exists (fun t => length t <> n) termss -> length ss = n ->
  is_panic (fold_left (fun acc terms => scalars ← acc; sub_terms n scalars terms)
              termss (Ret (ss ++ tl))) = true.
Proof.
  intros H. revert ss. induction termss as [|t ts IH]; intros ss Hs; [by inversion H|].
  cbn [fold_left mbind outcome_bind]. destruct (decide (length t = n)) as [Ht|Ht].
  - rewrite sub_terms_spec by done. apply IH; [by inversion H|]. rewrite length_zip_with. lia.
  - apply sub_all_panic. unfold sub_terms. by rewrite (proj2 (Nat.eqb_neq _ _)).
Qed.
Lemma terms_bad (g : list A) cs rs :
  Exists (fun c => length (b_poly_coefficients c) <> length g) (take (length rs) cs) ->
  Exists (fun t => length t <> length g)
    (zip_with (fun c (r : S) => map (fun x => s_mul x r) (b_poly_coefficients c)) cs rs).
Proof.
  revert cs. induction rs as [|r rs IH]; intros [|c cs] H; try by inversion H.
  apply Exists_cons in H as [H|H]; [left; by rewrite length_map|right; by apply IH].
Qed.

(** Challenge lists that do not split evenly. With no points any challenge
    panics; with points but fewer challenges than points the division by the
    number of rounds panics; a group whose commitment does not have the size of
    the basis panics. But the evenness test only compares the number of
    challenges with the number of rounds, not with the points: surplus groups
    are accepted, the check ignores them, and generate returns more points than
    it was asked for. *)
Theorem check_shape r g comms (chals : list S) :
  (comms = [] -> is_panic (batch_dlog_accumulator_check r g comms chals) = negb (length chals =? 0)%nat) /\
  (comms <> [] -> (length chals < length comms)%nat ->
     is_panic (batch_dlog_accumulator_check r g comms chals) = true /\
     is_panic (batch_dlog_accumulator_generate g (length comms) chals) = true) /\
  (forall rounds, comms <> [] -> rounds_of (length chals) (length comms) = Ret rounds ->
     let cs := chunks rounds chals in
     (Forall (fun c => length (b_poly_coefficients c) = length g) (take (length comms) cs) ->
      batch_dlog_accumulator_check r g comms chals
        = batch_dlog_accumulator_check r g comms (take (length comms * rounds) chals)) /\
     (Exists (fun c => length (b_poly_coefficients c) <> length g) (take (length comms) cs) ->
      is_panic (batch_dlog_accumulator_check r g comms chals) = true) /\
     exists out, batch_dlog_accumulator_generate g (length comms) chals = Ret out /\
       length out = (length chals / rounds)%nat /\
       (length out = length comms <-> length chals = (length comms * rounds)%nat)).
Proof.
  split; [|split].
  - intros ->. unfold batch_dlog_accumulator_check. simpl. by destruct (length chals =? 0)%nat.
  - intros Hne Hlt. unfold batch_dlog_accumulator_check, batch_dlog_accumulator_generate.
    assert (0 < length comms)%nat as Hk by (destruct comms; simpl; [done|lia]).
    unfold rounds_of. rewrite Nat.div_small by done. by rewrite (proj2 (Nat.eqb_neq _ _)) by lia.
  - intros rounds Hne Hr cs.
    assert (0 < length comms)%nat as Hk by (destruct comms; simpl; [done|lia]).
    destruct (rounds_of_Ret _ _ _ Hk Hr) as (Hpos & Er & Hm & Hle).
    pose proof (chunk_count _ _ _ Hk Hr) as Hcc. split.
    + intros Hall. rewrite (check_eq r g comms chals rounds) by done.
      assert (length (take (length comms * rounds) chals) = (length comms * rounds)%nat) as Hl
        by (rewrite length_take; lia).
      rewrite (check_eq r g comms (take (length comms * rounds) chals) rounds); [|done| |].
      * unfold check_value. rewrite Hl, <-Er, Nat.mul_comm, Nat.div_mul, Nat.mul_comm by lia.
        rewrite chunks_take by lia. unfold differences.
        rewrite <-(take_drop (length comms) (chunks rounds chals)) at 1.
        rewrite <-(app_nil_r comms) at 1.
        rewrite zip_with_app by (rewrite length_take; lia). by rewrite app_nil_r.
      * rewrite Hl. by apply rounds_of_exact.
      * rewrite chunks_take by lia. by rewrite take_take, Nat.min_id.
    + split.
      { intros Hbad. unfold batch_dlog_accumulator_check.
        rewrite (proj2 (Nat.eqb_neq _ _)), Hr by lia. cbn [mbind outcome_bind].
        rewrite check_terms, compute_rs_powers.
        pose proof (sub_all_bad (length g) _ (replicate (length g) s_zero) (powers r s_one (length comms))
          (terms_bad g (chunks rounds chals) (powers r s_one (length comms))
             ltac:(by rewrite powers_length)) (length_replicate _ _)) as H.
        by destruct (fold_left _ _ _). }
      unfold batch_dlog_accumulator_generate.
      rewrite (proj2 (Nat.eqb_neq _ _)), Hr by lia. cbn [mbind outcome_bind].
      eexists. split; [done|]. rewrite length_map.
      destruct (chunks_divides rounds chals Hpos Hm) as [Hc _]. split; [|nia].
      rewrite <-Hc, Nat.mul_comm. by rewrite Nat.div_mul by lia.
Qed.
End Soundness.

(** ** Witnesses: the integers modulo 2^256 *)

Definition z_op (f : Z -> Z -> Z) (a b : BigInteger256) : BigInteger256 :=
  big_of_val (f (big_val a) (big_val b)).
(** The first challenge goes with the highest power. *)
Fixpoint z_b_poly (chals : list BigInteger256) : list BigInteger256 :=
  match chals with
  | [] => [big_of_val 1]
  | c :: chals => let b := z_b_poly chals in b ++ map (z_op Z.mul c) b
  end.

#[local] Instance demo_comm : Commitments BigInteger256 BigInteger256 BigInteger256 := {|
  s_zero := big_of_val 0;
  s_one := big_of_val 1;
  s_mul := z_op Z.mul;
  s_sub := z_op Z.sub;
  s_into_repr s := s;
  batch_inversion l := l;
  b_poly_coefficients := z_b_poly;
  multi_scalar_mul ps ss :=
    foldr (fun '(s, p) acc => z_op Z.add (z_op Z.mul s p) acc) (big_of_val 0) (zip ss ps);
  p_zero := big_of_val 0;
  p_eqb u v := big_val u =? big_val v;
  p_into_affine u := u;
|}.

Lemma z_op_val f a b : big_val (z_op f a b) = f (big_val a) (big_val b) mod 2 ^ 256.
Proof. apply big_val_of_val. Qed.
Lemma big_val_mod u : big_val u = big_val u mod 2 ^ 256.
Proof. symmetry. apply Z.mod_small, big_val_range. Qed.

#[local] Instance demo_comm_laws : CommitmentsLaws demo_comm.
Proof.
  apply (Build_CommitmentsLaws _ _ _ demo_comm (fun a => a) (z_op Z.add)
           (fun a => z_op Z.sub (big_of_val 0) a) (z_op Z.mul));
    cbn [s_zero s_one s_mul s_sub p_zero p_eqb p_into_affine batch_inversion multi_scalar_mul
         s_into_repr demo_comm].
  all: try done.
  all: try (intros; apply big_val_inj; rewrite ?z_op_val, ?big_val_of_val, ?z_op_val, ?big_val_of_val;
    rewrite ?Zplus_mod_idemp_l, ?Zplus_mod_idemp_r, ?Zmult_mod_idemp_l, ?Zmult_mod_idemp_r,
      ?Zminus_mod_idemp_l, ?Zminus_mod_idemp_r, ?Zplus_mod_idemp_l, ?Zplus_mod_idemp_r).
  all: try (f_equal; ring).
  - rewrite Z.add_0_r. symmetry. apply big_val_mod.
  - rewrite Zmod_0_l. replace (big_val u + (0 - big_val u)) with 0 by lia. done.
  - rewrite Z.mul_1_l. symmetry. apply big_val_mod.
  - rewrite Zmod_0_l, Z.sub_0_l, Z.mul_sub_distr_r.
    rewrite <-(Zminus_mod_idemp_r (big_val a * big_val u) (big_val b * big_val u)). by f_equal.
  - by rewrite map_id.
  - intros u v. rewrite Z.eqb_eq. split; [apply big_val_inj|by intros ->].
Defined.

Definition zs (l : list Z) : list BigInteger256 := map big_of_val l.

(** Two accumulators of one challenge each, over a basis of two points. *)
Lemma check_spec_witness :
  let g := zs [5; 11] in let chals := zs [2; 3] in
  batch_dlog_accumulator_check (big_of_val 9) g (zs [27; 38]) chals = Ret true /\
  batch_dlog_accumulator_check (big_of_val 9) g (zs [27; 39]) chals = Ret false.
Proof.
  intros g chals. split.
  - destruct (check_spec (C := demo_comm) (big_of_val 9) g (zs [27; 38]) chals 1)
      as (_ & b & -> & _ & Hb); [done|reflexivity|repeat constructor|].
    f_equal. apply Hb. repeat constructor; apply big_val_inj; vm_compute; reflexivity.
  - destruct (check_spec (C := demo_comm) (big_of_val 9) g (zs [27; 39]) chals 1)
      as (_ & [] & Hc & [Hb _] & _); [done|reflexivity|repeat constructor| |exact Hc].
    exfalso. specialize (Hb eq_refl). apply (f_equal big_val) in Hb. revert Hb. vm_compute. discriminate.
Defined.

Lemma generate_check_witness :
  exists comms, batch_dlog_accumulator_generate (zs [5; 11; 2; 1]) 1 (zs [2; 3]) = Ret comms /\
    length comms = 1%nat /\
    batch_dlog_accumulator_check (big_of_val 4) (zs [5; 11; 2; 1]) comms (zs [2; 3]) = Ret true.
Proof.
  destruct (generate_check (C := demo_comm) (big_of_val 4) (zs [5; 11; 2; 1]) 1 2 (zs [2; 3]))
    as (comms & H1 & H2 & _ & H3); [lia|lia|reflexivity|repeat constructor|].
  exists comms. split; [exact H1|]. split; [exact H2|exact H3].
Defined.

(** 3 and 4 differ by one, which no point is blind to. *)
Lemma check_sound_witness :
  let g := zs [5; 11] in let chals := zs [2; 3] in let comms := zs [27; 38] in
  Forall2 (fun cm c => pt cm = commitment g c) comms (take 2 (chunks 1 chals)).
Proof.
  intros g chals comms.
  apply (check_sound (C := demo_comm) g comms chals 1 (zs [3; 4]));
    [done|reflexivity|repeat constructor| | |simpl; lia].
  - repeat constructor. unfold separated. intros u Hu.
    assert (s_sub (big_of_val 4) (big_of_val 3) = s_one) as E
      by (apply big_val_inj; vm_compute; reflexivity).
    rewrite E, act_one in Hu. exact Hu.
  - repeat constructor.
Defined.

(** Two points with three challenges: the third is ignored, and generate makes
    three points. *)
Lemma check_shape_witness :
  let g := zs [5; 11] in
  batch_dlog_accumulator_check (big_of_val 9) g (zs [27; 38]) (zs [2; 3; 7])
    = batch_dlog_accumulator_check (big_of_val 9) g (zs [27; 38]) (zs [2; 3]) /\
  exists out, batch_dlog_accumulator_generate g 2 (zs [2; 3; 7]) = Ret out /\ length out = 3%nat.
Proof.
  intros g. destruct (check_shape (C := demo_comm) (big_of_val 9) g (zs [27; 38]) (zs [2; 3; 7]))
    as (_ & _ & H).
  destruct (H 1%nat) as (H1 & _ & out & H2 & H3 & _); [done|reflexivity|].
  split; [apply H1; repeat constructor|]. exists out. split; [exact H2|exact H3].
Defined.
