(* ===== verification/Srs.v ===== *)
(** * srs.rs: structured reference strings shared with OCaml and JavaScript

    [Stubs] models stubs/src/srs.rs, [Wasm] models wasm/src/srs.rs (under
    src/src/lib/crypto/kimchi_bindings), for the instance over Vesta.  A
    reference string is held behind a shared pointer ([Arc]) and the functions
    that compute Lagrange bases write through it, so the heap of reference
    strings is the state: a function returns its outcome and the heap after it,
    which also holds when the outcome is a panic.  Files are a map from paths to
    their bytes. *)

From Stdlib Require Import ZArith Lia.
From stdpp Require Import base list strings gmap.
From S2P Require Import Prelude Crates Reference FieldVector Curves UrsUtils.

(** ** poly_commitment::srs::SRS, by its public fields *)

Abbreviation PolyComm F := (list (GroupAffine F)).
Record SRS (F : Type) : Type := {
  srs_g : list (GroupAffine F);
  srs_h : GroupAffine F;
  lagrange_bases : gmap Z (list (PolyComm F));
}.
Arguments srs_g {F} s. Arguments srs_h {F} s. Arguments lagrange_bases {F} s.
Arguments Build_SRS {F} srs_g srs_h lagrange_bases.

(** What the bindings call of ark-poly and poly_commitment. *)
Class SrsOps (F S Domain : Type) : Type := {
  domain_new : Z -> option Domain;              (* EvaluationDomain::new *)
  domain_size : Domain -> Z;
  srs_create : Z -> SRS F;
  srs_create_parallel : Z -> SRS F;
  add_lagrange_basis : SRS F -> Domain -> SRS F;
  interpolate : list S -> Domain -> list S;     (* Evaluations, coefficients *)
  from_coefficients : list S -> list S;         (* DensePolynomial *)
  commit_non_hiding : SRS F -> list S -> Z -> PolyComm F;
  srs_serialize : SRS F -> option (list byte);  (* rmp_serde *)
  srs_deserialize : list byte -> option (SRS F);
}.
(** A domain has the least power of two elements that is at least what was
    asked for, 2^32 at most; a Lagrange basis has one commitment per element, and one that is
    already there is kept; serialization keeps the points. *)
Class SrsLaws {F S D} (O : SrsOps F S D) : Prop := {
  domain_size_pow2 n d :
    domain_new n = Some d -> exists k, 0 <= k <= 32 /\ domain_size d = 2 ^ k /\ n <= 2 ^ k /\ (0 < k -> 2 ^ (k - 1) < n);
  add_basis_present s d b : lagrange_bases s !! domain_size d = Some b -> add_lagrange_basis s d = s;
  add_basis_absent s d :
    lagrange_bases s !! domain_size d = None ->
    exists b, Z.of_nat (length b) = domain_size d /\
      add_lagrange_basis s d
        = Build_SRS (srs_g s) (srs_h s) (<[domain_size d := b]> (lagrange_bases s));
  deserialize_serialize s w rest :
    srs_serialize s = Some w ->
    exists s', srs_deserialize (w ++ rest) = Some s' /\ srs_g s' = srs_g s /\ srs_h s' = srs_h s;
}.

(** [lagrange_bases[&key][i]] *)
Definition basis_at {F} (st : store (SRS F)) (p : ptr) (key i : Z) : outcome (PolyComm F) :=
  srs ← rc_deref st p;
  bases ← expect "no entry found for key" (lagrange_bases srs !! key);
  index bases i.

(** Files: [OpenOptions::append(a).open(path)] needs the file to exist, and
    without [append] no access is requested and opening fails. *)
Abbreviation files := (gmap string (list byte)).
Definition open_append (fs : files) (append : option bool) (path : string) : option (list byte) :=
  if default true append then fs !! path else None.
(** [seek(Start(o))] fails past [i64::MAX] and may go past the end. *)
Definition seek_start (content : list byte) (o : Z) : option (list byte) :=
  if o <? 2 ^ 63 then Some (drop (Z.to_nat o) content) else None.

Module Stubs.
Section Stubs.
Context {F S D P : Type} {O : SrsOps F S D} {C : Commitments S (GroupAffine F) P} {G : Curve F S P}.
Context {CamlPolyComm : Type} (to_caml : PolyComm F -> CamlPolyComm).

(** [CamlFpSrs::new]: a new shared reference. *)
Definition caml_fp_srs_create (st : store (SRS F)) (depth : Z) : ptr * store (SRS F) :=
  rc_new st (srs_create (as_u64 depth)).

Definition caml_fp_srs_write (fs : files) (append : option bool) (srs : SRS F) (path : string)
    : outcome files :=
  match open_append fs append path with
  | None => Raise (Invalid_argument "CamlSRS::write")
  | Some content =>
      match srs_serialize srs with
      | Some w => Ret (<[path := content ++ w]> fs)
      | None => Raise (DynError "serialization error")
      end
  end.

Definition caml_fp_srs_read (fs : files) (st : store (SRS F)) (offset : option Z) (path : string)
    : outcome (option ptr) * store (SRS F) :=
  match fs !! path with
  | None => (Raise (Invalid_argument "CamlSRS::read"), st)
  | Some content =>
      match (match offset with Some o => seek_start content (as_u64 o) | None => Some content end) with
      | None => (Raise (DynError "seek error"), st)
      | Some rest =>
          match srs_deserialize rest with
          | Some srs => let '(p, st) := rc_new st srs in (Ret (Some p), st)
          | None => (Ret None, st)
          end
      end
  end.

Definition caml_fp_srs_lagrange_commitment (st : store (SRS F)) (srs : ptr) (size i : Z)
    : outcome CamlPolyComm * store (SRS F) :=
  match domain_new (as_u64 size) with
  | None => (Raise (Invalid_argument "CamlSRS::lagrange_commitment"), st)
  | Some x_domain =>
      let st := alter (fun s => add_lagrange_basis s x_domain) srs st in
      (c ← basis_at st srs (domain_size x_domain) (as_u64 i); Ret (to_caml c), st)
  end.

Definition caml_fp_srs_add_lagrange_basis (overflow_checks : bool) (st : store (SRS F)) (srs : ptr)
    (log2_size : Z) : outcome unit * store (SRS F) :=
  match (n ← shl_one overflow_checks 64 (as_u64 log2_size);
         expect "invalid domain size" (domain_new n)) with
  | Ret domain => (Ret tt, alter (fun s => add_lagrange_basis s domain) srs st)
  | Raise e => (Raise e, st)
  | Panic m => (Panic m, st)
  end.

Definition caml_fp_srs_commit_evaluations (srs : SRS F) (size : Z) (evals : list S) : outcome CamlPolyComm :=
  x_domain ← ok_or (Invalid_argument "CamlSRS::evaluations") (domain_new (as_u64 size));
  let p := interpolate evals x_domain in
  Ret (to_caml (commit_non_hiding srs p 1)).

Definition caml_fp_srs_b_poly_commitment (srs : SRS F) (chals : list S) : outcome CamlPolyComm :=
  let coeffs := b_poly_coefficients chals in
  let p := from_coefficients coeffs in
  Ret (to_caml (commit_non_hiding srs p 1)).

Definition caml_fp_srs_batch_accumulator_check (r : S) (srs : SRS F)
    (comms : list (Curves.Stubs.CamlGroupAffine F)) (chals : list S) : outcome bool :=
  let comms := map Curves.Stubs.affine_of_caml comms in
  batch_dlog_accumulator_check r (srs_g srs) comms chals.

Definition caml_fp_srs_batch_accumulator_generate (srs : SRS F) (comms : Z) (chals : list S)
    : outcome (list (Curves.Stubs.CamlGroupAffine F)) :=
  out ← batch_dlog_accumulator_generate (srs_g srs) (Z.to_nat (as_u64 comms)) chals;
  Ret (map Curves.Stubs.caml_of_affine out).

Definition caml_fp_srs_h (srs : SRS F) : Curves.Stubs.CamlGroupAffine F :=
  Curves.Stubs.caml_of_affine (srs_h srs).
End Stubs.
End Stubs.

Module Wasm.
Section Wasm.
Context {F S D P : Type} {O : SrsOps F S D} {C : Commitments S (GroupAffine F) P}.
Abbreviation WasmPolyComm := (Curves.Wasm.WasmPolyComm F).

Definition caml_fp_srs_create (st : store (SRS F)) (depth : Z) : ptr * store (SRS F) :=
  rc_new st (srs_create (as_u32 depth)).
Definition caml_fp_srs_create_parallel (st : store (SRS F)) (depth : Z) : ptr * store (SRS F) :=
  rc_new st (srs_create_parallel (as_u32 depth)).

Definition caml_fp_srs_add_lagrange_basis (overflow_checks : bool) (st : store (SRS F)) (srs : ptr)
    (log2_size : Z) : outcome unit * store (SRS F) :=
  match (n ← shl_one overflow_checks 32 (as_u32 log2_size);
         expect "invalid domain size" (domain_new n)) with
  | Ret domain => (Ret tt, alter (fun s => add_lagrange_basis s domain) srs st)
  | Raise e => (Raise e, st)
  | Panic m => (Panic m, st)
  end.

Definition caml_fp_srs_write (fs : files) (append : option bool) (srs : SRS F) (path : string)
    : outcome files :=
  match open_append fs append path with
  | None => Raise (JsError "caml_pasta_fp_urs_write: open error")
  | Some content =>
      match srs_serialize srs with
      | Some w => Ret (<[path := content ++ w]> fs)
      | None => Raise (JsError "caml_pasta_fp_urs_write: serialization error")
      end
  end.

Definition caml_fp_srs_read (fs : files) (st : store (SRS F)) (offset : option Z) (path : string)
    : outcome (option ptr) * store (SRS F) :=
  match fs !! path with
  | None => (Raise (JsError "caml_pasta_fp_urs_read: open error"), st)
  | Some content =>
      match (match offset with Some o => seek_start content (as_u64 o) | None => Some content end) with
      | None => (Raise (JsError "caml_pasta_fp_urs_read: seek error"), st)
      | Some rest =>
          match srs_deserialize rest with
          | Some srs => let '(p, st) := rc_new st srs in (Ret (Some p), st)
          | None => (Ret None, st)
          end
      end
  end.

Definition caml_fp_srs_lagrange_commitment (st : store (SRS F)) (srs : ptr) (size i : Z)
    : outcome WasmPolyComm * store (SRS F) :=
  match domain_new (as_u32 size) with
  | None => (Raise (JsError "caml_pasta_fp_urs_lagrange_commitment"), st)
  | Some x_domain =>
      let st := alter (fun s => add_lagrange_basis s x_domain) srs st in
      (c ← basis_at st srs (domain_size x_domain) (as_u32 i); Ret (Curves.Wasm.wasm_of_poly_comm c), st)
  end.

Definition caml_fp_srs_commit_evaluations (srs : SRS F) (size : Z) (evals : list S) : outcome WasmPolyComm :=
  x_domain ← ok_or (JsError "caml_pasta_fp_urs_commit_evaluations") (domain_new (as_u32 size));
  let p := interpolate evals x_domain in
  Ret (Curves.Wasm.wasm_of_poly_comm (commit_non_hiding srs p 1)).

Definition caml_fp_srs_b_poly_commitment (srs : SRS F) (chals : list S) : outcome WasmPolyComm :=
  let coeffs := b_poly_coefficients chals in
  let p := from_coefficients coeffs in
  Ret (Curves.Wasm.wasm_of_poly_comm (commit_non_hiding srs p 1)).

Definition caml_fp_srs_batch_accumulator_check (r : S) (srs : SRS F)
    (comms : list (Curves.Wasm.WasmG F)) (chals : list S) : outcome bool :=
  let comms := map Curves.Wasm.affine_of_wasm comms in
  batch_dlog_accumulator_check r (srs_g srs) comms chals.

Definition caml_fp_srs_batch_accumulator_generate (srs : SRS F) (comms : Z) (chals : list S)
    : outcome (list (Curves.Wasm.WasmG F)) :=
  out ← batch_dlog_accumulator_generate (srs_g srs) (Z.to_nat (as_u32 comms)) chals;
  Ret (map Curves.Wasm.wasm_of_affine out).

Definition caml_fp_srs_h (srs : SRS F) : Curves.Wasm.WasmG F := Curves.Wasm.wasm_of_affine (srs_h srs).

(** [h], then all of [g]. *)
Definition caml_fp_srs_get (srs : SRS F) : list (Curves.Wasm.WasmG F) :=
  let h_and_gs := [Curves.Wasm.wasm_of_affine (srs_h srs)] in
  h_and_gs ++ map Curves.Wasm.wasm_of_affine (srs_g srs).
(** [remove(0)] panics on an empty vector. *)
Definition caml_fp_srs_set (st : store (SRS F)) (h_and_gs : list (Curves.Wasm.WasmG F))
    : outcome ptr * store (SRS F) :=
  let h_and_gs := map Curves.Wasm.affine_of_wasm h_and_gs in
  match h_and_gs with
  | [] => (Panic "removal index (is 0) should be < len (is 0)", st)
  | h :: g => let '(p, st) := rc_new st (Build_SRS g h ∅) in (Ret p, st)
  end.

Definition caml_fp_srs_maybe_lagrange_commitment (srs : SRS F) (size i : Z)
    : outcome (option WasmPolyComm) :=
  match lagrange_bases srs !! as_u32 size with
  | Some bases => c ← index bases (as_u32 i); Ret (Some (Curves.Wasm.wasm_of_poly_comm c))
  | None => Ret None
  end.

Definition caml_fp_srs_set_lagrange_basis (st : store (SRS F)) (srs : ptr) (size : Z)
    (input_bases : list WasmPolyComm) : outcome unit * store (SRS F) :=
  match collect Curves.Wasm.poly_comm_of_wasm input_bases with
  | Ret bases =>
      (Ret tt, alter (fun s => Build_SRS (srs_g s) (srs_h s) (<[as_u32 size := bases]> (lagrange_bases s))) srs st)
  | Raise e => (Raise e, st)
  | Panic m => (Panic m, st)
  end.

Definition caml_fp_srs_get_lagrange_basis (st : store (SRS F)) (srs : ptr) (size : Z)
    : outcome (list WasmPolyComm) * store (SRS F) :=
  match domain_new (as_u32 size) with
  | None => (Panic "invalid domain size", st)
  | Some domain =>
      let st := alter (fun s => add_lagrange_basis s domain) srs st in
      (s ← rc_deref st srs;
       bases ← expect "no entry found for key" (lagrange_bases s !! as_u32 size);
       Ret (map Curves.Wasm.wasm_of_poly_comm bases), st)
  end.
End Wasm.
End Wasm.

(** ** Lagrange bases *)

Section Bases.
Context {F S D : Type} {O : SrsOps F S D} {L : SrsLaws O}.

(** A basis of [n] elements is stored under [n]. *)
Definition bases_ok (s : SRS F) : Prop :=
  map_Forall (fun k b => Z.of_nat (length b) = k) (lagrange_bases s).
(** Same points, and every basis of [s] still there. *)
Definition extends (s s' : SRS F) : Prop :=
  srs_g s' = srs_g s /\ srs_h s' = srs_h s /\ lagrange_bases s ⊆ lagrange_bases s'.

Lemma add_basis_spec s d :
  exists b, lagrange_bases (add_lagrange_basis s d) !! domain_size d = Some b /\
    extends s (add_lagrange_basis s d) /\
    (bases_ok s -> bases_ok (add_lagrange_basis s d) /\ Z.of_nat (length b) = domain_size d) /\
    (lagrange_bases s !! domain_size d = None -> Z.of_nat (length b) = domain_size d) /\
    (forall b', lagrange_bases s !! domain_size d = Some b' -> b = b' /\ add_lagrange_basis s d = s) /\
    add_lagrange_basis (add_lagrange_basis s d) d = add_lagrange_basis s d.
Proof.
  destruct (lagrange_bases s !! domain_size d) as [b|] eqn:E.
  - pose proof (add_basis_present s d b E) as Ha. exists b. rewrite !Ha.
    repeat split; try done. { by apply (map_Forall_lookup_1 _ _ _ _ H E). }
    all: congruence.
  - destruct (add_basis_absent s d E) as (b & Hb & Ha). exists b.
    assert (lagrange_bases (add_lagrange_basis s d) !! domain_size d = Some b) as El
      by (rewrite Ha; apply lookup_insert_eq).
    split; [done|]. split; [|split; [|split; [done|split; [done|by apply add_basis_present in El]]]].
    + rewrite Ha. repeat split; try done. simpl. by apply insert_subseteq.
    + intros Hok. split; [|done]. rewrite Ha. by apply map_Forall_insert_2.
Qed.

Lemma alter_at {A} (f : A -> A) (st : store A) p x :
  st !! p = Some x -> alter f p st = <[p := f x]> st.
Proof.
  intros Hp. apply map_eq. intros q. destruct (decide (q = p)) as [->|Hq].
  - by rewrite lookup_alter_eq, Hp, lookup_insert_eq.
  - by rewrite lookup_alter_ne, lookup_insert_ne.
Qed.

Lemma domain_index n d (i : Z) w (b : list (PolyComm F)) :
  domain_new n = Some d -> Z.of_nat (length b) = domain_size d ->
  33 <= w -> - 2 ^ (w - 1) <= i < 2 ^ (w - 1) ->
  index b (as_u w i) = match (if 0 <=? i then b !! Z.to_nat i else None) with
                       | Some c => Ret c
                       | None => Panic "index out of bounds"
                       end.
Proof.
  intros Hd Hb Hw Hi. destruct (domain_size_pow2 n d Hd) as (k & Hk & Ek & _ & _).
  assert (2 ^ k <= 2 ^ (w - 1)) as Hp by (apply Z.pow_le_mono_r; lia).
  pose proof (pow2_split w ltac:(lia)) as E2.
  destruct (Z.leb_spec 0 i).
  - rewrite as_u_id by lia. unfold index. rewrite (proj2 (Z.ltb_ge _ _)) by lia.
    by destruct (b !! Z.to_nat i).
  - rewrite as_u_neg by lia. unfold index. rewrite (proj2 (Z.ltb_ge _ _)) by lia.
    by rewrite lookup_ge_None_2 by lia.
Qed.
End Bases.

Section Properties.
Context {F S D : Type} {O : SrsOps F S D} {L : SrsLaws O}.
Context {CamlPolyComm : Type} (to_caml : PolyComm F -> CamlPolyComm).

(** C25: Lagrange commitments from OCaml. When there is no domain of that size
    the call is an error and changes nothing. Otherwise the shared reference
    string gains at most the basis of the domain - the smallest power of two
    that is large enough - keeping its points and every other basis, and no
    other reference string changes; the call returns the i-th commitment of that
    basis, and panics exactly for an index outside the domain (the basis is
    added all the same). A second call finds everything in place. *)
Theorem lagrange_commitment_spec (st : store (SRS F)) p s size :
  st !! p = Some s -> bases_ok s ->
  match domain_new (as_u64 size) with
  | None => forall i, Stubs.caml_fp_srs_lagrange_commitment to_caml st p size i
                      = (Raise (Invalid_argument "CamlSRS::lagrange_commitment"), st)
  | Some d =>
      exists b s', extends s s' /\ bases_ok s' /\
        lagrange_bases s' !! domain_size d = Some b /\
        as_u64 size <= Z.of_nat (length b) /\
        forall i, - 2 ^ 63 <= i < 2 ^ 63 ->
          let out := match (if 0 <=? i then b !! Z.to_nat i else None) with
                     | Some c => Ret (to_caml c)
                     | None => Panic "index out of bounds"
                     end in
          let st' := <[p := s']> st in
          Stubs.caml_fp_srs_lagrange_commitment to_caml st p size i = (out, st') /\
          Stubs.caml_fp_srs_lagrange_commitment to_caml st' p size i = (out, st')
  end.
Proof.
  intros Hp Hok. unfold Stubs.caml_fp_srs_lagrange_commitment.
  destruct (domain_new (as_u64 size)) as [d|] eqn:Ed; [|done].
  destruct (add_basis_spec s d) as (b & Hb & Hext & Hok' & _ & _ & Hidem).
  destruct (Hok' Hok) as [Hok'' Hl]. exists b, (add_lagrange_basis s d).
  destruct (domain_size_pow2 _ _ Ed) as (k & _ & Hk & Hle & _).
  split; [done|]. split; [done|]. split; [done|]. split; [lia|]. intros i Hi.
  set (st' := <[p := add_lagrange_basis s d]> st).
  set (out := match (if 0 <=? i then _ else _) with Some _ => _ | None => _ end).
  rewrite (alter_at _ st p s), (alter_at _ st' p (add_lagrange_basis s d)) by (done || apply lookup_insert_eq).
  rewrite Hidem. fold st'. rewrite (insert_id st') by apply lookup_insert_eq.
  assert ((c ← basis_at st' p (domain_size d) (as_u64 i); Ret (to_caml c)) = out) as ->; [|done].
  unfold basis_at, rc_deref, st'. rewrite lookup_insert_eq. cbn [expect mbind outcome_bind].
  rewrite Hb. cbn [expect mbind outcome_bind]. rewrite (domain_index _ d) by (exact Ed || lia).
  unfold out. by destruct (if 0 <=? i then _ else _).
Qed.

(** C26: Lagrange bases from JavaScript. [get_lagrange_basis] adds the basis of
    the domain, whose size is the least power of two that is large enough, but
    then looks it up under the size it was asked for: it returns the basis when
    the size is a power of two and panics otherwise, with the basis added under
    the rounded size. A basis set by the client is what [maybe_lagrange_commitment]
    and [get_lagrange_basis] return from then on, never recomputed; an index
    outside a present basis panics instead of giving [None]. *)
Theorem wasm_lagrange_basis_spec (st : store (SRS F)) p s size d :
  st !! p = Some s -> 0 <= size < 2 ^ 31 -> domain_new size = Some d ->
  (lagrange_bases s !! size = None -> bases_ok s ->
     exists s', extends s s' /\ snd (Wasm.caml_fp_srs_get_lagrange_basis st p size) = <[p := s']> st /\
       (if bool_decide (domain_size d = size) then
          exists b, Z.of_nat (length b) = size /\
            fst (Wasm.caml_fp_srs_get_lagrange_basis st p size)
              = Ret (map Curves.Wasm.wasm_of_poly_comm b)
        else is_panic (fst (Wasm.caml_fp_srs_get_lagrange_basis st p size)) = true /\
             size < domain_size d /\ is_Some (lagrange_bases s' !! domain_size d)) /\
       (domain_size d = size <-> exists k, 0 <= k /\ size = 2 ^ k)) /\
  (forall bs, exists s', Z.of_nat (length bs) < 2 ^ 31 ->
     Wasm.caml_fp_srs_set_lagrange_basis st p size (map Curves.Wasm.wasm_of_poly_comm bs)
       = (Ret tt, <[p := s']> st) /\
     srs_g s' = srs_g s /\ srs_h s' = srs_h s /\
     (forall i, - 2 ^ 31 <= i < 2 ^ 31 ->
        match (if 0 <=? i then bs !! Z.to_nat i else None) with
        | Some c => Wasm.caml_fp_srs_maybe_lagrange_commitment s' size i
                    = Ret (Some (Curves.Wasm.wasm_of_poly_comm c))
        | None => is_panic (Wasm.caml_fp_srs_maybe_lagrange_commitment s' size i) = true
        end) /\
     (domain_size d = size ->
        Wasm.caml_fp_srs_get_lagrange_basis (<[p := s']> st) p size
          = (Ret (map Curves.Wasm.wasm_of_poly_comm bs), <[p := s']> st))).
Proof.
  intros Hp Hsz Hd. destruct (domain_size_pow2 _ _ Hd) as (k & Hk & Ek & Hle & Hmin).
  assert (as_u32 size = size) as Hu by (apply as_u_id; lia).
  assert (domain_size d = size <-> exists k, 0 <= k /\ size = 2 ^ k) as Hpow.
  { split; [intros <-; exists k; lia|]. intros (j & Hj & E). rewrite Ek, E.
    rewrite E in Hle, Hmin. apply Z.pow_le_mono_r_iff in Hle; [|lia..].
    destruct (Z.le_gt_cases k j); [f_equal; lia|]. exfalso.
    assert (2 ^ j <= 2 ^ (k - 1)) by (apply Z.pow_le_mono_r; lia). specialize (Hmin ltac:(lia)). lia. }
  unfold Wasm.caml_fp_srs_get_lagrange_basis. rewrite Hu, Hd. split.
  - intros Hnone Hok. destruct (add_basis_spec s d) as (b & Hb & Hext & Hok' & _).
    destruct (Hok' Hok) as [Hok'' Hl]. exists (add_lagrange_basis s d).
    rewrite (alter_at _ st p s) by done. cbn [fst snd].
    split; [done|]. split; [done|]. split; [|done]. unfold rc_deref. rewrite lookup_insert_eq.
    cbn [expect mbind outcome_bind]. case_bool_decide as Hs.
    + exists b. split; [lia|]. rewrite Hs in Hb. by rewrite Hb.
    + split; [|split; [lia|by eexists]].
      destruct (lagrange_bases (add_lagrange_basis s d) !! size) as [b'|] eqn:E'; [|done]. exfalso.
      destruct (lagrange_bases s !! domain_size d) as [b0|] eqn:E0.
      * rewrite (add_basis_present s d b0 E0) in E'. congruence.
      * destruct (add_basis_absent s d E0) as (b1 & _ & Ha). rewrite Ha in E'. simpl in E'.
        rewrite lookup_insert_ne in E' by done. congruence.
  - intros bs. exists (Build_SRS (srs_g s) (srs_h s) (<[size := bs]> (lagrange_bases s))). intros Hbs.
    unfold Wasm.caml_fp_srs_set_lagrange_basis.
    assert (collect Curves.Wasm.poly_comm_of_wasm (map Curves.Wasm.wasm_of_poly_comm bs) = Ret bs) as ->.
    { clear. induction bs as [|b bs IH]; [done|]. cbn [map collect]. rewrite IH.
      unfold Curves.Wasm.poly_comm_of_wasm at 1. cbn. by rewrite map_affine_of_of_wasm. }
    rewrite Hu, (alter_at _ st p s) by done. split; [done|]. split; [done|]. split; [done|]. split.
    + intros i Hi. unfold Wasm.caml_fp_srs_maybe_lagrange_commitment. cbn [lagrange_bases].
      rewrite Hu, lookup_insert_eq. unfold index. destruct (Z.leb_spec 0 i).
      * rewrite as_u_id by lia. rewrite (proj2 (Z.ltb_ge _ _)) by lia. by destruct (bs !! Z.to_nat i).
      * rewrite as_u_neg by lia. rewrite (proj2 (Z.ltb_ge _ _)) by lia.
        by rewrite lookup_ge_None_2 by lia.
    + intros Hs. set (s' := Build_SRS _ _ _).
      assert (lagrange_bases s' !! domain_size d = Some bs) as Hl by (rewrite Hs; apply lookup_insert_eq).
      rewrite (alter_at _ (<[p := s']> st) p s') by apply lookup_insert_eq.
      rewrite (add_basis_present s' d bs Hl), insert_insert_eq.
      unfold rc_deref. rewrite lookup_insert_eq. cbn [expect mbind outcome_bind].
      rewrite <-Hs at 1. by rewrite Hl.
Qed.

(** Saving and loading. Writing needs an existing file and the append mode:
    [append = false] is always refused. What is written at the end of a file is
    read back, with the same points, from the offset where it starts, as a new
    reference; a negative offset is an error. On the JavaScript side the vector
    of [get] sets the same points again, and an empty vector panics. *)
Theorem srs_persistence (fs fs' : files) (st : store (SRS F)) (s : SRS F) (path : string)
    (content : list byte) (append : option bool) :
  fs !! path = Some content -> Z.of_nat (length content) < 2 ^ 63 ->
  (Stubs.caml_fp_srs_write fs append s path = Ret fs' ->
     append <> Some false /\
     exists p s', Stubs.caml_fp_srs_read fs' st (Some (Z.of_nat (length content))) path
                  = (Ret (Some p), <[p := s']> st) /\
       st !! p = None /\ srs_g s' = srs_g s /\ srs_h s' = srs_h s) /\
  (forall fs0, Stubs.caml_fp_srs_write fs0 (Some false) s path = Raise (Invalid_argument "CamlSRS::write")) /\
  (forall o, - 2 ^ 63 <= o < 0 ->
     Stubs.caml_fp_srs_read fs st (Some o) path = (Raise (DynError "seek error"), st)) /\
  (exists p, Wasm.caml_fp_srs_set st (Wasm.caml_fp_srs_get s)
             = (Ret p, <[p := Build_SRS (srs_g s) (srs_h s) ∅]> st) /\ st !! p = None) /\
  is_panic (fst (Wasm.caml_fp_srs_set st [])) = true.
Proof.
  intros Hf Hlen. split; [|split; [done|split; [|split; [|done]]]].
  - unfold Stubs.caml_fp_srs_write, open_append. rewrite Hf. destruct append as [[]|]; simpl; try done.
    all: destruct (srs_serialize s) as [w|] eqn:Ew; [|done]; intros [= <-]; split; [done|].
    all: destruct (deserialize_serialize s w [] Ew) as (s' & Hs' & Hg & Hh).
    all: unfold Stubs.caml_fp_srs_read; rewrite lookup_insert_eq, as_u_id by lia; unfold seek_start.
    all: rewrite (proj2 (Z.ltb_lt _ _)), Nat2Z.id, drop_app_length by done.
    all: rewrite app_nil_r in Hs'; rewrite Hs'.
    all: destruct (rc_new st s') as [p st'] eqn:En; apply rc_new_spec in En as [Hn ->].
    all: by exists p, s'.
  - intros o Ho. unfold Stubs.caml_fp_srs_read, seek_start. rewrite Hf, as_u_neg by lia.
    by rewrite (proj2 (Z.ltb_ge _ _)) by lia.
  - unfold Wasm.caml_fp_srs_set, Wasm.caml_fp_srs_get. cbn [map app].
    rewrite affine_of_of_wasm, map_affine_of_of_wasm.
    destruct (rc_new st _) as [p st'] eqn:En. apply rc_new_spec in En as [Hn ->]. by exists p.
Qed.
End Properties.

(** ** Witnesses *)

Definition z_pow2_above (n : Z) : Z := if n <=? 1 then 1 else 2 ^ (Z.log2 (n - 1) + 1).
(** Points without coordinates, serialized as their number and one byte each. *)
Definition u_point (inf : bool) : GroupAffine unit := Affine tt tt inf.
Definition u_byte (g : GroupAffine unit) : byte := byte_of (if infinity g then 1 else 0).
Definition u_of_byte (b : byte) : GroupAffine unit := u_point (byte_val b =? 1).
Definition u_serialize (s : SRS unit) : option (list byte) :=
  if (Z.of_nat (length (srs_g s)) <? 256)
  then Some (byte_of (Z.of_nat (length (srs_g s))) :: u_byte (srs_h s) :: map u_byte (srs_g s))
  else None.
Definition u_deserialize (l : list byte) : option (SRS unit) :=
  match l with
  | n :: h :: l => Some (Build_SRS (map u_of_byte (take (Z.to_nat (byte_val n)) l)) (u_of_byte h) ∅)
  | _ => None
  end.
Definition u_basis (d : Z) : list (PolyComm unit) := replicate (Z.to_nat d) [u_point false].

#[local] Instance demo_srs : SrsOps unit Z N := {|
  domain_new n := if n <=? 2 ^ 32 then Some (Z.to_N (z_pow2_above n)) else None;
  domain_size d := Z.of_N d;
  srs_create n := Build_SRS (replicate (Z.to_nat n) (u_point false)) (u_point false) ∅;
  srs_create_parallel n := Build_SRS (replicate (Z.to_nat n) (u_point false)) (u_point false) ∅;
  add_lagrange_basis s d :=
    match lagrange_bases s !! Z.of_N d with
    | Some _ => s
    | None => Build_SRS (srs_g s) (srs_h s) (<[Z.of_N d := u_basis (Z.of_N d)]> (lagrange_bases s))
    end;
  interpolate l _ := l;
  from_coefficients l := l;
  commit_non_hiding s p n := [u_point false];
  srs_serialize := u_serialize;
  srs_deserialize := u_deserialize;
|}.

Lemma z_pow2_above_spec n :
  n <= 2 ^ 32 ->
  exists k, 0 <= k <= 32 /\ z_pow2_above n = 2 ^ k /\ n <= 2 ^ k /\ (0 < k -> 2 ^ (k - 1) < n).
Proof.
  intros Hn. unfold z_pow2_above. destruct (Z.leb_spec n 1) as [H|H].
  - exists 0. repeat split; lia.
  - exists (Z.log2 (n - 1) + 1).
    pose proof (Z.log2_spec (n - 1) ltac:(lia)) as [H1 H2].
    pose proof (Z.log2_nonneg (n - 1)). change (Z.succ ?x) with (Z.succ x) in H2.
    assert (Z.log2 (n - 1) < 32) by (apply Z.log2_lt_pow2; lia).
    rewrite <-Z.add_1_r in H2. rewrite Z.add_simpl_r. repeat split; lia.
Qed.

#[local] Instance demo_srs_laws : SrsLaws demo_srs.
Proof.
  constructor; cbn [domain_new domain_size add_lagrange_basis srs_serialize srs_deserialize demo_srs].
  - intros n d. destruct (Z.leb_spec n (2 ^ 32)) as [H|H]; [|done]. intros [= <-].
    destruct (z_pow2_above_spec n H) as (k & Hk & E & H1 & H2). exists k.
    rewrite Z2N.id; [done|]. rewrite E. by apply Z.pow_nonneg.
  - intros s d b ->. done.
  - intros s d ->. eexists. split; [|done]. unfold u_basis. rewrite length_replicate. lia.
  - unfold u_serialize. intros s w rest. destruct (Z.ltb_spec (Z.of_nat (length (srs_g s))) 256) as [H|]; [|done].
    intros [= <-]. cbn [u_deserialize app]. eexists. split; [done|]. cbn [srs_g srs_h].
    assert (forall g, u_of_byte (u_byte g) = g) as Hg by (by intros [[] [] []]).
    split; [|apply Hg]. rewrite byte_val_of, as_u_id by (change (2 ^ 8) with 256; lia).
    rewrite Nat2Z.id, take_app_length' by (by rewrite length_map).
    rewrite map_map. rewrite <-(map_id (srs_g s)) at 2. by apply map_ext.
Qed.

Definition u_srs : SRS unit := Build_SRS [u_point false; u_point true] (u_point false) ∅.
Definition u_store : store (SRS unit) := {[ 1%positive := u_srs ]}.

Lemma lagrange_commitment_spec_witness :
  let call st i := Stubs.caml_fp_srs_lagrange_commitment (O := demo_srs) (fun c => c) st 1 3 i in
  exists c st', call u_store 2 = (Ret c, st') /\ call st' 2 = (Ret c, st') /\
    fst (call u_store (-1)) = Panic "index out of bounds".
Proof.
  intros call.
  pose proof (lagrange_commitment_spec (L := demo_srs_laws) (fun c => c) u_store 1 u_srs 3
                (lookup_singleton_eq _ _) (map_Forall_empty _)) as H.
  change (domain_new (as_u64 3)) with (Some 4%N) in H. destruct H as (b & s' & _ & _ & _ & Hl & H).
  destruct (lookup_lt_is_Some_2 b 2) as [c Hc]; [change (as_u64 3) with 3 in Hl; lia|].
  pose proof (H 2 ltac:(lia)) as H2. pose proof (H (-1) ltac:(lia)) as [Hm _].
  cbn [Z.leb Z.compare] in H2. change (Z.to_nat 2) with 2%nat in H2. rewrite Hc in H2.
  destruct H2 as [H2 H2']. eexists c, _. split; [exact H2|]. split; [exact H2'|].
  unfold call. rewrite Hm. reflexivity.
Defined.

Lemma wasm_lagrange_basis_spec_witness :
  is_panic (fst (Wasm.caml_fp_srs_get_lagrange_basis (O := demo_srs) u_store 1 3)) = true /\
  exists b, fst (Wasm.caml_fp_srs_get_lagrange_basis (O := demo_srs) u_store 1 4)
            = Ret (map Curves.Wasm.wasm_of_poly_comm b) /\ Z.of_nat (length b) = 4.
Proof.
  split.
  - destruct (wasm_lagrange_basis_spec (L := demo_srs_laws) u_store 1 u_srs 3 4%N
                (lookup_singleton_eq _ _)) as [H _]; [lia|reflexivity|].
    destruct H as (s' & _ & _ & [H _] & _); [reflexivity|by apply map_Forall_empty|exact H].
  - destruct (wasm_lagrange_basis_spec (L := demo_srs_laws) u_store 1 u_srs 4 4%N
                (lookup_singleton_eq _ _)) as [H _]; [lia|reflexivity|].
    destruct H as (s' & _ & _ & (b & Hb & H) & _); [reflexivity|by apply map_Forall_empty|].
    exists b. split; [exact H|exact Hb].
Defined.

Lemma srs_persistence_witness :
  exists fs' p s', Stubs.caml_fp_srs_write (O := demo_srs) {[ "f" := [byte_of 9] ]} None u_srs "f" = Ret fs' /\
    Stubs.caml_fp_srs_read (O := demo_srs) fs' u_store (Some 1) "f" = (Ret (Some p), <[p := s']> u_store) /\
    srs_g s' = srs_g u_srs.
Proof.
  destruct (Stubs.caml_fp_srs_write (O := demo_srs) {[ "f" := [byte_of 9] ]} None u_srs "f")
    as [fs'|e|m] eqn:E; [|vm_compute in E; discriminate..].
  destruct (srs_persistence (L := demo_srs_laws) {[ "f" := [byte_of 9] ]} fs' u_store u_srs "f" [byte_of 9] None)
    as (H & _); [reflexivity|simpl; lia|].
  destruct (H E) as (_ & p & s' & Hr & _ & Hg & _).
  exists fs', p, s'. split; [reflexivity|]. split; [exact Hr|exact Hg].
Defined.
