(* ===== verification/VerifierIndex.v ===== *)
(** * Verifier indexes

    [Stubs] models plonk_verifier_index.rs and pasta_fp_plonk_verifier_index.rs
    of stubs/src, [Wasm] models wasm/src/plonk_verifier_index.rs (under
    src/src/lib/crypto/kimchi_bindings), for the instance over Vesta.  A
    verifier index of the kimchi crate is the record [VerifierIndex], of the
    fields the bindings read and build; what kimchi computes from them is the
    class [Kimchi].  Points have base field [B], scalars are [S], domains [D]. *)

From Stdlib Require Import ZArith Lia.
From stdpp Require Import base list strings gmap.
From S2P Require Import Prelude Crates Reference FieldVector Curves Srs.

Definition PERMUTS : nat := 7.
Definition COLUMNS : nat := 15.

(** ** Types of the kimchi crate *)

Record LookupPatterns : Type := {
  lp_xor : bool; lp_lookup : bool; lp_range_check : bool; lp_foreign_field_mul : bool }.
Record LookupFeatures : Type := {
  patterns : LookupPatterns; lf_joint_lookup_used : bool; uses_runtime_tables : bool }.
Record FeatureFlags : Type := {
  ff_range_check0 : bool; ff_range_check1 : bool; ff_foreign_field_add : bool;
  ff_foreign_field_mul : bool; ff_xor : bool; ff_rot : bool; lookup_features : LookupFeatures }.
Record LookupInfo : Type := {
  max_per_row : Z; max_joint_size : Z; features : LookupFeatures }.

Record LookupSelectors (PC : Type) : Type := {
  ls_xor : option PC; ls_lookup : option PC; ls_range_check : option PC; ls_ffmul : option PC }.
Arguments Build_LookupSelectors {PC}. Arguments ls_xor {PC}. Arguments ls_lookup {PC}.
Arguments ls_range_check {PC}. Arguments ls_ffmul {PC}.

(** [LookupVerifierIndex], with the representation [LI] of [LookupInfo]. *)
Record LookupVerifierIndex (PC LI : Type) : Type := {
  joint_lookup_used : bool;
  lookup_table : list PC;
  lookup_selectors : LookupSelectors PC;
  table_ids : option PC;
  lookup_info : LI;
  runtime_tables_selector : option PC }.
Arguments Build_LookupVerifierIndex {PC LI}.
Arguments joint_lookup_used {PC LI}. Arguments lookup_table {PC LI}.
Arguments lookup_selectors {PC LI}. Arguments table_ids {PC LI}.
Arguments lookup_info {PC LI}. Arguments runtime_tables_selector {PC LI}.

(** The commitments of an index, the same fields in all representations. *)
Record PlonkVerificationEvals (PC : Type) : Type := {
  sigma_comm : list PC; coefficients_comm : list PC;
  generic_comm : PC; psm_comm : PC; complete_add_comm : PC; mul_comm : PC; emul_comm : PC;
  endomul_scalar_comm : PC;
  xor_comm : option PC; range_check0_comm : option PC; range_check1_comm : option PC;
  foreign_field_add_comm : option PC; foreign_field_mul_comm : option PC; rot_comm : option PC }.
Arguments Build_PlonkVerificationEvals {PC}.
Arguments sigma_comm {PC}. Arguments coefficients_comm {PC}. Arguments generic_comm {PC}.
Arguments psm_comm {PC}. Arguments complete_add_comm {PC}. Arguments mul_comm {PC}.
Arguments emul_comm {PC}. Arguments endomul_scalar_comm {PC}. Arguments xor_comm {PC}.
Arguments range_check0_comm {PC}. Arguments range_check1_comm {PC}.
Arguments foreign_field_add_comm {PC}. Arguments foreign_field_mul_comm {PC}. Arguments rot_comm {PC}.

Section Kimchi.
Context {B S D Lin Alphas Vanish : Type}.

(** [VerifierIndex]: the commitments, which kimchi keeps as fields of the index
    itself, are grouped in [vi_evals]; [srs] is the shared pointer. *)
Record VerifierIndex : Type := {
  vi_domain : D;
  vi_max_poly_size : Z; vi_public : Z; vi_prev_challenges : Z;
  vi_srs : ptr;
  vi_evals : PlonkVerificationEvals (PolyComm B);
  vi_shift : list S;
  vi_vanishing : option Vanish;            (* permutation_vanishing_polynomial_m *)
  vi_w : option S;
  vi_endo : S;
  vi_lookup_index : option (LookupVerifierIndex (PolyComm B) LookupInfo);
  vi_linearization : Lin; vi_powers_of_alpha : Alphas;
  vi_zk_rows : Z }.

Class Kimchi : Type := {
  log_size_of_group : D -> Z;
  group_gen : D -> S;
  index_endo : S;                          (* endos::<Pallas>().0 *)
  zk_w : D -> Z -> S;
  permutation_vanishing_polynomial : D -> Z -> Vanish;
  expr_linearization : FeatureFlags -> bool -> Lin * Alphas;
  joint_lookups_used : LookupPatterns -> bool;
  shifts_new : D -> list S;                (* Shifts::new, shifts() *)
  fr_one : S;
  generator : GroupAffine B;
  from_file : files -> ptr -> string -> option Z -> S -> option VerifierIndex;
  to_file : files -> VerifierIndex -> string -> option bool -> option files;
}.
End Kimchi.
Arguments VerifierIndex : clear implicits.
Arguments Kimchi : clear implicits.

(** A kimchi prover index, as far as creating a verifier index needs it. *)
Record ProverIndexView (B S D Lin Alphas Vanish : Type) : Type := {
  pi_srs : ptr; pi_d1 : D; pi_verifier_index : VerifierIndex B S D Lin Alphas Vanish }.
Arguments pi_srs {B S D Lin Alphas Vanish}. Arguments pi_d1 {B S D Lin Alphas Vanish}.
Arguments pi_verifier_index {B S D Lin Alphas Vanish}.

Definition option_all {A A'} (f : A -> outcome A') (o : option A) : outcome (option A') :=
  match o with Some a => a' ← f a; Ret (Some a') | None => Ret None end.
(** [try_into::<[_; n]>().expect(msg)] *)
Definition expect_array {A} (n : nat) (msg : string) (l : list A) : outcome (list A) :=
  if (length l =? n)%nat then Ret l else Panic msg.
(** [array_init(|i| (&l[i]).into())] *)
Definition array_init {A A'} (n : nat) (f : A -> outcome A') (l : list A) : outcome (list A') :=
  collect (fun i => a ← index l (Z.of_nat i); f a) (seq 0 n).

(** Field by field conversions of the shared shapes. *)
Definition map_selectors {A A'} (f : A -> A') (s : LookupSelectors A) : LookupSelectors A' :=
  Build_LookupSelectors (f <$> ls_xor s) (f <$> ls_lookup s) (f <$> ls_range_check s) (f <$> ls_ffmul s).
Definition collect_selectors {A A'} (f : A -> outcome A') (s : LookupSelectors A)
    : outcome (LookupSelectors A') :=
  x ← option_all f (ls_xor s); l ← option_all f (ls_lookup s);
  r ← option_all f (ls_range_check s); m ← option_all f (ls_ffmul s);
  Ret (Build_LookupSelectors x l r m).
Definition map_lookup_index {A A' I I'} (f : A -> A') (g : I -> I') (li : LookupVerifierIndex A I)
    : LookupVerifierIndex A' I' :=
  Build_LookupVerifierIndex (joint_lookup_used li) (map f (lookup_table li))
    (map_selectors f (lookup_selectors li)) (f <$> table_ids li) (g (lookup_info li))
    (f <$> runtime_tables_selector li).
Definition collect_lookup_index {A A' I I'} (f : A -> outcome A') (g : I -> I')
    (li : LookupVerifierIndex A I) : outcome (LookupVerifierIndex A' I') :=
  t ← collect f (lookup_table li); s ← collect_selectors f (lookup_selectors li);
  ids ← option_all f (table_ids li); r ← option_all f (runtime_tables_selector li);
  Ret (Build_LookupVerifierIndex (joint_lookup_used li) t s ids (g (lookup_info li)) r).
Definition map_evals {A A'} (f : A -> A') (e : PlonkVerificationEvals A) : PlonkVerificationEvals A' :=
  Build_PlonkVerificationEvals (map f (sigma_comm e)) (map f (coefficients_comm e))
    (f (generic_comm e)) (f (psm_comm e)) (f (complete_add_comm e)) (f (mul_comm e)) (f (emul_comm e))
    (f (endomul_scalar_comm e)) (f <$> xor_comm e) (f <$> range_check0_comm e)
    (f <$> range_check1_comm e) (f <$> foreign_field_add_comm e) (f <$> foreign_field_mul_comm e)
    (f <$> rot_comm e).
(** The commitments other than [sigma] and [coefficients], converted. *)
Definition collect_evals {A A'} (f : A -> outcome A') (e : PlonkVerificationEvals A) (sigma coeffs : list A')
    : outcome (PlonkVerificationEvals A') :=
  generic ← f (generic_comm e); psm ← f (psm_comm e); add ← f (complete_add_comm e);
  mul ← f (mul_comm e); emul ← f (emul_comm e); endo ← f (endomul_scalar_comm e);
  x ← option_all f (xor_comm e); r0 ← option_all f (range_check0_comm e);
  r1 ← option_all f (range_check1_comm e); fa ← option_all f (foreign_field_add_comm e);
  fm ← option_all f (foreign_field_mul_comm e); rot ← option_all f (rot_comm e);
  Ret (Build_PlonkVerificationEvals sigma coeffs generic psm add mul emul endo x r0 r1 fa fm rot).

Definition is_some {A} (o : option A) : bool := match o with Some _ => true | None => false end.

Module Stubs.
Section Stubs.
Context {B S D P Lin Alphas Vanish : Type}.
Context {O : SrsOps B S D} {K : Kimchi B S D Lin Alphas Vanish} {G : Curve B S P}.
Abbreviation VI := (VerifierIndex B S D Lin Alphas Vanish).

(** [CamlPolyComm] and its conversions, of the poly_commitment crate. *)
Record CamlPolyComm : Type := {
  unshifted : list (Curves.Stubs.CamlGroupAffine B); shifted : option (Curves.Stubs.CamlGroupAffine B) }.
Context (pc_to_caml : PolyComm B -> CamlPolyComm) (pc_of_caml : CamlPolyComm -> outcome (PolyComm B)).

Record CamlPlonkDomain : Type := { caml_log_size_of_group : Z; caml_group_gen : S }.
Record CamlLookupInfo : Type := {
  caml_max_per_row : Z; caml_max_joint_size : Z; caml_features : LookupFeatures }.
Record CamlPlonkVerifierIndex : Type := {
  ci_domain : CamlPlonkDomain;
  ci_max_poly_size : Z; ci_public : Z; ci_prev_challenges : Z;
  ci_srs : ptr;
  ci_evals : PlonkVerificationEvals CamlPolyComm;
  ci_shifts : list S;
  ci_lookup_index : option (LookupVerifierIndex CamlPolyComm CamlLookupInfo);
  ci_zk_rows : Z }.

Definition caml_of_lookup_info (li : LookupInfo) : CamlLookupInfo :=
  {| caml_max_per_row := as_i64 (max_per_row li); caml_max_joint_size := as_i64 (max_joint_size li);
     caml_features := features li |}.
Definition lookup_info_of_caml (li : CamlLookupInfo) : LookupInfo :=
  {| max_per_row := as_u64 (caml_max_per_row li); max_joint_size := as_u32 (caml_max_joint_size li);
     features := caml_features li |}.
Definition caml_of_selectors : LookupSelectors (PolyComm B) -> LookupSelectors CamlPolyComm :=
  map_selectors pc_to_caml.
Definition selectors_of_caml : LookupSelectors CamlPolyComm -> outcome (LookupSelectors (PolyComm B)) :=
  collect_selectors pc_of_caml.
Definition caml_of_lookup_index :
    LookupVerifierIndex (PolyComm B) LookupInfo -> LookupVerifierIndex CamlPolyComm CamlLookupInfo :=
  map_lookup_index pc_to_caml caml_of_lookup_info.
Definition lookup_index_of_caml :
    LookupVerifierIndex CamlPolyComm CamlLookupInfo -> outcome (LookupVerifierIndex (PolyComm B) LookupInfo) :=
  collect_lookup_index pc_of_caml lookup_info_of_caml.

(** [From<VerifierIndex>] *)
Definition caml_of_vi (vi : VI) : CamlPlonkVerifierIndex := {|
  ci_domain := {| caml_log_size_of_group := as_i64 (log_size_of_group (vi_domain vi));
                  caml_group_gen := group_gen (vi_domain vi) |};
  ci_max_poly_size := as_i64 (vi_max_poly_size vi);
  ci_public := as_i64 (vi_public vi);
  ci_prev_challenges := as_i64 (vi_prev_challenges vi);
  ci_srs := vi_srs vi;
  ci_evals := map_evals pc_to_caml (vi_evals vi);
  ci_shifts := vi_shift vi;
  ci_lookup_index := caml_of_lookup_index <$> vi_lookup_index vi;
  ci_zk_rows := as_i64 (vi_zk_rows vi) |}.

Definition no_lookups : LookupFeatures := {|
  patterns := {| lp_xor := false; lp_lookup := false; lp_range_check := false; lp_foreign_field_mul := false |};
  lf_joint_lookup_used := false; uses_runtime_tables := false |}.
Definition feature_flags {PC} (evals : PlonkVerificationEvals PC)
    (li : option (LookupVerifierIndex PC CamlLookupInfo)) : FeatureFlags := {|
  ff_range_check0 := is_some (range_check0_comm evals);
  ff_range_check1 := is_some (range_check1_comm evals);
  ff_foreign_field_add := is_some (foreign_field_add_comm evals);
  ff_foreign_field_mul := is_some (foreign_field_mul_comm evals);
  ff_rot := is_some (rot_comm evals);
  ff_xor := is_some (xor_comm evals);
  lookup_features := match li with
                     | Some li => caml_features (lookup_info li)
                     | None => no_lookups
                     end |}.

(** [From<CamlPastaFpPlonkVerifierIndex>] *)
Definition vi_of_caml (overflow_checks : bool) (index : CamlPlonkVerifierIndex) : outcome VI :=
  let evals := ci_evals index in
  n ← shl_one overflow_checks 64 (caml_log_size_of_group (ci_domain index));
  domain ← expect "wrong size" (domain_new n);
  coefficients ← collect pc_of_caml (coefficients_comm evals);
  coefficients ← expect_array COLUMNS "wrong size" coefficients;
  sigma ← collect pc_of_caml (sigma_comm evals);
  sigma ← expect_array PERMUTS "vector of sigma comm is of wrong size" sigma;
  shift ← expect_array PERMUTS "wrong size" (ci_shifts index);
  let flags := feature_flags evals (ci_lookup_index index) in
  let '(linearization, powers_of_alpha) := expr_linearization flags true in
  evals ← collect_evals pc_of_caml evals sigma coefficients;
  li ← option_all lookup_index_of_caml (ci_lookup_index index);
  Ret {|
    vi_domain := domain;
    vi_max_poly_size := as_u64 (ci_max_poly_size index);
    vi_public := as_u64 (ci_public index);
    vi_prev_challenges := as_u64 (ci_prev_challenges index);
    vi_powers_of_alpha := powers_of_alpha;
    vi_srs := ci_srs index;
    vi_zk_rows := as_u64 (ci_zk_rows index);
    vi_evals := evals;
    vi_shift := shift;
    vi_vanishing := Some (permutation_vanishing_polynomial domain (as_u64 (ci_zk_rows index)));
    vi_w := Some (zk_w domain (as_u64 (ci_zk_rows index)));
    vi_endo := index_endo;
    vi_lookup_index := li;
    vi_linearization := linearization |}.

Definition read_raw (fs : files) (offset : option Z) (srs : ptr) (path : string) : outcome VI :=
  ok_or (Invalid_argument "caml_pasta_fp_plonk_verifier_index_raw_read")
    (from_file fs srs path (as_u64 <$> offset) index_endo).
Definition caml_pasta_fp_plonk_verifier_index_read (fs : files) (offset : option Z) (srs : ptr) (path : string)
    : outcome CamlPlonkVerifierIndex :=
  vi ← read_raw fs offset srs path; Ret (caml_of_vi vi).
Definition caml_pasta_fp_plonk_verifier_index_write (overflow_checks : bool) (fs : files) (append : option bool)
    (index : CamlPlonkVerifierIndex) (path : string) : outcome files :=
  index ← vi_of_caml overflow_checks index;
  ok_or (Invalid_argument "caml_pasta_fp_plonk_verifier_index_raw_read") (to_file fs index path append).
Definition caml_pasta_fp_plonk_verifier_index_create (st : store (SRS B))
    (index : ProverIndexView B S D Lin Alphas Vanish) : CamlPlonkVerifierIndex * store (SRS B) :=
  let st := alter (fun s => add_lagrange_basis s (pi_d1 index)) (pi_srs index) st in
  (caml_of_vi (pi_verifier_index index), st).
Definition caml_pasta_fp_plonk_verifier_index_shifts (overflow_checks : bool) (log2_size : Z)
    : outcome (list S) :=
  n ← shl_one overflow_checks 64 log2_size;
  domain ← expect "called `Option::unwrap()` on a `None` value" (domain_new n);
  Ret (shifts_new domain).

Definition dummy_comm : CamlPolyComm :=
  let g := Curves.Stubs.caml_of_affine generator in {| shifted := None; unshifted := [g; g; g] |}.
Definition caml_pasta_fp_plonk_verifier_index_dummy (st : store (SRS B))
    : CamlPlonkVerifierIndex * store (SRS B) :=
  let '(srs, st) := rc_new st (srs_create 0) in
  ({| ci_domain := {| caml_log_size_of_group := 1; caml_group_gen := fr_one |};
      ci_max_poly_size := 0; ci_public := 0; ci_prev_challenges := 0;
      ci_srs := srs;
      ci_evals := {| sigma_comm := replicate PERMUTS dummy_comm;
                     coefficients_comm := replicate COLUMNS dummy_comm;
                     generic_comm := dummy_comm; psm_comm := dummy_comm; complete_add_comm := dummy_comm;
                     mul_comm := dummy_comm; emul_comm := dummy_comm; endomul_scalar_comm := dummy_comm;
                     xor_comm := None; range_check0_comm := None; range_check1_comm := None;
                     foreign_field_add_comm := None; foreign_field_mul_comm := None; rot_comm := None |};
      ci_shifts := replicate (PERMUTS - 1) fr_one;
      ci_lookup_index := None;
      ci_zk_rows := 3 |}, st).
Definition caml_pasta_fp_plonk_verifier_index_deep_copy (x : CamlPlonkVerifierIndex) : CamlPlonkVerifierIndex := x.
End Stubs.
Arguments CamlPolyComm : clear implicits.
Arguments CamlPlonkVerifierIndex : clear implicits.
End Stubs.

Module Wasm.
Section Wasm.
Context {B S D P Lin Alphas Vanish : Type}.
Context {O : SrsOps B S D} {K : Kimchi B S D Lin Alphas Vanish} {G : Curve B S P}.
Abbreviation VI := (VerifierIndex B S D Lin Alphas Vanish).
Abbreviation WasmPolyComm := (Curves.Wasm.WasmPolyComm B).

Record WasmDomain : Type := { wd_log_size_of_group : Z; wd_group_gen : S }.
Record WasmShifts : Type := { s0 : S; s1 : S; s2 : S; s3 : S; s4 : S; s5 : S; s6 : S }.
Record WasmPlonkVerifierIndex : Type := {
  wi_domain : WasmDomain;
  wi_max_poly_size : Z; wi_public : Z; wi_prev_challenges : Z;
  wi_srs : ptr;
  wi_evals : PlonkVerificationEvals WasmPolyComm;
  wi_shifts : WasmShifts;
  wi_lookup_index : option (LookupVerifierIndex WasmPolyComm LookupInfo);
  wi_zk_rows : Z }.

Abbreviation pc_to_wasm := (Curves.Wasm.wasm_of_poly_comm (F := B)).
Abbreviation pc_of_wasm := (Curves.Wasm.poly_comm_of_wasm (F := B)).

Definition wasm_of_selectors : LookupSelectors (PolyComm B) -> LookupSelectors WasmPolyComm :=
  map_selectors pc_to_wasm.
Definition selectors_of_wasm : LookupSelectors WasmPolyComm -> outcome (LookupSelectors (PolyComm B)) :=
  collect_selectors pc_of_wasm.
Definition wasm_of_lookup_index :
    LookupVerifierIndex (PolyComm B) LookupInfo -> LookupVerifierIndex WasmPolyComm LookupInfo :=
  map_lookup_index pc_to_wasm (fun li => li).
Definition lookup_index_of_wasm :
    LookupVerifierIndex WasmPolyComm LookupInfo -> outcome (LookupVerifierIndex (PolyComm B) LookupInfo) :=
  collect_lookup_index pc_of_wasm (fun li => li).

(** [vi.shift[0]] to [vi.shift[6]] of a seven-element array. *)
Definition shifts_to_wasm (shift : list S) : outcome WasmShifts :=
  a ← index shift 0; b ← index shift 1; c ← index shift 2; d ← index shift 3;
  e ← index shift 4; f ← index shift 5; g ← index shift 6;
  Ret {| s0 := a; s1 := b; s2 := c; s3 := d; s4 := e; s5 := f; s6 := g |}.

Definition to_wasm (srs : ptr) (vi : VI) : outcome WasmPlonkVerifierIndex :=
  shifts ← shifts_to_wasm (vi_shift vi);
  Ret {|
    wi_domain := {| wd_log_size_of_group := as_i32 (log_size_of_group (vi_domain vi));
                    wd_group_gen := group_gen (vi_domain vi) |};
    wi_max_poly_size := as_i32 (vi_max_poly_size vi);
    wi_public := as_i32 (vi_public vi);
    wi_prev_challenges := as_i32 (vi_prev_challenges vi);
    wi_srs := srs;
    wi_evals := map_evals pc_to_wasm (vi_evals vi);
    wi_shifts := shifts;
    wi_lookup_index := wasm_of_lookup_index <$> vi_lookup_index vi;
    wi_zk_rows := as_i32 (vi_zk_rows vi) |}.

Definition compute_feature_flags (index : WasmPlonkVerifierIndex) : FeatureFlags :=
  let xor := is_some (xor_comm (wi_evals index)) in
  let range_check0 := is_some (range_check0_comm (wi_evals index)) in
  let range_check1 := is_some (range_check1_comm (wi_evals index)) in
  let foreign_field_add := is_some (foreign_field_add_comm (wi_evals index)) in
  let foreign_field_mul := is_some (foreign_field_mul_comm (wi_evals index)) in
  let rot := is_some (rot_comm (wi_evals index)) in
  let lookup := match wi_lookup_index index with
                | Some li => lp_lookup (patterns (features (lookup_info li)))
                | None => false
                end in
  let runtime_tables := false in
  let patterns := {| lp_xor := xor; lp_lookup := lookup;
                     lp_range_check := range_check0 || range_check1 || rot;
                     lp_foreign_field_mul := foreign_field_mul |} in
  {| ff_range_check0 := range_check0; ff_range_check1 := range_check1;
     ff_foreign_field_add := foreign_field_add; ff_foreign_field_mul := foreign_field_mul;
     ff_xor := xor; ff_rot := rot;
     lookup_features := {| patterns := patterns; lf_joint_lookup_used := joint_lookups_used patterns;
                           uses_runtime_tables := runtime_tables |} |}.

Definition of_wasm (overflow_checks : bool) (index : WasmPlonkVerifierIndex) : outcome (VI * ptr) :=
  let evals := wi_evals index in
  let shifts := wi_shifts index in
  n ← shl_one overflow_checks 32 (wd_log_size_of_group (wi_domain index));
  domain ← expect "called `Option::unwrap()` on a `None` value" (domain_new n);
  let flags := compute_feature_flags index in
  let '(linearization, powers_of_alpha) := expr_linearization flags true in
  sigma ← array_init PERMUTS pc_of_wasm (sigma_comm evals);
  coefficients ← array_init COLUMNS pc_of_wasm (coefficients_comm evals);
  evals ← collect_evals pc_of_wasm evals sigma coefficients;
  li ← option_all lookup_index_of_wasm (wi_lookup_index index);
  Ret ({|
    vi_domain := domain;
    vi_evals := evals;
    vi_w := Some (zk_w domain 3);
    vi_endo := index_endo;
    vi_max_poly_size := as_u32 (wi_max_poly_size index);
    vi_public := as_u32 (wi_public index);
    vi_prev_challenges := as_u32 (wi_prev_challenges index);
    vi_vanishing := Some (permutation_vanishing_polynomial domain 3);
    vi_shift := [s0 shifts; s1 shifts; s2 shifts; s3 shifts; s4 shifts; s5 shifts; s6 shifts];
    vi_srs := wi_srs index;
    vi_zk_rows := as_u64 (wi_zk_rows index);
    vi_linearization := linearization;
    vi_powers_of_alpha := powers_of_alpha;
    vi_lookup_index := li |}, wi_srs index).

Definition read_raw (fs : files) (offset : option Z) (srs : ptr) (path : string) : outcome VI :=
  ok_or (JsError "read_raw") (from_file fs srs path (as_u64 <$> offset) index_endo).
Definition caml_pasta_fp_plonk_verifier_index_read (fs : files) (offset : option Z) (srs : ptr) (path : string)
    : outcome WasmPlonkVerifierIndex :=
  vi ← read_raw fs offset srs path; to_wasm srs vi.
Definition caml_pasta_fp_plonk_verifier_index_write (overflow_checks : bool) (fs : files) (append : option bool)
    (index : WasmPlonkVerifierIndex) (path : string) : outcome files :=
  '(index, _) ← of_wasm overflow_checks index;
  ok_or (JsError "caml_pasta_fp_plonk_verifier_index_raw_read") (to_file fs index path append).
Definition caml_pasta_fp_plonk_verifier_index_create (st : store (SRS B))
    (index : ProverIndexView B S D Lin Alphas Vanish) : outcome WasmPlonkVerifierIndex * store (SRS B) :=
  let st := alter (fun s => add_lagrange_basis s (pi_d1 index)) (pi_srs index) st in
  (to_wasm (pi_srs index) (pi_verifier_index index), st).
Definition caml_pasta_fp_plonk_verifier_index_shifts (overflow_checks : bool) (log2_size : Z)
    : outcome WasmShifts :=
  n ← shl_one overflow_checks 32 log2_size;
  domain ← expect "called `Option::unwrap()` on a `None` value" (domain_new n);
  shifts_to_wasm (shifts_new domain).

Definition dummy_comm : WasmPolyComm :=
  let g := Curves.Wasm.wasm_of_affine generator in
  {| Curves.Wasm.shifted := None; Curves.Wasm.unshifted := [g] |}.
Definition caml_pasta_fp_plonk_verifier_index_dummy (st : store (SRS B))
    : WasmPlonkVerifierIndex * store (SRS B) :=
  let '(srs, st) := rc_new st (srs_create 0) in
  ({| wi_domain := {| wd_log_size_of_group := 1; wd_group_gen := fr_one |};
      wi_max_poly_size := 0; wi_public := 0; wi_prev_challenges := 0;
      wi_srs := srs;
      wi_evals := {| sigma_comm := replicate PERMUTS dummy_comm;
                     coefficients_comm := replicate COLUMNS dummy_comm;
                     generic_comm := dummy_comm; psm_comm := dummy_comm; complete_add_comm := dummy_comm;
                     mul_comm := dummy_comm; emul_comm := dummy_comm; endomul_scalar_comm := dummy_comm;
                     xor_comm := None; range_check0_comm := None; range_check1_comm := None;
                     foreign_field_add_comm := None; foreign_field_mul_comm := None; rot_comm := None |};
      wi_shifts := {| s0 := fr_one; s1 := fr_one; s2 := fr_one; s3 := fr_one; s4 := fr_one;
                      s5 := fr_one; s6 := fr_one |};
      wi_lookup_index := None;
      wi_zk_rows := 3 |}, st).
Definition caml_pasta_fp_plonk_verifier_index_deep_copy (x : WasmPlonkVerifierIndex) : WasmPlonkVerifierIndex := x.
End Wasm.
Arguments WasmPlonkVerifierIndex : clear implicits.
End Wasm.

(** ** Conversions that lose nothing *)

Lemma collect_map {A A'} (f : A -> A') (g : A' -> outcome A) l :
  (forall a, g (f a) = Ret a) -> collect g (map f l) = Ret l.
Proof. intros H. induction l as [|x l IH]; [done|]. cbn. by rewrite H, IH. Qed.
Lemma option_all_map {A A'} (f : A -> A') (g : A' -> outcome A) o :
  (forall a, g (f a) = Ret a) -> option_all g (f <$> o) = Ret o.
Proof. intros H. destruct o; [|done]. cbn. by rewrite H. Qed.
Lemma collect_selectors_map {A A'} (f : A -> A') (g : A' -> outcome A) s :
  (forall a, g (f a) = Ret a) -> collect_selectors g (map_selectors f s) = Ret s.
Proof.
  intros H. unfold collect_selectors, map_selectors. cbn [ls_xor ls_lookup ls_range_check ls_ffmul].
  rewrite !option_all_map by done. by destruct s.
Qed.
Lemma collect_lookup_index_map {A A' I I'} (f : A -> A') (g : A' -> outcome A) (fi : I -> I') (gi : I' -> I) li :
  (forall a, g (f a) = Ret a) -> gi (fi (lookup_info li)) = lookup_info li ->
  collect_lookup_index g gi (map_lookup_index f fi li) = Ret li.
Proof.
  intros H Hi. unfold collect_lookup_index, map_lookup_index.
  cbn [lookup_table lookup_selectors table_ids runtime_tables_selector joint_lookup_used lookup_info].
  rewrite collect_map, collect_selectors_map, !option_all_map, Hi by done. by destruct li.
Qed.
Lemma collect_evals_map {A A'} (f : A -> A') (g : A' -> outcome A) e :
  (forall a, g (f a) = Ret a) ->
  collect_evals g (map_evals f e) (sigma_comm e) (coefficients_comm e) = Ret e.
Proof.
  intros H. unfold collect_evals, map_evals.
  cbn [generic_comm psm_comm complete_add_comm mul_comm emul_comm endomul_scalar_comm xor_comm
       range_check0_comm range_check1_comm foreign_field_add_comm foreign_field_mul_comm rot_comm].
  rewrite !H, !option_all_map by done. by destruct e.
Qed.
Lemma expect_array_Ret {A} n msg (l : list A) : length l = n -> expect_array n msg l = Ret l.
Proof. intros H. unfold expect_array. by rewrite (proj2 (Nat.eqb_eq _ _) H). Qed.
(** Only the first [n] elements are used, and there must be that many. *)
Lemma array_init_collect {A A'} n (f : A -> outcome A') (l : list A) :
  (n <= length l)%nat -> array_init n f l = collect f (take n l).
Proof.
  unfold array_init. intros Hn.
  cut (forall k m, (k + m <= length l)%nat ->
    collect (fun i => a ← index l (Z.of_nat i); f a) (seq k m) = collect f (take m (drop k l))).
  { intros H. rewrite (H 0%nat n) by lia. done. }
  intros k m. revert k. induction m as [|m IH]; intros k Hk; [done|].
  destruct (lookup_lt_is_Some_2 l k) as [a Ha]; [lia|].
  cbn [seq collect]. rewrite (index_lookup l k a Ha), (drop_S l a k Ha), IH by lia. done.
Qed.
Lemma array_init_Ret {A A'} n (f : A -> outcome A') (l : list A) r :
  array_init n f l = Ret r -> (n <= length l)%nat.
Proof.
  unfold array_init. intros H. destruct n as [|n]; [lia|].
  apply collect_all in H. pose proof (Forall2_length _ _ _ H) as Hl. rewrite length_seq in Hl.
  destruct (lookup_lt_is_Some_2 r n) as [b Hb]; [lia|].
  destruct (Forall2_lookup_r _ _ _ _ _ H Hb) as (i & Hi & Hf).
  apply lookup_seq in Hi as [-> _].
  apply bind_is_Ret in Hf as (a & [_ Ha%lookup_lt_Some]%index_Ret & _). lia.
Qed.
Lemma array_init_map {A A'} n (f : A -> A') (g : A' -> outcome A) l :
  (forall a, g (f a) = Ret a) -> length l = n -> array_init n g (map f l) = Ret l.
Proof.
  intros H <-. rewrite array_init_collect by (by rewrite length_map).
  rewrite take_ge by (by rewrite length_map). by apply collect_map.
Qed.

Lemma shl_small oc w n : 0 <= n < w -> shl_one oc w n = Ret (2 ^ n).
Proof.
  intros H. unfold shl_one. by rewrite (proj2 (Z.leb_le _ _)), (proj2 (Z.ltb_lt _ _)) by lia.
Qed.

(** ** Properties *)

Section Properties.
Context {B S D P Lin Alphas Vanish : Type}.
Context {O : SrsOps B S D} {K : Kimchi B S D Lin Alphas Vanish}.
Abbreviation VI := (VerifierIndex B S D Lin Alphas Vanish).
Context (pc_to_caml : PolyComm B -> Stubs.CamlPolyComm B).
Context (pc_of_caml : Stubs.CamlPolyComm B -> outcome (PolyComm B)).

(** An index of arrays of the right size whose numbers fit the signed words of
    the [w]-bit client and whose domain is the one of its logarithm. *)
Record vi_ok (w : Z) (vi : VI) : Prop := {
  ok_sigma : length (sigma_comm (vi_evals vi)) = PERMUTS;
  ok_coefficients : length (coefficients_comm (vi_evals vi)) = COLUMNS;
  ok_shift : length (vi_shift vi) = PERMUTS;
  ok_log : 0 <= log_size_of_group (vi_domain vi) < w;
  ok_domain : domain_new (2 ^ log_size_of_group (vi_domain vi)) = Some (vi_domain vi);
  ok_max_poly_size : 0 <= vi_max_poly_size vi < 2 ^ (w - 1);
  ok_public : 0 <= vi_public vi < 2 ^ (w - 1);
  ok_prev : 0 <= vi_prev_challenges vi < 2 ^ (w - 1);
  ok_zk_rows : 0 <= vi_zk_rows vi < 2 ^ (w - 1);
  ok_info li : vi_lookup_index vi = Some li ->
    0 <= max_per_row (lookup_info li) < 2 ^ 63 /\ 0 <= max_joint_size (lookup_info li) < 2 ^ 32;
}.

(** The index with the fields the clients do not carry computed again, for the
    given feature flags and number of zero-knowledge rows. *)
Definition recompute (flags : FeatureFlags) (zk : Z) (vi : VI) : VI := {|
  vi_domain := vi_domain vi; vi_max_poly_size := vi_max_poly_size vi; vi_public := vi_public vi;
  vi_prev_challenges := vi_prev_challenges vi; vi_srs := vi_srs vi; vi_evals := vi_evals vi;
  vi_shift := vi_shift vi;
  vi_vanishing := Some (permutation_vanishing_polynomial (vi_domain vi) zk);
  vi_w := Some (zk_w (vi_domain vi) zk);
  vi_endo := index_endo;
  vi_lookup_index := vi_lookup_index vi;
  vi_linearization := fst (expr_linearization flags true);
  vi_powers_of_alpha := snd (expr_linearization flags true);
  vi_zk_rows := vi_zk_rows vi |}.
(** The flags kimchi derives from an index: the gates present, and the features
    of its lookup index. *)
Definition vi_flags (vi : VI) : FeatureFlags :=
  let e := vi_evals vi in {|
  ff_range_check0 := is_some (range_check0_comm e); ff_range_check1 := is_some (range_check1_comm e);
  ff_foreign_field_add := is_some (foreign_field_add_comm e);
  ff_foreign_field_mul := is_some (foreign_field_mul_comm e);
  ff_xor := is_some (xor_comm e); ff_rot := is_some (rot_comm e);
  lookup_features := match vi_lookup_index vi with
                     | Some li => features (lookup_info li)
                     | None => Stubs.no_lookups
                     end |}.

Lemma is_some_fmap {A A'} (f : A -> A') (o : option A) : is_some (f <$> o) = is_some o.
Proof. by destruct o. Qed.
Lemma caml_flags vi :
  Stubs.feature_flags (map_evals pc_to_caml (vi_evals vi))
    (Stubs.caml_of_lookup_index pc_to_caml <$> vi_lookup_index vi) = vi_flags vi.
Proof.
  unfold Stubs.feature_flags, vi_flags. cbn. rewrite !is_some_fmap. by destruct (vi_lookup_index vi).
Qed.
Lemma cast_back w u z :
  0 < w -> w <= u -> 0 <= z < 2 ^ (w - 1) -> as_u u (as_i w z) = z.
Proof.
  intros Hw Hu Hz. rewrite as_i_id by lia. apply as_u_id.
  assert (2 ^ (w - 1) <= 2 ^ u) by (apply Z.pow_le_mono_r; lia). lia.
Qed.

Lemma vi_of_of_caml oc (vi : VI) :
  (forall c, pc_of_caml (pc_to_caml c) = Ret c) -> vi_ok 64 vi ->
  Stubs.vi_of_caml pc_of_caml oc (Stubs.caml_of_vi pc_to_caml vi)
    = Ret (recompute (vi_flags vi) (vi_zk_rows vi) vi).
Proof.
  intros Hpc Hok. unfold Stubs.vi_of_caml. cbn [Stubs.caml_of_vi Stubs.ci_domain Stubs.ci_evals Stubs.ci_shifts
    Stubs.ci_lookup_index Stubs.caml_log_size_of_group Stubs.ci_max_poly_size Stubs.ci_public
    Stubs.ci_prev_challenges Stubs.ci_zk_rows Stubs.ci_srs].
  pose proof (ok_log _ _ Hok) as Hlog. rewrite (as_i_id 64 (log_size_of_group (vi_domain vi))) by lia.
  rewrite shl_small by done. cbn [mbind outcome_bind]. rewrite (ok_domain _ _ Hok).
  cbn [expect mbind outcome_bind]. cbn [map_evals coefficients_comm sigma_comm].
  rewrite !collect_map by done. cbn [mbind outcome_bind].
  rewrite !expect_array_Ret by apply Hok. cbn [mbind outcome_bind].
  change (Build_PlonkVerificationEvals (map pc_to_caml (sigma_comm (vi_evals vi))) _ _ _ _ _ _ _ _ _ _ _ _ _)
    with (map_evals pc_to_caml (vi_evals vi)).
  rewrite caml_flags. destruct (expr_linearization (vi_flags vi) true) as [lin al] eqn:El.
  rewrite collect_evals_map by done. cbn [mbind outcome_bind].
  assert (option_all (Stubs.lookup_index_of_caml pc_of_caml)
            (Stubs.caml_of_lookup_index pc_to_caml <$> vi_lookup_index vi) = Ret (vi_lookup_index vi)) as ->.
  { destruct (vi_lookup_index vi) as [li|] eqn:Eli; [|done].
    cbn [option_all fmap option_fmap option_map].
    unfold Stubs.lookup_index_of_caml, Stubs.caml_of_lookup_index.
    rewrite collect_lookup_index_map; [done|done|].
    destruct (ok_info _ _ Hok li Eli) as [H1 H2].
    unfold Stubs.lookup_info_of_caml, Stubs.caml_of_lookup_info. cbn.
    rewrite cast_back by lia. rewrite (as_i_id 64), as_u_id by lia. by destruct (lookup_info li). }
  cbn [mbind outcome_bind]. unfold recompute. rewrite El. cbn [fst snd].
  pose proof (ok_max_poly_size _ _ Hok). pose proof (ok_public _ _ Hok).
  pose proof (ok_prev _ _ Hok). pose proof (ok_zk_rows _ _ Hok).
  by rewrite !cast_back by lia.
Qed.

(** A verifier index survives the trip to OCaml and back: the conversion to
    OCaml and back succeeds on every index of the right shape and gives the
    index with the derived fields - the vanishing polynomial, [w], the endo
    coefficient and the linearization - computed again for the index's own
    flags and zero-knowledge rows; so an index whose derived fields are those
    comes back identical. *)
Theorem caml_verifier_index_roundtrip oc (vi : VI) :
  (forall c, pc_of_caml (pc_to_caml c) = Ret c) -> vi_ok 64 vi ->
  Stubs.vi_of_caml pc_of_caml oc (Stubs.caml_of_vi pc_to_caml vi)
    = Ret (recompute (vi_flags vi) (vi_zk_rows vi) vi) /\
  (vi = recompute (vi_flags vi) (vi_zk_rows vi) vi ->
     Stubs.vi_of_caml pc_of_caml oc (Stubs.caml_of_vi pc_to_caml vi) = Ret vi) /\
  (forall vi', Stubs.vi_of_caml pc_of_caml oc (Stubs.caml_of_vi pc_to_caml vi) = Ret vi' ->
     Stubs.caml_of_vi pc_to_caml vi' = Stubs.caml_of_vi pc_to_caml vi).
Proof.
  intros Hpc Hok. rewrite (vi_of_of_caml oc vi Hpc Hok).
  split; [done|]. split; [by intros <-|]. by intros vi' [= <-].
Qed.

(** The flags the JavaScript side derives: the lookup patterns from the gates
    present, and never runtime tables. *)
Definition wasm_flags (vi : VI) : FeatureFlags :=
  let e := vi_evals vi in
  let p := {|
    lp_xor := is_some (xor_comm e);
    lp_lookup := match vi_lookup_index vi with
                 | Some li => lp_lookup (patterns (features (lookup_info li)))
                 | None => false
                 end;
    lp_range_check := is_some (range_check0_comm e) || is_some (range_check1_comm e) || is_some (rot_comm e);
    lp_foreign_field_mul := is_some (foreign_field_mul_comm e) |} in {|
  ff_range_check0 := is_some (range_check0_comm e); ff_range_check1 := is_some (range_check1_comm e);
  ff_foreign_field_add := is_some (foreign_field_add_comm e);
  ff_foreign_field_mul := is_some (foreign_field_mul_comm e);
  ff_xor := is_some (xor_comm e); ff_rot := is_some (rot_comm e);
  lookup_features := {| patterns := p; lf_joint_lookup_used := joint_lookups_used p;
                        uses_runtime_tables := false |} |}.

Lemma poly_comm_of_of_wasm (c : PolyComm B) :
  Curves.Wasm.poly_comm_of_wasm (Curves.Wasm.wasm_of_poly_comm c) = Ret c.
Proof. unfold Curves.Wasm.poly_comm_of_wasm. cbn. by rewrite map_affine_of_of_wasm. Qed.

Lemma shifts_to_wasm_seven (l : list S) :
  length l = PERMUTS -> exists w, Wasm.shifts_to_wasm l = Ret w /\
    [Wasm.s0 w; Wasm.s1 w; Wasm.s2 w; Wasm.s3 w; Wasm.s4 w; Wasm.s5 w; Wasm.s6 w] = l.
Proof.
  intros H. do 8 (destruct l as [|? l]; [try (by inversion H)|]); [|by inversion H].
  by eexists.
Qed.

Lemma of_to_wasm oc (vi : VI) :
  vi_ok 32 vi ->
  exists index, Wasm.to_wasm (vi_srs vi) vi = Ret index /\
    Wasm.of_wasm oc index = Ret (recompute (wasm_flags vi) 3 vi, vi_srs vi).
Proof.
  intros Hok. destruct (shifts_to_wasm_seven (vi_shift vi) (ok_shift _ _ Hok)) as (sh & Hsh & Esh).
  unfold Wasm.to_wasm. rewrite Hsh. cbn [mbind outcome_bind]. eexists. split; [reflexivity|].
  unfold Wasm.of_wasm. cbn [Wasm.wi_domain Wasm.wi_evals Wasm.wi_shifts Wasm.wi_lookup_index
    Wasm.wd_log_size_of_group Wasm.wi_max_poly_size Wasm.wi_public Wasm.wi_prev_challenges
    Wasm.wi_zk_rows Wasm.wi_srs].
  pose proof (ok_log _ _ Hok) as Hlog. rewrite (as_i_id 32 (log_size_of_group (vi_domain vi))) by lia.
  rewrite shl_small by done. cbn [mbind outcome_bind]. rewrite (ok_domain _ _ Hok).
  cbn [expect mbind outcome_bind].
  match goal with |- context [Wasm.compute_feature_flags ?i] =>
    assert (Wasm.compute_feature_flags i = wasm_flags vi) as -> end.
  { unfold Wasm.compute_feature_flags, wasm_flags. cbn. rewrite !is_some_fmap.
    by destruct (vi_lookup_index vi). }
  destruct (expr_linearization (wasm_flags vi) true) as [lin al] eqn:El.
  cbn [map_evals coefficients_comm sigma_comm].
  rewrite !array_init_map by (apply poly_comm_of_of_wasm || apply Hok). cbn [mbind outcome_bind].
  change (Build_PlonkVerificationEvals (map ?f (sigma_comm (vi_evals vi))) _ _ _ _ _ _ _ _ _ _ _ _ _)
    with (map_evals f (vi_evals vi)).
  rewrite collect_evals_map by apply poly_comm_of_of_wasm. cbn [mbind outcome_bind].
  assert (option_all Wasm.lookup_index_of_wasm
            (Wasm.wasm_of_lookup_index <$> vi_lookup_index vi) = Ret (vi_lookup_index vi)) as ->.
  { destruct (vi_lookup_index vi) as [li|] eqn:Eli; [|done].
    cbn [option_all fmap option_fmap option_map].
    unfold Wasm.lookup_index_of_wasm, Wasm.wasm_of_lookup_index.
    by rewrite collect_lookup_index_map by (done || apply poly_comm_of_of_wasm). }
  cbn [mbind outcome_bind]. unfold recompute. rewrite El, Esh. cbn [fst snd].
  pose proof (ok_max_poly_size _ _ Hok). pose proof (ok_public _ _ Hok).
  pose proof (ok_prev _ _ Hok). pose proof (ok_zk_rows _ _ Hok).
  by rewrite !cast_back by lia.
Qed.

(** A verifier index that crosses to JavaScript and back has its derived
    fields computed for three zero-knowledge rows, whatever the index says, and
    for flags that never have runtime tables and take the lookup patterns from
    the gates present. It comes back identical exactly when those agree with the
    index: three rows and the same flags are enough, and an index that uses
    runtime tables gets other flags than it has on the OCaml side. *)
Theorem wasm_verifier_index_roundtrip oc (vi : VI) :
  vi_ok 32 vi ->
  exists index, Wasm.to_wasm (vi_srs vi) vi = Ret index /\
    Wasm.of_wasm oc index = Ret (recompute (wasm_flags vi) 3 vi, vi_srs vi) /\
    (vi_zk_rows vi = 3 -> wasm_flags vi = vi_flags vi ->
       vi = recompute (vi_flags vi) (vi_zk_rows vi) vi ->
       Wasm.of_wasm oc index = Ret (vi, vi_srs vi)) /\
    (forall li, vi_lookup_index vi = Some li ->
       uses_runtime_tables (features (lookup_info li)) = true -> wasm_flags vi <> vi_flags vi).
Proof.
  intros Hok. destruct (of_to_wasm oc vi Hok) as (index & Hi & E). exists index.
  split; [done|]. split; [done|]. split.
  - intros Hz Hf Hv. by rewrite E, Hf, <-Hz, <-Hv.
  - intros li Hli Hr Heq. apply (f_equal (fun f => uses_runtime_tables (lookup_features f))) in Heq.
    unfold vi_flags, wasm_flags in Heq. cbn in Heq. rewrite Hli, Hr in Heq. done.
Qed.

(** Sizes. The OCaml conversion accepts an index only with exactly seven
    permutation commitments, fifteen coefficient commitments and seven shifts;
    the JavaScript one needs at least that many commitments and ignores the
    others. The dummy index of the JavaScript side converts; the one of the
    OCaml side, which has six shifts, panics whenever its commitments
    convert. *)
Theorem verifier_index_sizes oc (c : Stubs.CamlPlonkVerifierIndex B S) (w : Wasm.WasmPlonkVerifierIndex B S)
    (st : store (SRS B)) (d : D) :
  domain_new 2 = Some d ->
  (is_ret (Stubs.vi_of_caml (K := K) pc_of_caml oc c) = true ->
     length (sigma_comm (Stubs.ci_evals c)) = 7%nat /\
     length (coefficients_comm (Stubs.ci_evals c)) = 15%nat /\ length (Stubs.ci_shifts c) = 7%nat) /\
  (is_ret (Wasm.of_wasm (K := K) oc w) = true ->
     (7 <= length (sigma_comm (Wasm.wi_evals w)))%nat /\
     (15 <= length (coefficients_comm (Wasm.wi_evals w)))%nat) /\
  (is_ret (pc_of_caml Stubs.dummy_comm) = true ->
     is_panic (Stubs.vi_of_caml (K := K) pc_of_caml oc
                 (fst (Stubs.caml_pasta_fp_plonk_verifier_index_dummy (K := K) st))) = true) /\
  is_ret (Wasm.of_wasm (K := K) oc (fst (Wasm.caml_pasta_fp_plonk_verifier_index_dummy (K := K) st))) = true.
Proof.
  intros Hd. split; [|split; [|split]].
  - destruct (Stubs.vi_of_caml pc_of_caml oc c) as [vi| |] eqn:E; [|done..]. intros _.
    unfold Stubs.vi_of_caml in E.
    apply bind_is_Ret in E as (n & _ & E). apply bind_is_Ret in E as (dm & _ & E).
    apply bind_is_Ret in E as (co & Hco & E). apply bind_is_Ret in E as (co' & Hco' & E).
    apply bind_is_Ret in E as (sg & Hsg & E). apply bind_is_Ret in E as (sg' & Hsg' & E).
    apply bind_is_Ret in E as (sh & Hsh & _).
    apply collect_length in Hco, Hsg. unfold expect_array, PERMUTS, COLUMNS in *.
    destruct (Nat.eqb_spec (length co) 15), (Nat.eqb_spec (length sg) 7),
      (Nat.eqb_spec (length (Stubs.ci_shifts c)) 7); try done. lia.
  - destruct (Wasm.of_wasm oc w) as [vi| |] eqn:E; [|done..]. intros _.
    unfold Wasm.of_wasm in E.
    apply bind_is_Ret in E as (n & _ & E). apply bind_is_Ret in E as (dm & _ & E).
    destruct (expr_linearization _ _) in E.
    apply bind_is_Ret in E as (sg & Hsg & E). apply bind_is_Ret in E as (co & Hco & _).
    apply array_init_Ret in Hsg, Hco. done.
  - destruct (pc_of_caml Stubs.dummy_comm) as [pc| |] eqn:Epc; [|done..]. intros _.
    unfold Stubs.caml_pasta_fp_plonk_verifier_index_dummy. destruct (rc_new st (srs_create 0)) as [p st'].
    unfold Stubs.vi_of_caml. cbn [fst Stubs.ci_domain Stubs.caml_log_size_of_group Stubs.ci_evals
      Stubs.ci_shifts coefficients_comm sigma_comm].
    rewrite shl_small by lia. change (2 ^ 1) with 2. cbn [mbind outcome_bind]. rewrite Hd.
    cbn [expect mbind outcome_bind]. unfold COLUMNS, PERMUTS. cbn [replicate collect].
    rewrite Epc. done.
  - unfold Wasm.caml_pasta_fp_plonk_verifier_index_dummy. destruct (rc_new st (srs_create 0)) as [p st'].
    unfold Wasm.of_wasm. cbn [fst Wasm.wi_domain Wasm.wd_log_size_of_group Wasm.wi_evals].
    rewrite shl_small by lia. change (2 ^ 1) with 2. cbn [mbind outcome_bind]. rewrite Hd.
    cbn [expect mbind outcome_bind]. by destruct (expr_linearization _ _).
Qed.
End Properties.

(** ** Witnesses, over points without coordinates *)

#[local] Instance demo_kimchi : Kimchi unit Z N FeatureFlags bool (N * Z) := {|
  log_size_of_group d := Z.log2 (Z.of_N d);
  group_gen d := Z.of_N d;
  index_endo := 11;
  zk_w d zk := Z.of_N d - zk;
  permutation_vanishing_polynomial d zk := (d, zk);
  expr_linearization flags b := (flags, b);
  joint_lookups_used p := lp_lookup p;
  shifts_new d := [1; 2; 3; 4; 5; 6; 7];
  fr_one := 1;
  generator := u_point false;
  from_file _ _ _ _ _ := None;
  to_file _ _ _ _ := None;
|}.
Definition demo_to_caml (c : PolyComm unit) : Stubs.CamlPolyComm unit :=
  {| Stubs.unshifted := map Curves.Stubs.caml_of_affine c; Stubs.shifted := None |}.
Definition demo_of_caml (c : Stubs.CamlPolyComm unit) : outcome (PolyComm unit) :=
  match Stubs.shifted c with
  | None => Ret (map (fun g => match g with
                               | Curves.Stubs.Infinity => u_point true
                               | Curves.Stubs.Finite _ => u_point false
                               end) (Stubs.unshifted c))
  | Some _ => Panic "shifted"
  end.
Lemma demo_of_to_caml c : demo_of_caml (demo_to_caml c) = Ret c.
Proof.
  unfold demo_of_caml, demo_to_caml. cbn. rewrite map_map. f_equal.
  rewrite <-(map_id c) at 2. apply map_ext. by intros [[] [] []].
Qed.

Definition demo_evals : PlonkVerificationEvals (PolyComm unit) :=
  let c := [u_point false] in
  {| sigma_comm := replicate 7 c; coefficients_comm := replicate 15 c; generic_comm := c; psm_comm := c;
     complete_add_comm := c; mul_comm := c; emul_comm := c; endomul_scalar_comm := c;
     xor_comm := None; range_check0_comm := Some c; range_check1_comm := None;
     foreign_field_add_comm := None; foreign_field_mul_comm := None; rot_comm := None |}.
Definition demo_li : LookupVerifierIndex (PolyComm unit) LookupInfo :=
  {| joint_lookup_used := false; lookup_table := [[u_point true]];
     lookup_selectors := Build_LookupSelectors None None None None; table_ids := None;
     lookup_info := {| max_per_row := 4; max_joint_size := 2;
                       features := {| patterns := {| lp_xor := false; lp_lookup := true;
                                        lp_range_check := true; lp_foreign_field_mul := false |};
                                      lf_joint_lookup_used := false; uses_runtime_tables := true |} |};
     runtime_tables_selector := None |}.
(** A domain of 4, five zero-knowledge rows, runtime tables. *)
Definition demo_raw : VerifierIndex unit Z N FeatureFlags bool (N * Z) :=
  {| vi_domain := 4%N; vi_max_poly_size := 8; vi_public := 1; vi_prev_challenges := 0;
     vi_srs := 1%positive; vi_evals := demo_evals; vi_shift := [1; 2; 3; 4; 5; 6; 7];
     vi_vanishing := None; vi_w := None; vi_endo := 0; vi_lookup_index := Some demo_li;
     vi_linearization := Stubs.feature_flags demo_evals None; vi_powers_of_alpha := true;
     vi_zk_rows := 5 |}.
Definition demo_vi := recompute (vi_flags demo_raw) 5 demo_raw.

Lemma demo_vi_ok w : w = 32 \/ w = 64 -> vi_ok (O := demo_srs) (K := demo_kimchi) w demo_vi.
Proof.
  intros Hw. assert (2 ^ 31 <= 2 ^ (w - 1)) as Hp by (apply Z.pow_le_mono_r; lia).
  apply Build_vi_ok; cbn [demo_vi demo_raw recompute vi_evals vi_shift vi_domain vi_max_poly_size
    vi_public vi_prev_challenges vi_zk_rows vi_lookup_index demo_evals sigma_comm coefficients_comm].
  - reflexivity.
  - reflexivity.
  - reflexivity.
  - change (log_size_of_group 4%N) with 2. lia.
  - vm_compute. reflexivity.
  - lia.
  - lia.
  - lia.
  - lia.
  - intros li [= <-]. cbn. lia.
Qed.

Lemma caml_verifier_index_roundtrip_witness :
  Stubs.vi_of_caml (O := demo_srs) (K := demo_kimchi) demo_of_caml true
    (Stubs.caml_of_vi (K := demo_kimchi) demo_to_caml demo_vi) = Ret demo_vi.
Proof.
  apply (caml_verifier_index_roundtrip (O := demo_srs) (K := demo_kimchi) demo_to_caml demo_of_caml true demo_vi
           demo_of_to_caml (demo_vi_ok 64 ltac:(by right))).
  reflexivity.
Defined.

Lemma wasm_verifier_index_roundtrip_witness :
  exists index vi', Wasm.to_wasm (K := demo_kimchi) 1%positive demo_vi = Ret index /\
    Wasm.of_wasm (O := demo_srs) (K := demo_kimchi) true index = Ret (vi', 1%positive) /\
    vi_w demo_vi = Some (-1) /\ vi_w vi' = Some 1.
Proof.
  destruct (wasm_verifier_index_roundtrip (O := demo_srs) (K := demo_kimchi) true demo_vi
              (demo_vi_ok 32 ltac:(by left))) as (index & H1 & H2 & _).
  eexists index, _. split; [exact H1|]. split; [exact H2|]. split; reflexivity.
Defined.

Lemma verifier_index_sizes_witness :
  let c := fst (Stubs.caml_pasta_fp_plonk_verifier_index_dummy (O := demo_srs) (K := demo_kimchi) ∅) in
  is_panic (Stubs.vi_of_caml (O := demo_srs) (K := demo_kimchi) demo_of_caml true c) = true.
Proof.
  intros c.
  destruct (verifier_index_sizes (O := demo_srs) (K := demo_kimchi) demo_of_caml true c
              (fst (Wasm.caml_pasta_fp_plonk_verifier_index_dummy (O := demo_srs) (K := demo_kimchi) ∅)) ∅ 2%N)
    as (_ & _ & H & _); [reflexivity|].
  apply H. reflexivity.
Defined.
