(* ===== verification/IndexFiles.v ===== *)
(** * Verifier indexes on disk

    Writing and reading verifier indexes ([Stubs] and [Wasm] of [VerifierIndex])
    composed with the conversions: what either target writes, both read back.
    [IndexFileLaws] states what kimchi documents of [to_file] and [from_file]:
    asked to append, an index goes after the content that is there, its derived
    fields are not stored, and reading at that offset gives the stored fields
    with the reference string of the reader. *)

From Stdlib Require Import ZArith Lia.
From stdpp Require Import base list strings gmap.
From S2P Require Import Prelude Crates Reference FieldVector Curves Srs VerifierIndex.

Section Laws.
Context {B S D Lin Alphas Vanish : Type}.
Abbreviation VI := (VerifierIndex B S D Lin Alphas Vanish).

(** The fields that serde writes. *)
Definition stored (vi : VI) :=
  (vi_domain vi, vi_max_poly_size vi, vi_public vi, vi_prev_challenges vi, vi_evals vi,
   vi_shift vi, vi_lookup_index vi, vi_zk_rows vi).

Class IndexFileLaws (K : Kimchi B S D Lin Alphas Vanish) : Prop := {
  to_file_appends fs vi path fs' : to_file fs vi path (Some true) = Some fs' ->
    let content := default [] (fs !! path) in
    exists bytes, fs' = <[path := content ++ bytes]> fs /\
      forall tail p, exists vi',
        from_file (<[path := content ++ bytes ++ tail]> fs) p path
          (Some (Z.of_nat (length content))) index_endo = Some vi' /\
        stored vi' = stored vi /\ vi_srs vi' = p;
}.
End Laws.

Section Files.
Context {B S D P Lin Alphas Vanish : Type}.
Context {O : SrsOps B S D} {K : Kimchi B S D Lin Alphas Vanish} {FL : IndexFileLaws K}.
Abbreviation VI := (VerifierIndex B S D Lin Alphas Vanish).
Context (pc_to_caml : PolyComm B -> Stubs.CamlPolyComm B).
Context (pc_of_caml : Stubs.CamlPolyComm B -> outcome (PolyComm B)).
Context (pc_ok : forall c, pc_of_caml (pc_to_caml c) = Ret c).

(** An OCaml index at another reference string. *)
Definition at_srs (p : ptr) (c : Stubs.CamlPlonkVerifierIndex B S) : Stubs.CamlPlonkVerifierIndex B S := {|
  Stubs.ci_domain := Stubs.ci_domain c; Stubs.ci_max_poly_size := Stubs.ci_max_poly_size c;
  Stubs.ci_public := Stubs.ci_public c; Stubs.ci_prev_challenges := Stubs.ci_prev_challenges c;
  Stubs.ci_srs := p; Stubs.ci_evals := Stubs.ci_evals c; Stubs.ci_shifts := Stubs.ci_shifts c;
  Stubs.ci_lookup_index := Stubs.ci_lookup_index c; Stubs.ci_zk_rows := Stubs.ci_zk_rows c |}.

(** The clients see the stored fields and the reference string, no more. *)
Lemma caml_of_stored (a b : VI) : stored a = stored b ->
  Stubs.caml_of_vi pc_to_caml a = at_srs (vi_srs a) (Stubs.caml_of_vi pc_to_caml b).
Proof. destruct a, b. cbn. intros [= -> -> -> -> -> -> -> ->]. done. Qed.
Lemma wasm_of_stored (a b : VI) p : stored a = stored b -> Wasm.to_wasm p a = Wasm.to_wasm p b.
Proof. destruct a, b. cbn. intros [= -> -> -> -> -> -> -> ->]. done. Qed.
Lemma recompute_stored flags zk (vi : VI) : stored (recompute flags zk vi) = stored vi.
Proof. done. Qed.

Lemma vi_ok_wider (vi : VI) : vi_ok (O := O) (K := K) 32 vi -> vi_ok (O := O) (K := K) 64 vi.
Proof.
  intros [H1 H2 H3 H4 H5 H6 H7 H8 H9 H10]. split; try done; cbn in *; lia.
Qed.

(** Two indexes written one after the other, read at their places by both. *)
Lemma read_back fs fs' (vi vi' : VI) path tail p :
  to_file fs vi' path (Some true) = Some fs' -> stored vi' = stored vi ->
  length (vi_shift vi) = PERMUTS ->
  let content := default [] (fs !! path) in
  exists bytes, fs' = <[path := content ++ bytes]> fs /\
    (Z.of_nat (length content) < 2 ^ 31 ->
     let at_place := Some (Z.of_nat (length content)) in
     let later := <[path := content ++ bytes ++ tail]> fs in
     Stubs.caml_pasta_fp_plonk_verifier_index_read pc_to_caml later at_place p path
       = Ret (at_srs p (Stubs.caml_of_vi pc_to_caml vi)) /\
     exists w, Wasm.to_wasm p vi = Ret w /\
       Wasm.caml_pasta_fp_plonk_verifier_index_read later at_place p path = Ret w).
Proof.
  intros Hw Hst Hsh content. destruct (to_file_appends _ _ _ _ Hw) as (bytes & -> & Hr).
  fold content in Hr. exists bytes. split; [done|]. intros Hl.
  destruct (Hr tail p) as (r & Hrd & Hsr & Hp). cbv zeta.
  unfold Stubs.caml_pasta_fp_plonk_verifier_index_read, Wasm.caml_pasta_fp_plonk_verifier_index_read,
    Stubs.read_raw, Wasm.read_raw.
  cbn [fmap option_fmap option_map]. rewrite !as_u_id by lia. rewrite Hrd. cbn [ok_or mbind outcome_bind].
  rewrite (caml_of_stored r vi) by congruence. rewrite Hp. split; [done|].
  rewrite (wasm_of_stored r vi) by congruence.
  destruct (shifts_to_wasm_seven (vi_shift vi) Hsh) as (sh & E & _).
  unfold Wasm.to_wasm. rewrite E. cbn [mbind outcome_bind]. by eexists.
Qed.

(** C29: verifier indexes on disk.  When either target appends an index that both
    can represent, the file keeps its content; and reading at the place where it
    was written, after anything else was appended, gives on the OCaml side exactly
    the index that was written and on the JavaScript side exactly its JavaScript
    form, each at the reference string of the reader: the targets read each
    other's files, although JavaScript writes other derived fields. *)
Theorem verifier_index_files oc fs fs' (vi : VI) path tail p :
  vi_ok (O := O) (K := K) 32 vi ->
  (Stubs.caml_pasta_fp_plonk_verifier_index_write pc_of_caml oc fs (Some true)
     (Stubs.caml_of_vi pc_to_caml vi) path = Ret fs' \/
   exists w, Wasm.to_wasm (vi_srs vi) vi = Ret w /\
     Wasm.caml_pasta_fp_plonk_verifier_index_write oc fs (Some true) w path = Ret fs') ->
  let content := default [] (fs !! path) in
  exists bytes, fs' = <[path := content ++ bytes]> fs /\
    (Z.of_nat (length content) < 2 ^ 31 ->
     let at_place := Some (Z.of_nat (length content)) in
     let later := <[path := content ++ bytes ++ tail]> fs in
     Stubs.caml_pasta_fp_plonk_verifier_index_read pc_to_caml later at_place p path
       = Ret (at_srs p (Stubs.caml_of_vi pc_to_caml vi)) /\
     exists w, Wasm.to_wasm p vi = Ret w /\
       Wasm.caml_pasta_fp_plonk_verifier_index_read later at_place p path = Ret w).
Proof.
  intros Hok Hw.
  assert (exists vi', to_file fs vi' path (Some true) = Some fs' /\ stored vi' = stored vi) as (vi' & Ht & Hst).
  { destruct Hw as [Hw|(w & Ew & Hw)].
    - unfold Stubs.caml_pasta_fp_plonk_verifier_index_write in Hw.
      rewrite (vi_of_of_caml pc_to_caml pc_of_caml oc vi pc_ok (vi_ok_wider vi Hok)) in Hw.
      cbn [mbind outcome_bind] in Hw. destruct (to_file _ _ _ _) as [f|] eqn:E; [|done].
      injection Hw as ->. eexists. split; [exact E|]. apply recompute_stored.
    - destruct (of_to_wasm oc vi Hok) as (w' & Ew' & Eof). assert (w' = w) as -> by congruence.
      unfold Wasm.caml_pasta_fp_plonk_verifier_index_write in Hw. rewrite Eof in Hw.
      cbn [mbind outcome_bind] in Hw. destruct (to_file _ _ _ _) as [f|] eqn:E; [|done].
      injection Hw as ->. eexists. split; [exact E|]. apply recompute_stored. }
  apply (read_back fs fs' vi vi' path tail p Ht Hst (ok_shift _ _ Hok)).
Qed.
End Files.

(** ** A witness: files that hold one index *)

#[export] Instance point_eq_dec : EqDecision (GroupAffine unit).
Proof. solve_decision. Defined.
#[export] Instance evals_eq_dec : EqDecision (PlonkVerificationEvals (PolyComm unit)).
Proof. solve_decision. Defined.
#[export] Instance patterns_eq_dec : EqDecision LookupPatterns.
Proof. solve_decision. Defined.
#[export] Instance features_eq_dec : EqDecision LookupFeatures.
Proof. solve_decision. Defined.
#[export] Instance info_eq_dec : EqDecision LookupInfo.
Proof. solve_decision. Defined.
#[export] Instance selectors_eq_dec : EqDecision (LookupSelectors (PolyComm unit)).
Proof. solve_decision. Defined.
#[export] Instance lookup_index_eq_dec : EqDecision (LookupVerifierIndex (PolyComm unit) LookupInfo).
Proof. solve_decision. Defined.

Definition at_pointer (p : ptr) (vi : VerifierIndex unit Z N FeatureFlags bool (N * Z))
    : VerifierIndex unit Z N FeatureFlags bool (N * Z) :=
  {| vi_domain := vi_domain vi; vi_max_poly_size := vi_max_poly_size vi; vi_public := vi_public vi;
     vi_prev_challenges := vi_prev_challenges vi; vi_srs := p; vi_evals := vi_evals vi;
     vi_shift := vi_shift vi; vi_vanishing := None; vi_w := None; vi_endo := vi_endo vi;
     vi_lookup_index := vi_lookup_index vi; vi_linearization := vi_linearization vi;
     vi_powers_of_alpha := vi_powers_of_alpha vi; vi_zk_rows := vi_zk_rows vi |}.

(** A file is a list of bytes; the byte [x01] stands for the index of the demo. *)
#[local] Instance file_kimchi : Kimchi unit Z N FeatureFlags bool (N * Z) := {|
  log_size_of_group := log_size_of_group (Kimchi := demo_kimchi);
  group_gen := group_gen (Kimchi := demo_kimchi);
  index_endo := index_endo (Kimchi := demo_kimchi);
  zk_w := zk_w (Kimchi := demo_kimchi);
  permutation_vanishing_polynomial := permutation_vanishing_polynomial (Kimchi := demo_kimchi);
  expr_linearization := expr_linearization (Kimchi := demo_kimchi);
  joint_lookups_used := joint_lookups_used (Kimchi := demo_kimchi);
  shifts_new := shifts_new (Kimchi := demo_kimchi);
  fr_one := fr_one (Kimchi := demo_kimchi);
  generator := generator (Kimchi := demo_kimchi);
  from_file fs p path offset endo :=
    content ← fs !! path;
    byte ← content !! Z.to_nat (default 0 offset);
    if Byte.eqb byte Byte.x01 then Some (at_pointer p demo_vi) else None;
  to_file fs vi path append :=
    let content := if decide (append = Some false) then [] else default [] (fs !! path) in
    if decide (stored vi = stored demo_vi) then Some (<[path := content ++ [Byte.x01]]> fs) else None;
|}.

#[local] Instance file_laws : IndexFileLaws file_kimchi.
Proof.
  split. intros fs vi path fs' H content. unfold to_file, file_kimchi in H.
  destruct (decide (stored vi = stored demo_vi)) as [Hs|]; [|done].
  injection H as <-. exists [Byte.x01]. split; [done|]. intros tail p. fold content.
  exists (at_pointer p demo_vi). split; [|by rewrite Hs].
  unfold from_file, file_kimchi. rewrite lookup_insert_eq. cbn [mbind option_bind].
  cbn [default id]. rewrite Nat2Z.id, lookup_app_r by done. rewrite Nat.sub_diag. done.
Qed.

Lemma file_vi_ok : vi_ok (O := demo_srs) (K := file_kimchi) 32 demo_vi.
Proof. destruct (demo_vi_ok 32 ltac:(by left)). by split. Qed.

(** OCaml appends to a file of two bytes, and both read at the offset 2. *)
Lemma verifier_index_files_witness :
  let fs : files := {[ "index"%string := [Byte.x07; Byte.x07] ]} in
  let written := Stubs.caml_pasta_fp_plonk_verifier_index_write (O := demo_srs) (K := file_kimchi)
    demo_of_caml true fs (Some true) (Stubs.caml_of_vi (K := file_kimchi) demo_to_caml demo_vi) "index" in
  exists fs' w, written = Ret fs' /\
    fs' !! "index"%string = Some [Byte.x07; Byte.x07; Byte.x01] /\
    Stubs.caml_pasta_fp_plonk_verifier_index_read (K := file_kimchi) demo_to_caml fs' (Some 2) 9%positive "index"
      = Ret (at_srs 9%positive (Stubs.caml_of_vi (K := file_kimchi) demo_to_caml demo_vi)) /\
    Wasm.caml_pasta_fp_plonk_verifier_index_read (K := file_kimchi) fs' (Some 2) 9%positive "index" = Ret w.
Proof.
  intros fs written.
  assert (written = Ret (<["index"%string := [Byte.x07; Byte.x07; Byte.x01]]> fs)) as Hw by (vm_compute; reflexivity).
  destruct (verifier_index_files (O := demo_srs) (K := file_kimchi) demo_to_caml demo_of_caml demo_of_to_caml
              true fs (<["index"%string := [Byte.x07; Byte.x07; Byte.x01]]> fs) demo_vi "index" [] 9%positive
              file_vi_ok (or_introl Hw)) as (bytes & Hf & Hr).
  specialize (Hr ltac:(by vm_compute)) as (Hs & w & _ & Hww).
  assert (bytes = [Byte.x01]) as ->.
  { apply (f_equal (lookup "index"%string)) in Hf. rewrite !lookup_insert_eq in Hf.
    apply (inj Some) in Hf. by apply (app_inv_head [Byte.x07; Byte.x07]) in Hf. }
  eexists _, w. split; [exact Hw|]. split; [apply lookup_insert_eq|]. split; [exact Hs|exact Hww].
Defined.
