(* ===== verification/ProverProof.v ===== *)
(** * Proofs: conversion, creation and verification

    [Wasm] models wasm/src/plonk_proof.rs, [Stubs] the create and verify
    functions of stubs/src/pasta_fp_plonk_proof.rs (under
    src/src/lib/crypto/kimchi_bindings), for the instance over Vesta.  Proving
    and verifying are kimchi's, in the class [Prover]; the bindings convert the
    data, split the challenges of previous proofs and shape the witness. *)

From Stdlib Require Import ZArith Lia.
From stdpp Require Import base list strings gmap.
From S2P Require Import Prelude Crates Reference FieldVector Curves Srs VerifierIndex.

(** ** Types of kimchi, over commitments [PC], points [A], scalars [S] *)

Record LookupCommitments (PC : Type) : Type := { sorted : list PC; aggreg : PC; runtime : option PC }.
Arguments Build_LookupCommitments {PC}. Arguments sorted {PC}. Arguments aggreg {PC}. Arguments runtime {PC}.
Record ProverCommitments (PC : Type) : Type := {
  w_comm : list PC; z_comm : PC; t_comm : PC; pc_lookup : option (LookupCommitments PC) }.
Arguments Build_ProverCommitments {PC}. Arguments w_comm {PC}. Arguments z_comm {PC}.
Arguments t_comm {PC}. Arguments pc_lookup {PC}.
Record OpeningProof (A S : Type) : Type := {
  lr : list (A * A); op_delta : A; op_z1 : S; op_z2 : S; op_sg : A }.
Arguments Build_OpeningProof {A S}. Arguments lr {A S}. Arguments op_delta {A S}. Arguments op_z1 {A S}.
Arguments op_z2 {A S}. Arguments op_sg {A S}.
Record RecursionChallenge (PC S : Type) : Type := { chals : list S; comm : PC }.
Arguments Build_RecursionChallenge {PC S}. Arguments chals {PC S}. Arguments comm {PC S}.
Record PointEvaluations (S : Type) : Type := { zeta : list S; zeta_omega : list S }.
Arguments Build_PointEvaluations {S}.
Record ProofEvaluations (E : Type) : Type := {
  public : option E; w : list E; z : E; s : list E; coefficients : list E;
  generic_selector : E; poseidon_selector : E; complete_add_selector : E; mul_selector : E;
  emul_selector : E; endomul_scalar_selector : E;
  range_check0_selector : option E; range_check1_selector : option E;
  foreign_field_add_selector : option E; foreign_field_mul_selector : option E;
  xor_selector : option E; rot_selector : option E;
  lookup_aggregation : option E; lookup_table_eval : option E; lookup_sorted : list (option E);
  runtime_lookup_table : option E; runtime_lookup_table_selector : option E;
  xor_lookup_selector : option E; lookup_gate_lookup_selector : option E;
  range_check_lookup_selector : option E; foreign_field_mul_lookup_selector : option E }.

Section Types.
Context {B S : Type}.
Abbreviation PC := (PolyComm B).
Record ProverProof : Type := {
  commitments : ProverCommitments PC;
  proof : OpeningProof (GroupAffine B) S;
  evals : ProofEvaluations (PointEvaluations S);
  ft_eval1 : S;
  prev_challenges : list (RecursionChallenge PC S) }.
Record RuntimeTable : Type := { rt_id : Z; rt_data : list S }.
End Types.
Arguments ProverProof : clear implicits.
Arguments RuntimeTable : clear implicits.

(** What the bindings call of kimchi: a prover index [PI] seen through what
    they read of it. *)
Class Prover (B S D Lin Alphas Vanish PI : Type) : Type := {
  px_srs : PI -> ptr;
  px_d1 : PI -> D;
  px_public : PI -> Z;
  px_verifier_index : PI -> VerifierIndex B S D Lin Alphas Vanish;
  create_recursive : list (list S) -> list (RuntimeTable S) -> PI ->
    list (RecursionChallenge (PolyComm B) S) -> outcome (ProverProof B S);
  batch_verify : list (VerifierIndex B S D Lin Alphas Vanish * ProverProof B S * list S) -> bool;
}.

(** [slice[a..b]] *)
Definition slice {A} (l : list A) (a b : nat) : outcome (list A) :=
  if (a <=? b)%nat && (b <=? length l)%nat then Ret (take (b - a) (drop a l))
  else Panic "slice index out of range".

(** The challenges of the previous proofs: an equal share of the scalars for
    each [sg]. *)
Definition split_prev {B S} (prev_challenges : list S) (prev_sgs : list (GroupAffine B))
    : outcome (list (RecursionChallenge (PolyComm B) S)) :=
  match prev_challenges with
  | [] => Ret []
  | _ =>
      _ ← rust_assert (negb (length prev_sgs =? 0)%nat) "attempt to divide by zero";
      let challenges_per_sg := (length prev_challenges / length prev_sgs)%nat in
      collect (fun '(i, sg) =>
          chals ← slice prev_challenges (i * challenges_per_sg) ((i + 1) * challenges_per_sg);
          Ret (Build_RecursionChallenge chals [sg]))
        (zip (seq 0 (length prev_sgs)) prev_sgs)
  end.

(** [witness[0][0..public]] *)
Definition public_of_witness {S} (witness : list (list S)) (public : Z) : outcome (list S) :=
  w0 ← index witness 0; slice w0 0 (Z.to_nat public).

Module Stubs.
Section Stubs.
Context {B S D P Lin Alphas Vanish PI : Type}.
Context {O : SrsOps B S D} {K : Kimchi B S D Lin Alphas Vanish} {G : Curve B S P}.
Context {R : Prover B S D Lin Alphas Vanish PI}.
(** Conversions of the kimchi and poly_commitment crates. *)
Context (pc_of_caml : VerifierIndex.Stubs.CamlPolyComm B -> outcome (PolyComm B)).
Context {CamlProof CamlTable : Type} (caml_of_proof : ProverProof B S * list S -> CamlProof)
  (proof_of_caml : CamlProof -> outcome (ProverProof B S * list S))
  (table_of_caml : CamlTable -> RuntimeTable S).

(** The shared field vectors of the witness, cloned. *)
Definition read_witness (vs : store (list S)) (witness : list ptr) : outcome (list (list S)) :=
  collect (rc_deref vs) witness.
(** [try_into::<[_; COLUMNS]>] with an error. *)
Definition witness_columns (witness : list (list S)) : outcome (list (list S)) :=
  if (length witness =? COLUMNS)%nat then Ret witness
  else Raise (Message "the witness should be a column of 15 vectors").

Definition caml_pasta_fp_plonk_proof_create (vs : store (list S)) (st : store (SRS B)) (index : PI)
    (witness : list ptr) (runtime_tables : list CamlTable) (prev_challenges : list S)
    (prev_sgs : list (Curves.Stubs.CamlGroupAffine B)) : outcome CamlProof * store (SRS B) :=
  let st := alter (fun s => add_lagrange_basis s (px_d1 index)) (px_srs index) st in
  (prev ← split_prev prev_challenges (map Curves.Stubs.affine_of_caml prev_sgs);
   witness ← read_witness vs witness;
   witness ← witness_columns witness;
   let runtime_tables := map table_of_caml runtime_tables in
   public_input ← public_of_witness witness (px_public index);
   proof ← create_recursive witness runtime_tables index prev;
   Ret (caml_of_proof (proof, public_input)), st).

(** Also verifies the proof, with [verify], the batch of one. *)
Definition caml_pasta_fp_plonk_proof_create_and_verify (vs : store (list S)) (st : store (SRS B)) (index : PI)
    (witness : list ptr) (runtime_tables : list CamlTable) (prev_challenges : list S)
    (prev_sgs : list (Curves.Stubs.CamlGroupAffine B)) : outcome CamlProof * store (SRS B) :=
  let st := alter (fun s => add_lagrange_basis s (px_d1 index)) (px_srs index) st in
  (prev ← split_prev prev_challenges (map Curves.Stubs.affine_of_caml prev_sgs);
   witness ← read_witness vs witness;
   witness ← witness_columns witness;
   let runtime_tables := map table_of_caml runtime_tables in
   public_input ← public_of_witness witness (px_public index);
   proof ← create_recursive witness runtime_tables index prev;
   let verifier_index := px_verifier_index index in
   _ ← (if batch_verify [(verifier_index, proof, public_input)] then Ret tt
        else Raise (DynError "verification error"));
   Ret (caml_of_proof (proof, public_input)), st).

Definition caml_pasta_fp_plonk_proof_verify (overflow_checks : bool)
    (index : VerifierIndex.Stubs.CamlPlonkVerifierIndex B S) (proof : CamlProof) : outcome bool :=
  '(proof, public_input) ← proof_of_caml proof;
  verifier_index ← VerifierIndex.Stubs.vi_of_caml pc_of_caml overflow_checks index;
  Ret (batch_verify [(verifier_index, proof, public_input)]).

Definition caml_pasta_fp_plonk_proof_batch_verify (overflow_checks : bool)
    (indexes : list (VerifierIndex.Stubs.CamlPlonkVerifierIndex B S)) (proofs : list CamlProof) : outcome bool :=
  ts ← collect (fun '(caml_index, caml_proof) =>
           verifier_index ← VerifierIndex.Stubs.vi_of_caml pc_of_caml overflow_checks caml_index;
           '(proof, public_input) ← proof_of_caml caml_proof;
           Ret (verifier_index, proof, public_input)) (zip indexes proofs);
  Ret (batch_verify ts).

Definition caml_pasta_fp_plonk_proof_deep_copy (x : CamlProof) : CamlProof := x.
End Stubs.
End Stubs.

(** The proof both [_dummy] functions build; [public_eval] is where they differ. *)
Section Dummy.
Context {B S P : Type} (one : S) (g : GroupAffine B).

Definition dummy_comm : PolyComm B := [g; g; g].
Definition dummy_eval : PointEvaluations S := Build_PointEvaluations [one] [one].
Definition dummy_evals (public_eval : option (PointEvaluations S)) : ProofEvaluations (PointEvaluations S) := {|
  public := public_eval;
  w := replicate COLUMNS dummy_eval; coefficients := replicate COLUMNS dummy_eval;
  z := dummy_eval; s := replicate (PERMUTS - 1) dummy_eval;
  generic_selector := dummy_eval; poseidon_selector := dummy_eval; complete_add_selector := dummy_eval;
  mul_selector := dummy_eval; emul_selector := dummy_eval; endomul_scalar_selector := dummy_eval;
  range_check0_selector := None; range_check1_selector := None;
  foreign_field_add_selector := None; foreign_field_mul_selector := None;
  xor_selector := None; rot_selector := None;
  lookup_aggregation := None; lookup_table_eval := None; lookup_sorted := replicate 5 None;
  runtime_lookup_table := None; runtime_lookup_table_selector := None;
  xor_lookup_selector := None; lookup_gate_lookup_selector := None;
  range_check_lookup_selector := None; foreign_field_mul_lookup_selector := None |}.
Definition dummy_proof (public_eval : option (PointEvaluations S)) : ProverProof B S * list S :=
  let prev := Build_RecursionChallenge [one; one] dummy_comm in
  ({| commitments := Build_ProverCommitments (replicate COLUMNS dummy_comm) dummy_comm dummy_comm None;
      proof := Build_OpeningProof [(g, g); (g, g); (g, g)] g one one g;
      evals := dummy_evals public_eval;
      ft_eval1 := one;
      prev_challenges := [prev; prev; prev] |}, [one; one]).
End Dummy.

Module Wasm.
Section Wasm.
Context {B S D P Lin Alphas Vanish PI : Type}.
Context {O : SrsOps B S D} {K : Kimchi B S D Lin Alphas Vanish} {R : Prover B S D Lin Alphas Vanish PI}.
Abbreviation WasmPolyComm := (Curves.Wasm.WasmPolyComm B).
Abbreviation WasmG := (Curves.Wasm.WasmG B).
Abbreviation pc_to_wasm := (Curves.Wasm.wasm_of_poly_comm (F := B)).
Abbreviation pc_of_wasm := (Curves.Wasm.poly_comm_of_wasm (F := B)).
Abbreviation g_to_wasm := (Curves.Wasm.wasm_of_affine (F := B)).
Abbreviation g_of_wasm := (Curves.Wasm.affine_of_wasm (F := B)).

(** Lookup and prover commitments have kimchi's fields. *)
Definition wasm_of_lookup_commitments (x : LookupCommitments (PolyComm B)) : LookupCommitments WasmPolyComm :=
  Build_LookupCommitments (map pc_to_wasm (sorted x)) (pc_to_wasm (aggreg x)) (pc_to_wasm <$> runtime x).
Definition lookup_commitments_of_wasm (x : LookupCommitments WasmPolyComm)
    : outcome (LookupCommitments (PolyComm B)) :=
  sorted ← collect pc_of_wasm (sorted x);
  aggreg ← pc_of_wasm (aggreg x);
  runtime ← option_all pc_of_wasm (runtime x);
  Ret (Build_LookupCommitments sorted aggreg runtime).

Definition wasm_of_prover_commitments (x : ProverCommitments (PolyComm B)) : ProverCommitments WasmPolyComm :=
  Build_ProverCommitments (map pc_to_wasm (w_comm x)) (pc_to_wasm (z_comm x)) (pc_to_wasm (t_comm x))
    (wasm_of_lookup_commitments <$> pc_lookup x).
Definition prover_commitments_of_wasm (x : ProverCommitments WasmPolyComm)
    : outcome (ProverCommitments (PolyComm B)) :=
  w_comm ← array_init COLUMNS pc_of_wasm (w_comm x);
  z_comm ← pc_of_wasm (z_comm x);
  t_comm ← pc_of_wasm (t_comm x);
  lookup ← option_all lookup_commitments_of_wasm (pc_lookup x);
  Ret (Build_ProverCommitments w_comm z_comm t_comm lookup).

Record WasmOpeningProof : Type := {
  lr_0 : list WasmG; lr_1 : list WasmG; delta : WasmG; z1 : S; z2 : S; sg : WasmG }.
Definition opening_of_wasm (x : WasmOpeningProof) : OpeningProof (GroupAffine B) S :=
  Build_OpeningProof (map (fun '(x, y) => (g_of_wasm x, g_of_wasm y)) (zip (lr_0 x) (lr_1 x)))
    (g_of_wasm (delta x)) (z1 x) (z2 x) (g_of_wasm (sg x)).
Definition wasm_of_opening (x : OpeningProof (GroupAffine B) S) : WasmOpeningProof :=
  {| lr_0 := map (fun '(x, _) => g_to_wasm x) (lr x); lr_1 := map (fun '(_, y) => g_to_wasm y) (lr x);
     delta := g_to_wasm (op_delta x); z1 := op_z1 x; z2 := op_z2 x; sg := g_to_wasm (op_sg x) |}.

Record WasmProverProof : Type := {
  wp_commitments : ProverCommitments WasmPolyComm;
  wp_proof : WasmOpeningProof;
  wp_evals : ProofEvaluations (PointEvaluations S);
  wp_ft_eval1 : S;
  wp_public : list S;
  wp_prev_challenges_scalars : list (list S);
  wp_prev_challenges_comms : list WasmPolyComm }.
Definition WasmProverProof_new (commitments : ProverCommitments WasmPolyComm) (proof : WasmOpeningProof)
    (evals : ProofEvaluations (PointEvaluations S)) (ft_eval1 : S) (public_ : list S)
    (prev_challenges_scalars : list (list S)) (prev_challenges_comms : list WasmPolyComm) : WasmProverProof :=
  {| wp_commitments := commitments; wp_proof := proof; wp_evals := evals; wp_ft_eval1 := ft_eval1;
     wp_public := public_; wp_prev_challenges_scalars := prev_challenges_scalars;
     wp_prev_challenges_comms := prev_challenges_comms |}.

Definition wasm_of_proof (xp : ProverProof B S * list S) : WasmProverProof :=
  let '(x, public) := xp in
  {| wp_commitments := wasm_of_prover_commitments (commitments x);
     wp_proof := wasm_of_opening (proof x);
     wp_evals := evals x;
     wp_ft_eval1 := ft_eval1 x;
     wp_public := public;
     wp_prev_challenges_scalars := map chals (prev_challenges x);
     wp_prev_challenges_comms := map (fun c => pc_to_wasm (comm c)) (prev_challenges x) |}.
Definition proof_of_wasm (x : WasmProverProof) : outcome (ProverProof B S * list S) :=
  commitments ← prover_commitments_of_wasm (wp_commitments x);
  prev_challenges ← collect (fun '(chals, comm) =>
      comm ← pc_of_wasm comm; Ret (Build_RecursionChallenge chals comm))
    (zip (wp_prev_challenges_scalars x) (wp_prev_challenges_comms x));
  Ret ({| commitments := commitments; proof := opening_of_wasm (wp_proof x); evals := wp_evals x;
          prev_challenges := prev_challenges; ft_eval1 := wp_ft_eval1 x |}, wp_public x).

Definition caml_pasta_fp_plonk_proof_create (st : store (SRS B)) (index : PI)
    (witness : list (list S)) (wasm_runtime_tables : list (RuntimeTable S)) (prev_challenges : list S)
    (prev_sgs : list WasmG) : outcome WasmProverProof * store (SRS B) :=
  let st := alter (fun s => add_lagrange_basis s (px_d1 index)) (px_srs index) st in
  (prev ← split_prev prev_challenges (map g_of_wasm prev_sgs);
   let rust_runtime_tables := wasm_runtime_tables in
   witness ← expect_array COLUMNS "the witness should be a column of 15 vectors" witness;
   public_input ← public_of_witness witness (px_public index);
   proof ← create_recursive witness rust_runtime_tables index prev;
   Ret (wasm_of_proof (proof, public_input)), st).

Definition caml_pasta_fp_plonk_proof_verify (overflow_checks : bool)
    (index : VerifierIndex.Wasm.WasmPlonkVerifierIndex B S) (proof : WasmProverProof) : outcome bool :=
  '(verifier_index, _) ← VerifierIndex.Wasm.of_wasm overflow_checks index;
  '(proof, public_input) ← proof_of_wasm proof;
  Ret (batch_verify [(verifier_index, proof, public_input)]).

Definition caml_pasta_fp_plonk_proof_batch_verify (overflow_checks : bool)
    (indexes : list (VerifierIndex.Wasm.WasmPlonkVerifierIndex B S)) (proofs : list WasmProverProof)
    : outcome bool :=
  ts ← collect (fun '(index, proof) =>
           '(verifier_index, _) ← VerifierIndex.Wasm.of_wasm overflow_checks index;
           '(proof, public_input) ← proof_of_wasm proof;
           Ret (verifier_index, proof, public_input)) (zip indexes proofs);
  Ret (batch_verify ts).

Definition caml_pasta_fp_plonk_proof_dummy : WasmProverProof :=
  wasm_of_proof (dummy_proof fr_one generator None).
Definition caml_pasta_fp_plonk_proof_deep_copy (x : WasmProverProof) : WasmProverProof := x.
End Wasm.
Arguments WasmProverProof : clear implicits.
End Wasm.

(** [caml_pasta_fp_plonk_proof_dummy] of the OCaml side, before kimchi converts
    it. *)
Definition caml_pasta_fp_plonk_proof_dummy {B S D Lin Alphas Vanish} {K : Kimchi B S D Lin Alphas Vanish}
    : ProverProof B S * list S :=
  dummy_proof fr_one generator (Some (dummy_eval fr_one)).

(** ** Conversions *)

Section Conversions.
Context {B S : Type}.

Lemma lookup_commitments_of_of_wasm (x : LookupCommitments (PolyComm B)) :
  Wasm.lookup_commitments_of_wasm (Wasm.wasm_of_lookup_commitments x) = Ret x.
Proof.
  unfold Wasm.lookup_commitments_of_wasm, Wasm.wasm_of_lookup_commitments. cbn [sorted aggreg runtime].
  rewrite collect_map, poly_comm_of_of_wasm, option_all_map by apply poly_comm_of_of_wasm.
  by destruct x.
Qed.
Lemma prover_commitments_of_of_wasm (x : ProverCommitments (PolyComm B)) :
  length (w_comm x) = COLUMNS ->
  Wasm.prover_commitments_of_wasm (Wasm.wasm_of_prover_commitments x) = Ret x.
Proof.
  intros Hl. unfold Wasm.prover_commitments_of_wasm, Wasm.wasm_of_prover_commitments.
  cbn [w_comm z_comm t_comm pc_lookup].
  rewrite array_init_map, !poly_comm_of_of_wasm, option_all_map
    by (apply poly_comm_of_of_wasm || apply lookup_commitments_of_of_wasm || done).
  by destruct x.
Qed.
Lemma zip_unzip {A A1 A2} (f : A -> A1) (g : A -> A2) (l : list A) :
  zip (map f l) (map g l) = map (fun a => (f a, g a)) l.
Proof. induction l as [|a l IH]; [done|]. cbn. by rewrite IH. Qed.
Lemma opening_of_of_wasm (x : OpeningProof (GroupAffine B) S) :
  Wasm.opening_of_wasm (Wasm.wasm_of_opening x) = x.
Proof.
  unfold Wasm.opening_of_wasm, Wasm.wasm_of_opening.
  cbn [Wasm.lr_0 Wasm.lr_1 Wasm.delta Wasm.z1 Wasm.z2 Wasm.sg].
  rewrite !affine_of_of_wasm, zip_unzip, map_map.
  destruct x as [l d z1 z2 g]. cbn. f_equal. rewrite <-(map_id l) at 2. apply map_ext.
  intros [p q]. by rewrite !affine_of_of_wasm.
Qed.
Lemma prev_of_of_wasm (l : list (RecursionChallenge (PolyComm B) S)) :
  collect (fun '(chals, comm) =>
      comm ← Curves.Wasm.poly_comm_of_wasm comm; Ret (Build_RecursionChallenge chals comm))
    (zip (map chals l) (map (fun c => Curves.Wasm.wasm_of_poly_comm (comm c)) l)) = Ret l.
Proof.
  rewrite zip_unzip. apply collect_map. intros [chs cm]. cbn [chals comm].
  by rewrite poly_comm_of_of_wasm.
Qed.
Lemma proof_of_of_wasm (x : ProverProof B S) (public : list S) :
  length (w_comm (commitments x)) = COLUMNS ->
  Wasm.proof_of_wasm (Wasm.wasm_of_proof (x, public)) = Ret (x, public).
Proof.
  intros Hl. unfold Wasm.proof_of_wasm, Wasm.wasm_of_proof.
  cbn [Wasm.wp_commitments Wasm.wp_proof Wasm.wp_evals Wasm.wp_ft_eval1 Wasm.wp_public
       Wasm.wp_prev_challenges_scalars Wasm.wp_prev_challenges_comms].
  rewrite prover_commitments_of_of_wasm by done. cbn [mbind outcome_bind].
  rewrite prev_of_of_wasm. cbn [mbind outcome_bind]. rewrite opening_of_of_wasm. by destruct x.
Qed.

(** Proofs cross to JavaScript and back unchanged, public input included,
    for every proof with its fifteen witness commitments; the dummy proof is one
    of them. A JavaScript proof is converted only with at least fifteen witness
    commitments, and where its parallel vectors differ in length - the two
    halves of the opening rounds, the scalars and commitments of the previous
    challenges - the longer one is silently cut. *)
Theorem wasm_proof_roundtrip {D Lin Alphas Vanish} {K : Kimchi B S D Lin Alphas Vanish}
    (x : ProverProof B S) (public : list S) (wp : Wasm.WasmProverProof B S) :
  (length (w_comm (commitments x)) = 15%nat ->
     Wasm.proof_of_wasm (Wasm.wasm_of_proof (x, public)) = Ret (x, public)) /\
  Wasm.proof_of_wasm Wasm.caml_pasta_fp_plonk_proof_dummy = Ret (dummy_proof fr_one generator None) /\
  (forall y pub, Wasm.proof_of_wasm wp = Ret (y, pub) ->
     (15 <= length (w_comm (Wasm.wp_commitments wp)))%nat /\
     pub = Wasm.wp_public wp /\ evals y = Wasm.wp_evals wp /\
     length (lr (proof y)) = min (length (Wasm.lr_0 (Wasm.wp_proof wp))) (length (Wasm.lr_1 (Wasm.wp_proof wp))) /\
     map chals (prev_challenges y)
       = take (length (Wasm.wp_prev_challenges_comms wp)) (Wasm.wp_prev_challenges_scalars wp)).
Proof.
  split; [apply proof_of_of_wasm|]. split; [by apply proof_of_of_wasm|].
  intros y pub H. unfold Wasm.proof_of_wasm in H.
  apply bind_is_Ret in H as (cms & Hc & H). apply bind_is_Ret in H as (prev & Hp & H).
  injection H as <- <-. cbn [proof evals prev_challenges].
  unfold Wasm.prover_commitments_of_wasm in Hc. apply bind_is_Ret in Hc as (ws & Hw%array_init_Ret & _).
  split; [done|]. split; [done|]. split; [done|]. split.
  - unfold Wasm.opening_of_wasm. cbn [lr]. by rewrite length_map, length_zip_with.
  - apply collect_all in Hp. revert prev Hp.
    generalize (Wasm.wp_prev_challenges_scalars wp) as ss, (Wasm.wp_prev_challenges_comms wp) as cs.
    clear. induction ss as [|s ss IH]; intros cs prev Hp.
    + inversion Hp; subst. by rewrite take_nil.
    + destruct cs as [|c cs]; inversion Hp as [|? p ? prev' Hp1 Hp2]; subst; [done|].
      cbn [map take length]. rewrite (IH cs prev' Hp2). f_equal.
      apply bind_is_Ret in Hp1 as (c' & _ & [= <-]). done.
Qed.
End Conversions.

(** ** Previous challenges *)

Section Prev.
Context {B S : Type}.

Lemma slice_Ret {A} (l : list A) a b :
  (a <= b <= length l)%nat -> slice l a b = Ret (take (b - a) (drop a l)).
Proof.
  intros [H1 H2]. unfold slice. by rewrite (proj2 (Nat.leb_le _ _) H1), (proj2 (Nat.leb_le _ _) H2).
Qed.

Lemma split_loop (l : list S) (c : nat) (sgs : list (GroupAffine B)) (k : nat) :
  ((k + length sgs) * c <= length l)%nat ->
  exists out, collect (fun '(i, sg) =>
        chals ← slice l (i * c) ((i + 1) * c); Ret (Build_RecursionChallenge chals [sg]))
      (zip (seq k (length sgs)) sgs) = Ret out /\
    map comm out = map (fun g => [g]) sgs /\
    Forall (fun x => length (chals x) = c) out /\
    concat (map chals out) = take (length sgs * c) (drop (k * c) l).
Proof.
  revert k. induction sgs as [|g sgs IH]; intros k Hk; [by exists []|].
  cbn [length] in *. cbn [seq zip zip_with collect].
  destruct (IH (Datatypes.S k)) as (out & Ho & Hc & Hl & Hcat); [lia|].
  rewrite slice_Ret by nia. cbn [mbind outcome_bind].
  rewrite Ho. cbn [mbind outcome_bind].
  eexists. split; [reflexivity|]. cbn [map comm chals]. rewrite Hc. split; [done|].
  replace ((k + 1) * c - k * c)%nat with c by nia. split.
  - constructor; [|done]. cbn [chals]. rewrite length_take, length_drop. nia.
  - cbn [concat]. rewrite Hcat. replace (Datatypes.S k * c)%nat with (k * c + c)%nat by lia.
    rewrite <-drop_drop. cbn [Nat.mul].
    rewrite <-(take_drop c (take (c + length sgs * c) (drop (k * c) l))).
    rewrite take_take, Nat.min_l by lia. f_equal. rewrite List.skipn_firstn_comm. f_equal. lia.
Qed.

(** C23: the challenges of previous proofs. Without challenges there are no
    previous proofs, whatever the commitments. With challenges but no
    commitments the division panics. Otherwise each commitment gets, in order,
    the next equal share of the challenges; the shares together are the
    challenges exactly when they split evenly, and otherwise the last ones are
    silently dropped. *)
Theorem split_prev_spec (l : list S) (sgs : list (GroupAffine B)) :
  (l = [] -> split_prev l sgs = Ret []) /\
  (l <> [] -> sgs = [] -> is_panic (split_prev l sgs) = true) /\
  (l <> [] -> sgs <> [] ->
     exists out, split_prev l sgs = Ret out /\
       map comm out = map (fun g => [g]) sgs /\
       Forall (fun x => length (chals x) = (length l / length sgs)%nat) out /\
       concat (map chals out) = take (length sgs * (length l / length sgs)) l /\
       (concat (map chals out) = l <-> (length l mod length sgs = 0)%nat)).
Proof.
  split; [by intros ->|]. split.
  { intros Hl ->. by destruct l. }
  intros Hl Hs. unfold split_prev. destruct l as [|x l']; [done|]. set (l := x :: l') in *.
  assert (length sgs <> 0)%nat as Hn by (by destruct sgs).
  rewrite (proj2 (Nat.eqb_neq _ _)) by done. cbn [negb rust_assert mbind outcome_bind].
  pose proof (Nat.Div0.mul_div_le (length l) (length sgs)) as Hle.
  destruct (split_loop l (length l / length sgs) sgs 0) as (out & Ho & Hc & Hf & Hcat); [lia|].
  exists out. split; [exact Ho|]. split; [done|]. split; [done|].
  cbn [Nat.mul] in Hcat. rewrite drop_0 in Hcat. split; [done|]. rewrite Hcat.
  pose proof (Nat.div_mod_eq (length l) (length sgs)) as Hdm. split.
  - intros E. apply (f_equal length) in E. rewrite length_take in E. lia.
  - intros Hm. apply take_ge. lia.
Qed.
End Prev.

(** ** Creation and verification *)

Section Create.
Context {B S D P Lin Alphas Vanish PI : Type}.
Context {O : SrsOps B S D} {K : Kimchi B S D Lin Alphas Vanish} {G : Curve B S P}.
Context {R : Prover B S D Lin Alphas Vanish PI}.
Context (pc_of_caml : VerifierIndex.Stubs.CamlPolyComm B -> outcome (PolyComm B)).
Context {CamlProof CamlTable : Type} (caml_of_proof : ProverProof B S * list S -> CamlProof)
  (proof_of_caml : CamlProof -> outcome (ProverProof B S * list S))
  (table_of_caml : CamlTable -> RuntimeTable S).

(** The heap of reference strings after the basis of the index's domain was
    added. *)
Definition with_basis (st : store (SRS B)) (index : PI) : store (SRS B) :=
  alter (fun s => add_lagrange_basis s (px_d1 index)) (px_srs index) st.

Lemma public_of_witness_spec (w0 : list S) ws public :
  0 <= public ->
  public_of_witness (w0 :: ws) public =
    if public <=? Z.of_nat (length w0) then Ret (take (Z.to_nat public) w0)
    else Panic "slice index out of range".
Proof.
  intros Hp. unfold public_of_witness. change (index (w0 :: ws) 0) with (Ret w0).
  cbn [mbind outcome_bind]. unfold slice. cbn [Nat.leb andb]. rewrite Nat.sub_0_r, drop_0.
  destruct (Z.leb_spec public (Z.of_nat (length w0))).
  - by rewrite (proj2 (Nat.leb_le _ _)) by lia.
  - by rewrite (proj2 (Nat.leb_gt _ _)) by lia.
Qed.

(** C32: creating a proof. Both sides first add the Lagrange basis of the
    index's domain to the shared reference string, whatever happens after. When
    the previous challenges split, a witness that is not fifteen columns is an
    error on the OCaml side and a panic on the JavaScript side; a first column
    shorter than the public input panics on both; otherwise both call the prover
    with the same arguments and return its proof with the first entries of the
    first column as the public input, or its error. The OCaml side that also
    verifies returns that proof only if it verifies. *)
Theorem proof_create_spec (vs : store (list S)) (st : store (SRS B)) (index : PI)
    (ptrs : list ptr) (witness : list (list S)) (tables : list CamlTable) (l : list S)
    (caml_sgs : list (Curves.Stubs.CamlGroupAffine B)) (wasm_sgs : list (Curves.Wasm.WasmG B)) prev :
  0 <= px_public index ->
  Stubs.read_witness vs ptrs = Ret witness ->
  map Curves.Stubs.affine_of_caml caml_sgs = map Curves.Wasm.affine_of_wasm wasm_sgs ->
  split_prev l (map Curves.Wasm.affine_of_wasm wasm_sgs) = Ret prev ->
  let tables' := map table_of_caml tables in
  let caml := Stubs.caml_pasta_fp_plonk_proof_create caml_of_proof table_of_caml vs st index ptrs tables l caml_sgs in
  let wasm := Wasm.caml_pasta_fp_plonk_proof_create st index witness tables' l wasm_sgs in
  let both := Stubs.caml_pasta_fp_plonk_proof_create_and_verify caml_of_proof table_of_caml vs st index ptrs tables l caml_sgs in
  snd caml = with_basis st index /\ snd wasm = with_basis st index /\ snd both = with_basis st index /\
  (length witness <> 15%nat ->
     fst caml = Raise (Message "the witness should be a column of 15 vectors") /\ is_panic (fst wasm) = true) /\
  (forall w0 ws, witness = w0 :: ws -> length witness = 15%nat ->
     (Z.of_nat (length w0) < px_public index -> is_panic (fst caml) = true /\ is_panic (fst wasm) = true) /\
     (px_public index <= Z.of_nat (length w0) ->
        let pub := take (Z.to_nat (px_public index)) w0 in
        let result := create_recursive witness tables' index prev in
        fst caml = (proof ← result; Ret (caml_of_proof (proof, pub))) /\
        fst wasm = (proof ← result; Ret (Wasm.wasm_of_proof (proof, pub))) /\
        (forall c, fst both = Ret c <-> exists proof, result = Ret proof /\
           batch_verify [(px_verifier_index index, proof, pub)] = true /\ c = caml_of_proof (proof, pub)))).
Proof.
  intros Hpub Hw Hsg Hprev tables' caml wasm both. subst caml wasm both.
  unfold Stubs.caml_pasta_fp_plonk_proof_create, Stubs.caml_pasta_fp_plonk_proof_create_and_verify,
    Wasm.caml_pasta_fp_plonk_proof_create.
  rewrite Hsg, Hprev, Hw. cbn [fst snd mbind outcome_bind].
  split; [done|]. split; [done|]. split; [done|].
  unfold Stubs.witness_columns, expect_array, COLUMNS. split.
  - intros Hl. by rewrite (proj2 (Nat.eqb_neq _ _) Hl).
  - intros w0 ws -> Hl. rewrite (proj2 (Nat.eqb_eq _ _) Hl). cbn [mbind outcome_bind].
    rewrite public_of_witness_spec by done. split.
    + intros Hs. by rewrite (proj2 (Z.leb_gt _ _) Hs).
    + intros Hs. rewrite (proj2 (Z.leb_le _ _) Hs). cbn [mbind outcome_bind]. fold tables'.
      split; [done|]. split; [done|]. intros c.
      destruct (create_recursive (w0 :: ws) tables' index prev) as [pf|e|m]; cbn;
        [|split; [done|by intros (? & ? & _)]..].
      destruct (batch_verify _) eqn:E; cbn; split.
      * intros [= <-]. by exists pf.
      * intros (pf' & [= <-] & _ & ->). done.
      * done.
      * intros (pf' & [= <-] & Hv & _). congruence.
Qed.

(** Verification. A single proof is verified as the batch of one. A batch
    pairs indexes and proofs in order and ignores whatever is left over on
    either side: surplus indexes or proofs are never converted nor verified, so
    with an empty side any batch is the empty one, which is accepted if kimchi
    accepts an empty batch. *)
Theorem proof_verify_spec oc (ci : list (VerifierIndex.Stubs.CamlPlonkVerifierIndex B S)) (cp : list CamlProof)
    (wi : list (VerifierIndex.Wasm.WasmPlonkVerifierIndex B S)) (wp : list (Wasm.WasmProverProof B S)) i p c q :
  batch_verify [] = true ->
  let caml := Stubs.caml_pasta_fp_plonk_proof_batch_verify pc_of_caml proof_of_caml oc in
  let wasm := Wasm.caml_pasta_fp_plonk_proof_batch_verify oc in
  wasm [i] [p] = Wasm.caml_pasta_fp_plonk_proof_verify oc i p /\
  (forall b, caml [c] [q] = Ret b <->
     Stubs.caml_pasta_fp_plonk_proof_verify pc_of_caml proof_of_caml oc c q = Ret b) /\
  caml ci cp = caml (take (length cp) ci) (take (length ci) cp) /\
  wasm wi wp = wasm (take (length wp) wi) (take (length wi) wp) /\
  caml [] cp = Ret true /\ wasm wi [] = Ret true.
Proof.
  intros Hnil caml wasm. subst caml wasm.
  unfold Stubs.caml_pasta_fp_plonk_proof_batch_verify, Wasm.caml_pasta_fp_plonk_proof_batch_verify,
    Stubs.caml_pasta_fp_plonk_proof_verify, Wasm.caml_pasta_fp_plonk_proof_verify.
  assert (forall A1 A2 (l1 : list A1) (l2 : list A2),
    zip l1 l2 = zip (take (length l2) l1) (take (length l1) l2)) as Hzip.
  { intros A1 A2. induction l1 as [|a l1 IH]; intros [|b l2]; try done. cbn. by rewrite <-IH. }
  split; [|split; [|split; [|split; [|split]]]].
  - change (zip [i] [p]) with [(i, p)]. cbn [collect].
    destruct (VerifierIndex.Wasm.of_wasm oc i) as [[vi ?]| |]; [|done..]. cbn [mbind outcome_bind].
    by destruct (Wasm.proof_of_wasm p) as [[pf pub]| |].
  - intros b. change (zip [c] [q]) with [(c, q)]. cbn [collect].
    destruct (VerifierIndex.Stubs.vi_of_caml pc_of_caml oc c) as [vi| |]; cbn [mbind outcome_bind];
      destruct (proof_of_caml q) as [[pf pub]| |]; done.
  - by rewrite Hzip.
  - by rewrite Hzip.
  - cbn. by rewrite Hnil.
  - destruct wi; cbn; by rewrite Hnil.
Qed.
End Create.

(** ** Witnesses *)

Lemma wasm_proof_roundtrip_witness :
  let d := dummy_proof 1 (u_point false) (Some (dummy_eval 1)) in
  Wasm.proof_of_wasm (Wasm.wasm_of_proof d) = Ret d.
Proof.
  intros d. destruct d as [x pub] eqn:E.
  apply (wasm_proof_roundtrip (K := demo_kimchi) x pub (Wasm.wasm_of_proof (x, pub))).
  injection E as <- <-. reflexivity.
Defined.

(** Five challenges for two commitments: the fifth is dropped. *)
Lemma split_prev_spec_witness :
  exists out, split_prev [1; 2; 3; 4; 5] [u_point false; u_point true] = Ret out /\
    concat (map chals out) = [1; 2; 3; 4].
Proof.
  destruct (split_prev_spec [1; 2; 3; 4; 5] [u_point false; u_point true]) as (_ & _ & H).
  destruct H as (out & Ho & _ & _ & Hc & _); [done|done|].
  exists out. split; [exact Ho|]. rewrite Hc. reflexivity.
Defined.

#[local] Instance demo_prover : Prover unit Z N FeatureFlags bool (N * Z) Z := {|
  px_srs _ := 1%positive;
  px_d1 _ := 4%N;
  px_public n := n;
  px_verifier_index _ := demo_vi;
  create_recursive w t i prev :=
    if (length w =? 15)%nat then Ret (fst (dummy_proof 1 (u_point false) None)) else Raise (DynError "prover");
  batch_verify l := forallb (fun '(_, _, pub) => (length pub =? 1)%nat) l;
|}.

#[local] Instance demo_curve_u : Curve unit Z (GroupAffine unit) := {|
  affine_zero := u_point true; prime_subgroup_generator := u_point false;
  generator_x := tt; generator_y := tt;
  pr_add a b := a; pr_sub a b := a; pr_neg a := a; pr_double a := a; pr_mul a _ := a;
  pr_rand_from_seed _ := u_point false; into_affine a := a; into_projective a := a;
  pr_new _ _ _ := u_point false; base_one := tt; endo_q := tt; endo_r := 1; scalar_repr := big_of_val;
|}.

(** Fifteen handles of one shared column; one public input. *)
Lemma proof_create_spec_witness :
  let vs : store (list Z) := {[ 1%positive := [7; 8] ]} in
  let create n := fst (Stubs.caml_pasta_fp_plonk_proof_create (O := demo_srs) (G := demo_curve_u)
    (R := demo_prover) (CamlTable := RuntimeTable Z) (fun p => p) (fun t => t)
    vs u_store 1 (replicate n 1%positive) [] [] []) in
  (exists proof, create 15%nat = Ret (proof, [7])) /\
  create 14%nat = Raise (Message "the witness should be a column of 15 vectors").
Proof.
  intros vs create. unfold create. split.
  - destruct (proof_create_spec (O := demo_srs) (G := demo_curve_u) (R := demo_prover) (CamlTable := RuntimeTable Z)
      (fun p => p) (fun t => t) vs u_store 1 (replicate 15 1%positive) (replicate 15 [7; 8]) [] [] [] [] [])
      as (_ & _ & _ & _ & H); [cbn; lia|reflexivity|reflexivity|reflexivity|].
    destruct (H [7; 8] (replicate 14 [7; 8])) as [_ H']; [reflexivity|reflexivity|].
    destruct H' as [H' _]; [cbn; lia|]. eexists. rewrite H'. reflexivity.
  - destruct (proof_create_spec (O := demo_srs) (R := demo_prover) (CamlTable := RuntimeTable Z)
      (fun p => p) (fun t => t) vs u_store 1 (replicate 14 1%positive) (replicate 14 [7; 8]) [] [] [] [] [])
      as (_ & _ & _ & H & _); [cbn; lia|reflexivity|reflexivity|reflexivity|].
    apply H. by cbn.
Defined.

Lemma proof_verify_spec_witness :
  let d := Wasm.wasm_of_proof (dummy_proof 1 (u_point false) None) in
  Wasm.caml_pasta_fp_plonk_proof_batch_verify (O := demo_srs) (K := demo_kimchi) (R := demo_prover) true [] [d; d]
    = Ret true.
Proof.
  intros d.
  destruct (proof_verify_spec (O := demo_srs) (K := demo_kimchi) (R := demo_prover)
    demo_of_caml (fun c : ProverProof unit Z * list Z => Ret c) true [] [] [] [d; d]
    (fst (VerifierIndex.Wasm.caml_pasta_fp_plonk_verifier_index_dummy (O := demo_srs) (K := demo_kimchi) ∅)) d
    (fst (VerifierIndex.Stubs.caml_pasta_fp_plonk_verifier_index_dummy (O := demo_srs) (K := demo_kimchi) ∅))
    (dummy_proof 1 (u_point false) None)) as (_ & _ & _ & H & _); [reflexivity|].
  rewrite H. reflexivity.
Defined.
