(* ===== verification/PlonkIndex.v ===== *)
(** * Prover indexes

    [Stubs] models stubs/src/pasta_fp_plonk_index.rs, [Wasm] models
    wasm/src/pasta_fp_plonk_index.rs (under
    src/src/lib/crypto/kimchi_bindings), for the instance over Vesta.  A prover
    index is kimchi's [ProverIndex], of the fields the bindings read or assign;
    constraint systems [CS], their construction, the digest and the
    serialization are kimchi's, in the class [IndexOps].  The reference string
    is shared: creating an index adds a Lagrange basis to it. *)

From Stdlib Require Import ZArith Lia.
From stdpp Require Import base list strings gmap.
From S2P Require Import Prelude Crates Reference GateVector FieldVector Curves Srs VerifierIndex.

Record LookupTable (S : Type) : Type := { lt_id : Z; lt_data : list (list S) }.
Arguments Build_LookupTable {S}. Arguments lt_id {S}. Arguments lt_data {S}.
Record RuntimeTableCfg (S : Type) : Type := { cfg_id : Z; first_column : list S }.
Arguments Build_RuntimeTableCfg {S}. Arguments cfg_id {S}. Arguments first_column {S}.

Record ProverIndex (CS Lin Alphas Rest : Type) : Type := {
  cs : CS;
  srs : ptr;
  linearization : Lin;
  powers_of_alpha : Alphas;
  rest : Rest }.                     (* the fields the bindings do not name *)
Arguments Build_ProverIndex {CS Lin Alphas Rest}. Arguments cs {CS Lin Alphas Rest}.
Arguments srs {CS Lin Alphas Rest}. Arguments linearization {CS Lin Alphas Rest}.
Arguments powers_of_alpha {CS Lin Alphas Rest}. Arguments rest {CS Lin Alphas Rest}.

Class IndexOps (B S D GT CS Lin Alphas Rest : Type) : Type := {
  (* ConstraintSystem::create(gates) with .public, .prev_challenges,
     .max_poly_size, .lookup, .runtime, then .build *)
  cs_build : list (CircuitGate GT S) -> Z -> Z -> option Z -> list (LookupTable S) ->
    option (list (RuntimeTableCfg S)) -> CS + string;
  cs_public : CS -> Z;
  cs_d1 : CS -> D; cs_d4 : CS -> D; cs_d8 : CS -> D;
  cs_feature_flags : CS -> FeatureFlags;
  srs_max_poly_size : SRS B -> Z;
  srs_max_degree : SRS B -> Z;
  index_new : CS -> S -> ptr -> SRS B -> ProverIndex CS Lin Alphas Rest;   (* ProverIndex::create *)
  compute_verifier_index_digest : ProverIndex CS Lin Alphas Rest -> ProverIndex CS Lin Alphas Rest;
  index_serialize : ProverIndex CS Lin Alphas Rest -> list byte + string;  (* rmp_serde *)
  index_deserialize : list byte -> ProverIndex CS Lin Alphas Rest + string;
}.
(** An index holds what it was made of; the sizes of a reference string are
    those of its points; a serialized index gives back its constraint system,
    whatever follows its bytes. *)
Class IndexLaws {B S D GT CS Lin Alphas Rest} (I : IndexOps B S D GT CS Lin Alphas Rest) : Prop := {
  index_new_fields c e p s : cs (index_new c e p s) = c /\ srs (index_new c e p s) = p;
  digest_fields x :
    cs (compute_verifier_index_digest x) = cs x /\ srs (compute_verifier_index_digest x) = srs x;
  max_poly_size_points s s' : srs_g s = srs_g s' -> srs_max_poly_size s = srs_max_poly_size s';
  index_deserialize_serialize x w tail :
    index_serialize x = inl w -> exists x', index_deserialize (w ++ tail) = inl x' /\ cs x' = cs x;
}.

Section Shared.
Context {B S D GT CS Lin Alphas Vanish Rest : Type}.
Context {O : SrsOps B S D} {K : Kimchi B S D Lin Alphas Vanish} {I : IndexOps B S D GT CS Lin Alphas Rest}.
Abbreviation PX := (ProverIndex CS Lin Alphas Rest).

(** The gates of the vector, rebuilt field by field. *)
Definition copy_gates (gates : list (CircuitGate GT S)) : list (CircuitGate GT S) :=
  map (fun gate => {| typ := typ gate; wires := wires gate; coeffs := coeffs gate |}) gates.
(** No runtime tables are passed as none, rather than as an empty list. *)
Definition runtime_option (tables : list (RuntimeTableCfg S)) : option (list (RuntimeTableCfg S)) :=
  match tables with [] => None | _ => Some tables end.
(** What follows a built constraint system: the basis is added through the
    shared pointer, then the index is created and its digest computed. *)
Definition finish_index (st : store (SRS B)) (p : ptr) (c : CS) : outcome PX * store (SRS B) :=
  let st := alter (fun s => add_lagrange_basis s (cs_d1 c)) p st in
  (s ← rc_deref st p; Ret (compute_verifier_index_digest (index_new c index_endo p s)), st).
(** After deserialization: the reference string and what is not serialized. *)
Definition reattach (x : PX) (p : ptr) : PX :=
  let '(lin, alphas) := expr_linearization (cs_feature_flags (cs x)) true in
  {| cs := cs x; srs := p; linearization := lin; powers_of_alpha := alphas; rest := rest x |}.
End Shared.

Module Stubs.
Section Stubs.
Context {B S D GT CS Lin Alphas Vanish Rest : Type}.
Context {O : SrsOps B S D} {K : Kimchi B S D Lin Alphas Vanish} {I : IndexOps B S D GT CS Lin Alphas Rest}.
Abbreviation PX := (ProverIndex CS Lin Alphas Rest).
(** kimchi's conversions of the OCaml tables. *)
Context {CamlLookupTable CamlRuntimeTableCfg : Type}
  (table_of_caml : CamlLookupTable -> LookupTable S)
  (cfg_of_caml : CamlRuntimeTableCfg -> RuntimeTableCfg S).

Definition caml_pasta_fp_plonk_index_create (st : store (SRS B)) (gates : list (CircuitGate GT S))
    (public : Z) (lookup_tables : list CamlLookupTable) (runtime_tables : list CamlRuntimeTableCfg)
    (prev_challenges : Z) (srs : ptr) : outcome PX * store (SRS B) :=
  let gates := copy_gates gates in
  let runtime_tables := map cfg_of_caml runtime_tables in
  let lookup_tables := map table_of_caml lookup_tables in
  match rc_deref st srs with
  | Ret s =>
      match cs_build gates (as_u64 public) (as_u64 prev_challenges) (Some (srs_max_poly_size s))
              lookup_tables (runtime_option runtime_tables) with
      | inr e => (Raise (DynError e), st)
      | inl cs => finish_index st srs cs
      end
  | Raise e => (Raise e, st)
  | Panic m => (Panic m, st)
  end.

Definition caml_pasta_fp_plonk_index_max_degree (st : store (SRS B)) (index : PX) : outcome Z :=
  s ← rc_deref st (srs index); Ret (as_i64 (srs_max_degree s)).
Definition caml_pasta_fp_plonk_index_public_inputs (index : PX) : Z := as_i64 (cs_public (cs index)).
Definition caml_pasta_fp_plonk_index_domain_d1_size (index : PX) : Z := as_i64 (domain_size (cs_d1 (cs index))).
Definition caml_pasta_fp_plonk_index_domain_d4_size (index : PX) : Z := as_i64 (domain_size (cs_d4 (cs index))).
Definition caml_pasta_fp_plonk_index_domain_d8_size (index : PX) : Z := as_i64 (domain_size (cs_d8 (cs index))).

Definition caml_pasta_fp_plonk_index_read (fs : files) (offset : option Z) (srs : ptr) (path : string)
    : outcome PX :=
  content ← ok_or (Invalid_argument "caml_pasta_fp_plonk_index_read") (fs !! path);
  r ← (match offset with
       | Some offset => ok_or (DynError "seek error") (seek_start content (as_u64 offset))
       | None => Ret content
       end);
  match index_deserialize r with
  | inl t => Ret (reattach t srs)
  | inr e => Raise (DynError e)
  end.
Definition caml_pasta_fp_plonk_index_write (fs : files) (append : option bool) (index : PX) (path : string)
    : outcome files :=
  content ← ok_or (Invalid_argument "caml_pasta_fp_plonk_index_write") (open_append fs append path);
  match index_serialize index with
  | inl w => Ret (<[path := content ++ w]> fs)
  | inr e => Raise (DynError e)
  end.
End Stubs.
End Stubs.

Module Wasm.
Section Wasm.
Context {B S D GT CS Lin Alphas Vanish Rest : Type}.
Context {O : SrsOps B S D} {K : Kimchi B S D Lin Alphas Vanish} {I : IndexOps B S D GT CS Lin Alphas Rest}.
Abbreviation PX := (ProverIndex CS Lin Alphas Rest).

Record WasmPastaFpLookupTable : Type := { wlt_id : Z; wlt_data : list (list S) }.
Definition table_of_wasm (wasm_lt : WasmPastaFpLookupTable) : LookupTable S :=
  Build_LookupTable (wlt_id wasm_lt) (wlt_data wasm_lt).
Record WasmPastaFpRuntimeTableCfg : Type := { wrt_id : Z; wrt_first_column : list S }.
Definition cfg_of_wasm (cfg : WasmPastaFpRuntimeTableCfg) : RuntimeTableCfg S :=
  Build_RuntimeTableCfg (wrt_id cfg) (wrt_first_column cfg).

(** No [max_poly_size] is passed here. *)
Definition caml_pasta_fp_plonk_index_create (st : store (SRS B)) (gates : list (CircuitGate GT S))
    (public_ : Z) (lookup_tables : list WasmPastaFpLookupTable)
    (runtime_table_cfgs : list WasmPastaFpRuntimeTableCfg) (prev_challenges : Z) (srs : ptr)
    : outcome PX * store (SRS B) :=
  let gates := copy_gates gates in
  let rust_runtime_table_cfgs := map cfg_of_wasm runtime_table_cfgs in
  let rust_lookup_tables := map table_of_wasm lookup_tables in
  match cs_build gates (as_u32 public_) (as_u32 prev_challenges) None
          rust_lookup_tables (runtime_option rust_runtime_table_cfgs) with
  | inr _ => (Raise (JsError "caml_pasta_fp_plonk_index_create: could not create constraint system"), st)
  | inl cs => finish_index st srs cs
  end.

Definition caml_pasta_fp_plonk_index_max_degree (st : store (SRS B)) (index : PX) : outcome Z :=
  s ← rc_deref st (srs index); Ret (as_i32 (srs_max_degree s)).
Definition caml_pasta_fp_plonk_index_public_inputs (index : PX) : Z := as_i32 (cs_public (cs index)).
Definition caml_pasta_fp_plonk_index_domain_d1_size (index : PX) : Z := as_i32 (domain_size (cs_d1 (cs index))).
Definition caml_pasta_fp_plonk_index_domain_d4_size (index : PX) : Z := as_i32 (domain_size (cs_d4 (cs index))).
Definition caml_pasta_fp_plonk_index_domain_d8_size (index : PX) : Z := as_i32 (domain_size (cs_d8 (cs index))).

Definition caml_pasta_fp_plonk_index_decode (bytes : list byte) (srs : ptr) : outcome PX :=
  match index_deserialize bytes with
  | inl index => Ret (reattach index srs)
  | inr e => Raise (JsError ("caml_pasta_fp_plonk_index_decode: " ++ e)%string)
  end.
Definition caml_pasta_fp_plonk_index_encode (index : PX) : outcome (list byte) :=
  match index_serialize index with
  | inl buffer => Ret buffer
  | inr e => Raise (JsError ("caml_pasta_fp_plonk_index_encode: " ++ e)%string)
  end.
Definition caml_pasta_fp_plonk_index_read (fs : files) (offset : option Z) (srs : ptr) (path : string)
    : outcome PX :=
  content ← ok_or (JsError "caml_pasta_fp_plonk_index_read") (fs !! path);
  r ← (match offset with
       | Some offset =>
           ok_or (JsError "caml_pasta_fp_plonk_index_read: seek error") (seek_start content (as_u64 offset))
       | None => Ret content
       end);
  match index_deserialize r with
  | inl t => Ret (reattach t srs)
  | inr e => Raise (JsError ("caml_pasta_fp_plonk_index_read: " ++ e)%string)
  end.
Definition caml_pasta_fp_plonk_index_write (fs : files) (append : option bool) (index : PX) (path : string)
    : outcome files :=
  content ← ok_or (JsError "caml_pasta_fp_plonk_index_write") (open_append fs append path);
  match index_serialize index with
  | inl w => Ret (<[path := content ++ w]> fs)
  | inr e => Raise (JsError ("caml_pasta_fp_plonk_index_read: " ++ e)%string)
  end.
(** [base64], of the base64 crate, after [unwrap]. *)
Definition caml_pasta_fp_plonk_index_serialize (base64 : list byte -> list byte) (index : PX)
    : outcome (list byte) :=
  match index_serialize index with
  | inl serialized => Ret (base64 serialized)
  | inr _ => Panic "called `Result::unwrap()` on an `Err` value"
  end.
End Wasm.
Arguments WasmPastaFpLookupTable : clear implicits.
Arguments WasmPastaFpRuntimeTableCfg : clear implicits.
End Wasm.

(** ** Properties *)

Section Properties.
Context {B S D GT CS Lin Alphas Vanish Rest : Type}.
Context {O : SrsOps B S D} {SL : SrsLaws O}.
Context {K : Kimchi B S D Lin Alphas Vanish}.
Context {I : IndexOps B S D GT CS Lin Alphas Rest} {L : IndexLaws I}.
Context {CamlTable CamlCfg : Type} (table_of_caml : CamlTable -> LookupTable S)
  (cfg_of_caml : CamlCfg -> RuntimeTableCfg S).
Implicit Types (st : store (SRS B)) (gates : list (CircuitGate GT S)).

Lemma copy_gates_id gates : copy_gates gates = gates.
Proof. unfold copy_gates. rewrite <-(map_id gates) at 2. apply map_ext. by intros []. Qed.

Lemma finish_index_spec st p s c :
  st !! p = Some s ->
  exists x, finish_index st p c = (Ret x, <[p := add_lagrange_basis s (cs_d1 c)]> st) /\
    cs x = c /\ srs x = p.
Proof.
  intros Hp. unfold finish_index. rewrite (alter_at _ st p s) by done.
  unfold rc_deref. rewrite lookup_insert_eq. cbn [expect mbind outcome_bind].
  eexists. split; [reflexivity|]. destruct (digest_fields (index_new c index_endo p (add_lagrange_basis s (cs_d1 c)))) as [-> ->].
  apply index_new_fields.
Qed.

Lemma finish_index_again st p s c :
  st !! p = Some s ->
  finish_index (snd (finish_index st p c)) p c = finish_index st p c.
Proof.
  intros Hp. unfold finish_index. cbn [snd]. rewrite (alter_at _ st p s) by done.
  rewrite (alter_at _ _ p (add_lagrange_basis s (cs_d1 c))) by apply lookup_insert_eq.
  destruct (add_basis_spec s (cs_d1 c)) as (_ & _ & _ & _ & _ & _ & E). rewrite E.
  by rewrite insert_insert_eq.
Qed.

Lemma basis_keeps_points s d : srs_g (add_lagrange_basis s d) = srs_g s.
Proof.
  destruct (lagrange_bases s !! domain_size d) as [b|] eqn:E.
  - by rewrite (add_basis_present s d b).
  - destruct (add_basis_absent s d E) as (b & _ & ->). done.
Qed.

(** C28: creating a prover index. Each side asks kimchi for the constraint system
    of the gates, the tables (no runtime tables rather than an empty list) and
    the sizes; if there is none, the call fails and the reference string is
    untouched. Otherwise the Lagrange basis of the system's domain is added to
    the shared reference string, nothing else changes, and the index holds that
    system and that reference string. Creating the index again gives the same
    index and changes nothing more. OCaml bounds the polynomials by the size of
    the reference string and JavaScript does not: the sides agree exactly as far
    as that bound makes no difference to the system. *)
Theorem index_create_spec st p s gates public prev
    (ctables : list CamlTable) (ccfgs : list CamlCfg)
    (wtables : list (Wasm.WasmPastaFpLookupTable S)) (wcfgs : list (Wasm.WasmPastaFpRuntimeTableCfg S)) :
  st !! p = Some s ->
  0 <= public < 2 ^ 31 -> 0 <= prev < 2 ^ 31 ->
  map table_of_caml ctables = map Wasm.table_of_wasm wtables ->
  map cfg_of_caml ccfgs = map Wasm.cfg_of_wasm wcfgs ->
  let build bound := cs_build gates public prev bound (map table_of_caml ctables)
                       (match ccfgs with [] => None | _ => Some (map cfg_of_caml ccfgs) end) in
  let caml st := Stubs.caml_pasta_fp_plonk_index_create table_of_caml cfg_of_caml st gates public
                   ctables ccfgs prev p in
  let wasm st := Wasm.caml_pasta_fp_plonk_index_create st gates public wtables wcfgs prev p in
  let created (r : outcome (ProverIndex CS Lin Alphas Rest) * store (SRS B)) c :=
    exists x, r = (Ret x, <[p := add_lagrange_basis s (cs_d1 c)]> st) /\ cs x = c /\ srs x = p in
  (match build (Some (srs_max_poly_size s)) with
   | inl c => created (caml st) c /\ caml (snd (caml st)) = caml st
   | inr e => caml st = (Raise (DynError e), st)
   end) /\
  (match build None with
   | inl c => created (wasm st) c /\ wasm (snd (wasm st)) = wasm st
   | inr _ => wasm st = (Raise (JsError "caml_pasta_fp_plonk_index_create: could not create constraint system"), st)
   end) /\
  (build (Some (srs_max_poly_size s)) = build None ->
   is_ret (fst (caml st)) = true -> caml st = wasm st).
Proof.
  intros Hp Hpub Hprev Ht Hc build caml wasm created.
  assert (forall s', srs_g s' = srs_g s -> forall st', st' !! p = Some s' ->
    caml st' = match build (Some (srs_max_poly_size s)) with
               | inl c => finish_index st' p c | inr e => (Raise (DynError e), st') end) as Ecaml.
  { intros s' Hs' st' Hst'. unfold caml, Stubs.caml_pasta_fp_plonk_index_create, rc_deref. rewrite Hst'.
    cbn [expect]. rewrite copy_gates_id, !as_u_id by lia.
    rewrite (max_poly_size_points s' s Hs'). unfold build, runtime_option. by destruct ccfgs. }
  assert (forall st', wasm st' = match build None with
               | inl c => finish_index st' p c
               | inr _ => (Raise (JsError "caml_pasta_fp_plonk_index_create: could not create constraint system"), st')
               end) as Ewasm.
  { intros st'. unfold wasm, Wasm.caml_pasta_fp_plonk_index_create.
    rewrite copy_gates_id, !as_u_id by lia. rewrite <-Ht, <-Hc. unfold build, runtime_option. by destruct ccfgs. }
  assert (forall c, created (finish_index st p c) c) as Hf by (intros c; by apply finish_index_spec).
  split; [|split].
  - rewrite (Ecaml s eq_refl st Hp). destruct (build (Some _)) as [c|e]; [|done].
    split; [apply Hf|]. destruct (finish_index_spec st p s c Hp) as (x & E & _).
    rewrite (Ecaml (add_lagrange_basis s (cs_d1 c)));
      [by apply (finish_index_again st p s)|apply basis_keeps_points|].
    rewrite E. apply lookup_insert_eq.
  - rewrite !Ewasm. destruct (build None) as [c|e]; [|done].
    split; [apply Hf|]. by apply (finish_index_again st p s).
  - intros E. rewrite (Ecaml s eq_refl st Hp), Ewasm, E. by destruct (build None).
Qed.

(** Indexes on disk. Both sides append the bytes of an index to an existing
    file, also when nothing is said about appending; a missing file is an error,
    and so is asking not to append. Reading at the place where the index was
    written gives an index with the same constraint system, attached to the
    reference string of the reader and with its linearization recomputed from
    the system's feature flags, whatever was written after it; without an offset
    the start of the file is read. JavaScript's encoding to bytes and back gives
    that same index. *)
Theorem index_persistence (fs : files) path content (x : ProverIndex CS Lin Alphas Rest) w tail p append q :
  index_serialize x = inl w -> fs !! path = Some content ->
  Z.of_nat (length content) < 2 ^ 31 ->
  let at_end := Some (Z.of_nat (length content)) in
  let fs' := <[path := content ++ w]> fs in
  let later := <[path := content ++ w ++ tail]> fs in
  (append <> Some false -> Stubs.caml_pasta_fp_plonk_index_write fs append x path = Ret fs' /\
                           Wasm.caml_pasta_fp_plonk_index_write fs append x path = Ret fs') /\
  (append = Some false \/ fs !! q = None ->
     Stubs.caml_pasta_fp_plonk_index_write fs append x q
       = Raise (Invalid_argument "caml_pasta_fp_plonk_index_write") /\
     Wasm.caml_pasta_fp_plonk_index_write fs append x q
       = Raise (JsError "caml_pasta_fp_plonk_index_write")) /\
  (exists y, Stubs.caml_pasta_fp_plonk_index_read later at_end p path = Ret y /\
     Wasm.caml_pasta_fp_plonk_index_read later at_end p path = Ret y /\
     cs y = cs x /\ srs y = p /\
     (linearization y, powers_of_alpha y) = expr_linearization (cs_feature_flags (cs x)) true) /\
  (exists y, Wasm.caml_pasta_fp_plonk_index_encode x = Ret w /\
     Wasm.caml_pasta_fp_plonk_index_decode w p = Ret y /\
     Wasm.caml_pasta_fp_plonk_index_read {[ path := w ]} None p path = Ret y /\
     cs y = cs x /\ srs y = p /\
     (linearization y, powers_of_alpha y) = expr_linearization (cs_feature_flags (cs x)) true).
Proof.
  intros Hw Hfs Hlen at_end fs' later.
  assert (forall x', cs x' = cs x -> cs (reattach x' p) = cs x /\ srs (reattach x' p) = p /\
    (linearization (reattach x' p), powers_of_alpha (reattach x' p))
      = expr_linearization (cs_feature_flags (cs x)) true) as Hre.
  { intros x' E. unfold reattach. rewrite E. by destruct (expr_linearization _ _). }
  split; [|split; [|split]].
  - intros Ha. unfold Stubs.caml_pasta_fp_plonk_index_write, Wasm.caml_pasta_fp_plonk_index_write, open_append.
    assert (default true append = true) as -> by (by destruct append as [[]|]).
    rewrite Hfs. cbn [ok_or mbind outcome_bind]. by rewrite Hw.
  - intros Ha. unfold Stubs.caml_pasta_fp_plonk_index_write, Wasm.caml_pasta_fp_plonk_index_write, open_append.
    destruct Ha as [->|Hn]; [done|].
    destruct (default true append); by rewrite ?Hn.
  - destruct (index_deserialize_serialize x w tail Hw) as (x' & Hd & Hc). exists (reattach x' p).
    unfold Stubs.caml_pasta_fp_plonk_index_read, Wasm.caml_pasta_fp_plonk_index_read, later, at_end.
    rewrite lookup_insert_eq. cbn [ok_or mbind outcome_bind].
    unfold seek_start. rewrite as_u_id by lia. rewrite (proj2 (Z.ltb_lt _ _)) by lia.
    rewrite Nat2Z.id, drop_app_length. cbn [ok_or mbind outcome_bind]. rewrite Hd. split; [done|]. split; [done|]. by apply Hre.
  - destruct (index_deserialize_serialize x w [] Hw) as (x' & Hd & Hc). rewrite app_nil_r in Hd.
    exists (reattach x' p).
    unfold Wasm.caml_pasta_fp_plonk_index_encode, Wasm.caml_pasta_fp_plonk_index_decode,
      Wasm.caml_pasta_fp_plonk_index_read.
    rewrite Hw, lookup_singleton_eq. cbn [ok_or mbind outcome_bind]. rewrite Hd.
    split; [done|]. split; [done|]. split; [done|]. by apply Hre.
Qed.
End Properties.

(** ** Witnesses: systems that are their number of public inputs *)

Abbreviation demo_index := (ProverIndex Z FeatureFlags bool Z).
Definition demo_flags : FeatureFlags := VerifierIndex.Stubs.feature_flags demo_evals None.
Definition z_byte (z : Z) : byte := byte_of z.
#[local] Instance demo_ops : IndexOps unit Z N Z Z FeatureFlags bool Z := {|
  cs_build gates public prev bound tables cfgs :=
    if (0 <? Z.of_nat (length gates)) then inl public else inr "no gates"%string;
  cs_public c := c;
  cs_d1 _ := 4%N; cs_d4 _ := 16%N; cs_d8 _ := 32%N;
  cs_feature_flags _ := demo_flags;
  srs_max_poly_size s := Z.of_nat (length (srs_g s));
  srs_max_degree s := Z.of_nat (length (srs_g s));
  index_new c e p s := {| cs := c; srs := p; linearization := demo_flags; powers_of_alpha := false; rest := e |};
  compute_verifier_index_digest x := x;
  index_serialize x :=
    if (0 <=? cs x) && (cs x <? 256) then inl [z_byte (cs x)] else inr "too large"%string;
  index_deserialize l :=
    match l with
    | b :: _ => inl {| cs := byte_val b; srs := 1%positive; linearization := demo_flags;
                       powers_of_alpha := false; rest := 0 |}
    | [] => inr "end of file"%string
    end;
|}.
#[local] Instance demo_ops_laws : IndexLaws demo_ops.
Proof.
  constructor.
  - done.
  - done.
  - by intros s s' E; cbn; rewrite E.
  - intros x w tail. cbn [index_serialize demo_ops].
    destruct (Z.leb_spec 0 (cs x)), (Z.ltb_spec (cs x) 256); try done. intros [= <-].
    eexists. split; [reflexivity|]. cbn [cs]. unfold z_byte. rewrite byte_val_of.
    apply as_u_id. change (2 ^ 8) with 256. lia.
Qed.

(** One gate, three public inputs, the reference string of two points at 1. *)
Lemma index_create_spec_witness :
  let gate : CircuitGate Z Z := {| typ := 1; wires := []; coeffs := [] |} in
  let caml := Stubs.caml_pasta_fp_plonk_index_create (O := demo_srs) (K := demo_kimchi) (I := demo_ops)
    (fun t : LookupTable Z => t) (fun c : RuntimeTableCfg Z => c) u_store [gate] 3 [] [] 0 1%positive in
  exists x, caml = (Ret x, <[1%positive := @add_lagrange_basis _ _ _ demo_srs u_srs 4%N]> u_store) /\ cs x = 3 /\
    Wasm.caml_pasta_fp_plonk_index_create (O := demo_srs) (K := demo_kimchi) (I := demo_ops)
      u_store [gate] 3 [] [] 0 1%positive = caml.
Proof.
  intros gate caml.
  destruct (index_create_spec (O := demo_srs) (SL := demo_srs_laws) (K := demo_kimchi) (I := demo_ops)
    (fun t : LookupTable Z => t) (fun c : RuntimeTableCfg Z => c) u_store 1%positive u_srs [gate] 3 0 [] [] [] [])
    as ((Hc & _) & _ & He); [reflexivity|lia|lia|reflexivity|reflexivity|].
  destruct Hc as (x & Hx & Hcs & _). exists x. split; [exact Hx|]. split; [exact Hcs|].
  symmetry. apply He; [reflexivity|]. unfold caml in Hx. reflexivity.
Defined.

(** An index of five inputs after two bytes of a file and before one more. *)
Lemma index_persistence_witness :
  let x : demo_index := {| cs := 5; srs := 3%positive; linearization := demo_flags; powers_of_alpha := true; rest := 0 |} in
  let fs : files := {[ "f"%string := [byte_of 9; byte_of 9] ]} in
  exists y, Stubs.caml_pasta_fp_plonk_index_read (K := demo_kimchi) (I := demo_ops)
    (<["f"%string := [byte_of 9; byte_of 9; byte_of 5; byte_of 7]]> fs) (Some 2) 8%positive "f" = Ret y /\
    cs y = 5 /\ srs y = 8%positive.
Proof.
  intros x fs.
  destruct (index_persistence (K := demo_kimchi) (I := demo_ops) fs "f" [byte_of 9; byte_of 9] x
    [byte_of 5] [byte_of 7] 8%positive None "g") as (_ & _ & (y & Hy & _ & Hc & Hs & _) & _);
    [reflexivity|reflexivity|cbn; lia|].
  exists y. split; [exact Hy|]. split; [exact Hc|exact Hs].
Defined.
