(* ===== verification/PlonkFq.v ===== *)
(** * The instances over Pallas of indexes and proofs

    The fq files: [StubsIndex] models stubs/src/pasta_fq_plonk_index.rs,
    [WasmIndex] wasm/src/pasta_fq_plonk_index.rs, [StubsVerifierIndex]
    stubs/src/pasta_fq_plonk_verifier_index.rs and [StubsProof]
    stubs/src/pasta_fq_plonk_proof.rs (under
    src/src/lib/crypto/kimchi_bindings).  They repeat the fp files with the curves
    exchanged, so the points [B], scalars [S] and classes of kimchi are those of
    the other files at another instance; what differs besides the names is
    stated at the end. *)

From Stdlib Require Import ZArith Lia.
From stdpp Require Import base list strings gmap.
From S2P Require Import Prelude Crates Reference GateVector FieldVector.
From S2P Require Import Curves Srs VerifierIndex ProverProof PlonkIndex.

Module StubsIndex.
Section StubsIndex.
Context {B S D GT CS Lin Alphas Vanish Rest : Type}.
Context {O : SrsOps B S D} {K : Kimchi B S D Lin Alphas Vanish} {I : IndexOps B S D GT CS Lin Alphas Rest}.
Abbreviation PX := (ProverIndex CS Lin Alphas Rest).
(** kimchi's conversions of the OCaml tables. *)
Context {CamlLookupTable CamlRuntimeTableCfg : Type}
  (table_of_caml : CamlLookupTable -> LookupTable S)
  (cfg_of_caml : CamlRuntimeTableCfg -> RuntimeTableCfg S).

Definition caml_pasta_fq_plonk_index_create (st : store (SRS B)) (gates : list (CircuitGate GT S))
    (public : Z) (lookup_tables : list CamlLookupTable) (runtime_tables : list CamlRuntimeTableCfg)
    (prev_challenges : Z) (srs : ptr) : outcome PX * store (SRS B) :=
  let gates := copy_gates gates in
  let runtime_tables := map cfg_of_caml runtime_tables in
  let lookup_tables := map table_of_caml lookup_tables in
  match cs_build gates (as_u64 public) (as_u64 prev_challenges) None
          lookup_tables (runtime_option runtime_tables) with
  | inr e => (Raise (DynError e), st)
  | inl cs => finish_index st srs cs
  end.

Definition caml_pasta_fq_plonk_index_max_degree (st : store (SRS B)) (index : PX) : outcome Z :=
  s ← rc_deref st (srs index); Ret (as_i64 (srs_max_degree s)).
Definition caml_pasta_fq_plonk_index_public_inputs (index : PX) : Z := as_i64 (cs_public (cs index)).
Definition caml_pasta_fq_plonk_index_domain_d1_size (index : PX) : Z := as_i64 (domain_size (cs_d1 (cs index))).
Definition caml_pasta_fq_plonk_index_domain_d4_size (index : PX) : Z := as_i64 (domain_size (cs_d4 (cs index))).
Definition caml_pasta_fq_plonk_index_domain_d8_size (index : PX) : Z := as_i64 (domain_size (cs_d8 (cs index))).

Definition caml_pasta_fq_plonk_index_read (fs : files) (offset : option Z) (srs : ptr) (path : string)
    : outcome PX :=
  content ← ok_or (Invalid_argument "caml_pasta_fq_plonk_index_read") (fs !! path);
  r ← (match offset with
       | Some offset => ok_or (DynError "seek error") (seek_start content (as_u64 offset))
       | None => Ret content
       end);
  match index_deserialize r with
  | inl t => Ret (reattach t srs)
  | inr e => Raise (DynError e)
  end.
Definition caml_pasta_fq_plonk_index_write (fs : files) (append : option bool) (index : PX) (path : string)
    : outcome files :=
  content ← ok_or (Invalid_argument "caml_pasta_fq_plonk_index_write") (open_append fs append path);
  match index_serialize index with
  | inl w => Ret (<[path := content ++ w]> fs)
  | inr e => Raise (DynError e)
  end.
End StubsIndex.
End StubsIndex.

Module WasmIndex.
Section WasmIndex.
Context {B S D GT CS Lin Alphas Vanish Rest : Type}.
Context {O : SrsOps B S D} {K : Kimchi B S D Lin Alphas Vanish} {I : IndexOps B S D GT CS Lin Alphas Rest}.
Abbreviation PX := (ProverIndex CS Lin Alphas Rest).

Record WasmPastaFqLookupTable : Type := { wlt_id : Z; wlt_data : list (list S) }.
Definition table_of_wasm (wasm_lt : WasmPastaFqLookupTable) : LookupTable S :=
  Build_LookupTable (wlt_id wasm_lt) (wlt_data wasm_lt).
Record WasmPastaFqRuntimeTableCfg : Type := { wrt_id : Z; wrt_first_column : list S }.
Definition cfg_of_wasm (cfg : WasmPastaFqRuntimeTableCfg) : RuntimeTableCfg S :=
  Build_RuntimeTableCfg (wrt_id cfg) (wrt_first_column cfg).

(** No [max_poly_size] is passed here. *)
Definition caml_pasta_fq_plonk_index_create (st : store (SRS B)) (gates : list (CircuitGate GT S))
    (public_ : Z) (lookup_tables : list WasmPastaFqLookupTable)
    (runtime_table_cfgs : list WasmPastaFqRuntimeTableCfg) (prev_challenges : Z) (srs : ptr)
    : outcome PX * store (SRS B) :=
  let gates := copy_gates gates in
  let rust_runtime_table_cfgs := map cfg_of_wasm runtime_table_cfgs in
  let rust_lookup_tables := map table_of_wasm lookup_tables in
  match cs_build gates (as_u32 public_) (as_u32 prev_challenges) None
          rust_lookup_tables (runtime_option rust_runtime_table_cfgs) with
  | inr _ => (Raise (JsError "caml_pasta_fq_plonk_index_create: could not create constraint system"), st)
  | inl cs => finish_index st srs cs
  end.

Definition caml_pasta_fq_plonk_index_max_degree (st : store (SRS B)) (index : PX) : outcome Z :=
  s ← rc_deref st (srs index); Ret (as_i32 (srs_max_degree s)).
Definition caml_pasta_fq_plonk_index_public_inputs (index : PX) : Z := as_i32 (cs_public (cs index)).
Definition caml_pasta_fq_plonk_index_domain_d1_size (index : PX) : Z := as_i32 (domain_size (cs_d1 (cs index))).
Definition caml_pasta_fq_plonk_index_domain_d4_size (index : PX) : Z := as_i32 (domain_size (cs_d4 (cs index))).
Definition caml_pasta_fq_plonk_index_domain_d8_size (index : PX) : Z := as_i32 (domain_size (cs_d8 (cs index))).

Definition caml_pasta_fq_plonk_index_decode (bytes : list byte) (srs : ptr) : outcome PX :=
  match index_deserialize bytes with
  | inl index => Ret (reattach index srs)
  | inr e => Raise (JsError ("caml_pasta_fq_plonk_index_decode: " ++ e)%string)
  end.
Definition caml_pasta_fq_plonk_index_encode (index : PX) : outcome (list byte) :=
  match index_serialize index with
  | inl buffer => Ret buffer
  | inr e => Raise (JsError ("caml_pasta_fq_plonk_index_encode: " ++ e)%string)
  end.
Definition caml_pasta_fq_plonk_index_read (fs : files) (offset : option Z) (srs : ptr) (path : string)
    : outcome PX :=
  content ← ok_or (JsError "caml_pasta_fq_plonk_index_read") (fs !! path);
  r ← (match offset with
       | Some offset =>
           ok_or (JsError "caml_pasta_fq_plonk_index_read: seek error") (seek_start content (as_u64 offset))
       | None => Ret content
       end);
  match index_deserialize r with
  | inl t => Ret (reattach t srs)
  | inr e => Raise (JsError ("caml_pasta_fq_plonk_index_read: " ++ e)%string)
  end.
Definition caml_pasta_fq_plonk_index_write (fs : files) (append : option bool) (index : PX) (path : string)
    : outcome files :=
  content ← ok_or (JsError "caml_pasta_fq_plonk_index_write") (open_append fs append path);
  match index_serialize index with
  | inl w => Ret (<[path := content ++ w]> fs)
  | inr e => Raise (JsError ("caml_pasta_fq_plonk_index_read: " ++ e)%string)
  end.
(** [base64], of the base64 crate, after [unwrap]. *)
Definition caml_pasta_fq_plonk_index_serialize (base64 : list byte -> list byte) (index : PX)
    : outcome (list byte) :=
  match index_serialize index with
  | inl serialized => Ret (base64 serialized)
  | inr _ => Panic "called `Result::unwrap()` on an `Err` value"
  end.
End WasmIndex.
Arguments WasmPastaFqLookupTable : clear implicits.
Arguments WasmPastaFqRuntimeTableCfg : clear implicits.
End WasmIndex.

Module StubsVerifierIndex.
Import VerifierIndex.Stubs.
Section StubsVerifierIndex.
Context {B S D P Lin Alphas Vanish : Type}.
Context {O : SrsOps B S D} {K : Kimchi B S D Lin Alphas Vanish} {G : Curve B S P}.
Abbreviation VI := (VerifierIndex B S D Lin Alphas Vanish).

Abbreviation CamlPolyComm := (VerifierIndex.Stubs.CamlPolyComm B).
Abbreviation CamlPlonkVerifierIndex := (VerifierIndex.Stubs.CamlPlonkVerifierIndex B S).
Context (pc_to_caml : PolyComm B -> CamlPolyComm) (pc_of_caml : CamlPolyComm -> outcome (PolyComm B)).

(** [From<VerifierIndex>] *)
Definition caml_of_vi (vi : VI) : CamlPlonkVerifierIndex := {|
  ci_domain := {| caml_log_size_of_group := as_i64 (log_size_of_group (vi_domain vi));
                  caml_group_gen := group_gen (vi_domain vi) |};
  ci_max_poly_size := as_i64 (vi_max_poly_size vi);
  ci_public := as_i64 (vi_public vi);
  ci_prev_challenges := as_i64 (vi_prev_challenges vi);
  ci_srs := vi_srs vi;
  ci_evals := map_evals pc_to_caml (vi_evals vi);
  ci_shifts := vi_shift vi;
  ci_lookup_index := caml_of_lookup_index pc_to_caml <$> vi_lookup_index vi;
  ci_zk_rows := as_i64 (vi_zk_rows vi) |}.

Definition feature_flags {PC} (evals : PlonkVerificationEvals PC)
    (li : option (LookupVerifierIndex PC CamlLookupInfo)) : FeatureFlags := {|
  ff_range_check0 := is_some (range_check0_comm evals);
  ff_range_check1 := is_some (range_check1_comm evals);
  ff_foreign_field_add := is_some (foreign_field_add_comm evals);
  ff_foreign_field_mul := is_some (foreign_field_mul_comm evals);
  ff_rot := is_some (rot_comm evals);
  ff_xor := is_some (xor_comm evals);
  lookup_features := match li with
                     | Some li => caml_features (lookup_info li)
                     | None => no_lookups
                     end |}.

(** [From<CamlPastaFqPlonkVerifierIndex>] *)
Definition vi_of_caml (overflow_checks : bool) (index : CamlPlonkVerifierIndex) : outcome VI :=
  let evals := ci_evals index in
  n ← shl_one overflow_checks 64 (caml_log_size_of_group (ci_domain index));
  domain ← expect "wrong size" (domain_new n);
  coefficients ← collect pc_of_caml (coefficients_comm evals);
  coefficients ← expect_array COLUMNS "wrong size" coefficients;
  sigma ← collect pc_of_caml (sigma_comm evals);
  sigma ← expect_array PERMUTS "vector of sigma comm is of wrong size" sigma;
  shift ← expect_array PERMUTS "wrong size" (ci_shifts index);
  let flags := feature_flags evals (ci_lookup_index index) in
  let '(linearization, powers_of_alpha) := expr_linearization flags true in
  evals ← collect_evals pc_of_caml evals sigma coefficients;
  li ← option_all (lookup_index_of_caml pc_of_caml) (ci_lookup_index index);
  Ret {|
    vi_domain := domain;
    vi_max_poly_size := as_u64 (ci_max_poly_size index);
    vi_public := as_u64 (ci_public index);
    vi_prev_challenges := as_u64 (ci_prev_challenges index);
    vi_powers_of_alpha := powers_of_alpha;
    vi_srs := ci_srs index;
    vi_zk_rows := as_u64 (ci_zk_rows index);
    vi_evals := evals;
    vi_shift := shift;
    vi_vanishing := Some (permutation_vanishing_polynomial domain (as_u64 (ci_zk_rows index)));
    vi_w := Some (zk_w domain (as_u64 (ci_zk_rows index)));
    vi_endo := index_endo;
    vi_lookup_index := li;
    vi_linearization := linearization |}.

Definition read_raw (fs : files) (offset : option Z) (srs : ptr) (path : string) : outcome VI :=
  ok_or (Invalid_argument "caml_pasta_fq_plonk_verifier_index_raw_read")
    (from_file fs srs path (as_u64 <$> offset) index_endo).
Definition caml_pasta_fq_plonk_verifier_index_read (fs : files) (offset : option Z) (srs : ptr) (path : string)
    : outcome CamlPlonkVerifierIndex :=
  vi ← read_raw fs offset srs path; Ret (caml_of_vi vi).
Definition caml_pasta_fq_plonk_verifier_index_write (overflow_checks : bool) (fs : files) (append : option bool)
    (index : CamlPlonkVerifierIndex) (path : string) : outcome files :=
  index ← vi_of_caml overflow_checks index;
  ok_or (Invalid_argument "caml_pasta_fq_plonk_verifier_index_raw_read") (to_file fs index path append).
Definition caml_pasta_fq_plonk_verifier_index_create (st : store (SRS B))
    (index : ProverIndexView B S D Lin Alphas Vanish) : CamlPlonkVerifierIndex * store (SRS B) :=
  let st := alter (fun s => add_lagrange_basis s (pi_d1 index)) (pi_srs index) st in
  (caml_of_vi (pi_verifier_index index), st).
Definition caml_pasta_fq_plonk_verifier_index_shifts (overflow_checks : bool) (log2_size : Z)
    : outcome (list S) :=
  n ← shl_one overflow_checks 64 log2_size;
  domain ← expect "called `Option::unwrap()` on a `None` value" (domain_new n);
  Ret (shifts_new domain).

Definition dummy_comm : CamlPolyComm :=
  let g := Curves.Stubs.caml_of_affine generator in {| shifted := None; unshifted := [g; g; g] |}.
Definition caml_pasta_fq_plonk_verifier_index_dummy (st : store (SRS B))
    : CamlPlonkVerifierIndex * store (SRS B) :=
  let '(srs, st) := rc_new st (srs_create 0) in
  ({| ci_domain := {| caml_log_size_of_group := 1; caml_group_gen := fr_one |};
      ci_max_poly_size := 0; ci_public := 0; ci_prev_challenges := 0;
      ci_srs := srs;
      ci_evals := {| sigma_comm := replicate PERMUTS dummy_comm;
                     coefficients_comm := replicate COLUMNS dummy_comm;
                     generic_comm := dummy_comm; psm_comm := dummy_comm; complete_add_comm := dummy_comm;
                     mul_comm := dummy_comm; emul_comm := dummy_comm; endomul_scalar_comm := dummy_comm;
                     xor_comm := None; range_check0_comm := None; range_check1_comm := None;
                     foreign_field_add_comm := None; foreign_field_mul_comm := None; rot_comm := None |};
      ci_shifts := replicate (PERMUTS - 1) fr_one;
      ci_lookup_index := None;
      ci_zk_rows := 3 |}, st).
Definition caml_pasta_fq_plonk_verifier_index_deep_copy (x : CamlPlonkVerifierIndex) : CamlPlonkVerifierIndex := x.
End StubsVerifierIndex.
End StubsVerifierIndex.

Module StubsProof.
Section StubsProof.
Context {B S D P Lin Alphas Vanish PI : Type}.
Context {O : SrsOps B S D} {K : Kimchi B S D Lin Alphas Vanish} {G : Curve B S P}.
Context {R : Prover B S D Lin Alphas Vanish PI}.
(** Conversions of the kimchi and poly_commitment crates. *)
Context (pc_of_caml : VerifierIndex.Stubs.CamlPolyComm B -> outcome (PolyComm B)).
Context {CamlProof CamlTable : Type} (caml_of_proof : ProverProof B S * list S -> CamlProof)
  (proof_of_caml : CamlProof -> outcome (ProverProof B S * list S))
  (table_of_caml : CamlTable -> RuntimeTable S).

(** The shared field vectors of the witness, cloned. *)
Definition read_witness (vs : store (list S)) (witness : list ptr) : outcome (list (list S)) :=
  collect (rc_deref vs) witness.
(** [try_into().expect(..)]: a panic where the fp file has an error. *)
Definition witness_columns (witness : list (list S)) : outcome (list (list S)) :=
  expect_array COLUMNS "the witness should be a column of 15 vectors" witness.

Definition caml_pasta_fq_plonk_proof_create (vs : store (list S)) (st : store (SRS B)) (index : PI)
    (witness : list ptr) (runtime_tables : list CamlTable) (prev_challenges : list S)
    (prev_sgs : list (Curves.Stubs.CamlGroupAffine B)) : outcome CamlProof * store (SRS B) :=
  let st := alter (fun s => add_lagrange_basis s (px_d1 index)) (px_srs index) st in
  (prev ← split_prev prev_challenges (map Curves.Stubs.affine_of_caml prev_sgs);
   witness ← read_witness vs witness;
   witness ← witness_columns witness;
   let runtime_tables := map table_of_caml runtime_tables in
   public_input ← public_of_witness witness (px_public index);
   proof ← create_recursive witness runtime_tables index prev;
   Ret (caml_of_proof (proof, public_input)), st).

Definition caml_pasta_fq_plonk_proof_verify (overflow_checks : bool)
    (index : VerifierIndex.Stubs.CamlPlonkVerifierIndex B S) (proof : CamlProof) : outcome bool :=
  '(proof, public_input) ← proof_of_caml proof;
  verifier_index ← StubsVerifierIndex.vi_of_caml pc_of_caml overflow_checks index;
  Ret (batch_verify [(verifier_index, proof, public_input)]).

Definition caml_pasta_fq_plonk_proof_batch_verify (overflow_checks : bool)
    (indexes : list (VerifierIndex.Stubs.CamlPlonkVerifierIndex B S)) (proofs : list CamlProof) : outcome bool :=
  ts ← collect (fun '(caml_index, caml_proof) =>
           verifier_index ← StubsVerifierIndex.vi_of_caml pc_of_caml overflow_checks caml_index;
           '(proof, public_input) ← proof_of_caml caml_proof;
           Ret (verifier_index, proof, public_input)) (zip indexes proofs);
  Ret (batch_verify ts).

Definition caml_pasta_fq_plonk_proof_deep_copy (x : CamlProof) : CamlProof := x.

(** Before kimchi converts it. *)
Definition caml_pasta_fq_plonk_proof_dummy : ProverProof B S * list S :=
  dummy_proof fr_one generator (Some (dummy_eval fr_one)).
End StubsProof.
End StubsProof.

(** ** Properties *)

Section Properties.
Context {B S D P GT CS Lin Alphas Vanish Rest PI : Type}.
Context {O : SrsOps B S D} {K : Kimchi B S D Lin Alphas Vanish} {G : Curve B S P}.
Context {I : IndexOps B S D GT CS Lin Alphas Rest} {R : Prover B S D Lin Alphas Vanish PI}.
Context {CamlTable CamlCfg CamlProof CamlRuntimeTable : Type}.
Context (table_of_caml : CamlTable -> LookupTable S) (cfg_of_caml : CamlCfg -> RuntimeTableCfg S).
Context (pc_to_caml : PolyComm B -> VerifierIndex.Stubs.CamlPolyComm B)
  (pc_of_caml : VerifierIndex.Stubs.CamlPolyComm B -> outcome (PolyComm B)).
Context (caml_of_proof : ProverProof B S * list S -> CamlProof)
  (proof_of_caml : CamlProof -> outcome (ProverProof B S * list S))
  (runtime_of_caml : CamlRuntimeTable -> RuntimeTable S).
Implicit Types (st : store (SRS B)) (gates : list (CircuitGate GT S)).

(** Prover indexes over Pallas. Unlike over Vesta, both sides build the
    same system on every input: neither bounds the polynomials by the reference
    string. They return the same index and reference strings, or fail
    together and change nothing. The Vesta instance of the OCaml side returns
    what this one returns whenever its bound makes no difference to the system,
    and otherwise what kimchi builds under the bound. *)
Theorem fq_index_create_spec st p s gates public prev
    (ctables : list CamlTable) (ccfgs : list CamlCfg)
    (wtables : list (WasmIndex.WasmPastaFqLookupTable S)) (wcfgs : list (WasmIndex.WasmPastaFqRuntimeTableCfg S)) :
  st !! p = Some s ->
  0 <= public < 2 ^ 31 -> 0 <= prev < 2 ^ 31 ->
  map table_of_caml ctables = map WasmIndex.table_of_wasm wtables ->
  map cfg_of_caml ccfgs = map WasmIndex.cfg_of_wasm wcfgs ->
  let build bound := cs_build gates public prev bound (map table_of_caml ctables)
                       (match ccfgs with [] => None | _ => Some (map cfg_of_caml ccfgs) end) in
  let caml := StubsIndex.caml_pasta_fq_plonk_index_create table_of_caml cfg_of_caml st gates public
                ctables ccfgs prev p in
  let wasm := WasmIndex.caml_pasta_fq_plonk_index_create st gates public wtables wcfgs prev p in
  let vesta := PlonkIndex.Stubs.caml_pasta_fp_plonk_index_create table_of_caml cfg_of_caml st gates public
                 ctables ccfgs prev p in
  match build None with
  | inl c => caml = finish_index st p c /\ wasm = caml
  | inr e => caml = (Raise (DynError e), st) /\
      wasm = (Raise (JsError "caml_pasta_fq_plonk_index_create: could not create constraint system"), st)
  end /\
  vesta = match build (Some (srs_max_poly_size s)) with
          | inl c => finish_index st p c
          | inr e => (Raise (DynError e), st)
          end /\
  (build (Some (srs_max_poly_size s)) = build None -> vesta = caml).
Proof.
  intros Hp Hpub Hprev Ht Hc build caml wasm vesta.
  assert (caml = match build None with
                 | inl c => finish_index st p c | inr e => (Raise (DynError e), st) end) as Ecaml.
  { unfold caml, StubsIndex.caml_pasta_fq_plonk_index_create.
    rewrite copy_gates_id, !as_u_id by lia. unfold build, runtime_option. by destruct ccfgs. }
  assert (vesta = match build (Some (srs_max_poly_size s)) with
                  | inl c => finish_index st p c | inr e => (Raise (DynError e), st) end) as Evesta.
  { unfold vesta, PlonkIndex.Stubs.caml_pasta_fp_plonk_index_create, rc_deref. rewrite Hp. cbn [expect].
    rewrite copy_gates_id, !as_u_id by lia. unfold build, runtime_option. by destruct ccfgs. }
  split; [|split; [done|intros E; by rewrite Evesta, Ecaml, E]].
  rewrite Ecaml. unfold wasm, WasmIndex.caml_pasta_fq_plonk_index_create.
  rewrite copy_gates_id, !as_u_id by lia. rewrite <-Ht, <-Hc. unfold build, runtime_option.
  by destruct ccfgs; cbn [map]; destruct (cs_build _ _ _ _ _ _).
Qed.

(** The other functions of the Pallas instance do what those of the Vesta
    instance do, on the same curve data: converting, creating and reading
    verifier indexes, their shifts and dummy, verifying alone and in batches,
    with messages of their own. Creating a proof agrees for witnesses of 15
    columns; with another number the Vesta instance returns an error, while
    this one panics. The basis is added to the reference string in either
    case. *)
Theorem fq_instance_spec overflow_checks (vs : store (list S)) st (index : PI) witness ws tables chals sgs prev :
  StubsVerifierIndex.vi_of_caml pc_of_caml overflow_checks
    = VerifierIndex.Stubs.vi_of_caml pc_of_caml overflow_checks /\
  StubsVerifierIndex.caml_of_vi pc_to_caml = VerifierIndex.Stubs.caml_of_vi pc_to_caml /\
  StubsVerifierIndex.caml_pasta_fq_plonk_verifier_index_create pc_to_caml st
    = VerifierIndex.Stubs.caml_pasta_fp_plonk_verifier_index_create pc_to_caml st /\
  StubsVerifierIndex.caml_pasta_fq_plonk_verifier_index_shifts overflow_checks
    = VerifierIndex.Stubs.caml_pasta_fp_plonk_verifier_index_shifts overflow_checks /\
  StubsVerifierIndex.caml_pasta_fq_plonk_verifier_index_dummy st
    = VerifierIndex.Stubs.caml_pasta_fp_plonk_verifier_index_dummy st /\
  (forall fs offset srs path,
     StubsVerifierIndex.caml_pasta_fq_plonk_verifier_index_read pc_to_caml fs offset srs path =
     map_err (fun _ => Invalid_argument "caml_pasta_fq_plonk_verifier_index_raw_read")
       (VerifierIndex.Stubs.caml_pasta_fp_plonk_verifier_index_read pc_to_caml fs offset srs path)) /\
  StubsProof.caml_pasta_fq_plonk_proof_verify pc_of_caml proof_of_caml overflow_checks
    = ProverProof.Stubs.caml_pasta_fp_plonk_proof_verify pc_of_caml proof_of_caml overflow_checks /\
  StubsProof.caml_pasta_fq_plonk_proof_batch_verify pc_of_caml proof_of_caml overflow_checks
    = ProverProof.Stubs.caml_pasta_fp_plonk_proof_batch_verify pc_of_caml proof_of_caml overflow_checks /\
  let pallas := StubsProof.caml_pasta_fq_plonk_proof_create caml_of_proof runtime_of_caml vs st index witness tables chals sgs in
  let vesta := ProverProof.Stubs.caml_pasta_fp_plonk_proof_create caml_of_proof runtime_of_caml vs st index witness tables chals sgs in
  (length witness = COLUMNS -> pallas = vesta) /\
  (length witness <> COLUMNS ->
     split_prev chals (map Curves.Stubs.affine_of_caml sgs) = Ret prev ->
     ProverProof.Stubs.read_witness vs witness = Ret ws ->
     snd pallas = alter (fun s => add_lagrange_basis s (px_d1 index)) (px_srs index) st /\
     fst pallas = Panic "the witness should be a column of 15 vectors" /\
     snd vesta = snd pallas /\
     fst vesta = Raise (Message "the witness should be a column of 15 vectors")).
Proof.
  do 5 (split; [reflexivity|]). split.
  { intros fs offset srs path.
    unfold StubsVerifierIndex.caml_pasta_fq_plonk_verifier_index_read, StubsVerifierIndex.read_raw,
      VerifierIndex.Stubs.caml_pasta_fp_plonk_verifier_index_read, VerifierIndex.Stubs.read_raw.
    by destruct (from_file _ _ _ _ _). }
  do 2 (split; [reflexivity|]). intros pallas vesta.
  unfold pallas, vesta, StubsProof.caml_pasta_fq_plonk_proof_create,
    ProverProof.Stubs.caml_pasta_fp_plonk_proof_create.
  unfold StubsProof.witness_columns, ProverProof.Stubs.witness_columns, expect_array.
  change StubsProof.read_witness with (@ProverProof.Stubs.read_witness S). split.
  - intros Hl. f_equal. destruct (split_prev _ _); [|done|done]. cbn [mbind outcome_bind].
    destruct (ProverProof.Stubs.read_witness vs witness) as [w| |] eqn:E; [|done|done].
    cbn [mbind outcome_bind]. apply collect_length in E. rewrite E, Hl. done.
  - intros Hl Hprev Hw. rewrite Hprev, Hw. cbn [mbind outcome_bind fst snd].
    apply collect_length in Hw. rewrite Hw, (proj2 (Nat.eqb_neq _ _) Hl). done.
Qed.
End Properties.

(** ** Witnesses *)

#[local] Existing Instance demo_ops.

(** One gate, three public inputs, the reference string of two points at 1. *)
Lemma fq_index_create_spec_witness :
  let gate : CircuitGate Z Z := {| typ := 1; wires := []; coeffs := [] |} in
  let caml := StubsIndex.caml_pasta_fq_plonk_index_create (O := demo_srs) (K := demo_kimchi) (I := demo_ops)
    (fun t : LookupTable Z => t) (fun c : RuntimeTableCfg Z => c) u_store [gate] 3 [] [] 0 1%positive in
  is_ret (fst caml) = true /\
  WasmIndex.caml_pasta_fq_plonk_index_create (O := demo_srs) (K := demo_kimchi) (I := demo_ops)
    u_store [gate] 3 [] [] 0 1%positive = caml.
Proof.
  intros gate caml.
  destruct (fq_index_create_spec (O := demo_srs) (K := demo_kimchi) (I := demo_ops)
    (fun t : LookupTable Z => t) (fun c : RuntimeTableCfg Z => c) u_store 1%positive u_srs [gate] 3 0 [] [] [] [])
    as ((Hc & Hw) & _); [reflexivity|lia|lia|reflexivity|reflexivity|].
  split; [|exact Hw]. unfold caml. rewrite Hc. reflexivity.
Defined.

(** Fourteen columns. *)
Lemma fq_instance_spec_witness :
  let vs : store (list Z) := {[ 1%positive := [7; 8] ]} in
  is_panic (fst (StubsProof.caml_pasta_fq_plonk_proof_create (O := demo_srs) (G := demo_curve_u)
    (R := demo_prover) (CamlTable := RuntimeTable Z) (fun p => p) (fun t => t)
    vs u_store 1 (replicate 14 1%positive) [] [] [])) = true.
Proof.
  intros vs.
  destruct (fq_instance_spec (O := demo_srs) (K := demo_kimchi) (G := demo_curve_u) (R := demo_prover)
    (CamlRuntimeTable := RuntimeTable Z) (fun _ => VerifierIndex.Stubs.Build_CamlPolyComm [] None)
    (fun _ => Ret []) (fun p => p) (fun _ => Panic "no proof") (fun t => t) true vs u_store 1
    (replicate 14 1%positive) (replicate 14 [7; 8]) [] [] [] [])
    as (_ & _ & _ & _ & _ & _ & _ & _ & _ & H).
  destruct H as (_ & H & _); [by cbn|reflexivity|reflexivity|]. cbv zeta in H. rewrite H. reflexivity.
Defined.
