(* ===== verification/WasmObjects.v ===== *)
(** * The objects JavaScript holds

    wasm_vector.rs, and the constructors, getters and setters that
    plonk_verifier_index.rs, plonk_proof.rs and poly_comm.rs export to
    JavaScript (under src/src/lib/crypto/kimchi_bindings/wasm/src), a module per
    exported class.  Getters clone and setters replace, so an object is a record
    of values.  A class is an instance of [JsClass]: its fields, those it has
    setters for (the compiler makes accessors for the others), and both.  The
    calling convention of wasm-bindgen is the class [WasmAbi]. *)

From Stdlib Require Import ZArith Lia.
From stdpp Require Import base list strings gmap.
From S2P Require Import Prelude Crates Reference FieldVector Curves Srs VerifierIndex IndexFiles ProverProof.

(** ** Vectors of objects *)

(** wasm-bindgen moves a value of [T] to the heap behind a new pointer and takes
    it back from there, [H] being the heap. *)
Class WasmAbi (H T : Type) : Type := {
  into_abi : H -> T -> Z * H;
  from_abi : H -> Z -> outcome (T * H);
  live : H -> gmap Z T;
}.
(** Pointers are fresh and not null; taking an object back frees it; the null
    pointer is refused. *)
Class WasmAbiLaws {H T} (A : WasmAbi H T) : Prop := {
  into_abi_live h x p h' : into_abi h x = (p, h') -> p <> 0 /\ live h !! p = None /\ live h' = <[p := x]> (live h);
  from_abi_live h p x : live h !! p = Some x -> exists h', from_abi h p = Ret (x, h') /\ live h' = delete p (live h);
  from_abi_null h : is_panic (from_abi h 0) = true;
}.

Module WasmVector.
Section WasmVector.
Context {H T : Type} {A : WasmAbi H T}.

(** The array of pointers itself is a [Vec<u32>]. *)
Fixpoint into_abi (h : H) (v : list T) : list Z * H :=
  match v with
  | [] => ([], h)
  | x :: v => let '(p, h) := WasmObjects.into_abi h x in
              let '(ps, h) := into_abi h v in (p :: ps, h)
  end.
Fixpoint from_abi (h : H) (pointers : list Z) : outcome (list T * H) :=
  match pointers with
  | [] => Ret ([], h)
  | p :: pointers =>
      '(x, h) ← WasmObjects.from_abi h p;
      '(v, h) ← from_abi h pointers;
      Ret (x :: v, h)
  end.
End WasmVector.
End WasmVector.

(** [WasmVecVecFpPolyComm], made of commitments converted one by one. *)
Module WasmVecVecPolyComm.
Section WasmVecVecPolyComm.
Context {B : Type}.
Definition create (n : Z) : outcome (list (list (PolyComm B))) :=
  if as_u32 n * 12 <=? 2 ^ 31 - 1 then Ret [] else Panic "capacity overflow".
Definition push (self : list (list (PolyComm B))) (x : list (Curves.Wasm.WasmPolyComm B))
    : outcome (list (list (PolyComm B))) :=
  x ← collect Curves.Wasm.poly_comm_of_wasm x; Ret (self ++ [x]).
End WasmVecVecPolyComm.
End WasmVecVecPolyComm.

(** ** Exported classes *)

Class JsClass (R : Type) : Type := {
  js_field : Type;
  js_field_eq :: EqDecision js_field;
  js_type : js_field -> Type;
  js_get : forall f, R -> js_type f;
  js_wfield : Type;
  js_target : js_wfield -> js_field;
  js_set : forall w, R -> js_type (js_target w) -> R;
}.
(** An object is its fields, and a setter replaces its own. *)
Class JsClassLaws {R} (J : JsClass R) : Prop := {
  js_get_set w r x : js_get (js_target w) (js_set w r x) = x;
  js_get_set_ne w r x f : f <> js_target w -> js_get f (js_set w r x) = js_get f r;
  js_ext r r' : (forall f, js_get f r = js_get f r') -> r = r';
}.
(** For a record with a variant of its fields: by cases on both. *)
Ltac field_eq_by H :=
  first [exact (H ltac:(constructor 1)) | exact (H ltac:(constructor 2)) | exact (H ltac:(constructor 3))
        | exact (H ltac:(constructor 4)) | exact (H ltac:(constructor 5)) | exact (H ltac:(constructor 6))
        | exact (H ltac:(constructor 7)) | exact (H ltac:(constructor 8)) | exact (H ltac:(constructor 9))
        | exact (H ltac:(constructor 10)) | exact (H ltac:(constructor 11)) | exact (H ltac:(constructor 12))
        | exact (H ltac:(constructor 13)) | exact (H ltac:(constructor 14))].
Ltac js_laws :=
  split;
  [ intros [] []; reflexivity
  | intros [] [] x [] Hne; reflexivity || (exfalso; apply Hne; reflexivity)
  | intros [] [] H; f_equal; field_eq_by H ].

Module PolyComm.
Section PolyComm.
Context {B : Type}.
Abbreviation Self := (Curves.Wasm.WasmPolyComm B).


Variant field : Type := F_unshifted | F_shifted.
#[global] Instance field_eq : EqDecision field.
Proof. solve_decision. Defined.
Variant wfield : Type := W_unshifted.
Definition wfield_field (w : wfield) : field :=
  match w with W_unshifted => F_unshifted end.
Definition fty (f : field) : Type :=
  match f with F_unshifted => list (Curves.Wasm.WasmG B) | F_shifted => option (Curves.Wasm.WasmG B) end.
#[global] Instance PolyComm_class : JsClass Self := {|
  js_field := field; js_type := fty;
  js_get f := match f return Self -> fty f with F_unshifted => Curves.Wasm.get_unshifted | F_shifted =>
      Curves.Wasm.shifted end;
  js_wfield := wfield; js_target := wfield_field;
  js_set w := match w return Self -> fty (wfield_field w) -> Self with W_unshifted => Curves.Wasm.set_unshifted end;
|}.
#[global] Instance PolyComm_laws : JsClassLaws PolyComm_class.
Proof. js_laws. Qed.
End PolyComm.
End PolyComm.

Module VerificationEvals.
Section VerificationEvals.
Context {PC : Type}.
Abbreviation Self := (PlonkVerificationEvals PC).

Definition new (sigma_comm coefficients_comm : list PC) (generic_comm psm_comm complete_add_comm mul_comm emul_comm
    endomul_scalar_comm : PC) (xor_comm range_check0_comm range_check1_comm foreign_field_add_comm
    foreign_field_mul_comm rot_comm : option PC) : Self :=
  Build_PlonkVerificationEvals sigma_comm coefficients_comm generic_comm psm_comm complete_add_comm mul_comm emul_comm
      endomul_scalar_comm xor_comm range_check0_comm range_check1_comm foreign_field_add_comm foreign_field_mul_comm
      rot_comm.
Definition sigma_comm (self : Self) : list PC := VerifierIndex.sigma_comm self.
Definition coefficients_comm (self : Self) : list PC := VerifierIndex.coefficients_comm self.
Definition generic_comm (self : Self) : PC := VerifierIndex.generic_comm self.
Definition psm_comm (self : Self) : PC := VerifierIndex.psm_comm self.
Definition complete_add_comm (self : Self) : PC := VerifierIndex.complete_add_comm self.
Definition mul_comm (self : Self) : PC := VerifierIndex.mul_comm self.
Definition emul_comm (self : Self) : PC := VerifierIndex.emul_comm self.
Definition endomul_scalar_comm (self : Self) : PC := VerifierIndex.endomul_scalar_comm self.
Definition xor_comm (self : Self) : option PC := VerifierIndex.xor_comm self.
Definition range_check0_comm (self : Self) : option PC := VerifierIndex.range_check0_comm self.
Definition range_check1_comm (self : Self) : option PC := VerifierIndex.range_check1_comm self.
Definition foreign_field_add_comm (self : Self) : option PC := VerifierIndex.foreign_field_add_comm self.
Definition foreign_field_mul_comm (self : Self) : option PC := VerifierIndex.foreign_field_mul_comm self.
Definition rot_comm (self : Self) : option PC := VerifierIndex.rot_comm self.
Definition set_sigma_comm (self : Self) (x : list PC) : Self :=
  let 'Build_PlonkVerificationEvals _ a1 a2 a3 a4 a5 a6 a7 a8 a9 a10 a11 a12 a13 := self in
      Build_PlonkVerificationEvals x a1 a2 a3 a4 a5 a6 a7 a8 a9 a10 a11 a12 a13.
Definition set_coefficients_comm (self : Self) (x : list PC) : Self :=
  let 'Build_PlonkVerificationEvals a0 _ a2 a3 a4 a5 a6 a7 a8 a9 a10 a11 a12 a13 := self in
      Build_PlonkVerificationEvals a0 x a2 a3 a4 a5 a6 a7 a8 a9 a10 a11 a12 a13.
Definition set_generic_comm (self : Self) (x : PC) : Self :=
  let 'Build_PlonkVerificationEvals a0 a1 _ a3 a4 a5 a6 a7 a8 a9 a10 a11 a12 a13 := self in
      Build_PlonkVerificationEvals a0 a1 x a3 a4 a5 a6 a7 a8 a9 a10 a11 a12 a13.
Definition set_psm_comm (self : Self) (x : PC) : Self :=
  let 'Build_PlonkVerificationEvals a0 a1 a2 _ a4 a5 a6 a7 a8 a9 a10 a11 a12 a13 := self in
      Build_PlonkVerificationEvals a0 a1 a2 x a4 a5 a6 a7 a8 a9 a10 a11 a12 a13.
Definition set_complete_add_comm (self : Self) (x : PC) : Self :=
  let 'Build_PlonkVerificationEvals a0 a1 a2 a3 _ a5 a6 a7 a8 a9 a10 a11 a12 a13 := self in
      Build_PlonkVerificationEvals a0 a1 a2 a3 x a5 a6 a7 a8 a9 a10 a11 a12 a13.
Definition set_mul_comm (self : Self) (x : PC) : Self :=
  let 'Build_PlonkVerificationEvals a0 a1 a2 a3 a4 _ a6 a7 a8 a9 a10 a11 a12 a13 := self in
      Build_PlonkVerificationEvals a0 a1 a2 a3 a4 x a6 a7 a8 a9 a10 a11 a12 a13.
Definition set_emul_comm (self : Self) (x : PC) : Self :=
  let 'Build_PlonkVerificationEvals a0 a1 a2 a3 a4 a5 _ a7 a8 a9 a10 a11 a12 a13 := self in
      Build_PlonkVerificationEvals a0 a1 a2 a3 a4 a5 x a7 a8 a9 a10 a11 a12 a13.
Definition set_endomul_scalar_comm (self : Self) (x : PC) : Self :=
  let 'Build_PlonkVerificationEvals a0 a1 a2 a3 a4 a5 a6 _ a8 a9 a10 a11 a12 a13 := self in
      Build_PlonkVerificationEvals a0 a1 a2 a3 a4 a5 a6 x a8 a9 a10 a11 a12 a13.
Definition set_xor_comm (self : Self) (x : option PC) : Self :=
  let 'Build_PlonkVerificationEvals a0 a1 a2 a3 a4 a5 a6 a7 _ a9 a10 a11 a12 a13 := self in
      Build_PlonkVerificationEvals a0 a1 a2 a3 a4 a5 a6 a7 x a9 a10 a11 a12 a13.
Definition set_range_check0_comm (self : Self) (x : option PC) : Self :=
  let 'Build_PlonkVerificationEvals a0 a1 a2 a3 a4 a5 a6 a7 a8 _ a10 a11 a12 a13 := self in
      Build_PlonkVerificationEvals a0 a1 a2 a3 a4 a5 a6 a7 a8 x a10 a11 a12 a13.
Definition set_range_check1_comm (self : Self) (x : option PC) : Self :=
  let 'Build_PlonkVerificationEvals a0 a1 a2 a3 a4 a5 a6 a7 a8 a9 _ a11 a12 a13 := self in
      Build_PlonkVerificationEvals a0 a1 a2 a3 a4 a5 a6 a7 a8 a9 x a11 a12 a13.
Definition set_foreign_field_add_comm (self : Self) (x : option PC) : Self :=
  let 'Build_PlonkVerificationEvals a0 a1 a2 a3 a4 a5 a6 a7 a8 a9 a10 _ a12 a13 := self in
      Build_PlonkVerificationEvals a0 a1 a2 a3 a4 a5 a6 a7 a8 a9 a10 x a12 a13.
Definition set_foreign_field_mul_comm (self : Self) (x : option PC) : Self :=
  let 'Build_PlonkVerificationEvals a0 a1 a2 a3 a4 a5 a6 a7 a8 a9 a10 a11 _ a13 := self in
      Build_PlonkVerificationEvals a0 a1 a2 a3 a4 a5 a6 a7 a8 a9 a10 a11 x a13.
Definition set_rot_comm (self : Self) (x : option PC) : Self :=
  let 'Build_PlonkVerificationEvals a0 a1 a2 a3 a4 a5 a6 a7 a8 a9 a10 a11 a12 _ := self in
      Build_PlonkVerificationEvals a0 a1 a2 a3 a4 a5 a6 a7 a8 a9 a10 a11 a12 x.
(** The constructor on what the getters of an object return. *)
Definition rebuild (self : Self) : Self :=
  new (sigma_comm self) (coefficients_comm self) (generic_comm self) (psm_comm self) (complete_add_comm self)
      (mul_comm self) (emul_comm self) (endomul_scalar_comm self) (xor_comm self) (range_check0_comm self)
      (range_check1_comm self) (foreign_field_add_comm self) (foreign_field_mul_comm self) (rot_comm self).

Variant field : Type := F_sigma_comm | F_coefficients_comm | F_generic_comm | F_psm_comm | F_complete_add_comm |
    F_mul_comm | F_emul_comm | F_endomul_scalar_comm | F_xor_comm | F_range_check0_comm | F_range_check1_comm |
    F_foreign_field_add_comm | F_foreign_field_mul_comm | F_rot_comm.
#[global] Instance field_eq : EqDecision field.
Proof. solve_decision. Defined.
Definition fty (f : field) : Type :=
  match f with F_sigma_comm => list PC | F_coefficients_comm => list PC | F_generic_comm => PC | F_psm_comm => PC |
      F_complete_add_comm => PC | F_mul_comm => PC | F_emul_comm => PC | F_endomul_scalar_comm => PC | F_xor_comm =>
      option PC | F_range_check0_comm => option PC | F_range_check1_comm => option PC | F_foreign_field_add_comm =>
      option PC | F_foreign_field_mul_comm => option PC | F_rot_comm => option PC end.
#[global] Instance VerificationEvals_class : JsClass Self := {|
  js_field := field; js_type := fty;
  js_get f := match f return Self -> fty f with F_sigma_comm => sigma_comm | F_coefficients_comm => coefficients_comm
      | F_generic_comm => generic_comm | F_psm_comm => psm_comm | F_complete_add_comm => complete_add_comm |
      F_mul_comm => mul_comm | F_emul_comm => emul_comm | F_endomul_scalar_comm => endomul_scalar_comm | F_xor_comm =>
      xor_comm | F_range_check0_comm => range_check0_comm | F_range_check1_comm => range_check1_comm |
      F_foreign_field_add_comm => foreign_field_add_comm | F_foreign_field_mul_comm => foreign_field_mul_comm |
      F_rot_comm => rot_comm end;
  js_wfield := field; js_target := fun f => f;
  js_set w := match w return Self -> fty (w) -> Self with F_sigma_comm => set_sigma_comm | F_coefficients_comm =>
      set_coefficients_comm | F_generic_comm => set_generic_comm | F_psm_comm => set_psm_comm | F_complete_add_comm =>
      set_complete_add_comm | F_mul_comm => set_mul_comm | F_emul_comm => set_emul_comm | F_endomul_scalar_comm =>
      set_endomul_scalar_comm | F_xor_comm => set_xor_comm | F_range_check0_comm => set_range_check0_comm |
      F_range_check1_comm => set_range_check1_comm | F_foreign_field_add_comm => set_foreign_field_add_comm |
      F_foreign_field_mul_comm => set_foreign_field_mul_comm | F_rot_comm => set_rot_comm end;
|}.
#[global] Instance VerificationEvals_laws : JsClassLaws VerificationEvals_class.
Proof. js_laws. Qed.
End VerificationEvals.
End VerificationEvals.

Module LookupSelectors.
Section LookupSelectors.
Context {PC : Type}.
Abbreviation Self := (VerifierIndex.LookupSelectors PC).

Definition new (xor lookup range_check ffmul : option PC) : Self :=
  Build_LookupSelectors xor lookup range_check ffmul.
Definition xor (self : Self) : option PC := ls_xor self.
Definition lookup (self : Self) : option PC := ls_lookup self.
Definition range_check (self : Self) : option PC := ls_range_check self.
Definition ffmul (self : Self) : option PC := ls_ffmul self.
Definition set_xor (self : Self) (x : option PC) : Self :=
  let 'Build_LookupSelectors _ a1 a2 a3 := self in Build_LookupSelectors x a1 a2 a3.
Definition set_lookup (self : Self) (x : option PC) : Self :=
  let 'Build_LookupSelectors a0 _ a2 a3 := self in Build_LookupSelectors a0 x a2 a3.
Definition set_range_check (self : Self) (x : option PC) : Self :=
  let 'Build_LookupSelectors a0 a1 _ a3 := self in Build_LookupSelectors a0 a1 x a3.
Definition set_ffmul (self : Self) (x : option PC) : Self :=
  let 'Build_LookupSelectors a0 a1 a2 _ := self in Build_LookupSelectors a0 a1 a2 x.
(** The constructor on what the getters of an object return. *)
Definition rebuild (self : Self) : Self :=
  new (xor self) (lookup self) (range_check self) (ffmul self).

Variant field : Type := F_xor | F_lookup | F_range_check | F_ffmul.
#[global] Instance field_eq : EqDecision field.
Proof. solve_decision. Defined.
Definition fty (f : field) : Type :=
  match f with F_xor => option PC | F_lookup => option PC | F_range_check => option PC | F_ffmul => option PC end.
#[global] Instance LookupSelectors_class : JsClass Self := {|
  js_field := field; js_type := fty;
  js_get f := match f return Self -> fty f with F_xor => xor | F_lookup => lookup | F_range_check => range_check |
      F_ffmul => ffmul end;
  js_wfield := field; js_target := fun f => f;
  js_set w := match w return Self -> fty (w) -> Self with F_xor => set_xor | F_lookup => set_lookup | F_range_check =>
      set_range_check | F_ffmul => set_ffmul end;
|}.
#[global] Instance LookupSelectors_laws : JsClassLaws LookupSelectors_class.
Proof. js_laws. Qed.
End LookupSelectors.
End LookupSelectors.

Module LookupVerifierIndex.
Section LookupVerifierIndex.
Context {PC LI : Type}.
Abbreviation Self := (VerifierIndex.LookupVerifierIndex PC LI).

Definition new (joint_lookup_used : bool) (lookup_table : list PC) (lookup_selectors : VerifierIndex.LookupSelectors
    PC) (table_ids : option PC) (lookup_info : LI) (runtime_tables_selector : option PC) : Self :=
  Build_LookupVerifierIndex joint_lookup_used lookup_table lookup_selectors table_ids lookup_info
      runtime_tables_selector.
Definition lookup_table (self : Self) : list PC := VerifierIndex.lookup_table self.
Definition lookup_selectors (self : Self) : VerifierIndex.LookupSelectors PC := VerifierIndex.lookup_selectors self.
Definition table_ids (self : Self) : option PC := VerifierIndex.table_ids self.
Definition lookup_info (self : Self) : LI := VerifierIndex.lookup_info self.
Definition runtime_tables_selector (self : Self) : option PC := VerifierIndex.runtime_tables_selector self.
Definition set_lookup_table (self : Self) (x : list PC) : Self :=
  let 'Build_LookupVerifierIndex a0 _ a2 a3 a4 a5 := self in Build_LookupVerifierIndex a0 x a2 a3 a4 a5.
Definition set_lookup_selectors (self : Self) (x : VerifierIndex.LookupSelectors PC) : Self :=
  let 'Build_LookupVerifierIndex a0 a1 _ a3 a4 a5 := self in Build_LookupVerifierIndex a0 a1 x a3 a4 a5.
Definition set_table_ids (self : Self) (x : option PC) : Self :=
  let 'Build_LookupVerifierIndex a0 a1 a2 _ a4 a5 := self in Build_LookupVerifierIndex a0 a1 a2 x a4 a5.
Definition set_lookup_info (self : Self) (x : LI) : Self :=
  let 'Build_LookupVerifierIndex a0 a1 a2 a3 _ a5 := self in Build_LookupVerifierIndex a0 a1 a2 a3 x a5.
Definition set_runtime_tables_selector (self : Self) (x : option PC) : Self :=
  let 'Build_LookupVerifierIndex a0 a1 a2 a3 a4 _ := self in Build_LookupVerifierIndex a0 a1 a2 a3 a4 x.
(** The constructor on what the getters of an object return. *)
Definition rebuild (self : Self) : Self :=
  new (VerifierIndex.joint_lookup_used self) (lookup_table self) (lookup_selectors self) (table_ids self) (lookup_info
      self) (runtime_tables_selector self).

Variant field : Type := F_joint_lookup_used | F_lookup_table | F_lookup_selectors | F_table_ids | F_lookup_info |
    F_runtime_tables_selector.
#[global] Instance field_eq : EqDecision field.
Proof. solve_decision. Defined.
Variant wfield : Type := W_lookup_table | W_lookup_selectors | W_table_ids | W_lookup_info |
    W_runtime_tables_selector.
Definition wfield_field (w : wfield) : field :=
  match w with W_lookup_table => F_lookup_table | W_lookup_selectors => F_lookup_selectors | W_table_ids =>
      F_table_ids | W_lookup_info => F_lookup_info | W_runtime_tables_selector => F_runtime_tables_selector end.
Definition fty (f : field) : Type :=
  match f with F_joint_lookup_used => bool | F_lookup_table => list PC | F_lookup_selectors =>
      VerifierIndex.LookupSelectors PC | F_table_ids => option PC | F_lookup_info => LI | F_runtime_tables_selector =>
      option PC end.
#[global] Instance LookupVerifierIndex_class : JsClass Self := {|
  js_field := field; js_type := fty;
  js_get f := match f return Self -> fty f with F_joint_lookup_used => VerifierIndex.joint_lookup_used |
      F_lookup_table => lookup_table | F_lookup_selectors => lookup_selectors | F_table_ids => table_ids |
      F_lookup_info => lookup_info | F_runtime_tables_selector => runtime_tables_selector end;
  js_wfield := wfield; js_target := wfield_field;
  js_set w := match w return Self -> fty (wfield_field w) -> Self with W_lookup_table => set_lookup_table |
      W_lookup_selectors => set_lookup_selectors | W_table_ids => set_table_ids | W_lookup_info => set_lookup_info |
      W_runtime_tables_selector => set_runtime_tables_selector end;
|}.
#[global] Instance LookupVerifierIndex_laws : JsClassLaws LookupVerifierIndex_class.
Proof. js_laws. Qed.
End LookupVerifierIndex.
End LookupVerifierIndex.

Module PlonkVerifierIndex.
Section PlonkVerifierIndex.
Context {B S : Type}.
Abbreviation Self := (VerifierIndex.Wasm.WasmPlonkVerifierIndex B S).

Definition new (domain : VerifierIndex.Wasm.WasmDomain (S := S)) (max_poly_size public_ prev_challenges : Z) (srs :
    ptr) (evals : PlonkVerificationEvals (Curves.Wasm.WasmPolyComm B)) (shifts : VerifierIndex.Wasm.WasmShifts (S :=
    S)) (lookup_index : option (VerifierIndex.LookupVerifierIndex (Curves.Wasm.WasmPolyComm B) LookupInfo)) (zk_rows :
    Z) : Self :=
  VerifierIndex.Wasm.Build_WasmPlonkVerifierIndex domain max_poly_size public_ prev_challenges srs evals shifts
      lookup_index zk_rows.
Definition srs (self : Self) : ptr := VerifierIndex.Wasm.wi_srs self.
Definition evals (self : Self) : PlonkVerificationEvals (Curves.Wasm.WasmPolyComm B) := VerifierIndex.Wasm.wi_evals
    self.
Definition lookup_index (self : Self) : option (VerifierIndex.LookupVerifierIndex (Curves.Wasm.WasmPolyComm B)
    LookupInfo) := VerifierIndex.Wasm.wi_lookup_index self.
Definition set_srs (self : Self) (x : ptr) : Self :=
  let 'VerifierIndex.Wasm.Build_WasmPlonkVerifierIndex a0 a1 a2 a3 _ a5 a6 a7 a8 := self in
      VerifierIndex.Wasm.Build_WasmPlonkVerifierIndex a0 a1 a2 a3 x a5 a6 a7 a8.
Definition set_evals (self : Self) (x : PlonkVerificationEvals (Curves.Wasm.WasmPolyComm B)) : Self :=
  let 'VerifierIndex.Wasm.Build_WasmPlonkVerifierIndex a0 a1 a2 a3 a4 _ a6 a7 a8 := self in
      VerifierIndex.Wasm.Build_WasmPlonkVerifierIndex a0 a1 a2 a3 a4 x a6 a7 a8.
Definition set_lookup_index (self : Self) (x : option (VerifierIndex.LookupVerifierIndex (Curves.Wasm.WasmPolyComm B)
    LookupInfo)) : Self :=
  let 'VerifierIndex.Wasm.Build_WasmPlonkVerifierIndex a0 a1 a2 a3 a4 a5 a6 _ a8 := self in
      VerifierIndex.Wasm.Build_WasmPlonkVerifierIndex a0 a1 a2 a3 a4 a5 a6 x a8.
(** The constructor on what the getters of an object return. *)
Definition rebuild (self : Self) : Self :=
  new (VerifierIndex.Wasm.wi_domain self) (VerifierIndex.Wasm.wi_max_poly_size self) (VerifierIndex.Wasm.wi_public
      self) (VerifierIndex.Wasm.wi_prev_challenges self) (srs self) (evals self) (VerifierIndex.Wasm.wi_shifts self)
      (lookup_index self) (VerifierIndex.Wasm.wi_zk_rows self).

Variant field : Type := F_domain | F_max_poly_size | F_public_ | F_prev_challenges | F_srs | F_evals | F_shifts |
    F_lookup_index | F_zk_rows.
#[global] Instance field_eq : EqDecision field.
Proof. solve_decision. Defined.
Variant wfield : Type := W_srs | W_evals | W_lookup_index.
Definition wfield_field (w : wfield) : field :=
  match w with W_srs => F_srs | W_evals => F_evals | W_lookup_index => F_lookup_index end.
Definition fty (f : field) : Type :=
  match f with F_domain => VerifierIndex.Wasm.WasmDomain (S := S) | F_max_poly_size => Z | F_public_ => Z |
      F_prev_challenges => Z | F_srs => ptr | F_evals => PlonkVerificationEvals (Curves.Wasm.WasmPolyComm B) |
      F_shifts => VerifierIndex.Wasm.WasmShifts (S := S) | F_lookup_index => option (VerifierIndex.LookupVerifierIndex
      (Curves.Wasm.WasmPolyComm B) LookupInfo) | F_zk_rows => Z end.
#[global] Instance PlonkVerifierIndex_class : JsClass Self := {|
  js_field := field; js_type := fty;
  js_get f := match f return Self -> fty f with F_domain => VerifierIndex.Wasm.wi_domain | F_max_poly_size =>
      VerifierIndex.Wasm.wi_max_poly_size | F_public_ => VerifierIndex.Wasm.wi_public | F_prev_challenges =>
      VerifierIndex.Wasm.wi_prev_challenges | F_srs => srs | F_evals => evals | F_shifts =>
      VerifierIndex.Wasm.wi_shifts | F_lookup_index => lookup_index | F_zk_rows => VerifierIndex.Wasm.wi_zk_rows end;
  js_wfield := wfield; js_target := wfield_field;
  js_set w := match w return Self -> fty (wfield_field w) -> Self with W_srs => set_srs | W_evals => set_evals |
      W_lookup_index => set_lookup_index end;
|}.
#[global] Instance PlonkVerifierIndex_laws : JsClassLaws PlonkVerifierIndex_class.
Proof. js_laws. Qed.
End PlonkVerifierIndex.
End PlonkVerifierIndex.

Module LookupCommitments.
Section LookupCommitments.
Context {PC : Type}.
Abbreviation Self := (ProverProof.LookupCommitments PC).

Definition new (sorted : list PC) (aggreg : PC) (runtime : option PC) : Self :=
  Build_LookupCommitments sorted aggreg runtime.
Definition sorted (self : Self) : list PC := ProverProof.sorted self.
Definition aggreg (self : Self) : PC := ProverProof.aggreg self.
Definition runtime (self : Self) : option PC := ProverProof.runtime self.
Definition set_sorted (self : Self) (x : list PC) : Self :=
  let 'Build_LookupCommitments _ a1 a2 := self in Build_LookupCommitments x a1 a2.
Definition set_aggreg (self : Self) (x : PC) : Self :=
  let 'Build_LookupCommitments a0 _ a2 := self in Build_LookupCommitments a0 x a2.
Definition set_runtime (self : Self) (x : option PC) : Self :=
  let 'Build_LookupCommitments a0 a1 _ := self in Build_LookupCommitments a0 a1 x.
(** The constructor on what the getters of an object return. *)
Definition rebuild (self : Self) : Self :=
  new (sorted self) (aggreg self) (runtime self).

Variant field : Type := F_sorted | F_aggreg | F_runtime.
#[global] Instance field_eq : EqDecision field.
Proof. solve_decision. Defined.
Definition fty (f : field) : Type :=
  match f with F_sorted => list PC | F_aggreg => PC | F_runtime => option PC end.
#[global] Instance LookupCommitments_class : JsClass Self := {|
  js_field := field; js_type := fty;
  js_get f := match f return Self -> fty f with F_sorted => sorted | F_aggreg => aggreg | F_runtime => runtime end;
  js_wfield := field; js_target := fun f => f;
  js_set w := match w return Self -> fty (w) -> Self with F_sorted => set_sorted | F_aggreg => set_aggreg | F_runtime
      => set_runtime end;
|}.
#[global] Instance LookupCommitments_laws : JsClassLaws LookupCommitments_class.
Proof. js_laws. Qed.
End LookupCommitments.
End LookupCommitments.

Module ProverCommitments.
Section ProverCommitments.
Context {PC : Type}.
Abbreviation Self := (ProverProof.ProverCommitments PC).

Definition new (w_comm : list PC) (z_comm t_comm : PC) (lookup : option (ProverProof.LookupCommitments PC)) : Self :=
  Build_ProverCommitments w_comm z_comm t_comm lookup.
Definition w_comm (self : Self) : list PC := ProverProof.w_comm self.
Definition z_comm (self : Self) : PC := ProverProof.z_comm self.
Definition t_comm (self : Self) : PC := ProverProof.t_comm self.
Definition lookup (self : Self) : option (ProverProof.LookupCommitments PC) := ProverProof.pc_lookup self.
Definition set_w_comm (self : Self) (x : list PC) : Self :=
  let 'Build_ProverCommitments _ a1 a2 a3 := self in Build_ProverCommitments x a1 a2 a3.
Definition set_z_comm (self : Self) (x : PC) : Self :=
  let 'Build_ProverCommitments a0 _ a2 a3 := self in Build_ProverCommitments a0 x a2 a3.
Definition set_t_comm (self : Self) (x : PC) : Self :=
  let 'Build_ProverCommitments a0 a1 _ a3 := self in Build_ProverCommitments a0 a1 x a3.
Definition set_lookup (self : Self) (x : option (ProverProof.LookupCommitments PC)) : Self :=
  let 'Build_ProverCommitments a0 a1 a2 _ := self in Build_ProverCommitments a0 a1 a2 x.
(** The constructor on what the getters of an object return. *)
Definition rebuild (self : Self) : Self :=
  new (w_comm self) (z_comm self) (t_comm self) (lookup self).

Variant field : Type := F_w_comm | F_z_comm | F_t_comm | F_lookup.
#[global] Instance field_eq : EqDecision field.
Proof. solve_decision. Defined.
Definition fty (f : field) : Type :=
  match f with F_w_comm => list PC | F_z_comm => PC | F_t_comm => PC | F_lookup => option
      (ProverProof.LookupCommitments PC) end.
#[global] Instance ProverCommitments_class : JsClass Self := {|
  js_field := field; js_type := fty;
  js_get f := match f return Self -> fty f with F_w_comm => w_comm | F_z_comm => z_comm | F_t_comm => t_comm |
      F_lookup => lookup end;
  js_wfield := field; js_target := fun f => f;
  js_set w := match w return Self -> fty (w) -> Self with F_w_comm => set_w_comm | F_z_comm => set_z_comm | F_t_comm
      => set_t_comm | F_lookup => set_lookup end;
|}.
#[global] Instance ProverCommitments_laws : JsClassLaws ProverCommitments_class.
Proof. js_laws. Qed.
End ProverCommitments.
End ProverCommitments.

Module OpeningProof.
Section OpeningProof.
Context {B S : Type}.
Abbreviation Self := (ProverProof.Wasm.WasmOpeningProof (B := B) (S := S)).

Definition new (lr_0 lr_1 : list (Curves.Wasm.WasmG B)) (delta : Curves.Wasm.WasmG B) (z1 z2 : S) (sg :
    Curves.Wasm.WasmG B) : Self :=
  ProverProof.Wasm.Build_WasmOpeningProof lr_0 lr_1 delta z1 z2 sg.
Definition lr_0 (self : Self) : list (Curves.Wasm.WasmG B) := ProverProof.Wasm.lr_0 self.
Definition lr_1 (self : Self) : list (Curves.Wasm.WasmG B) := ProverProof.Wasm.lr_1 self.
Definition delta (self : Self) : Curves.Wasm.WasmG B := ProverProof.Wasm.delta self.
Definition sg (self : Self) : Curves.Wasm.WasmG B := ProverProof.Wasm.sg self.
Definition set_lr_0 (self : Self) (x : list (Curves.Wasm.WasmG B)) : Self :=
  let 'ProverProof.Wasm.Build_WasmOpeningProof _ a1 a2 a3 a4 a5 := self in ProverProof.Wasm.Build_WasmOpeningProof x
      a1 a2 a3 a4 a5.
Definition set_lr_1 (self : Self) (x : list (Curves.Wasm.WasmG B)) : Self :=
  let 'ProverProof.Wasm.Build_WasmOpeningProof a0 _ a2 a3 a4 a5 := self in ProverProof.Wasm.Build_WasmOpeningProof a0
      x a2 a3 a4 a5.
Definition set_delta (self : Self) (x : Curves.Wasm.WasmG B) : Self :=
  let 'ProverProof.Wasm.Build_WasmOpeningProof a0 a1 _ a3 a4 a5 := self in ProverProof.Wasm.Build_WasmOpeningProof a0
      a1 x a3 a4 a5.
Definition set_sg (self : Self) (x : Curves.Wasm.WasmG B) : Self :=
  let 'ProverProof.Wasm.Build_WasmOpeningProof a0 a1 a2 a3 a4 _ := self in ProverProof.Wasm.Build_WasmOpeningProof a0
      a1 a2 a3 a4 x.
(** The constructor on what the getters of an object return. *)
Definition rebuild (self : Self) : Self :=
  new (lr_0 self) (lr_1 self) (delta self) (ProverProof.Wasm.z1 self) (ProverProof.Wasm.z2 self) (sg self).

Variant field : Type := F_lr_0 | F_lr_1 | F_delta | F_z1 | F_z2 | F_sg.
#[global] Instance field_eq : EqDecision field.
Proof. solve_decision. Defined.
Variant wfield : Type := W_lr_0 | W_lr_1 | W_delta | W_sg.
Definition wfield_field (w : wfield) : field :=
  match w with W_lr_0 => F_lr_0 | W_lr_1 => F_lr_1 | W_delta => F_delta | W_sg => F_sg end.
Definition fty (f : field) : Type :=
  match f with F_lr_0 => list (Curves.Wasm.WasmG B) | F_lr_1 => list (Curves.Wasm.WasmG B) | F_delta =>
      Curves.Wasm.WasmG B | F_z1 => S | F_z2 => S | F_sg => Curves.Wasm.WasmG B end.
#[global] Instance OpeningProof_class : JsClass Self := {|
  js_field := field; js_type := fty;
  js_get f := match f return Self -> fty f with F_lr_0 => lr_0 | F_lr_1 => lr_1 | F_delta => delta | F_z1 =>
      ProverProof.Wasm.z1 | F_z2 => ProverProof.Wasm.z2 | F_sg => sg end;
  js_wfield := wfield; js_target := wfield_field;
  js_set w := match w return Self -> fty (wfield_field w) -> Self with W_lr_0 => set_lr_0 | W_lr_1 => set_lr_1 |
      W_delta => set_delta | W_sg => set_sg end;
|}.
#[global] Instance OpeningProof_laws : JsClassLaws OpeningProof_class.
Proof. js_laws. Qed.
End OpeningProof.
End OpeningProof.

Module ProverProof.
Section ProverProof.
Context {B S : Type}.
Abbreviation Self := (ProverProof.Wasm.WasmProverProof B S).

Definition commitments (self : Self) : ProverProof.ProverCommitments (Curves.Wasm.WasmPolyComm B) :=
    ProverProof.Wasm.wp_commitments self.
Definition proof (self : Self) : ProverProof.Wasm.WasmOpeningProof (B := B) (S := S) := ProverProof.Wasm.wp_proof
    self.
Definition evals (self : Self) : ProofEvaluations (PointEvaluations S) := ProverProof.Wasm.wp_evals self.
Definition public_ (self : Self) : list S := ProverProof.Wasm.wp_public self.
Definition prev_challenges_scalars (self : Self) : list (list S) := ProverProof.Wasm.wp_prev_challenges_scalars self.
Definition prev_challenges_comms (self : Self) : list (Curves.Wasm.WasmPolyComm B) :=
    ProverProof.Wasm.wp_prev_challenges_comms self.
Definition set_commitments (self : Self) (x : ProverProof.ProverCommitments (Curves.Wasm.WasmPolyComm B)) : Self :=
  let 'ProverProof.Wasm.Build_WasmProverProof _ a1 a2 a3 a4 a5 a6 := self in ProverProof.Wasm.Build_WasmProverProof x
      a1 a2 a3 a4 a5 a6.
Definition set_proof (self : Self) (x : ProverProof.Wasm.WasmOpeningProof (B := B) (S := S)) : Self :=
  let 'ProverProof.Wasm.Build_WasmProverProof a0 _ a2 a3 a4 a5 a6 := self in ProverProof.Wasm.Build_WasmProverProof a0
      x a2 a3 a4 a5 a6.
Definition set_evals (self : Self) (x : ProofEvaluations (PointEvaluations S)) : Self :=
  let 'ProverProof.Wasm.Build_WasmProverProof a0 a1 _ a3 a4 a5 a6 := self in ProverProof.Wasm.Build_WasmProverProof a0
      a1 x a3 a4 a5 a6.
Definition set_public_ (self : Self) (x : list S) : Self :=
  let 'ProverProof.Wasm.Build_WasmProverProof a0 a1 a2 a3 _ a5 a6 := self in ProverProof.Wasm.Build_WasmProverProof a0
      a1 a2 a3 x a5 a6.
Definition set_prev_challenges_scalars (self : Self) (x : list (list S)) : Self :=
  let 'ProverProof.Wasm.Build_WasmProverProof a0 a1 a2 a3 a4 _ a6 := self in ProverProof.Wasm.Build_WasmProverProof a0
      a1 a2 a3 a4 x a6.
Definition set_prev_challenges_comms (self : Self) (x : list (Curves.Wasm.WasmPolyComm B)) : Self :=
  let 'ProverProof.Wasm.Build_WasmProverProof a0 a1 a2 a3 a4 a5 _ := self in ProverProof.Wasm.Build_WasmProverProof a0
      a1 a2 a3 a4 a5 x.

Variant field : Type := F_commitments | F_proof | F_evals | F_ft_eval1 | F_public_ | F_prev_challenges_scalars |
    F_prev_challenges_comms.
#[global] Instance field_eq : EqDecision field.
Proof. solve_decision. Defined.
Variant wfield : Type := W_commitments | W_proof | W_evals | W_public_ | W_prev_challenges_scalars |
    W_prev_challenges_comms.
Definition wfield_field (w : wfield) : field :=
  match w with W_commitments => F_commitments | W_proof => F_proof | W_evals => F_evals | W_public_ => F_public_ |
      W_prev_challenges_scalars => F_prev_challenges_scalars | W_prev_challenges_comms => F_prev_challenges_comms end.
Definition fty (f : field) : Type :=
  match f with F_commitments => ProverProof.ProverCommitments (Curves.Wasm.WasmPolyComm B) | F_proof =>
      ProverProof.Wasm.WasmOpeningProof (B := B) (S := S) | F_evals => ProofEvaluations (PointEvaluations S) |
      F_ft_eval1 => S | F_public_ => list S | F_prev_challenges_scalars => list (list S) | F_prev_challenges_comms =>
      list (Curves.Wasm.WasmPolyComm B) end.
#[global] Instance ProverProof_class : JsClass Self := {|
  js_field := field; js_type := fty;
  js_get f := match f return Self -> fty f with F_commitments => commitments | F_proof => proof | F_evals => evals |
      F_ft_eval1 => ProverProof.Wasm.wp_ft_eval1 | F_public_ => public_ | F_prev_challenges_scalars =>
      prev_challenges_scalars | F_prev_challenges_comms => prev_challenges_comms end;
  js_wfield := wfield; js_target := wfield_field;
  js_set w := match w return Self -> fty (wfield_field w) -> Self with W_commitments => set_commitments | W_proof =>
      set_proof | W_evals => set_evals | W_public_ => set_public_ | W_prev_challenges_scalars =>
      set_prev_challenges_scalars | W_prev_challenges_comms => set_prev_challenges_comms end;
|}.
#[global] Instance ProverProof_laws : JsClassLaws ProverProof_class.
Proof. js_laws. Qed.
End ProverProof.
End ProverProof.
(** ** As text *)

(** serde_json on verifier indexes; what it skips is not in [stored]. *)
Class IndexJson (B S D Lin Alphas Vanish : Type) : Type := {
  to_string : VerifierIndex B S D Lin Alphas Vanish -> option (list byte);
  from_str : list byte -> string + VerifierIndex B S D Lin Alphas Vanish;
}.
Class IndexJsonLaws {B S D Lin Alphas Vanish} (J : IndexJson B S D Lin Alphas Vanish) : Prop := {
  from_to_string vi s : to_string vi = Some s -> exists vi', from_str s = inr vi' /\ stored vi' = stored vi;
}.

Module Text.
Section Text.
Context {B S D Lin Alphas Vanish : Type}.
Context {O : SrsOps B S D} {K : Kimchi B S D Lin Alphas Vanish} {J : IndexJson B S D Lin Alphas Vanish}.

Definition caml_pasta_fp_plonk_verifier_index_serialize (overflow_checks : bool)
    (index : VerifierIndex.Wasm.WasmPlonkVerifierIndex B S) : outcome (list byte) :=
  '(index, _) ← VerifierIndex.Wasm.of_wasm overflow_checks index;
  expect "called `Result::unwrap()` on an `Err` value" (to_string index).
Definition caml_pasta_fp_plonk_verifier_index_deserialize (srs : ptr) (index : list byte)
    : outcome (VerifierIndex.Wasm.WasmPlonkVerifierIndex B S) :=
  match from_str index with
  | inr vi => VerifierIndex.Wasm.to_wasm srs vi
  | inl e => Raise (JsError e)
  end.

(** [WasmProverProof::serialize], over [rmp_serde::to_vec] and base64. *)
Definition serialize (to_vec : ProverProof.ProverProof B S -> option (list byte)) (encode : list byte -> list byte)
    (self : ProverProof.Wasm.WasmProverProof B S) : outcome (list byte) :=
  '(proof, _public_input) ← ProverProof.Wasm.proof_of_wasm self;
  serialized ← expect "called `Result::unwrap()` on an `Err` value" (to_vec proof);
  Ret (encode serialized).
End Text.
End Text.

(** ** Properties *)

Section Abi.
Context {H T : Type} {A : WasmAbi H T} {L : WasmAbiLaws A}.

Lemma zip_map_cons (p : Z) x ps (v : list T) :
  (list_to_map (zip (p :: ps) (x :: v)) : gmap Z T) = <[p := x]> (list_to_map (zip ps v)).
Proof. reflexivity. Qed.
Lemma zip_map_fresh (p : Z) ps (v : list T) :
  length ps = length v -> p ∉ ps -> (list_to_map (zip ps v) : gmap Z T) !! p = None.
Proof. intros Hl Hp. apply not_elem_of_list_to_map_1. by rewrite fst_zip by lia. Qed.
Lemma into_abi_spec (v : list T) h ps h' :
  WasmVector.into_abi h v = (ps, h') ->
  length ps = length v /\ NoDup ps /\ Forall (fun p => p <> 0 /\ live h !! p = None) ps /\
  live h' = list_to_map (zip ps v) ∪ live h.
Proof.
  revert h ps h'. induction v as [|x v IH]; intros h ps h' E; cbn [WasmVector.into_abi] in E.
  - injection E as <- <-. split; [done|]. split; [constructor|]. split; [constructor|].
    cbn. by rewrite (left_id_L ∅ (∪)).
  - destruct (into_abi h x) as [p h1] eqn:E1. destruct (WasmVector.into_abi h1 v) as [ps1 h2] eqn:E2.
    injection E as <- <-. destruct (IH _ _ _ E2) as (Hl & Hd & Hf & Hm).
    destruct (into_abi_live h x p h1 E1) as (Hp0 & Hp & H1). rewrite H1 in Hf, Hm.
    split; [cbn; by rewrite Hl|]. split; [|split].
    + constructor; [|done]. intros Hin. apply (proj1 (Forall_forall _ _) Hf) in Hin as [_ Hin].
      by rewrite lookup_insert_eq in Hin.
    + constructor; [done|]. eapply Forall_impl; [exact Hf|]. intros q [Hq0 Hq]. split; [done|].
      by apply lookup_insert_None in Hq as [? _].
    + rewrite Hm, zip_map_cons, <-insert_union_l. symmetry. apply insert_union_r, zip_map_fresh; [done|].
      intros Hin. apply (proj1 (Forall_forall _ _) Hf) in Hin as [_ Hin]. by rewrite lookup_insert_eq in Hin.
Qed.
Lemma from_abi_spec (v : list T) ps h m :
  length ps = length v -> NoDup ps -> Forall (fun p => m !! p = None) ps ->
  live h = list_to_map (zip ps v) ∪ m ->
  exists h', WasmVector.from_abi h ps = Ret (v, h') /\ live h' = m.
Proof.
  revert ps h m. induction v as [|x v IH]; intros [|p ps] h m Hl Hd Hf Hm; try done.
  - exists h. split; [done|]. rewrite Hm. cbn. by rewrite (left_id_L ∅ (∪)).
  - cbn in Hl. injection Hl as Hl. apply NoDup_cons in Hd as [Hp Hd]. apply Forall_cons in Hf as [Hpm Hf].
    rewrite zip_map_cons, <-insert_union_l in Hm.
    assert (live h !! p = Some x) as Hx by (rewrite Hm; apply lookup_insert_eq).
    destruct (from_abi_live h p x Hx) as (h1 & E1 & H1).
    destruct (IH ps h1 m Hl Hd Hf) as (h' & E & Hm').
    { rewrite H1, Hm. apply delete_insert_id. apply lookup_union_None. split; [|done].
      by apply zip_map_fresh. }
    exists h'. split; [|done]. cbn [WasmVector.from_abi]. rewrite E1. cbn [mbind outcome_bind]. by rewrite E.
Qed.

(** C35: a vector of objects handed to JavaScript and taken back. The vector goes
    out as as many pointers as it has elements, all different, not null and not
    in use before. While other objects come and go behind other pointers,
    taking the array back gives the vector, in order, and frees exactly its
    elements. An array with a null pointer after pointers of live objects
    panics. *)
Theorem wasm_vector_roundtrip (v : list T) h ps h1 h2 m :
  WasmVector.into_abi h v = (ps, h1) ->
  live h2 = list_to_map (zip ps v) ∪ m -> Forall (fun p => m !! p = None) ps ->
  length ps = length v /\ NoDup ps /\ Forall (fun p => p <> 0 /\ live h !! p = None) ps /\
  (forall p, p ∉ ps -> live h1 !! p = live h !! p) /\
  (exists h3, WasmVector.from_abi h2 ps = Ret (v, h3) /\ live h3 = m) /\
  (forall rest, is_panic (WasmVector.from_abi h2 (ps ++ 0 :: rest)) = true).
Proof.
  intros E Hm Hf. destruct (into_abi_spec _ _ _ _ E) as (Hl & Hd & Hn & H1).
  split; [done|]. split; [done|]. split; [done|]. split; [|split].
  - intros p Hp. rewrite H1. by apply lookup_union_r, zip_map_fresh.
  - by apply (from_abi_spec v ps h2 m).
  - intros rest. clear E H1 Hn. revert ps h2 m Hl Hd Hm Hf.
    induction v as [|x v IH]; intros [|p ps] h2 m Hl Hd Hm Hf; try done.
    + cbn. pose proof (from_abi_null h2) as H0. by destruct (WasmObjects.from_abi h2 0).
    + cbn in Hl. injection Hl as Hl. apply NoDup_cons in Hd as [Hp Hd]. apply Forall_cons in Hf as [Hpm Hf].
      rewrite zip_map_cons, <-insert_union_l in Hm.
      assert (live h2 !! p = Some x) as Hx by (rewrite Hm; apply lookup_insert_eq).
      destruct (from_abi_live h2 p x Hx) as (h3 & E1 & H3). cbn [app WasmVector.from_abi]. rewrite E1.
      cbn [mbind outcome_bind].
      assert (is_panic (WasmVector.from_abi h3 (ps ++ 0 :: rest)) = true) as Hpanic;
        [|by destruct (WasmVector.from_abi h3 (ps ++ 0 :: rest))].
      apply (IH ps h3 m Hl Hd); [|done]. rewrite H3, Hm. apply delete_insert_id. apply lookup_union_None. split; [|done].
      by apply zip_map_fresh.
Qed.
End Abi.

(** An object and a history of calls of its setters. *)
Section Objects.
Context {R : Type} {J : JsClass R} {L : JsClassLaws J}.

Abbreviation write := {w : js_wfield & js_type (js_target w)}.
Definition writes (r : R) (ws : list write) : R := fold_left (fun r w => js_set (projT1 w) r (projT2 w)) ws r.
(** What a reader of [f] expects after them, if it was [x] before. *)
Fixpoint last_write (ws : list write) (f : js_field) (x : js_type f) : js_type f :=
  match ws with
  | [] => x
  | existT w y :: ws =>
      last_write ws f (match decide (js_target w = f) with left e => eq_rect _ js_type y f e | right _ => x end)
  end.
Definition reads_last_write : Prop :=
  forall r ws f, js_get f (writes r ws) = last_write ws f (js_get f r).
Lemma class_reads_last_write : reads_last_write.
Proof.
  intros r ws f. revert r. induction ws as [|[w y] ws IH]; intros r; [done|].
  cbn [writes fold_left projT1 projT2 last_write]. change (fold_left _ ws ?r) with (writes r ws). rewrite IH. f_equal.
  destruct (decide (js_target w = f)) as [e|ne].
  - subst f. apply js_get_set.
  - apply js_get_set_ne. congruence.
Qed.
End Objects.
Arguments reads_last_write R {J}.

(** the objects behave as records of their fields. In each exported class,
    after any calls of its setters, a getter returns what the last call of its
    own setter was given, and if there was none, what it returned before; the
    public fields without setters stay as they are. A constructor puts each
    argument in its field: called with what the getters of an object return, and its public fields, it gives
    that object again. *)
Theorem objects_last_write {B S PC LI : Type} :
  reads_last_write (Curves.Wasm.WasmPolyComm B) /\
  reads_last_write (PlonkVerificationEvals PC) /\
  reads_last_write (VerifierIndex.LookupSelectors PC) /\
  reads_last_write (VerifierIndex.LookupVerifierIndex PC LI) /\
  reads_last_write (VerifierIndex.Wasm.WasmPlonkVerifierIndex B S) /\
  reads_last_write (ProverProof.LookupCommitments PC) /\
  reads_last_write (ProverProof.ProverCommitments PC) /\
  reads_last_write (ProverProof.Wasm.WasmOpeningProof (B := B) (S := S)) /\
  reads_last_write (ProverProof.Wasm.WasmProverProof B S) /\
  (forall x : PlonkVerificationEvals PC, VerificationEvals.rebuild x = x) /\
  (forall x : VerifierIndex.LookupSelectors PC, LookupSelectors.rebuild x = x) /\
  (forall x : VerifierIndex.LookupVerifierIndex PC LI, LookupVerifierIndex.rebuild x = x) /\
  (forall x : VerifierIndex.Wasm.WasmPlonkVerifierIndex B S, PlonkVerifierIndex.rebuild x = x) /\
  (forall x : ProverProof.LookupCommitments PC, LookupCommitments.rebuild x = x) /\
  (forall x : ProverProof.ProverCommitments PC, ProverCommitments.rebuild x = x) /\
  (forall x : ProverProof.Wasm.WasmOpeningProof (B := B) (S := S), OpeningProof.rebuild x = x).
Proof.
  do 9 (split; [apply class_reads_last_write|]).
  split; [by intros []|]. split; [by intros []|]. split; [by intros []|]. split; [by intros []|].
  split; [by intros []|]. split; [by intros []|]. by intros [].
Qed.

Section Json.
Context {B S D Lin Alphas Vanish : Type}.
Context {O : SrsOps B S D} {K : Kimchi B S D Lin Alphas Vanish}.
Context {J : IndexJson B S D Lin Alphas Vanish} {L : IndexJsonLaws J}.

Lemma to_wasm_srs srs (vi : VerifierIndex B S D Lin Alphas Vanish) index :
  VerifierIndex.Wasm.to_wasm (vi_srs vi) vi = Ret index ->
  VerifierIndex.Wasm.to_wasm srs vi = Ret (PlonkVerifierIndex.set_srs index srs).
Proof.
  unfold VerifierIndex.Wasm.to_wasm. destruct (VerifierIndex.Wasm.shifts_to_wasm _); [|done|done].
  cbn [mbind outcome_bind]. by intros [= <-].
Qed.

(** A verifier index that JavaScript has, written as JSON and read for any
    reference string, is that index with the new reference string, although what
    kimchi skips when writing is lost; it is never an error. Text that is not an
    index is an error, never a panic. *)
Theorem verifier_index_json oc (vi : VerifierIndex B S D Lin Alphas Vanish) index srs text :
  vi_ok (O := O) (K := K) 32 vi ->
  VerifierIndex.Wasm.to_wasm (vi_srs vi) vi = Ret index ->
  match Text.caml_pasta_fp_plonk_verifier_index_serialize oc index with
  | Ret s => Text.caml_pasta_fp_plonk_verifier_index_deserialize srs s = Ret (PlonkVerifierIndex.set_srs index srs)
  | Raise _ => False
  | Panic _ => to_string (recompute (wasm_flags vi) 3 vi) = None
  end /\
  (forall e, from_str text = inl e ->
     Text.caml_pasta_fp_plonk_verifier_index_deserialize srs text = Raise (JsError e)).
Proof.
  intros Hok Hi. split.
  - destruct (of_to_wasm oc vi Hok) as (index' & Hi' & E). rewrite Hi in Hi'. injection Hi' as <-.
    unfold Text.caml_pasta_fp_plonk_verifier_index_serialize. rewrite E. cbn [mbind outcome_bind].
    destruct (to_string _) as [s|] eqn:Es; cbn [expect]; [|done].
    destruct (from_to_string _ _ Es) as (vi' & Ev & Hs).
    unfold Text.caml_pasta_fp_plonk_verifier_index_deserialize. rewrite Ev.
    rewrite (wasm_of_stored vi' (recompute (wasm_flags vi) 3 vi) srs Hs).
    transitivity (VerifierIndex.Wasm.to_wasm srs vi); [by apply wasm_of_stored|]. by apply to_wasm_srs.
  - intros e He. unfold Text.caml_pasta_fp_plonk_verifier_index_deserialize. by rewrite He.
Qed.
End Json.

(** ** Witnesses *)

(** A heap of numbers, the null pointer aside. *)
#[local] Instance demo_heap : WasmAbi (gmap Z Z) Z := {|
  into_abi h x := let p := fresh ({[0]} ∪ dom h) in (p, <[p := x]> h);
  from_abi h p := if decide (p = 0) then Panic "null pointer passed to rust"
                  else match h !! p with
                       | Some x => Ret (x, delete p h)
                       | None => Panic "unreachable"
                       end;
  live h := delete 0 h;
|}.
#[local] Instance demo_heap_laws : WasmAbiLaws demo_heap.
Proof.
  split; cbn [into_abi from_abi live demo_heap].
  - intros h x p h' E. pose proof (is_fresh ({[0]} ∪ dom h)) as Hf.
    replace (fresh ({[0]} ∪ dom h)) with p in Hf by congruence.
    assert (h' = <[p := x]> h) as -> by congruence.
    apply not_elem_of_union in Hf as [H0 Hp]. rewrite not_elem_of_singleton in H0.
    apply not_elem_of_dom in Hp. split; [done|]. rewrite lookup_delete_ne by done. split; [done|].
    by apply delete_insert_ne.
  - intros h p x Hx. destruct (decide (p = 0)) as [->|Hp]; [by rewrite lookup_delete_eq in Hx|].
    rewrite lookup_delete_ne in Hx by done. rewrite Hx. exists (delete p h). split; [done|]. apply delete_delete.
  - done.
Qed.

Lemma wasm_vector_roundtrip_witness :
  let '(ps, h) := WasmVector.into_abi (∅ : gmap Z Z) [7; 8; 7] in
  exists h', WasmVector.from_abi h ps = Ret ([7; 8; 7], h') /\ NoDup ps /\
    is_panic (WasmVector.from_abi h (ps ++ [0])) = true.
Proof.
  destruct (WasmVector.into_abi (∅ : gmap Z Z) [7; 8; 7]) as [ps h] eqn:E.
  destruct (into_abi_spec (L := demo_heap_laws) [7; 8; 7] ∅ ps h E) as (_ & _ & Hf & Hl).
  destruct (wasm_vector_roundtrip (L := demo_heap_laws) [7; 8; 7] ∅ ps h h (live (∅ : gmap Z Z)) E Hl)
    as (_ & Hd & _ & _ & (h' & Hr & _) & Hp).
  { eapply Forall_impl; [exact Hf|]. by intros p [_ ?]. }
  exists h'. split; [exact Hr|]. split; [exact Hd|]. apply Hp.
Defined.

(** A text for one index, the one of [VerifierIndex.v]. *)
#[local] Instance demo_json : IndexJson unit Z N FeatureFlags bool (N * Z) := {|
  to_string vi := if decide (stored vi = stored demo_vi) then Some [byte_of 123] else None;
  from_str s := if decide (s = [byte_of 123]) then inr demo_vi else inl "expected value at line 1 column 1";
|}.
#[local] Instance demo_json_laws : IndexJsonLaws demo_json.
Proof.
  split. cbn [to_string from_str demo_json]. intros vi s. destruct (decide (stored vi = _)) as [E|]; [|done].
  intros [= <-]. exists demo_vi. by split.
Qed.

Lemma verifier_index_json_witness :
  exists index s,
    VerifierIndex.Wasm.to_wasm (K := demo_kimchi) 1 demo_vi = Ret index /\
    Text.caml_pasta_fp_plonk_verifier_index_serialize (O := demo_srs) (K := demo_kimchi) true index = Ret s /\
    Text.caml_pasta_fp_plonk_verifier_index_deserialize (K := demo_kimchi) 9 s
      = Ret (PlonkVerifierIndex.set_srs index 9%positive) /\
    Text.caml_pasta_fp_plonk_verifier_index_deserialize (K := demo_kimchi) 9 []
      = Raise (JsError "expected value at line 1 column 1").
Proof.
  destruct (VerifierIndex.Wasm.to_wasm (K := demo_kimchi) 1 demo_vi) as [index| |] eqn:E; try discriminate E.
  destruct (verifier_index_json (O := demo_srs) (K := demo_kimchi) (L := demo_json_laws) true demo_vi index 9 []
              (demo_vi_ok 32 ltac:(by left)) E) as [H He].
  destruct (Text.caml_pasta_fp_plonk_verifier_index_serialize _ _) as [s|e|m] eqn:Es.
  - exists index, s. split; [reflexivity|]. split; [exact Es|]. split; [exact H|].
    apply He. reflexivity.
  - destruct H.
  - discriminate H.
Defined.
