(* ===== verification/VectorAbi.v ===== *)
(** * Values at the boundary of WebAssembly

    wasm_vector.rs, wasm_flat_vector.rs and the field elements of arkworks (under
    src/src/lib/crypto/kimchi_bindings/wasm/src) at the level of wasm-bindgen's
    slices: a value crosses as a slice of the linear memory, of bytes or, for
    vectors of objects, of pointers; an optional value has a slice for [None]; and
    whoever takes a slice frees it.  The modules have the containers, two copies of
    the same list; their clients elsewhere use the list itself. *)

From Stdlib Require Import ZArith Lia.
From stdpp Require Import base list strings gmap.
From S2P Require Import Prelude Crates Reference PastaField PastaFq FlatVector WasmObjects.

(** ** The containers *)

Module WasmVector.
Section Container.
Context {T : Type}.
Record WasmVector : Type := { vec : list T }.
Definition deref (self : WasmVector) : list T := vec self.
Definition of_vec (x : list T) : WasmVector := {| vec := x |}.
Definition to_vec (x : WasmVector) : list T := vec x.
Definition to_vec_ref (x : WasmVector) : list T := vec x.
Definition into_iter (self : WasmVector) : list T := vec self.
Definition into_iter_ref (self : WasmVector) : list T := vec self.
Definition from_iter (iter : list T) : WasmVector := {| vec := iter |}.
Definition default : WasmVector := {| vec := [] |}.
Definition extend (self : WasmVector) (iter : list T) : WasmVector := {| vec := vec self ++ iter |}.
End Container.
Arguments WasmVector : clear implicits.
End WasmVector.

Module WasmFlatVector.
Section Container.
Context {T : Type}.
Record WasmFlatVector : Type := { vec : list T }.
Definition deref (self : WasmFlatVector) : list T := vec self.
Definition of_vec (x : list T) : WasmFlatVector := {| vec := x |}.
Definition to_vec (x : WasmFlatVector) : list T := vec x.
Definition to_vec_ref (x : WasmFlatVector) : list T := vec x.
Definition into_iter (self : WasmFlatVector) : list T := vec self.
Definition into_iter_ref (self : WasmFlatVector) : list T := vec self.
Definition from_iter (iter : list T) : WasmFlatVector := {| vec := iter |}.
Definition default : WasmFlatVector := {| vec := [] |}.
Definition extend (self : WasmFlatVector) (iter : list T) : WasmFlatVector := {| vec := vec self ++ iter |}.
End Container.
Arguments WasmFlatVector : clear implicits.
End WasmFlatVector.

(** ** Slices *)

(** wasm-bindgen's [Vec<E>], for numbers [E], in a memory [M]. *)
Class SliceAbi (M E : Type) : Type := {
  slice : Type;
  vec_into_abi : M -> list E -> slice * M;
  vec_from_abi : M -> slice -> outcome (list E * M);
  vec_is_none : slice -> bool;            (* OptionFromWasmAbi *)
  vec_none : slice;                       (* OptionIntoWasmAbi *)
  vec_describe : list Z;                  (* WasmDescribe *)
  slices : M -> gmap Z (list E);
}.
Arguments slice M E {_}.
(** A slice of a vector, empty or not, is not [None]; taking it frees it. *)
Class SliceAbiLaws {M E} (A : SliceAbi M E) : Prop := {
  vec_abi_live m l s m' : vec_into_abi m l = (s, m') ->
    vec_is_none s = false /\ exists m'', vec_from_abi m' s = Ret (l, m'') /\ slices m'' = slices m;
  vec_none_is_none : vec_is_none vec_none = true;
}.

(** A type that crosses as [Abi], with a value for [None], in a state [St]. *)
Class OptionAbi (St X Abi : Type) : Type := {
  into_abi : St -> X -> Abi * St;
  from_abi : St -> Abi -> outcome (X * St);
  is_none : Abi -> bool;
  none : Abi;
  describe : list Z;
}.
(** [Option<X>] of wasm-bindgen. *)
Definition option_into_abi {St X Abi} {A : OptionAbi St X Abi} (st : St) (x : option X) : Abi * St :=
  match x with Some x => into_abi st x | None => (none, st) end.
Definition option_from_abi {St X Abi} {A : OptionAbi St X Abi} (st : St) (js : Abi) : outcome (option X * St) :=
  if is_none js then Ret (None, st) else '(x, st) ← from_abi st js; Ret (Some x, st).

(** What the two vectors promise: [ok] values come back, and nothing stays in
    memory ([used]) that was not there before. *)
Class OptionAbiLaws {St X Abi U} (A : OptionAbi St X Abi) (ok : X -> Prop) (used : St -> U) : Prop := {
  abi_back st x js st' : ok x -> into_abi st x = (js, st') ->
    is_none js = false /\ exists st'', from_abi st' js = Ret (x, st'') /\ used st'' = used st;
  none_is_none : is_none (OptionAbi := A) none = true;
}.

(** ** Values that cross as bytes *)

Section Bytes.
Context {M X : Type} {A : SliceAbi M byte} (encode : X -> list byte) (decode : list byte -> outcome X).

Definition bytes_into_abi (m : M) (self : X) : slice M byte * M := vec_into_abi m (encode self).
Definition bytes_from_abi (m : M) (js : slice M byte) : outcome (X * M) :=
  '(bytes, m) ← vec_from_abi m js; x ← decode bytes; Ret (x, m).

Lemma bytes_back {ok : X -> Prop} {SL : SliceAbiLaws A} m x js m' :
  (forall y, ok y -> decode (encode y) = Ret y) -> ok x -> bytes_into_abi m x = (js, m') ->
  vec_is_none js = false /\ exists m'', bytes_from_abi m' js = Ret (x, m'') /\ slices m'' = slices m.
Proof.
  intros Hd Hx Ei. destruct (vec_abi_live _ _ _ _ Ei) as (Hn & m2 & Eo & Hs).
  split; [done|]. exists m2. split; [|done]. unfold bytes_from_abi. rewrite Eo. cbn [mbind outcome_bind].
  by rewrite Hd.
Qed.
End Bytes.

Section Flat.
Context {M T : Type} {E : FlatVectorElem T} {A : SliceAbi M byte}.
Abbreviation encode := (fun self : WasmFlatVector.WasmFlatVector T => FlatVector.into_abi (WasmFlatVector.vec self)).
Abbreviation decode := (fun data => res ← FlatVector.from_abi data; Ret (WasmFlatVector.of_vec (T := T) res)).

Definition flat_into_abi : M -> WasmFlatVector.WasmFlatVector T -> slice M byte * M := bytes_into_abi encode.
Definition flat_from_abi : M -> slice M byte -> outcome (WasmFlatVector.WasmFlatVector T * M) :=
  bytes_from_abi decode.
Definition flat_is_none (x : slice M byte) : bool := vec_is_none x.
Definition flat_none : slice M byte := vec_none.
Definition flat_describe : list Z := vec_describe (E := byte).
#[export] Instance flat_abi : OptionAbi M (WasmFlatVector.WasmFlatVector T) (slice M byte) := {|
  into_abi := flat_into_abi; from_abi := flat_from_abi;
  is_none := flat_is_none; none := flat_none; describe := flat_describe |}.

#[export] Instance flat_abi_laws {ok : T -> Prop} {FL : FlatVectorElemLaws E ok} {SL : SliceAbiLaws A} :
  OptionAbiLaws flat_abi (fun v => Forall ok (WasmFlatVector.vec v)) slices.
Proof.
  split; [|apply vec_none_is_none]. intros m v js m' Hv Ei.
  eapply (bytes_back encode decode (ok := fun v => Forall ok (WasmFlatVector.vec v))); [|done|exact Ei].
  intros [l] Hl. cbn in *. by rewrite from_into_abi.
Qed.
End Flat.

(** Field elements, in both fields, as they are returned by the functions that
    may have no result. *)
Section Field.
Context {M F : Type} {PF : PrimeField F} {A : SliceAbi M byte}.

Definition fp_into_abi : M -> F -> slice M byte * M := bytes_into_abi PastaField.Wasm.into_abi.
Definition fp_from_abi : M -> slice M byte -> outcome (F * M) := bytes_from_abi PastaField.Wasm.from_abi.
Definition fp_is_none (abi : slice M byte) : bool := vec_is_none abi.
Definition fp_none : slice M byte := vec_none.
Definition fp_describe : list Z := vec_describe (E := byte).
Definition fp_abi : OptionAbi M F (slice M byte) := {|
  into_abi := fp_into_abi; from_abi := fp_from_abi;
  is_none := fp_is_none; none := fp_none; describe := fp_describe |}.

Definition fq_into_abi : M -> F -> slice M byte * M := bytes_into_abi PastaFq.Wasm.into_abi.
Definition fq_from_abi : M -> slice M byte -> outcome (F * M) := bytes_from_abi PastaFq.Wasm.from_abi.
Definition fq_is_none (abi : slice M byte) : bool := vec_is_none abi.
Definition fq_none : slice M byte := vec_none.
Definition fq_describe : list Z := vec_describe (E := byte).
Definition fq_abi : OptionAbi M F (slice M byte) := {|
  into_abi := fq_into_abi; from_abi := fq_from_abi;
  is_none := fq_is_none; none := fq_none; describe := fq_describe |}.

#[export] Instance fp_abi_laws {PL : PrimeFieldLaws PF} {SL : SliceAbiLaws A} :
  OptionAbiLaws fp_abi (fe_canonical (F := F)) slices.
Proof.
  split; [|apply vec_none_is_none]. intros m x js m' Hx Ei.
  eapply (bytes_back PastaField.Wasm.into_abi PastaField.Wasm.from_abi); [|exact Hx|exact Ei].
  intros y Hy. unfold PastaField.Wasm.from_abi, PastaField.Wasm.into_abi. by rewrite fe_read_write.
Qed.
#[export] Instance fq_abi_laws {PL : PrimeFieldLaws PF} {SL : SliceAbiLaws A} :
  OptionAbiLaws fq_abi (fe_canonical (F := F)) slices.
Proof.
  split; [|apply vec_none_is_none]. intros m x js m' Hx Ei.
  eapply (bytes_back PastaFq.Wasm.into_abi PastaFq.Wasm.from_abi); [|exact Hx|exact Ei].
  intros y Hy. unfold PastaFq.Wasm.from_abi, PastaFq.Wasm.into_abi. by rewrite fe_read_write.
Qed.
End Field.

Section Objects.
Context {H M T : Type} {W : WasmAbi H T} {A : SliceAbi M Z}.

Definition objects_into_abi (st : H * M) (self : WasmVector.WasmVector T) : slice M Z * (H * M) :=
  let '(pointers, h) := WasmObjects.WasmVector.into_abi (fst st) (WasmVector.vec self) in
  let '(s, m) := vec_into_abi (snd st) pointers in (s, (h, m)).
Definition objects_from_abi (st : H * M) (js : slice M Z) : outcome (WasmVector.WasmVector T * (H * M)) :=
  '(pointers, m) ← vec_from_abi (snd st) js;
  '(v, h) ← WasmObjects.WasmVector.from_abi (fst st) pointers;
  Ret (WasmVector.of_vec v, (h, m)).
Definition objects_is_none (x : slice M Z) : bool := vec_is_none x.
Definition objects_none : slice M Z := vec_none.
Definition objects_describe : list Z := vec_describe (E := Z).
#[export] Instance objects_abi : OptionAbi (H * M) (WasmVector.WasmVector T) (slice M Z) := {|
  into_abi := objects_into_abi; from_abi := objects_from_abi;
  is_none := objects_is_none; none := objects_none; describe := objects_describe |}.

#[export] Instance objects_abi_laws {WL : WasmAbiLaws W} {SL : SliceAbiLaws A} :
  OptionAbiLaws objects_abi (fun _ => True) (fun st => (live (fst st), slices (snd st))).
Proof.
  split; [|apply vec_none_is_none]. intros [h m] [v] js st _ Ei. cbn in *. unfold objects_into_abi in Ei. cbn in Ei.
  destruct (WasmObjects.WasmVector.into_abi h v) as [ps h1] eqn:E1.
  destruct (vec_into_abi m ps) as [s m1] eqn:E2. injection Ei as <- <-.
  destruct (vec_abi_live _ _ _ _ E2) as (Hn & m2 & Eo & Hs). split; [done|].
  destruct (into_abi_spec _ _ _ _ E1) as (Hl & Hd & Hf & Hm).
  destruct (from_abi_spec v ps h1 (live h) Hl Hd) as (h2 & Eb & Hh); [|done|].
  { eapply Forall_impl; [exact Hf|]. by intros p [_ Hp]. }
  exists (h2, m2). unfold objects_from_abi. cbn. rewrite Eo. cbn. rewrite Eb. cbn. by rewrite Hs, Hh.
Qed.
End Objects.

(** ** Optional values come back *)

Definition comes_back {St X Abi U} (A : OptionAbi St X Abi) (ok : X -> Prop) (used : St -> U) : Prop :=
  forall (st : St) (x : option X), (forall y, x = Some y -> ok y) ->
  let '(js, st1) := option_into_abi st x in
  is_none js = bool_decide (x = None) /\
  exists st2, option_from_abi st1 js = Ret (x, st2) /\ used st2 = used st.

Lemma abi_comes_back {St X Abi U} {A : OptionAbi St X Abi} {ok : X -> Prop} {used : St -> U}
    {L : OptionAbiLaws A ok used} : comes_back A ok used.
Proof.
  intros st x Hok. destruct x as [y|]; cbn.
  - destruct (into_abi st y) as [js st1] eqn:Ei.
    destruct (abi_back st y js st1 (Hok y eq_refl) Ei) as (Hn & st2 & Eo & Hu).
    split; [done|]. exists st2. unfold option_from_abi. rewrite Hn, Eo. done.
  - split; [apply none_is_none|]. exists st. unfold option_from_abi. by rewrite none_is_none.
Qed.

(** C39: what may be absent.  A field element of either field, a flat vector or a
    vector of objects that crosses the boundary of WebAssembly as an optional value
    comes back as it was: an absent value as absent, the empty vector as the empty
    vector, and neither as the other; the one who takes it frees its memory, so
    that no slice and no object is left. *)
Theorem optional_values {H M T F : Type} {W : WasmAbi H T} {WL : WasmAbiLaws W}
    {AB : SliceAbi M byte} {SB : SliceAbiLaws AB} {AZ : SliceAbi M Z} {SZ : SliceAbiLaws AZ}
    {PF : PrimeField F} {PL : PrimeFieldLaws PF} :
  comes_back (fp_abi (M := M) (F := F)) fe_canonical (slices (E := byte)) /\
  comes_back (fq_abi (M := M) (F := F)) fe_canonical (slices (E := byte)) /\
  comes_back (flat_abi (M := M) (T := F)) (fun v => Forall fe_canonical (WasmFlatVector.vec v)) (slices (E := byte)) /\
  comes_back (objects_abi (H := H) (M := M) (T := T)) (fun _ => True)
    (fun st => (live (fst st), slices (E := Z) (snd st))).
Proof.
  split; [apply (abi_comes_back (L := fp_abi_laws))|].
  split; [apply (abi_comes_back (L := fq_abi_laws))|].
  split; [|apply (abi_comes_back (L := objects_abi_laws))].
  apply (abi_comes_back (L := flat_abi_laws (FL := pasta_flat_laws))).
Qed.

(** ** A witness: slices behind the addresses of a map, 0 for [None] *)

Definition next_address {E} (m : gmap Z (list E)) : Z := 1 + set_fold Z.max 0 (dom m).
Lemma next_address_fresh {E} (m : gmap Z (list E)) : 0 < next_address m /\ m !! next_address m = None.
Proof.
  assert (forall z, z ∈ dom m -> z <= set_fold Z.max 0 (dom m)) as Hle.
  { apply (set_fold_ind_L (fun r X => forall z, z ∈ X -> z <= r)); [set_solver|].
    intros y X r _ IH z [->%elem_of_singleton|Hz]%elem_of_union; [lia|]. specialize (IH z Hz). lia. }
  assert (0 <= set_fold Z.max 0 (dom m)) as H0.
  { apply (set_fold_ind_L (fun r _ => 0 <= r)); [done|]. intros. lia. }
  unfold next_address. split; [lia|]. apply not_elem_of_dom. intros Hin%Hle. lia.
Qed.

(** One memory, for slices of bytes and of pointers. *)
Record demo_memory : Type := Memory { bytes : gmap Z (list byte); pointers : gmap Z (list Z) }.
#[local] Instance demo_bytes : SliceAbi demo_memory byte := {|
  slice := Z;
  vec_into_abi m l := let p := next_address (bytes m) in (p, Memory (<[p := l]> (bytes m)) (pointers m));
  vec_from_abi m p := match bytes m !! p with
                      | Some l => Ret (l, Memory (delete p (bytes m)) (pointers m))
                      | None => Panic "null pointer"
                      end;
  vec_is_none p := p =? 0; vec_none := 0; vec_describe := []; slices := bytes |}.
#[local] Instance demo_pointers : SliceAbi demo_memory Z := {|
  slice := Z;
  vec_into_abi m l := let p := next_address (pointers m) in (p, Memory (bytes m) (<[p := l]> (pointers m)));
  vec_from_abi m p := match pointers m !! p with
                      | Some l => Ret (l, Memory (bytes m) (delete p (pointers m)))
                      | None => Panic "null pointer"
                      end;
  vec_is_none p := p =? 0; vec_none := 0; vec_describe := []; slices := pointers |}.
#[local] Instance demo_bytes_laws : SliceAbiLaws demo_bytes.
Proof.
  split; [|done]. intros m l s m' [= <- <-]. destruct (next_address_fresh (bytes m)) as [Hp Hf].
  split; [apply Z.eqb_neq; lia|]. exists (Memory (bytes m) (pointers m)). cbn. rewrite lookup_insert_eq.
  split; [|done]. by rewrite delete_insert_id.
Qed.
#[local] Instance demo_pointers_laws : SliceAbiLaws demo_pointers.
Proof.
  split; [|done]. intros m l s m' [= <- <-]. destruct (next_address_fresh (pointers m)) as [Hp Hf].
  split; [apply Z.eqb_neq; lia|]. exists (Memory (bytes m) (pointers m)). cbn. rewrite lookup_insert_eq.
  split; [|done]. by rewrite delete_insert_id.
Qed.

Lemma optional_values_witness :
  let empty := WasmFlatVector.of_vec (T := BigInteger256) [] in
  let abi := flat_abi (M := demo_memory) (T := BigInteger256) (A := demo_bytes) in
  let '(js, m) := option_into_abi (A := abi) (Memory ∅ ∅) (Some empty) in
  js <> 0 /\ exists m', option_from_abi (A := abi) m js = Ret (Some empty, m') /\ bytes m' = ∅.
Proof.
  intros empty abi.
  destruct (optional_values (W := demo_heap) (AB := demo_bytes) (AZ := demo_pointers) (PF := ref_fp)
              (WL := demo_heap_laws) (SB := demo_bytes_laws) (SZ := demo_pointers_laws)
              (PL := ref_fp_laws)) as (_ & _ & Hf & _).
  specialize (Hf (Memory ∅ ∅) (Some empty)). fold abi in Hf.
  destruct (option_into_abi _ _) as [js m].
  destruct Hf as [Hn (m' & Eo & Hu)]; [intros y [= <-]; constructor|].
  split; [intros ->; discriminate Hn|]. exists m'. split; [exact Eo|exact Hu].
Defined.
