(* ===== verification/Twins.v ===== *)
(** * Functions that are written out a second time

    [GateVectorFq] models the fq module of stubs/src/gate_vector.rs, [SrsFq] the
    fq module of wasm/src/srs.rs, [UrsUtilsWasm] wasm/src/urs_utils.rs and
    [CurvesVesta] the half about Vesta of arkworks/group_affine.rs and
    arkworks/group_projective.rs (under src/src/lib/crypto/kimchi_bindings).
    They repeat the functions of [GateVector.v], [Srs.v], [UrsUtils.v] and
    [Curves.v], which the lemmas at the end confirm: what is proved of those
    holds of these. *)

From Stdlib Require Import ZArith Lia.
From stdpp Require Import base list strings gmap.
From S2P Require Import Prelude Crates Reference FieldVector GateVector Curves UrsUtils Srs.

Module GateVectorFq.
Section GateVectorFq.
Context {GateType F CamlGate : Type} {K : KimchiGates GateType F CamlGate}.
Abbreviation gates := (list (CircuitGate GateType F)).

Definition caml_pasta_fq_plonk_gate_vector_create : gates := [].
Definition caml_pasta_fq_plonk_gate_vector_add (v : gates) (gate : CamlGate) : gates :=
  v ++ [gate_of_caml gate].
Definition caml_pasta_fq_plonk_gate_vector_get (v : gates) (i : Z) : outcome CamlGate :=
  gate ← index v (as_u64 i); Ret (gate_to_caml gate).
Definition caml_pasta_fq_plonk_gate_vector_len (v : gates) : Z := Z.of_nat (length v).
Definition caml_pasta_fq_plonk_gate_vector_wrap (v : gates) (t h : CamlWire) : outcome gates :=
  h ← wire_of_caml h;
  set_wire v (as_u64 (caml_row t)) (as_u64 (caml_col t)) h.
Definition caml_pasta_fq_plonk_gate_vector_digest (public_input_size : Z) (v : gates)
    : outcome (list byte) :=
  n ← expect "called `Result::unwrap()` on an `Err` value" (try_into_u 64 public_input_size);
  Ret (circuit_digest n v).
Definition caml_pasta_fq_plonk_circuit_serialize (public_input_size : Z) (v : gates)
    : outcome (list byte) :=
  n ← expect "called `Result::unwrap()` on an `Err` value" (try_into_u 64 public_input_size);
  expect "couldn't serialize constraints" (circuit_json n v).
End GateVectorFq.
End GateVectorFq.

Module SrsFq.
Section SrsFq.
Context {F S D : Type} {O : SrsOps F S D}.
Abbreviation WasmPolyComm := (Curves.Wasm.WasmPolyComm F).

Definition caml_fq_srs_create_parallel (st : store (SRS F)) (depth : Z) : ptr * store (SRS F) :=
  rc_new st (srs_create_parallel (as_u32 depth)).

(** [h], then all of [g]. *)
Definition caml_fq_srs_get (srs : SRS F) : list (Curves.Wasm.WasmG F) :=
  let h_and_gs := [Curves.Wasm.wasm_of_affine (srs_h srs)] in
  h_and_gs ++ map Curves.Wasm.wasm_of_affine (srs_g srs).
(** [remove(0)] panics on an empty vector. *)
Definition caml_fq_srs_set (st : store (SRS F)) (h_and_gs : list (Curves.Wasm.WasmG F))
    : outcome ptr * store (SRS F) :=
  let h_and_gs := map Curves.Wasm.affine_of_wasm h_and_gs in
  match h_and_gs with
  | [] => (Panic "removal index (is 0) should be < len (is 0)", st)
  | h :: g => let '(p, st) := rc_new st (Build_SRS g h ∅) in (Ret p, st)
  end.

Definition caml_fq_srs_maybe_lagrange_commitment (srs : SRS F) (size i : Z)
    : outcome (option WasmPolyComm) :=
  match lagrange_bases srs !! as_u32 size with
  | Some bases => c ← index bases (as_u32 i); Ret (Some (Curves.Wasm.wasm_of_poly_comm c))
  | None => Ret None
  end.

Definition caml_fq_srs_set_lagrange_basis (st : store (SRS F)) (srs : ptr) (size : Z)
    (input_bases : list WasmPolyComm) : outcome unit * store (SRS F) :=
  match collect Curves.Wasm.poly_comm_of_wasm input_bases with
  | Ret bases =>
      (Ret tt, alter (fun s => Build_SRS (srs_g s) (srs_h s) (<[as_u32 size := bases]> (lagrange_bases s))) srs st)
  | Raise e => (Raise e, st)
  | Panic m => (Panic m, st)
  end.

Definition caml_fq_srs_get_lagrange_basis (st : store (SRS F)) (srs : ptr) (size : Z)
    : outcome (list WasmPolyComm) * store (SRS F) :=
  match domain_new (as_u32 size) with
  | None => (Panic "invalid domain size", st)
  | Some domain =>
      let st := alter (fun s => add_lagrange_basis s domain) srs st in
      (s ← rc_deref st srs;
       bases ← expect "no entry found for key" (lagrange_bases s !! as_u32 size);
       Ret (map Curves.Wasm.wasm_of_poly_comm bases), st)
  end.
End SrsFq.
End SrsFq.

Module UrsUtilsWasm.
Section UrsUtilsWasm.
Context {S A P : Type} {C : Commitments S A P}.

Definition batch_dlog_accumulator_check (r : S) (urs_g : list A) (comms : list A) (chals : list S)
    : outcome bool :=
  let k := length comms in
  if (k =? 0)%nat then
    _ ← rust_assert (length chals =? 0)%nat "assertion `left == right` failed";
    Ret true
  else
    rounds ← rounds_of (length chals) k;
    let rs := compute_rs r k in
    let points := urs_g in
    let n := length points in
    let points := points ++ comms in
    let scalars := replicate n s_zero ++ rs in
    let chal_invs := batch_inversion chals in
    let termss := zip_with (fun chunk r =>
        let chals := map fst chunk in
        map (fun c => s_mul c r) (b_poly_coefficients chals))
      (chunks rounds (zip chals chal_invs)) rs in
    scalars ← fold_left (fun acc terms => scalars ← acc; sub_terms n scalars terms)
                termss (Ret scalars);
    let scalars := map s_into_repr scalars in
    Ret (p_eqb (multi_scalar_mul points scalars) p_zero).

Definition batch_dlog_accumulator_generate (urs_g : list A) (num_comms : nat) (chals : list S)
    : outcome (list A) :=
  let k := num_comms in
  if (k =? 0)%nat then
    _ ← rust_assert (length chals =? 0)%nat "assertion `left == right` failed";
    Ret []
  else
    rounds ← rounds_of (length chals) k;
    Ret (map (fun chals =>
           let scalars := map s_into_repr (b_poly_coefficients chals) in
           p_into_affine (multi_scalar_mul urs_g scalars)) (chunks rounds chals)).
End UrsUtilsWasm.
End UrsUtilsWasm.

Module CurvesVesta.
Module Stubs.
Section Stubs.
Context {F S P : Type} {C : Curve F S P}.
Abbreviation CamlGVesta := (Curves.Stubs.CamlGroupAffine F).

Definition caml_of_affine (point : GroupAffine F) : CamlGVesta :=
  if infinity point then Curves.Stubs.Infinity else Curves.Stubs.Finite (x point, y point).
Definition affine_of_caml (camlg : CamlGVesta) : GroupAffine F :=
  match camlg with
  | Curves.Stubs.Infinity => affine_zero
  | Curves.Stubs.Finite (x, y) => Affine x y false
  end.
Definition add (x y : P) : P := pr_add x y.
Definition sub (x y : P) : P := pr_sub x y.
Definition neg (x : P) : P := pr_neg x.
End Stubs.
End Stubs.

Module Wasm.
Section Wasm.
Context {F S P : Type} {C : Curve F S P}.

Record WasmGVesta : Type := { wx : F; wy : F; winfinity : bool }.
Definition wasm_of_affine (point : GroupAffine F) : WasmGVesta :=
  {| wx := x point; wy := y point; winfinity := infinity point |}.
Definition affine_of_wasm (point : WasmGVesta) : GroupAffine F :=
  Affine (wx point) (wy point) (winfinity point).
Definition caml_vesta_affine_one : WasmGVesta :=
  {| wx := generator_x; wy := generator_y; winfinity := false |}.
Definition add (x y : P) : P := pr_add x y.
Definition sub (x y : P) : P := pr_sub x y.
Definition neg (x : P) : P := pr_neg x.
End Wasm.
End Wasm.
End CurvesVesta.

(** ** The copies do what the originals do *)

Lemma gate_vector_fq_same {GT F CG : Type} {K : KimchiGates GT F CG} :
  GateVectorFq.caml_pasta_fq_plonk_gate_vector_add = GateVector.Stubs.caml_pasta_fp_plonk_gate_vector_add /\
  GateVectorFq.caml_pasta_fq_plonk_gate_vector_get = GateVector.Stubs.caml_pasta_fp_plonk_gate_vector_get /\
  GateVectorFq.caml_pasta_fq_plonk_gate_vector_wrap = GateVector.Stubs.caml_pasta_fp_plonk_gate_vector_wrap /\
  GateVectorFq.caml_pasta_fq_plonk_gate_vector_digest = GateVector.Stubs.caml_pasta_fp_plonk_gate_vector_digest /\
  GateVectorFq.caml_pasta_fq_plonk_circuit_serialize = GateVector.Stubs.caml_pasta_fp_plonk_circuit_serialize.
Proof. done. Qed.
Lemma srs_fq_same {F S D : Type} {O : SrsOps F S D} :
  SrsFq.caml_fq_srs_get = Srs.Wasm.caml_fp_srs_get (F := F) /\
  SrsFq.caml_fq_srs_set = Srs.Wasm.caml_fp_srs_set (F := F) /\
  SrsFq.caml_fq_srs_maybe_lagrange_commitment = Srs.Wasm.caml_fp_srs_maybe_lagrange_commitment (F := F) /\
  SrsFq.caml_fq_srs_set_lagrange_basis = Srs.Wasm.caml_fp_srs_set_lagrange_basis (F := F) /\
  SrsFq.caml_fq_srs_get_lagrange_basis = Srs.Wasm.caml_fp_srs_get_lagrange_basis.
Proof. done. Qed.
Lemma urs_utils_wasm_same {S A P : Type} {C : Commitments S A P} :
  UrsUtilsWasm.batch_dlog_accumulator_check = UrsUtils.batch_dlog_accumulator_check /\
  UrsUtilsWasm.batch_dlog_accumulator_generate = UrsUtils.batch_dlog_accumulator_generate.
Proof. done. Qed.
Lemma curves_vesta_same {F S P : Type} {C : Curve F S P} :
  CurvesVesta.Stubs.caml_of_affine = Curves.Stubs.caml_of_affine (F := F) /\
  CurvesVesta.Stubs.affine_of_caml = Curves.Stubs.affine_of_caml (F := F) /\
  (forall a : GroupAffine F, CurvesVesta.Wasm.affine_of_wasm (CurvesVesta.Wasm.wasm_of_affine a) = a).
Proof. split; [done|]. split; [done|]. by intros []. Qed.
