(* ===== verification/Pipeline.v ===== *)
(** * Publishing an index, proving and checking

    How the operations of [ProverProof.v], [PlonkFq.v] and [VerifierIndex.v] are used together: a
    client creates proofs for the indexes it has, publishes verifier indexes,
    and checks the proofs, one at a time or in batches.  [ProofService] is what a
    client calls.  Its specification is [direct], the service that hands out
    kimchi's own proofs and indexes, without converting anything;
    [ProofContract] says that a service is [direct] behind an encoding of proofs and
    indexes.  The two OCaml instances and the JavaScript one satisfy it, and
    sessions of a client are shown to refine sessions with [direct] once, against the
    contract.  What the prover proves and what the verifier accepts is left open. *)

From Stdlib Require Import ZArith Lia.
From stdpp Require Import base list strings gmap.
From S2P Require Import Prelude Crates Reference FieldVector Curves Srs VerifierIndex ProverProof PlonkFq.

Class ProofService (B PI In VIdx Pf : Type) : Type := {
  svc_prove : store (SRS B) -> PI -> In -> outcome Pf * store (SRS B);
  svc_index : store (SRS B) -> PI -> outcome VIdx * store (SRS B);
  svc_verify : VIdx -> Pf -> outcome bool;
  svc_batch : list VIdx -> list Pf -> outcome bool;
}.

(** ** A client *)

(** The shared reference strings, the proofs not checked yet with the indexes
    they were made for, and the answers so far. *)
Record session (B PI Pf : Type) : Type := Session {
  ses_srs : store (SRS B);
  ses_pending : list (PI * Pf);
  ses_answers : list bool;
}.
Arguments Session {B PI Pf}. Arguments ses_srs {B PI Pf}. Arguments ses_pending {B PI Pf}.
Arguments ses_answers {B PI Pf}.

Inductive cmd (PI In : Type) : Type :=
| Prove (i : PI) (inp : In)   (* create a proof *)
| CheckOne                    (* verify the oldest proof *)
| Check.                      (* verify all proofs together *)
Arguments Prove {PI In}. Arguments CheckOne {PI In}. Arguments Check {PI In}.

Section Client.
Context {B PI In VIdx Pf : Type} {X : ProofService B PI In VIdx Pf}.
Abbreviation session := (session B PI Pf).

Fixpoint publish (st : store (SRS B)) (ixs : list PI) : outcome (list VIdx) * store (SRS B) :=
  match ixs with
  | [] => (Ret [], st)
  | i :: ixs =>
      let '(v, st) := svc_index st i in
      match v with
      | Ret v => let '(vs, st) := publish st ixs in (vs ← vs; Ret (v :: vs), st)
      | Raise e => (Raise e, st)
      | Panic m => (Panic m, st)
      end
  end.

(** A client that survives an exception of a prover: that proof is missing. *)
Definition exec (s : session) (c : cmd PI In) : outcome session :=
  match c with
  | Prove i inp =>
      let '(p, st) := svc_prove (ses_srs s) i inp in
      match p with
      | Ret p => Ret (Session st (ses_pending s ++ [(i, p)]) (ses_answers s))
      | Raise _ => Ret (Session st (ses_pending s) (ses_answers s))
      | Panic m => Panic m
      end
  | CheckOne =>
      match ses_pending s with
      | [] => Ret s
      | (i, p) :: pending =>
          let '(v, st) := svc_index (ses_srs s) i in
          v ← v; b ← svc_verify v p; Ret (Session st pending (ses_answers s ++ [b]))
      end
  | Check =>
      let '(vs, st) := publish (ses_srs s) (map fst (ses_pending s)) in
      vs ← vs;
      b ← svc_batch vs (map snd (ses_pending s));
      Ret (Session st [] (ses_answers s ++ [b]))
  end.
Fixpoint run (s : session) (cs : list (cmd PI In)) : outcome session :=
  match cs with
  | [] => Ret s
  | c :: cs => s ← exec s c; run s cs
  end.
Definition start (st : store (SRS B)) : session := Session st [] [].
End Client.

(** A session with other proofs. *)
Definition encode_session {B PI Pf Pf'} (enc : Pf -> Pf') (s : session B PI Pf) : session B PI Pf' :=
  Session (ses_srs s) (map (fun '(i, p) => (i, enc p)) (ses_pending s)) (ses_answers s).

(** ** The specification: kimchi called directly *)

Section Direct.
Context {B S D Lin Alphas Vanish PI In : Type} {O : SrsOps B S D} {R : Prover B S D Lin Alphas Vanish PI}.
(** What a client passes, as kimchi's witness, tables and previous challenges. *)
Context (request_of : In -> outcome (list (list S) * list (RuntimeTable S) *
                                     list (RecursionChallenge (PolyComm B) S))).

(** A proof with its public input. *)
Definition direct_prove (i : PI) (x : In) : outcome (ProverProof B S * list S) :=
  '(witness, tables, prev) ← request_of x;
  public_input ← public_of_witness witness (px_public i);
  proof ← create_recursive witness tables i prev;
  Ret (proof, public_input).

Definition direct : ProofService B PI In (VerifierIndex B S D Lin Alphas Vanish) (ProverProof B S * list S) := {|
  svc_prove st i x := (direct_prove i x, with_basis st i);
  svc_index st i := (Ret (px_verifier_index i), with_basis st i);
  svc_verify v xp := Ret (batch_verify [(v, fst xp, snd xp)]);
  svc_batch vs ps := Ret (batch_verify (map (fun '(v, xp) => (v, fst xp, snd xp)) (zip vs ps)));
|}.

(** A proof of a request, with its public input. *)
Definition proved (i : PI) (xp : ProverProof B S * list S) : Prop :=
  exists w t prev, create_recursive w t i prev = Ret (fst xp) /\
    public_of_witness w (px_public i) = Ret (snd xp).
Lemma direct_proved i x xp : direct_prove i x = Ret xp -> proved i xp.
Proof.
  unfold direct_prove. intros H. apply bind_is_Ret in H as ([[w t] prev] & _ & H).
  apply bind_is_Ret in H as (pub & Hp & H). apply bind_is_Ret in H as (pf & Hc & [= <-]).
  by exists w, t, prev.
Qed.

(** The batch kimchi is asked about. *)
Definition triple (ip : PI * (ProverProof B S * list S)) :
    VerifierIndex B S D Lin Alphas Vanish * ProverProof B S * list S :=
  let '(i, (x, public)) := ip in (px_verifier_index i, x, public).

(** What a client relies on, for the indexes it may use ([good]): creating is
    kimchi's, behind [enc]; publishing succeeds; and what a published index says
    of encoded proofs is what kimchi says of the index it was made from. *)
Class ProofContract {VIdx Pf} (X : ProofService B PI In VIdx Pf) (good : PI -> Prop)
    (enc : ProverProof B S * list S -> Pf) : Prop := {
  prove_direct st i x : svc_prove st i x = (enc <$> direct_prove i x, with_basis st i);
  index_published st i : good i -> exists v, svc_index st i = (Ret v, with_basis st i);
  verify_direct st i v xp : good i -> proved i xp -> fst (svc_index st i) = Ret v ->
    svc_verify v (enc xp) = Ret (batch_verify [triple (i, xp)]);
  batch_direct vs l :
    Forall2 (fun v '(i, xp) => good i /\ proved i xp /\ exists st, fst (svc_index st i) = Ret v) vs l ->
    svc_batch vs (map (fun ip => enc (snd ip)) l) = Ret (batch_verify (map triple l));
}.
End Direct.

(** ** Sessions against the contract *)

Section Contract.
Context {B S D Lin Alphas Vanish PI In VIdx Pf : Type} {O : SrsOps B S D} {L : SrsLaws O}.
Context {R : Prover B S D Lin Alphas Vanish PI} {X : ProofService B PI In VIdx Pf} {good : PI -> Prop}.
Context {enc : ProverProof B S * list S -> Pf}.
Context {request_of : In -> outcome (list (list S) * list (RuntimeTable S) *
                                     list (RecursionChallenge (PolyComm B) S))}.
Context {C : ProofContract request_of X good enc}.
Abbreviation ideal := (session B PI (ProverProof B S * list S)).
Abbreviation cmd := (cmd PI In).

(** Nothing is removed from a reference string, and its points stay. *)
Definition extends (st st' : store (SRS B)) : Prop :=
  forall p, match st !! p, st' !! p with
            | Some s, Some s' => srs_g s' = srs_g s /\ srs_h s' = srs_h s /\
                                 forall n b, lagrange_bases s !! n = Some b -> lagrange_bases s' !! n = Some b
            | None, None => True
            | _, _ => False
            end.

#[local] Instance extends_preorder : PreOrder extends.
Proof.
  split.
  - intros st p. by destruct (st !! p).
  - intros a b c Hab Hbc p. specialize (Hab p). specialize (Hbc p).
    destruct (a !! p) as [s|], (b !! p) as [s'|], (c !! p) as [s''|]; try done.
    destruct Hab as (G1 & H1 & B1), Hbc as (G2 & H2 & B2).
    split; [congruence|]. split; [congruence|]. auto.
Qed.
Lemma with_basis_extends st (i : PI) : extends st (with_basis st i).
Proof.
  intros p. unfold with_basis. rewrite lookup_alter. case_decide as E; [|by destruct (st !! p)].
  subst p. destruct (st !! px_srs i) as [s|]; cbn; [|done].
  destruct (lagrange_bases s !! domain_size (px_d1 i)) as [b|] eqn:Eb.
  - by rewrite (add_basis_present s _ b).
  - destruct (add_basis_absent s _ Eb) as (b & _ & ->). cbn. split; [done|]. split; [done|].
    intros n b' Hn. rewrite lookup_insert_ne; [done|]. intros E. rewrite E in Eb. congruence.
Qed.

(** The pending proofs of a session with [direct] were made for indexes the client may
    use. *)
Definition inv (s : ideal) : Prop := Forall (fun '(i, xp) => good i /\ proved i xp) (ses_pending s).
Definition cmd_good (c : cmd) : Prop := match c with Prove i _ => good i | CheckOne | Check => True end.

Definition with_bases (st : store (SRS B)) (ixs : list PI) : store (SRS B) := fold_left with_basis ixs st.

Lemma with_bases_extends st ixs : extends st (with_bases st ixs).
Proof.
  revert st. induction ixs as [|i ixs IH]; intros st; [reflexivity|].
  etransitivity; [apply (with_basis_extends st i)|apply IH].
Qed.
Lemma publish_direct st ixs :
  publish (X := direct request_of) st ixs = (Ret (map px_verifier_index ixs), with_bases st ixs).
Proof. revert st. induction ixs as [|i ixs IH]; intros st; [done|]. cbn. by rewrite IH. Qed.
Lemma publish_good st ixs :
  Forall good ixs ->
  exists vs, publish st ixs = (Ret vs, with_bases st ixs) /\
    Forall2 (fun v i => exists st, fst (svc_index st i) = Ret v) vs ixs.
Proof.
  intros H. revert st. induction H as [|i ixs Hi _ IH]; intros st; [by exists []; split|].
  destruct (index_published request_of st i Hi) as (v & E). destruct (IH (with_basis st i)) as (vs & Ep & Hf).
  exists (v :: vs). cbn [publish]. rewrite E, Ep. split; [done|].
  constructor; [|done]. exists st. by rewrite E.
Qed.

(** The batch of a check, on both sides. *)
Lemma batch_good vs (l : list (PI * (ProverProof B S * list S))) :
  Forall (fun '(i, xp) => good i /\ proved i xp) l ->
  Forall2 (fun v i => exists st, fst (svc_index st i) = Ret v) vs (map fst l) ->
  svc_batch vs (map (fun ip => enc (snd ip)) l) = Ret (batch_verify (map triple l)).
Proof.
  intros Hl Hv. apply (batch_direct request_of (good := good)). revert vs Hv.
  induction Hl as [|[i xp] l [Hi Hx] _ IH]; intros vs Hv; inversion Hv; subst; constructor; auto.
Qed.
Lemma direct_batch (l : list (PI * (ProverProof B S * list S))) :
  map (fun '(v, xp) => (v, fst xp, snd xp)) (zip (map px_verifier_index (map fst l)) (map snd l)) = map triple l.
Proof. induction l as [|[i [x pub]] l IH]; [done|]. cbn in *. by rewrite IH. Qed.

(** One command, with the service and with [direct]. *)
Lemma exec_direct (s : ideal) c :
  inv s -> cmd_good c ->
  exec (encode_session enc s) c = encode_session enc <$> exec (X := direct request_of) s c.
Proof.
  intros Hi Hc. destruct s as [st l ans]. unfold inv in Hi. cbn [ses_pending] in Hi. destruct c as [i x| |].
  - cbn [exec encode_session ses_srs]. rewrite (prove_direct request_of (good := good)). cbn.
    destruct (direct_prove request_of i x) as [xp|e|m]; cbn; unfold encode_session; cbn;
      by rewrite ?map_app.
  - destruct l as [|[i xp] l]; [done|]. apply Forall_cons in Hi as [[Hi Hx] _].
    cbn [exec encode_session ses_srs ses_pending map]. destruct (index_published request_of st i Hi) as (v & E).
    rewrite E. cbn [mbind outcome_bind].
    rewrite (verify_direct request_of st i v xp Hi Hx) by (by rewrite E). cbn. by destruct xp.
  - cbn [exec encode_session ses_srs ses_pending].
    assert (map fst (map (fun '(i, p) => (i, enc p)) l) = map fst l) as ->
      by (rewrite map_map; apply map_ext; by intros [? ?]).
    assert (map snd (map (fun '(i, p) => (i, enc p)) l) = map (fun ip => enc (snd ip)) l) as ->
      by (rewrite map_map; apply map_ext; by intros [? ?]).
    rewrite publish_direct. destruct (publish_good st (map fst l)) as (vs & E & Hf).
    { apply Forall_map. eapply Forall_impl; [exact Hi|]. by intros [i xp] [? _]. }
    rewrite E. cbn [mbind outcome_bind]. rewrite (batch_good vs l Hi Hf). cbn. by rewrite direct_batch.
Qed.

(** What a command does to a session with [direct]. *)
Lemma exec_ideal (s : ideal) c :
  inv s -> cmd_good c ->
  match exec (X := direct request_of) s c with
  | Ret s' => inv s' /\ extends (ses_srs s) (ses_srs s')
  | Raise _ => False
  | Panic m => exists i x, c = Prove i x /\ direct_prove request_of i x = Panic m
  end.
Proof.
  intros Hi Hc. destruct s as [st l ans]. unfold inv in *. destruct c as [i x| |]; cbn in Hi, Hc |- *.
  - destruct (direct_prove request_of i x) as [xp|e|m] eqn:E; cbn; [| |by exists i, x].
    + split; [|apply with_basis_extends]. apply Forall_app. split; [done|].
      constructor; [|constructor]. split; [done|]. by eapply direct_proved.
    + split; [done|apply with_basis_extends].
  - destruct l as [|[i xp] l]; cbn; [by split|]. apply Forall_cons in Hi as [_ Hi].
    split; [done|apply with_basis_extends].
  - rewrite publish_direct. cbn. split; [constructor|apply with_bases_extends].
Qed.

(** A session with a service is the session with [direct], its proofs encoded; it
    stops only where creating a proof panics, and only extends the reference
    strings. *)
Definition refines (st : store (SRS B)) : Prop :=
  forall cs : list cmd, Forall cmd_good cs ->
    let spec := run (X := direct request_of) (start st) cs in
    run (X := X) (start st) cs = encode_session enc <$> spec /\
    match spec with
    | Ret s => extends st (ses_srs s)
    | Raise _ => False
    | Panic m => exists i x, Prove i x ∈ cs /\ direct_prove request_of i x = Panic m
    end.

Lemma run_refines (s : ideal) (cs : list cmd) :
  inv s -> Forall cmd_good cs ->
  run (encode_session enc s) cs = encode_session enc <$> run (X := direct request_of) s cs /\
  match run (X := direct request_of) s cs with
  | Ret s' => extends (ses_srs s) (ses_srs s')
  | Raise _ => False
  | Panic m => exists i x, Prove i x ∈ cs /\ direct_prove request_of i x = Panic m
  end.
Proof.
  intros Hi Hcs. revert s Hi. induction Hcs as [|c cs Hc _ IH]; intros s Hi; cbn [run]; [by split|].
  rewrite (exec_direct s c Hi Hc). pose proof (exec_ideal s c Hi Hc) as H.
  destruct (exec (X := direct request_of) s c) as [s1|e|m]; [|done|]; cbn [mbind outcome_bind fmap outcome_fmap].
  - destruct H as [Hi1 He]. destruct (IH s1 Hi1) as [E H]. split; [exact E|].
    destruct (run (X := direct request_of) s1 cs) as [s2|e|m]; [by rewrite He|done|].
    destruct H as (i & x & Hin & Ep). exists i, x. split; [by right|done].
  - destruct H as (i & x & -> & E). split; [done|]. exists i, x. split; [by left|done].
Qed.
Lemma contract_refines st : refines st.
Proof. intros cs Hcs. apply (run_refines (start st) cs); [constructor|done]. Qed.
End Contract.
Arguments refines {B S D Lin Alphas Vanish PI In VIdx Pf O R} X good enc request_of st.

(** ** The implementations *)

(** The one thing used of kimchi: its proofs commit to fifteen columns. *)
Class ProverLaws {B S D Lin Alphas Vanish PI} (R : Prover B S D Lin Alphas Vanish PI) : Prop := {
  proof_columns w t i prev x : create_recursive w t i prev = Ret x -> length (w_comm (commitments x)) = COLUMNS;
}.

Section Services.
Context {B S D P Lin Alphas Vanish PI : Type}.
Context {O : SrsOps B S D} {K : Kimchi B S D Lin Alphas Vanish} {G : Curve B S P}.
Context {R : Prover B S D Lin Alphas Vanish PI}.
Context (pc_to_caml : PolyComm B -> VerifierIndex.Stubs.CamlPolyComm B)
  (pc_of_caml : VerifierIndex.Stubs.CamlPolyComm B -> outcome (PolyComm B)).
Context {CamlProof CamlTable : Type} (caml_of_proof : ProverProof B S * list S -> CamlProof)
  (proof_of_caml : CamlProof -> outcome (ProverProof B S * list S))
  (table_of_caml : CamlTable -> RuntimeTable S).
Context (oc : bool).

(** The view of a prover index that creating a verifier index has. *)
Definition view_of (i : PI) : ProverIndexView B S D Lin Alphas Vanish :=
  {| pi_srs := px_srs i; pi_d1 := px_d1 i; pi_verifier_index := px_verifier_index i |}.

(** What a client of either side passes besides the index. *)
Record caml_input : Type := {
  ci_vectors : store (list S); ci_witness : list ptr; ci_tables : list CamlTable;
  ci_challenges : list S; ci_sgs : list (Curves.Stubs.CamlGroupAffine B) }.
Record wasm_input : Type := {
  wi_witness : list (list S); wi_tables : list (RuntimeTable S);
  wi_challenges : list S; wi_sgs : list (Curves.Wasm.WasmG B) }.

#[local] Instance stubs_vesta :
  ProofService B PI caml_input (VerifierIndex.Stubs.CamlPlonkVerifierIndex B S) CamlProof := {|
  svc_prove st i x := ProverProof.Stubs.caml_pasta_fp_plonk_proof_create caml_of_proof table_of_caml
    (ci_vectors x) st i (ci_witness x) (ci_tables x) (ci_challenges x) (ci_sgs x);
  svc_index st i := let '(v, st) := VerifierIndex.Stubs.caml_pasta_fp_plonk_verifier_index_create pc_to_caml st
    (view_of i) in (Ret v, st);
  svc_verify := ProverProof.Stubs.caml_pasta_fp_plonk_proof_verify pc_of_caml proof_of_caml oc;
  svc_batch := ProverProof.Stubs.caml_pasta_fp_plonk_proof_batch_verify pc_of_caml proof_of_caml oc;
|}.
#[local] Instance stubs_pallas :
  ProofService B PI caml_input (VerifierIndex.Stubs.CamlPlonkVerifierIndex B S) CamlProof := {|
  svc_prove st i x := PlonkFq.StubsProof.caml_pasta_fq_plonk_proof_create caml_of_proof table_of_caml
    (ci_vectors x) st i (ci_witness x) (ci_tables x) (ci_challenges x) (ci_sgs x);
  svc_index st i := let '(v, st) := PlonkFq.StubsVerifierIndex.caml_pasta_fq_plonk_verifier_index_create
    pc_to_caml st (view_of i) in (Ret v, st);
  svc_verify := PlonkFq.StubsProof.caml_pasta_fq_plonk_proof_verify pc_of_caml proof_of_caml oc;
  svc_batch := PlonkFq.StubsProof.caml_pasta_fq_plonk_proof_batch_verify pc_of_caml proof_of_caml oc;
|}.
#[local] Instance wasm_service :
  ProofService B PI wasm_input (VerifierIndex.Wasm.WasmPlonkVerifierIndex B S)
    (ProverProof.Wasm.WasmProverProof B S) := {|
  svc_prove st i x := ProverProof.Wasm.caml_pasta_fp_plonk_proof_create st i (wi_witness x) (wi_tables x)
    (wi_challenges x) (wi_sgs x);
  svc_index st i := VerifierIndex.Wasm.caml_pasta_fp_plonk_verifier_index_create st (view_of i);
  svc_verify := ProverProof.Wasm.caml_pasta_fp_plonk_proof_verify oc;
  svc_batch := ProverProof.Wasm.caml_pasta_fp_plonk_proof_batch_verify oc;
|}.

(** The indexes OCaml may use: of the right shape, with the derived fields
    kimchi computes; and those JavaScript may use, where the bindings compute
    other fields for other numbers of rows and for runtime tables. *)
Definition good_caml (i : PI) : Prop :=
  let vi := px_verifier_index i in
  vi_ok (O := O) (K := K) 64 vi /\ recompute (vi_flags vi) (vi_zk_rows vi) vi = vi.
Definition good_wasm (i : PI) : Prop :=
  let vi := px_verifier_index i in
  vi_ok (O := O) (K := K) 32 vi /\ recompute (wasm_flags vi) 3 vi = vi /\ vi_srs vi = px_srs i.

(** What the three services read of an input. *)
Definition vesta_request (x : caml_input) :=
  prev ← split_prev (ci_challenges x) (map Curves.Stubs.affine_of_caml (ci_sgs x));
  witness ← ProverProof.Stubs.read_witness (ci_vectors x) (ci_witness x);
  witness ← ProverProof.Stubs.witness_columns witness;
  Ret (witness, map table_of_caml (ci_tables x), prev).
Definition pallas_request (x : caml_input) :=
  prev ← split_prev (ci_challenges x) (map Curves.Stubs.affine_of_caml (ci_sgs x));
  witness ← PlonkFq.StubsProof.read_witness (ci_vectors x) (ci_witness x);
  witness ← PlonkFq.StubsProof.witness_columns witness;
  Ret (witness, map table_of_caml (ci_tables x), prev).
Definition wasm_request (x : wasm_input) :=
  prev ← split_prev (wi_challenges x) (map Curves.Wasm.affine_of_wasm (wi_sgs x));
  witness ← expect_array COLUMNS "the witness should be a column of 15 vectors" (wi_witness x);
  Ret (witness, wi_tables x, prev).

(** Step by step, a call that creates a proof is [direct_prove] and an encoding. *)
Ltac step_through :=
  repeat match goal with
  | |- context [mbind _ ?m] => lazymatch m with mbind _ _ => fail | _ => destruct m; [|done|done] end;
      cbn [mbind outcome_bind fmap outcome_fmap]
  end; done.

Lemma stubs_vesta_direct st i x :
  svc_prove (ProofService := stubs_vesta) st i x =
    (caml_of_proof <$> direct_prove vesta_request i x, with_basis st i).
Proof.
  cbn. unfold ProverProof.Stubs.caml_pasta_fp_plonk_proof_create, direct_prove, vesta_request.
  cbv zeta. f_equal. step_through.
Qed.
Lemma stubs_pallas_direct st i x :
  svc_prove (ProofService := stubs_pallas) st i x =
    (caml_of_proof <$> direct_prove pallas_request i x, with_basis st i).
Proof.
  cbn. unfold PlonkFq.StubsProof.caml_pasta_fq_plonk_proof_create, direct_prove, pallas_request.
  cbv zeta. f_equal. step_through.
Qed.
Lemma wasm_direct st i x :
  svc_prove (ProofService := wasm_service) st i x =
    (ProverProof.Wasm.wasm_of_proof <$> direct_prove wasm_request i x, with_basis st i).
Proof.
  cbn. unfold ProverProof.Wasm.caml_pasta_fp_plonk_proof_create, direct_prove, wasm_request.
  cbv zeta. f_equal. step_through.
Qed.

Section Contracts.
Context {L : SrsLaws O} {RL : ProverLaws R}.
Context (pc_ok : forall c, pc_of_caml (pc_to_caml c) = Ret c).
Context (proof_ok : forall i xp, proved i xp -> proof_of_caml (caml_of_proof xp) = Ret xp).

(** Decoding a batch of pairs of which each decodes to a proof and the index it
    was made for. *)
Lemma decoded_batch {V Q} (enc : ProverProof B S * list S -> Q) (pub : V -> PI * (ProverProof B S * list S) -> Prop)
    (decode : V * Q -> outcome (VerifierIndex B S D Lin Alphas Vanish * ProverProof B S * list S)) vs l :
  (forall v ip, pub v ip -> decode (v, enc (snd ip)) = Ret (triple ip)) ->
  Forall2 pub vs l ->
  collect decode (zip vs (map (fun ip => enc (snd ip)) l)) = Ret (map triple l).
Proof.
  intros Hd H. induction H as [|v ip vs l Hvp _ IH]; [done|]. cbn [map zip zip_with collect].
  rewrite (Hd v ip Hvp). cbn [mbind outcome_bind].
  change (zip_with pair vs (map (fun ip => enc (snd ip)) l)) with (zip vs (map (fun ip => enc (snd ip)) l)).
  by rewrite IH.
Qed.

(** An index OCaml may use, after its trip. *)
Lemma good_caml_decoded i : good_caml i ->
  VerifierIndex.Stubs.vi_of_caml pc_of_caml oc (VerifierIndex.Stubs.caml_of_vi pc_to_caml (px_verifier_index i))
    = Ret (px_verifier_index i).
Proof. intros [Hok Hre]. by rewrite (vi_of_of_caml pc_to_caml pc_of_caml oc _ pc_ok Hok), Hre. Qed.
(** And one JavaScript may use. *)
Lemma good_wasm_decoded st i : good_wasm i ->
  exists v, svc_index (ProofService := wasm_service) st i = (Ret v, with_basis st i) /\
    (x ← VerifierIndex.Wasm.of_wasm oc v; Ret (fst x)) = Ret (px_verifier_index i).
Proof.
  intros (Hok & Hre & Hs). destruct (of_to_wasm oc _ Hok) as (v & E & Ev). exists v. split.
  - cbn. unfold VerifierIndex.Wasm.caml_pasta_fp_plonk_verifier_index_create.
    cbn [view_of pi_srs pi_verifier_index]. by rewrite <-Hs, E, Hs.
  - by rewrite Ev, Hre.
Qed.
Lemma proved_decoded i xp : proved i xp -> ProverProof.Wasm.proof_of_wasm (ProverProof.Wasm.wasm_of_proof xp) = Ret xp.
Proof. intros (w & t & prev & Hc & _). destruct xp as [x pub]. apply proof_of_of_wasm. by eapply proof_columns. Qed.

#[local] Instance stubs_vesta_contract : ProofContract vesta_request stubs_vesta good_caml caml_of_proof.
Proof.
  split; [apply stubs_vesta_direct|intros st i _; by eexists| |].
  - intros st i v [x pub] Hi Hx [= <-]. cbn. unfold ProverProof.Stubs.caml_pasta_fp_plonk_proof_verify.
    rewrite (proof_ok i) by done. cbn [mbind outcome_bind]. by rewrite good_caml_decoded.
  - intros vs l H. cbn. unfold ProverProof.Stubs.caml_pasta_fp_plonk_proof_batch_verify.
    erewrite (decoded_batch caml_of_proof); [done| |exact H].
    intros v [i [x pub]] (Hi & Hx & st & [= <-]). cbn. by rewrite (good_caml_decoded i Hi), (proof_ok i).
Qed.
#[local] Instance stubs_pallas_contract : ProofContract pallas_request stubs_pallas good_caml caml_of_proof.
Proof.
  split; [apply stubs_pallas_direct|intros st i _; by eexists| |].
  - intros st i v [x pub] Hi Hx [= <-]. cbn. unfold PlonkFq.StubsProof.caml_pasta_fq_plonk_proof_verify.
    rewrite (proof_ok i) by done. cbn [mbind outcome_bind]. exact (f_equal _ (good_caml_decoded i Hi)).
  - intros vs l H. cbn. unfold PlonkFq.StubsProof.caml_pasta_fq_plonk_proof_batch_verify.
    erewrite (decoded_batch caml_of_proof); [done| |exact H].
    intros v [i [x pub]] (Hi & Hx & st & [= <-]). cbn [snd].
    etransitivity; [exact (f_equal _ (good_caml_decoded i Hi))|]. cbn. by rewrite (proof_ok i).
Qed.
#[local] Instance wasm_contract : ProofContract wasm_request wasm_service good_wasm ProverProof.Wasm.wasm_of_proof.
Proof.
  split; [apply wasm_direct| | |].
  - intros st i Hi. destruct (good_wasm_decoded st i Hi) as (v & E & _). by exists v.
  - intros st i v xp Hi Hx Hv. destruct (good_wasm_decoded st i Hi) as (v' & E & Ev).
    rewrite E in Hv. injection Hv as ->. cbn. unfold ProverProof.Wasm.caml_pasta_fp_plonk_proof_verify.
    apply bind_is_Ret in Ev as ([vi ?] & -> & [= ->]). cbn [mbind outcome_bind].
    rewrite (proved_decoded i xp Hx). by destruct xp.
  - intros vs l H. cbn. unfold ProverProof.Wasm.caml_pasta_fp_plonk_proof_batch_verify.
    erewrite (decoded_batch ProverProof.Wasm.wasm_of_proof); [done| |exact H].
    intros v [i xp] (Hi & Hx & st & Hv). destruct (good_wasm_decoded st i Hi) as (v' & E & Ev).
    rewrite E in Hv. injection Hv as ->. apply bind_is_Ret in Ev as ([vi ?] & -> & [= ->]).
    cbn [mbind outcome_bind snd]. rewrite (proved_decoded i xp Hx). by destruct xp.
Qed.

(** C4: a client of any of the three services sees kimchi. Take a session over
    prover indexes the client may use, with any interleaving of proofs, of any
    witnesses, tables and previous challenges, of checks of the oldest proof and of
    checks of all proofs so far, each check publishing the verifier indexes it
    needs; the indexes are those for which the bindings recompute the derived fields
    kimchi has, and numbers fit. It is the session with [direct], which calls kimchi on its own objects:
    the same proofs, encoded, are pending after every command, in the same order;
    every answer is what kimchi says of the proofs it created, their public inputs
    and the verifier indexes of the prover indexes they were created for, for each
    proof alone or for the batch; the reference strings end the same. Whatever
    kimchi answers, no conversion fails or changes it: the session ends, or stops at
    a request for which creating a proof panics, and for no other reason; and the
    reference strings were only extended: their points are those they had, and
    every Lagrange basis that was there still is. Of kimchi's conversions to OCaml
    it is assumed that they are inverse on commitments and on proofs it created. *)
Theorem session_refines st :
  refines stubs_vesta good_caml caml_of_proof vesta_request st /\
  refines stubs_pallas good_caml caml_of_proof pallas_request st /\
  refines wasm_service good_wasm ProverProof.Wasm.wasm_of_proof wasm_request st.
Proof. split; [|split]; apply contract_refines. Qed.

(** C16: creating a proof and verifying it in one call is the composition of the
    calls a client makes. On an index OCaml may use, [create_and_verify] gives
    what [create] gives, errors and panics included, checked by [verify] against
    the index that [verifier_index_create] publishes, and an error of its own
    when that says no. On the JavaScript side, which has no such function, the
    composition verifies against the index that the bindings compute again for
    three zero-knowledge rows and no runtime tables, whatever the prover's
    index says: the answer is that of kimchi for that index. *)
Theorem create_and_verify_pipeline st (i : PI) (x : caml_input) (y : wasm_input) :
  (good_caml i ->
     fst (ProverProof.Stubs.caml_pasta_fp_plonk_proof_create_and_verify caml_of_proof table_of_caml
            (ci_vectors x) st i (ci_witness x) (ci_tables x) (ci_challenges x) (ci_sgs x)) =
       (p ← fst (svc_prove (ProofService := stubs_vesta) st i x);
        v ← fst (svc_index (ProofService := stubs_vesta) st i);
        b ← svc_verify (ProofService := stubs_vesta) v p;
        if (b : bool) then Ret p else Raise (DynError "verification error"))) /\
  (vi_ok (O := O) (K := K) 32 (px_verifier_index i) -> vi_srs (px_verifier_index i) = px_srs i ->
     forall p, fst (svc_prove (ProofService := wasm_service) st i y) = Ret p ->
     exists v xp, fst (svc_index (ProofService := wasm_service) st i) = Ret v /\
       p = ProverProof.Wasm.wasm_of_proof xp /\
       svc_verify (ProofService := wasm_service) v p =
         Ret (batch_verify [(recompute (wasm_flags (px_verifier_index i)) 3 (px_verifier_index i), fst xp, snd xp)])).
Proof.
  split.
  - intros [Hok Hre]. unfold ProverProof.Stubs.caml_pasta_fp_plonk_proof_create_and_verify.
    cbn [svc_prove svc_index svc_verify stubs_vesta fst].
    unfold ProverProof.Stubs.caml_pasta_fp_plonk_proof_create, ProverProof.Stubs.caml_pasta_fp_plonk_proof_verify,
      VerifierIndex.Stubs.caml_pasta_fp_plonk_verifier_index_create.
    destruct (split_prev _ _) as [prev| |]; [|done|done]. cbn [mbind outcome_bind].
    destruct (ProverProof.Stubs.read_witness _ _) as [w0| |]; [|done|done]. cbn [mbind outcome_bind].
    destruct (ProverProof.Stubs.witness_columns _) as [w| |]; [|done|done]. cbn [mbind outcome_bind].
    destruct (public_of_witness _ _) as [pub| |] eqn:Ep; [|done|done]. cbn [mbind outcome_bind].
    destruct (create_recursive _ _ _ _) as [pf| |] eqn:Ec; [|done|done]. cbn [mbind outcome_bind fst].
    cbn [view_of pi_verifier_index].
    rewrite (proof_ok i) by (by eexists _, _, _). rewrite (vi_of_of_caml pc_to_caml pc_of_caml oc _ pc_ok Hok), Hre.
    cbn [mbind outcome_bind]. by destruct (batch_verify _).
  - intros Hok Hs p Hp. destruct (of_to_wasm oc _ Hok) as (v & E & Ev). rewrite Hs in E. exists v.
    rewrite wasm_direct in Hp. cbn [fst] in Hp.
    destruct (direct_prove wasm_request i y) as [xp| |] eqn:Ex; [|done|done]. injection Hp as <-.
    exists xp. split; [exact E|]. split; [done|].
    cbn [svc_verify wasm_service]. unfold ProverProof.Wasm.caml_pasta_fp_plonk_proof_verify. rewrite Ev.
    cbn [mbind outcome_bind]. rewrite (proved_decoded i xp (direct_proved _ _ _ _ Ex)). by destruct xp.
Qed.
End Contracts.
End Services.

(** ** Witnesses *)

(** An index of three zero-knowledge rows without lookups or optional gates, and the one of five
    rows with runtime tables of [VerifierIndex.v]. *)
Definition demo_plain_evals : PlonkVerificationEvals (PolyComm unit) :=
  let c := [u_point false] in
  {| sigma_comm := replicate 7 c; coefficients_comm := replicate 15 c; generic_comm := c; psm_comm := c;
     complete_add_comm := c; mul_comm := c; emul_comm := c; endomul_scalar_comm := c;
     xor_comm := None; range_check0_comm := None; range_check1_comm := None;
     foreign_field_add_comm := None; foreign_field_mul_comm := None; rot_comm := None |}.
Definition demo_plain_raw : VerifierIndex unit Z N FeatureFlags bool (N * Z) :=
  {| vi_domain := 4%N; vi_max_poly_size := 8; vi_public := 1; vi_prev_challenges := 0;
     vi_srs := 1%positive; vi_evals := demo_plain_evals; vi_shift := [1; 2; 3; 4; 5; 6; 7];
     vi_vanishing := None; vi_w := None; vi_endo := 0; vi_lookup_index := None;
     vi_linearization := VerifierIndex.Stubs.feature_flags demo_plain_evals None; vi_powers_of_alpha := true;
     vi_zk_rows := 3 |}.
Definition demo_plain_vi := recompute (K := demo_kimchi) (wasm_flags (K := demo_kimchi) demo_plain_raw) 3 demo_plain_raw.

(** A prover for both, [true] for the plain one: a proof verifies when it has one
    public input and as many previous challenges as the index asks for, and the index
    has its own number of rows in [w]. *)
Definition demo_proof (prev : list (RecursionChallenge (PolyComm unit) Z)) : ProverProof unit Z :=
  let d := fst (dummy_proof 1 (u_point false) None) in
  {| commitments := commitments d; proof := proof d; evals := evals d; ft_eval1 := ft_eval1 d;
     prev_challenges := prev |}.
#[local] Instance demo_pipe : Prover unit Z N FeatureFlags bool (N * Z) bool := {|
  px_srs _ := 1%positive;
  px_d1 _ := 4%N;
  px_public _ := 1;
  px_verifier_index i := if (i : bool) then demo_plain_vi else demo_vi;
  create_recursive w t i prev :=
    if (length w =? 15)%nat then Ret (demo_proof prev) else Raise (DynError "prover");
  batch_verify l := forallb (fun '(vi, x, pub) =>
    (length pub =? 1)%nat && bool_decide (vi_w vi = Some (Z.of_N (vi_domain vi) - vi_zk_rows vi)) &&
    (Z.of_nat (length (prev_challenges x)) =? vi_prev_challenges vi)) l;
|}.
#[local] Instance demo_pipe_laws : ProverLaws demo_pipe.
Proof.
  split. intros w t i prev x H. cbn in H. destruct (_ =? 15)%nat; [|done]. by injection H as <-.
Qed.

Lemma demo_plain_ok w : w = 32 \/ w = 64 -> vi_ok (O := demo_srs) (K := demo_kimchi) w demo_plain_vi.
Proof.
  intros Hw. assert (2 ^ 31 <= 2 ^ (w - 1)) as Hp by (apply Z.pow_le_mono_r; lia).
  apply Build_vi_ok; cbn [demo_plain_vi demo_plain_raw recompute vi_evals vi_shift vi_domain vi_max_poly_size
    vi_public vi_prev_challenges vi_zk_rows vi_lookup_index]; try reflexivity; try lia; [|done].
  change (log_size_of_group 4%N) with 2. lia.
Qed.

Definition demo_wasm_input (columns : nat) : wasm_input (B := unit) (S := Z) :=
  {| wi_witness := replicate columns [7; 8]; wi_tables := []; wi_challenges := []; wi_sgs := [] |}.
Definition demo_caml_input (columns : nat) (challenges : list Z)
    : caml_input (B := unit) (S := Z) (CamlTable := RuntimeTable Z) :=
  {| ci_vectors := {[ 1%positive := [7; 8] ]}; ci_witness := replicate columns 1%positive; ci_tables := [];
     ci_challenges := challenges; ci_sgs := map (fun _ => Curves.Stubs.Infinity) challenges |}.

(** Four proofs on the OCaml side, one refused for its 14 columns and one that
    does not verify, because the index asks for no previous challenge; and one on the
    JavaScript side, after whose check another is pending. *)
Definition demo_caml_session :=
  [Prove false (demo_caml_input 15 []); CheckOne; Prove true (demo_caml_input 15 []); Check;
   Prove true (demo_caml_input 14 []); Prove true (demo_caml_input 15 [5]); Prove true (demo_caml_input 15 []); Check].
Definition demo_wasm_session :=
  [Prove true (demo_wasm_input 15); CheckOne; Prove true (demo_wasm_input 15)].

Lemma session_refines_witness :
  let caml := stubs_vesta (O := demo_srs) (K := demo_kimchi) (G := demo_curve_u) (R := demo_pipe) demo_to_caml demo_of_caml
    (fun xp => xp) (fun xp => Ret xp) (fun t => t) true in
  let wasm := wasm_service (O := demo_srs) (K := demo_kimchi) (R := demo_pipe) true in
  ses_answers <$> run (X := caml) (start u_store) demo_caml_session = Ret [true; true; false] /\
  ses_answers <$> run (X := wasm) (start u_store) demo_wasm_session = Ret [true] /\
  map snd <$> (ses_pending <$> run (X := wasm) (start u_store) demo_wasm_session) =
    Ret [ProverProof.Wasm.wasm_of_proof (demo_proof [], [7])].
Proof.
  intros caml wasm.
  destruct (session_refines (O := demo_srs) (K := demo_kimchi) (G := demo_curve_u) (R := demo_pipe) (L := demo_srs_laws)
    (RL := demo_pipe_laws) demo_to_caml demo_of_caml (fun xp => xp) (fun xp => Ret xp) (fun t : RuntimeTable Z => t) true
    demo_of_to_caml (fun _ _ _ => eq_refl) u_store) as (Hc & _ & Hw).
  assert (good_caml (O := demo_srs) (K := demo_kimchi) (R := demo_pipe) true) as Ht
    by (split; [apply demo_plain_ok; by right|reflexivity]).
  assert (good_caml (O := demo_srs) (K := demo_kimchi) (R := demo_pipe) false) as Hf
    by (split; [apply demo_vi_ok; by right|reflexivity]).
  assert (good_wasm (O := demo_srs) (K := demo_kimchi) (R := demo_pipe) true) as Hg
    by (split; [apply demo_plain_ok; by left|split; reflexivity]).
  destruct (Hc demo_caml_session) as [Ec _]; [by repeat (constructor; [assumption || exact I|])|].
  destruct (Hw demo_wasm_session) as [Ew _]; [by repeat (constructor; [assumption || exact I|])|].
  fold caml in Ec. fold wasm in Ew.
  split; [|split]; [rewrite Ec|rewrite Ew|rewrite Ew]; vm_compute; reflexivity.
Defined.

(** An honest proof for five zero-knowledge rows: OCaml returns it verified,
    JavaScript verifies it against other rows and says no. *)
Lemma create_and_verify_pipeline_witness :
  fst (ProverProof.Stubs.caml_pasta_fp_plonk_proof_create_and_verify (O := demo_srs) (G := demo_curve_u)
    (R := demo_pipe) (fun xp => xp) (fun t : RuntimeTable Z => t) {[ 1%positive := [7; 8] ]} u_store false
    (replicate 15 1%positive) [] [] []) = Ret (demo_proof [], [7]) /\
  exists p v, fst (svc_prove (ProofService := wasm_service (O := demo_srs) (K := demo_kimchi) (R := demo_pipe) true)
                     u_store false (demo_wasm_input 15)) = Ret p /\
    fst (svc_index (ProofService := wasm_service (O := demo_srs) (K := demo_kimchi) (R := demo_pipe) true)
           u_store false) = Ret v /\
    svc_verify (ProofService := wasm_service (O := demo_srs) (K := demo_kimchi) (R := demo_pipe) true) v p = Ret false.
Proof.
  destruct (create_and_verify_pipeline (O := demo_srs) (K := demo_kimchi) (G := demo_curve_u) (R := demo_pipe)
    (RL := demo_pipe_laws) demo_to_caml demo_of_caml (fun xp => xp) (fun xp => Ret xp) (fun t : RuntimeTable Z => t) true
    demo_of_to_caml (fun _ _ _ => eq_refl) u_store false (demo_caml_input 15 []) (demo_wasm_input 15)) as [Hc Hw].
  split.
  - transitivity (Ret (A := ProverProof unit Z * list Z) (demo_proof [], [7]));
      [|reflexivity].
    refine (eq_trans (Hc _) _); [split; [apply demo_vi_ok; by right|reflexivity]|]. vm_compute. reflexivity.
  - destruct (Hw (demo_vi_ok 32 ltac:(by left)) eq_refl _ eq_refl) as (v & xp & Hv & Hp & Hb).
    eexists _, v. split; [reflexivity|]. split; [exact Hv|]. rewrite Hb.
    destruct xp as [x' pub]. apply (f_equal ProverProof.Wasm.wp_public) in Hp. cbn in Hp. subst pub. reflexivity.
Defined.
