(* ===== verification/Examples.v ===== *)
(** * The example circuits of the OCaml bindings

    Models the seven [caml_pasta_fp_plonk_proof_example_with_..] functions of
    stubs/src/pasta_fp_plonk_proof.rs (under
    src/src/lib/crypto/kimchi_bindings), which the node's tests use.  Each lays
    out a circuit row by row, connects cells, fills a witness, and then builds a
    constraint system, an index and a proof in the same way ([run_example]).

    The gadgets are kimchi's: [Gadgets] has what the examples call, and
    [GadgetLaws] how many rows each gadget takes (the layouts in the comments of
    the examples), that it appends them to the gates it is given, and that
    witness functions append to the columns. *)

From Stdlib Require Import ZArith Lia.
From stdpp Require Import base list strings gmap sets.
From S2P Require Import Prelude Crates Reference GateVector FieldVector.
From S2P Require Import Curves Srs VerifierIndex ProverProof PlonkIndex.

Inductive GenericGateSpec (F : Type) : Type := Pub | Const (c : F).
Arguments Pub {F}. Arguments Const {F} c.
Inductive RotMode : Type := RotLeft | RotRight.
Inductive FFOps : Type := FFAdd | FFSub.

(** A witness is its columns; [External] is kimchi's [ExternalChecks]. *)
Class Gadgets (F GT External : Type) : Type := {
  (* numbers *)
  fr_zero : F;
  fr_of : Z -> F;                                   (* From<u32>, From<u64>, From<u128> *)
  fq_modulus : N;
  two_to_limb : N;
  rand_below : Z -> nat -> N -> N;                  (* n-th gen_biguint_range(0, bound) of a seeded StdRng *)
  to_field : N -> option F;
  to_field_limbs : N -> list F;
  limb_of : N -> F;
  (* gates *)
  gate_lookup : GT;
  wire_for_row : Z -> list Wire;
  gate_zero : list Wire -> CircuitGate GT F;
  create_generic_gadget : list Wire -> GenericGateSpec F -> CircuitGate GT F;
  create_foreign_field_mul : Z -> N -> Z * list (CircuitGate GT F);
  create_multi_range_check : Z -> Z * list (CircuitGate GT F);
  extend_range_check : list (CircuitGate GT F) -> Z -> list (CircuitGate GT F) * Z;
  extend_multi_range_check : list (CircuitGate GT F) -> Z -> list (CircuitGate GT F) * Z;
  extend_compact_multi_range_check : list (CircuitGate GT F) -> Z -> list (CircuitGate GT F) * Z;
  extend_high_bounds : list (CircuitGate GT F) -> Z -> N -> list (CircuitGate GT F) * Z;
  extend_chain_ffadd :
    list (CircuitGate GT F) -> Z -> Z -> list FFOps -> N -> list (CircuitGate GT F) * Z;
  extend_xor_gadget : list (CircuitGate GT F) -> Z -> list (CircuitGate GT F);
  extend_rot : list (CircuitGate GT F) -> Z -> RotMode -> Z -> list (CircuitGate GT F);
  connect_cell_pair : list (CircuitGate GT F) -> Z * Z -> Z * Z -> outcome (list (CircuitGate GT F));
  connect_64bit : list (CircuitGate GT F) -> Z -> Z -> outcome (list (CircuitGate GT F));
  connect_ffadd_range_checks :
    list (CircuitGate GT F) -> Z -> option Z -> option Z -> Z -> outcome (list (CircuitGate GT F));
  (* witnesses *)
  ffm_witness_create : N -> N -> N -> list (list F) * External;
  extend_witness_compact_multi_range_checks : External -> list (list F) -> External * list (list F);
  extend_witness_high_bounds_computation : External -> list (list F) -> N -> External * list (list F);
  extend_witness_multi_range_checks : External -> list (list F) -> External * list (list F);
  extend_witness_limb_checks : External -> list (list F) -> External * list (list F);
  add_high_bound_computation : External -> F -> External;
  add_multi_range_check : External -> list F -> External;
  add_limb_check : External -> F -> External;
  compute_high_bound : N -> N -> N;
  range_check_create_multi : F -> F -> F -> list (list F);
  range_check_extend_single : list (list F) -> F -> list (list F);
  range_check_extend_multi : list (list F) -> F -> F -> F -> list (list F);
  ffadd_create_chain : list N -> list FFOps -> N -> list (list F);
  extend_xor_witness : list (list F) -> F -> F -> Z -> list (list F);
  rot_extend_witness : list (list F) -> Z -> Z -> RotMode -> list (list F)
}.

(** The gates [gs'] are [gs] with [n] more. *)
Definition appends {A} (n : nat) (gs gs' : list A) : Prop :=
  exists new, gs' = gs ++ new /\ length new = n.
(** Every column of [w'] is that of [w] with more cells. *)
Definition columns_extend {A} (w w' : list (list A)) : Prop :=
  Forall2 (fun c c' => exists new, c' = c ++ new) w w'.
(** What connecting keeps: how many gates there are, and which gate is where. *)
Definition same_gates {GT F} (gs gs' : list (CircuitGate GT F)) : Prop :=
  Forall2 (fun g g' => typ g' = typ g /\ coeffs g' = coeffs g) gs gs'.

Class GadgetLaws {F GT External} (Gd : Gadgets F GT External) : Prop := {
  ffm_rows r m : exists gs, create_foreign_field_mul r m = (r + 2, gs) /\ length gs = 2%nat;
  mrc_rows r : exists gs, create_multi_range_check r = (r + 4, gs) /\ length gs = 4%nat;
  range_check_rows gs r : exists gs', extend_range_check gs r = (gs', r + 1) /\ appends 1 gs gs';
  extend_mrc_rows gs r : exists gs', extend_multi_range_check gs r = (gs', r + 4) /\ appends 4 gs gs';
  extend_compact_rows gs r :
    exists gs', extend_compact_multi_range_check gs r = (gs', r + 4) /\ appends 4 gs gs';
  high_bounds_rows gs r m : exists gs', extend_high_bounds gs r m = (gs', r + 1) /\ appends 1 gs gs';
  ffadd_rows gs pub r ops m : exists gs',
    extend_chain_ffadd gs pub r ops m = (gs', r + Z.of_nat (length ops) + 2) /\
    appends (length ops + 2) gs gs';
  xor_rows gs n : 0 < n -> n mod 16 = 0 -> appends (Z.to_nat (n / 16) + 1) gs (extend_xor_gadget gs n);
  rot_rows gs n mode z : exists k, (0 < k)%nat /\ appends k gs (extend_rot gs n mode z);
  connect_rows gs r1 c1 r2 c2 :
    0 <= r1 < Z.of_nat (length gs) -> 0 <= r2 < Z.of_nat (length gs) -> 0 <= c1 < 7 -> 0 <= c2 < 7 ->
    exists gs', connect_cell_pair gs (r1, c1) (r2, c2) = Ret gs' /\ same_gates gs gs' /\
      (forall r, r <> r1 -> r <> r2 -> gs' !! Z.to_nat r = gs !! Z.to_nat r);
  connect_64bit_rows gs z r :
    0 <= z < r -> r < Z.of_nat (length gs) ->
    exists gs', connect_64bit gs z r = Ret gs' /\ same_gates gs gs' /\
      (forall k, r < k -> gs' !! Z.to_nat k = gs !! Z.to_nat k);
  connect_ffadd_rows gs r l ri o :
    0 <= r -> (forall x, x = o \/ l = Some x \/ ri = Some x -> r < x /\ x + 4 <= Z.of_nat (length gs)) ->
    exists gs', connect_ffadd_range_checks gs r l ri o = Ret gs' /\ same_gates gs gs';
  extend_single_columns w v : columns_extend w (range_check_extend_single w v);
  extend_multi_columns w a b c : columns_extend w (range_check_extend_multi w a b c);
  extend_xor_columns w a b n : columns_extend w (extend_xor_witness w a b n);
  extend_rot_columns w a n mode : columns_extend w (rot_extend_witness w a n mode);
  ffm_columns a b m : length (fst (ffm_witness_create a b m)) = COLUMNS;
  compact_columns e w : columns_extend w (snd (extend_witness_compact_multi_range_checks e w));
  high_bounds_columns e w m : columns_extend w (snd (extend_witness_high_bounds_computation e w m));
  multi_columns e w : columns_extend w (snd (extend_witness_multi_range_checks e w));
  limb_columns e w : columns_extend w (snd (extend_witness_limb_checks e w));
  limbs_three n : length (to_field_limbs n) = 3%nat;
  to_field_small n : (n < two_to_limb)%N -> is_Some (to_field n);
  rand_below_bound seed n b : b <> 0%N -> (rand_below seed n b < b)%N;
  two_to_limb_pos : two_to_limb <> 0%N;
  create_multi_columns a b c : length (range_check_create_multi a b c) = COLUMNS;
  ffadd_chain_shape ins ops m : exists rows,
    length (ffadd_create_chain ins ops m) = COLUMNS /\ (length ops + 2 <= rows)%nat /\
    Forall (fun c => length c = rows) (ffadd_create_chain ins ops m)
}.

(** ** Circuits *)

(** Where the examples find a constraint system, a witness and its tables. *)
Record circuit (F GT : Type) : Type := {
  c_gates : list (CircuitGate GT F);
  c_public : Z;                                    (* [.public(..)], 0 if not called *)
  c_lookup : list (LookupTable F);
  c_runtime_cfg : option (list (RuntimeTableCfg F));
  c_runtime : list (RuntimeTable F);
  c_witness : list (list F);
  c_public_cells : list Z                          (* rows of column 0 that are returned *)
}.
Arguments Build_circuit {F GT}. Arguments c_gates {F GT}. Arguments c_public {F GT}.
Arguments c_lookup {F GT}. Arguments c_runtime_cfg {F GT}. Arguments c_runtime {F GT}.
Arguments c_witness {F GT}. Arguments c_public_cells {F GT}.

(** [BigUint::from_bytes_be] *)
Definition from_bytes_be (l : list Z) : N := fold_left (fun n b => 256 * n + Z.to_N b)%N l 0%N.

(** [witness[col][row] = v] *)
Definition set_cell {A} (w : list (list A)) (c r : Z) (v : A) : outcome (list (list A)) :=
  column ← index w c; column ← index_set column r v; index_set w c column.
(** [witness[col][row]] *)
Definition get_cell {A} (w : list (list A)) (c r : Z) : outcome A :=
  column ← index w c; index column r.

Section Circuits.
Context {F GT External : Type} {Gd : Gadgets F GT External}.
Abbreviation gates := (list (CircuitGate GT F)).
Abbreviation witness := (list (list F)).

(** [array_init(|_| vec![Fp::zero(); n])] *)
Definition zero_columns (n : nat) : witness := replicate COLUMNS (replicate n fr_zero).

(** The padding loops: with the running row, and with the number of gates. *)
Fixpoint pad_counter (n : nat) (gs : gates) (row : Z) : gates * Z :=
  match n with
  | O => (gs, row)
  | S n => pad_counter n (gs ++ [gate_zero (wire_for_row row)]) (row + 1)
  end.
Fixpoint pad_length (n : nat) (gs : gates) : gates :=
  match n with
  | O => gs
  | S n => pad_length n (gs ++ [gate_zero (wire_for_row (Z.of_nat (length gs)))])
  end.
(** [1 << 13] *)
Definition padding : nat := Z.to_nat (2 ^ 13).

(** *** Lookup *)

Definition num_gates : nat := 1000.
Definition num_tables : nat := 5.
Definition fixed_tables : list (LookupTable F) := [Build_LookupTable 0 [map fr_of [0; 0; 0; 0; 0]]].
Definition runtime_tables_setup : list (RuntimeTableCfg F) :=
  map (fun table_id => Build_RuntimeTableCfg (as_i32 (Z.of_nat table_id)) (map fr_of [8; 9; 8; 7; 1]))
    (seq 0 num_tables).
Definition runtime_tables : list (RuntimeTable F) :=
  map (fun cfg => {| rt_id := cfg_id cfg; rt_data := map fr_of [0; 2; 3; 4; 5] |}) runtime_tables_setup.
Definition lookup_gates : gates :=
  map (fun row => {| typ := gate_lookup; wires := wire_for_row (Z.of_nat row); coeffs := [] |})
    (seq 0 num_gates).

(** The queries of a row: [chunks_mut(2)] of the registers 1 to 6. *)
Fixpoint fill_chunks (w : witness) (row : Z) (chunk_id : Z) (chunks : list (list Z)) : outcome witness :=
  match chunks with
  | [] => Ret w
  | chunk :: chunks =>
      c0 ← index chunk 0;
      c1 ← index chunk 1;
      w ← (if (row + chunk_id) mod 2 =? 0
           then w ← set_cell w c0 row (fr_of 9); set_cell w c1 row (fr_of 2)
           else w ← set_cell w c0 row (fr_of 8); set_cell w c1 row (fr_of 3));
      fill_chunks w row (chunk_id + 1) chunks
  end.
Definition fill_row (w : witness) (row : nat) : outcome witness :=
  w ← set_cell w 0 (Z.of_nat row) (fr_of (Z.of_nat (row mod num_tables)));
  fill_chunks w (Z.of_nat row) 0 (chunks 2 [1; 2; 3; 4; 5; 6]).
Definition lookup_witness : outcome witness :=
  fold_left (fun w row => w ← w; fill_row w row) (seq 0 num_gates) (Ret (zero_columns (length lookup_gates))).

Definition lookup_circuit : outcome (circuit F GT) :=
  w ← lookup_witness;
  Ret {| c_gates := lookup_gates; c_public := 1; c_lookup := fixed_tables;
         c_runtime_cfg := Some runtime_tables_setup; c_runtime := runtime_tables;
         c_witness := w; c_public_cells := [0] |}.

(** *** Foreign field multiplication *)

(** [gates.connect_cell_pair(a, b)] for each pair, in order. *)
Definition connect_all (gs : gates) (pairs : list ((Z * Z) * (Z * Z))) : outcome gates :=
  fold_left (fun gs '(a, b) => gs ← gs; connect_cell_pair gs a b) pairs (Ret gs).

(** The gates of the example; the witness is built in between in the source,
    and does not depend on them. *)
Definition ffm_gates : outcome gates :=
  let m := fq_modulus in
  let '(next_row, gs) := create_foreign_field_mul 0 m in
  let '(gs, next_row) := extend_compact_multi_range_check gs next_row in
  gs ← connect_all gs [((1, 0), (4, 1)); ((1, 1), (2, 0))];
  let '(gs, next_row) := extend_high_bounds gs next_row m in
  gs ← connect_all gs [((6, 0), (1, 1))];
  let '(gs, next_row) := extend_multi_range_check gs next_row in
  gs ← connect_all gs [((1, 2), (7, 0)); ((1, 3), (8, 0)); ((1, 4), (9, 0))];
  let '(gs, next_row) := extend_multi_range_check gs next_row in
  gs ← connect_all gs [((1, 5), (11, 0)); ((0, 6), (12, 0)); ((1, 6), (13, 0))];
  let '(gs, next_row) := extend_high_bounds gs next_row m in
  gs ← connect_all gs [((15, 0), (0, 2)); ((15, 3), (0, 5))];
  let '(gs, next_row) := extend_multi_range_check gs next_row in
  gs ← connect_all gs [((0, 0), (16, 0)); ((0, 1), (17, 0)); ((0, 2), (18, 0))];
  let '(gs, next_row) := extend_multi_range_check gs next_row in
  gs ← connect_all gs [((0, 3), (20, 0)); ((0, 4), (21, 0)); ((0, 5), (22, 0))];
  let '(gs, next_row) := extend_multi_range_check gs next_row in
  gs ← connect_all gs [((6, 2), (24, 0))];
  gs ← connect_all gs [((15, 2), (25, 0)); ((15, 5), (26, 0))];
  Ret (fst (pad_counter padding gs next_row)).

Definition ffm_witness : outcome witness :=
  let m := fq_modulus in
  let left_input := rand_below 2 0 m in
  let right_input := rand_below 2 1 m in
  let '(w, ext) := ffm_witness_create left_input right_input m in
  let '(ext, w) := extend_witness_compact_multi_range_checks ext w in
  let '(ext, w) := extend_witness_high_bounds_computation ext w m in
  let '(ext, w) := extend_witness_multi_range_checks ext w in
  let left_limbs := to_field_limbs left_input in
  let right_limbs := to_field_limbs right_input in
  l2 ← index left_limbs 2;
  let ext := add_high_bound_computation ext l2 in
  r2 ← index right_limbs 2;
  let ext := add_high_bound_computation ext r2 in
  let '(ext, w) := extend_witness_high_bounds_computation ext w m in
  let ext := add_multi_range_check ext left_limbs in
  let ext := add_multi_range_check ext right_limbs in
  let '(ext, w) := extend_witness_multi_range_checks ext w in
  let ext := add_limb_check ext (limb_of (compute_high_bound left_input m)) in
  let ext := add_limb_check ext (limb_of (compute_high_bound right_input m)) in
  let '(ext, w) := extend_witness_limb_checks ext w in
  Ret w.

(** A circuit with neither tables nor previous challenges. *)
Definition plain_circuit (gs : gates) (public : Z) (w : witness) (cells : list Z) : circuit F GT :=
  {| c_gates := gs; c_public := public; c_lookup := []; c_runtime_cfg := None; c_runtime := [];
     c_witness := w; c_public_cells := cells |}.

Definition ffm_circuit : outcome (circuit F GT) :=
  gs ← ffm_gates; w ← ffm_witness; Ret (plain_circuit gs 0 w []).

(** *** Range checks *)

Definition range_check_gates : gates :=
  let '(next_row, gs) := create_multi_range_check 0 in fst (pad_counter padding gs next_row).
Definition range_check_witness : outcome witness :=
  let limb n := expect "failed to convert to field" (to_field (rand_below 255 n two_to_limb)) in
  a ← limb 0%nat; b ← limb 1%nat; c ← limb 2%nat; Ret (range_check_create_multi a b c).
Definition range_check_circuit : outcome (circuit F GT) :=
  w ← range_check_witness; Ret (plain_circuit range_check_gates 0 w []).

Definition range_check0_gates : outcome gates :=
  let gs := [create_generic_gadget (wire_for_row 0) (Const fr_zero)] in
  let '(gs, _) := extend_range_check gs 1 in
  connect_64bit (pad_length padding gs) 0 1.
Definition range_check0_witness : witness :=
  range_check_extend_single (zero_columns 1) (fr_of (2 ^ 64 - 1)).
Definition range_check0_circuit : outcome (circuit F GT) :=
  gs ← range_check0_gates; Ret (plain_circuit gs 0 range_check0_witness []).

(** *** Foreign field addition *)

(** The 32 bytes of the source, most significant first. *)
Definition ffadd_modulus : N := from_bytes_be
  [0xFF; 0xFF; 0xFF; 0xFF; 0xFF; 0xFF; 0xFF; 0xFF; 0xFF; 0xFF; 0xFE; 0xFF; 0xFF; 0xFF; 0xFF;
   0xFF; 0xFF; 0xFF; 0xFF; 0xFF; 0xFF; 0xFF; 0xFF; 0xFF; 0xFF; 0xFF; 0xFF; 0xFE; 0xFF; 0xFF;
   0xFC; 0x2F].

Definition ffadd_gates : outcome gates :=
  let gs := [create_generic_gadget (wire_for_row 0) Pub] in
  let '(gs, curr_row) := extend_chain_ffadd gs 0 1 [FFAdd] ffadd_modulus in
  let '(gs, curr_row) := Nat.iter 4 (fun '(gs, row) => extend_multi_range_check gs row) (gs, curr_row) in
  gs ← connect_ffadd_range_checks gs 1 (Some 4) (Some 8) 12;
  gs ← connect_ffadd_range_checks gs 2 None None 16;
  Ret (fst (pad_counter padding gs curr_row)).

(** [let x = (witness[a][r], witness[b][r], witness[c][r]); extend_multi(..)] *)
Definition extend_multi_cells (w : witness) (a b c r : Z) : outcome witness :=
  x ← get_cell w a r; y ← get_cell w b r; z ← get_cell w c r;
  Ret (range_check_extend_multi w x y z).

Definition ffadd_witness : outcome witness :=
  w ← set_cell (zero_columns 1) 0 0 (fr_of 1);
  let left := (ffadd_modulus - 1)%N in
  let right := (ffadd_modulus - 1)%N in
  let add_witness := ffadd_create_chain [left; right] [FFAdd] ffadd_modulus in
  w ← fold_left (fun w col => w ← w; a ← index add_witness (Z.of_nat col);
                    c ← index w (Z.of_nat col); index_set w (Z.of_nat col) (c ++ a))
        (seq 0 COLUMNS) (Ret w);
  w ← extend_multi_cells w 0 1 2 1;
  w ← extend_multi_cells w 3 4 5 1;
  w ← extend_multi_cells w 0 1 2 2;
  extend_multi_cells w 0 1 2 3.

Definition ffadd_circuit : outcome (circuit F GT) :=
  gs ← ffadd_gates; w ← ffadd_witness; Ret (plain_circuit gs 1 w [0]).

(** *** Xor and rotation *)

Definition xor_gates : outcome gates :=
  let gs := map (fun row => create_generic_gadget (wire_for_row row) Pub) [0; 1] in
  let gs := extend_xor_gadget gs 128 in
  gs ← connect_all gs [((0, 0), (2, 0)); ((1, 0), (2, 1))];
  Ret (pad_length padding gs).
Definition input1 : Z := 0xDC811727DAF22EC15927D6AA275F406B.
Definition input2 : Z := 0xA4F4417AF072DF9016A1EAB458DA80D1.
Definition xor_witness : outcome witness :=
  w ← set_cell (zero_columns 2) 0 0 (fr_of input1);
  w ← set_cell w 0 1 (fr_of input2);
  Ret (extend_xor_witness w (fr_of input1) (fr_of input2) 128).
Definition xor_circuit : outcome (circuit F GT) :=
  gs ← xor_gates; w ← xor_witness; Ret (plain_circuit gs 2 w [0; 1]).

Definition rot_gates : outcome gates :=
  let gs := map (fun row => create_generic_gadget (wire_for_row row) Pub) [0; 1] in
  let gs := extend_rot gs 32 RotLeft 1 in
  gs ← connect_all gs [((0, 0), (2, 0))];
  Ret (pad_length padding gs).
Definition rot_input : Z := 0xDC811727DAF22EC1.
Definition rot_witness : outcome witness :=
  w ← set_cell (zero_columns 2) 0 0 (fr_of rot_input);
  Ret (rot_extend_witness w rot_input 32 RotLeft).
Definition rot_circuit : outcome (circuit F GT) :=
  gs ← rot_gates; w ← rot_witness; Ret (plain_circuit gs 2 w [0; 1]).
End Circuits.

(** ** Running an example *)

Section Run.
Context {B F D GT CS Lin Alphas Vanish Rest External : Type}.
Context {O : SrsOps B F D} {K : Kimchi B F D Lin Alphas Vanish} {I : IndexOps B F D GT CS Lin Alphas Rest}.
Context {R : Prover B F D Lin Alphas Vanish (ProverIndex CS Lin Alphas Rest)}.
Context {Gd : Gadgets F GT External}.
Context {CamlProof : Type} (caml_of_proof : ProverProof B F * list F -> CamlProof).
Abbreviation PX := (ProverIndex CS Lin Alphas Rest).

(** [Result::unwrap] *)
Definition unwrap {A} (m : outcome A) : outcome A :=
  match m with Raise _ => Panic "called `Result::unwrap()` on an `Err` value" | _ => m end.

(** The end of every example: build the system, add the basis of its domain to
    the shared reference string, create the index (without a digest), read the
    public cells, prove. *)
Definition run_example (st : store (SRS B)) (srs : ptr) (c : outcome (circuit F GT))
    : outcome (PX * list F * CamlProof) * store (SRS B) :=
  match c with
  | Raise e => (Raise e, st)
  | Panic m => (Panic m, st)
  | Ret c =>
      match cs_build (c_gates c) (c_public c) 0 None (c_lookup c) (c_runtime_cfg c) with
      | inr _ => (Panic "called `Result::unwrap()` on an `Err` value", st)
      | inl cs =>
          let st := alter (fun s => add_lagrange_basis s (cs_d1 cs)) srs st in
          (s ← rc_deref st srs;
           let index := index_new cs index_endo srs s in
           public_input ← collect (get_cell (c_witness c) 0) (c_public_cells c);
           proof ← unwrap (create_recursive (c_witness c) (c_runtime c) index []);
           Ret (index, public_input, caml_of_proof (proof, public_input)), st)
      end
  end.

Definition caml_pasta_fp_plonk_proof_example_with_lookup st srs := run_example st srs lookup_circuit.
Definition caml_pasta_fp_plonk_proof_example_with_foreign_field_mul st srs := run_example st srs ffm_circuit.
Definition caml_pasta_fp_plonk_proof_example_with_range_check st srs := run_example st srs range_check_circuit.
Definition caml_pasta_fp_plonk_proof_example_with_range_check0 st srs := run_example st srs range_check0_circuit.
Definition caml_pasta_fp_plonk_proof_example_with_ffadd st srs := run_example st srs ffadd_circuit.
Definition caml_pasta_fp_plonk_proof_example_with_xor st srs := run_example st srs xor_circuit.
Definition caml_pasta_fp_plonk_proof_example_with_rot st srs := run_example st srs rot_circuit.
End Run.

(** ** Layouts *)

(** After [n] gates, gate [j] is a zero gate wired to its own row [j]. *)
Definition padded {F GT External} {Gd : Gadgets F GT External} (n : nat) (gs : list (CircuitGate GT F)) : Prop :=
  length gs = (n + padding)%nat /\
  forall j, (n <= j < n + padding)%nat -> gs !! j = Some (gate_zero (wire_for_row (Z.of_nat j))).

Section Layouts.
Context {F GT External : Type} {Gd : Gadgets F GT External} {L : GadgetLaws Gd}.
Abbreviation gates := (list (CircuitGate GT F)).
Implicit Types gs : gates.

Lemma appends_length {A} n (l l' : list A) : appends n l l' -> length l' = (length l + n)%nat.
Proof. intros (new & -> & <-). apply length_app. Qed.
Lemma same_gates_length gs gs' : same_gates gs gs' -> length gs' = length gs.
Proof. intros H. symmetry. by eapply Forall2_length. Qed.

Definition pad_gates (n k : nat) : gates :=
  map (fun j => gate_zero (wire_for_row (Z.of_nat j))) (seq k n).
Lemma pad_length_spec n gs : pad_length n gs = gs ++ pad_gates n (length gs).
Proof.
  revert gs. induction n as [|n IH]; intros gs; [by rewrite app_nil_r|].
  cbn [pad_length pad_gates seq map]. rewrite IH, <-app_assoc, length_app. cbn [length app].
  by rewrite Nat.add_1_r.
Qed.
Lemma pad_counter_spec n gs row :
  row = Z.of_nat (length gs) -> fst (pad_counter n gs row) = gs ++ pad_gates n (length gs).
Proof.
  revert gs row. induction n as [|n IH]; intros gs row ->; [by rewrite app_nil_r|].
  cbn [pad_counter pad_gates seq map]. rewrite IH by (rewrite length_app; cbn [length]; lia).
  rewrite <-app_assoc, length_app. cbn [length app]. by rewrite Nat.add_1_r.
Qed.
Lemma padded_app gs n : length gs = n -> padded n (gs ++ pad_gates padding n).
Proof.
  intros <-. split.
  - rewrite length_app. unfold pad_gates. by rewrite length_map, length_seq.
  - intros j Hj. rewrite lookup_app_r by lia. unfold pad_gates.
    rewrite list_lookup_fmap, lookup_seq_lt by lia. cbn. do 4 f_equal. lia.
Qed.

(** A layout so far: [n] gates and the row after them. *)
Definition laid (n : nat) (p : gates * Z) : Prop := length (fst p) = n /\ snd p = Z.of_nat n.

Lemma laid_mrc n p : laid n p -> laid (n + 4) (extend_multi_range_check (fst p) (snd p)).
Proof.
  intros [Hl Hr]. destruct (extend_mrc_rows (fst p) (snd p)) as (gs' & -> & H%appends_length).
  split; cbn [fst snd]; lia.
Qed.
Lemma laid_compact n p : laid n p -> laid (n + 4) (extend_compact_multi_range_check (fst p) (snd p)).
Proof.
  intros [Hl Hr]. destruct (extend_compact_rows (fst p) (snd p)) as (gs' & -> & H%appends_length).
  split; cbn [fst snd]; lia.
Qed.
Lemma laid_bounds n p m : laid n p -> laid (n + 1) (extend_high_bounds (fst p) (snd p) m).
Proof.
  intros [Hl Hr]. destruct (high_bounds_rows (fst p) (snd p) m) as (gs' & -> & H%appends_length).
  split; cbn [fst snd]; lia.
Qed.

(** Connections within the first [n] rows. *)
Definition in_rows (n : nat) (pairs : list ((Z * Z) * (Z * Z))) : bool :=
  forallb (fun '((r1, c1), (r2, c2)) =>
    (0 <=? r1) && (r1 <? Z.of_nat n) && (0 <=? c1) && (c1 <? 7) &&
    (0 <=? r2) && (r2 <? Z.of_nat n) && (0 <=? c2) && (c2 <? 7)) pairs.
Lemma connect_all_ok n gs pairs :
  length gs = n -> in_rows n pairs = true ->
  exists gs', connect_all gs pairs = Ret gs' /\ length gs' = n.
Proof.
  unfold connect_all. revert gs. induction pairs as [|[[r1 c1] [r2 c2]] pairs IH]; intros gs Hl Hp; [by exists gs|].
  cbn [in_rows forallb] in Hp. apply andb_true_iff in Hp as [Hp Hps].
  destruct (connect_rows gs r1 c1 r2 c2) as (gs1 & E & Hs & _); [lia..|].
  cbn [fold_left mbind outcome_bind]. rewrite E. apply IH; [|done].
  apply same_gates_length in Hs. congruence.
Qed.

(** One more gadget, one more batch of connections, and the padding. *)
Ltac gadget lem :=
  match goal with H : laid _ _ |- _ =>
    apply lem in H; cbn [fst snd] in H; match type of H with laid _ ?e => destruct e as [? ?] end
  end.
Ltac connect :=
  match goal with H : laid ?n (?gs, ?r) |- context [connect_all ?gs ?ps] =>
    let E := fresh "E" in let Hl := fresh "Hl" in
    destruct (connect_all_ok n gs ps (proj1 H) eq_refl) as (? & E & Hl);
    rewrite E; cbn [mbind outcome_bind];
    pose proof (conj Hl (proj2 H) : laid n (_, r)); clear H E Hl
  end.
Ltac padding :=
  match goal with H : laid ?n _ |- _ =>
    destruct H as [? ?]; cbn [fst snd] in *;
    eexists; split; [reflexivity|];
    rewrite ?pad_counter_spec, ?pad_length_spec by congruence;
    match goal with Hl : length ?gs = n |- _ => rewrite Hl; apply (padded_app gs n Hl) end
  end.

Lemma ffm_layout : exists gs, ffm_gates = Ret gs /\ padded 28 gs.
Proof.
  unfold ffm_gates. destruct (ffm_rows 0 fq_modulus) as (gs & -> & Hl).
  pose proof (conj Hl eq_refl : laid 2 (gs, 0 + 2)).
  gadget laid_compact. connect. gadget (fun n p => laid_bounds n p fq_modulus). connect. gadget laid_mrc. connect.
  gadget laid_mrc. connect. gadget (fun n p => laid_bounds n p fq_modulus). connect. gadget laid_mrc. connect.
  gadget laid_mrc. connect. gadget laid_mrc. connect. connect. padding.
Qed.

Lemma range_check_layout : padded 4 range_check_gates.
Proof.
  unfold range_check_gates. destruct (mrc_rows 0) as (gs & -> & Hl).
  rewrite pad_counter_spec by (rewrite Hl; done). rewrite Hl. by apply padded_app.
Qed.

Lemma range_check0_layout : exists gs, range_check0_gates = Ret gs /\ padded 2 gs.
Proof.
  unfold range_check0_gates.
  destruct (range_check_rows [create_generic_gadget (wire_for_row 0) (Const fr_zero)] 1)
    as (gs & -> & Hl%appends_length).
  cbn [length] in Hl. rewrite pad_length_spec, Hl.
  pose proof (padded_app gs 2 Hl) as [Hn Hp].
  destruct (connect_64bit_rows (gs ++ pad_gates padding 2) 0 1) as (gs' & E & Hs & Hk);
    [lia|rewrite Hn; lia|].
  exists gs'. split; [exact E|]. split; [by rewrite (same_gates_length _ _ Hs)|].
  intros j Hj. rewrite <-(Nat2Z.id j), (Hk (Z.of_nat j)) by lia. rewrite Nat2Z.id. by apply Hp.
Qed.

Lemma ffadd_layout : exists gs, ffadd_gates = Ret gs /\ padded 20 gs.
Proof.
  unfold ffadd_gates.
  destruct (ffadd_rows [create_generic_gadget (wire_for_row 0) Pub] 0 1 [FFAdd] ffadd_modulus)
    as (gs & -> & Hl%appends_length).
  pose proof (conj Hl eq_refl : laid 4 (gs, 1 + Z.of_nat (length [FFAdd]) + 2)) as H.
  cbn [Nat.iter nat_rect]. do 4 gadget laid_mrc. destruct H as [Hn Hr]. cbn [fst snd] in Hn, Hr.
  match goal with Hn : length ?l = (4 + 4 + 4 + 4 + 4)%nat |- _ =>
    destruct (connect_ffadd_rows l 1 (Some 4) (Some 8) 12) as (gs1 & -> & Hs1%same_gates_length) end.
  { lia. }
  { intros x [->|[[= <-]|[= <-]]]; rewrite Hn; lia. }
  cbn [mbind outcome_bind].
  destruct (connect_ffadd_rows gs1 2 None None 16) as (gs2 & -> & Hs2%same_gates_length).
  { lia. }
  { intros x [->|[[=]|[=]]]; rewrite Hs1, Hn; lia. }
  cbn [mbind outcome_bind]. assert (laid 20 (gs2, Z.of_nat 20)) by (split; cbn [fst snd]; lia).
  padding.
Qed.

Lemma xor_layout : exists gs, xor_gates = Ret gs /\ padded 11 gs.
Proof.
  unfold xor_gates. cbn [map].
  match goal with |- context [extend_xor_gadget ?gs 128] =>
    pose proof (appends_length _ _ _ (xor_rows gs 128 ltac:(lia) eq_refl)) as Hl end.
  pose proof (conj Hl eq_refl : laid 11 (_, 11)). connect. padding.
Qed.

Lemma rot_layout : exists n gs, (2 < n)%nat /\ rot_gates = Ret gs /\ padded n gs.
Proof.
  unfold rot_gates. cbn [map].
  match goal with |- context [extend_rot ?gs 32 RotLeft 1] =>
    destruct (rot_rows gs 32 RotLeft 1) as (k & Hk & Hl%appends_length) end.
  cbn [length] in Hl. destruct k as [|k]; [lia|].
  destruct (connect_all_ok _ _ [((0, 0), (2, 0))] Hl) as (gs & -> & Hn); 
    [unfold in_rows; cbn [forallb];
     by rewrite (proj2 (Z.ltb_lt 0 _)), (proj2 (Z.ltb_lt 2 _)) by lia|].
  exists (3 + k)%nat, (gs ++ pad_gates padding (3 + k)). split; [lia|]. cbn [mbind outcome_bind].
  rewrite pad_length_spec, Hn. split; [done|]. by apply padded_app.
Qed.
End Layouts.

(** ** The lookup example *)

Section Lookup.
Context {F GT External : Type} {Gd : Gadgets F GT External}.

(** Column [c] of row [r] in closed form. *)
Definition lookup_cell (c r : nat) : F :=
  if (c =? 0)%nat then fr_of (Z.of_nat (r mod num_tables))
  else if (c <? 7)%nat then
    fr_of (match ((r + (c - 1) / 2) mod 2)%nat, ((c - 1) mod 2)%nat with
           | O, O => 9 | O, _ => 2 | _, O => 8 | _, _ => 3 end)
  else fr_zero.

Lemma lookup_witness_cells :
  lookup_witness = Ret (map (fun c => map (lookup_cell c) (seq 0 num_gates)) (seq 0 COLUMNS)).
Proof. vm_cast_no_check (eq_refl (lookup_witness (GT := GT))). Qed.

Lemma get_lookup_cell c r :
  (c < COLUMNS)%nat -> (r < num_gates)%nat ->
  get_cell (map (fun c => map (lookup_cell c) (seq 0 num_gates)) (seq 0 COLUMNS)) (Z.of_nat c) (Z.of_nat r)
  = Ret (lookup_cell c r).
Proof.
  intros Hc Hr. unfold get_cell.
  rewrite (index_lookup _ c (map (lookup_cell c) (seq 0 num_gates)))
    by (rewrite list_lookup_fmap, lookup_seq_lt by done; done).
  cbn [mbind outcome_bind]. apply index_lookup. by rewrite list_lookup_fmap, lookup_seq_lt.
Qed.

(** C31: the lookup example asks for what its runtime tables hold. The loops
    that fill the witness succeed and give 15 columns with a cell for every
    gate. In each row the first register is the id of one of the configured
    runtime tables, and the three pairs of registers after it are each a key of
    its first column with the value the prover puts next to it; the other
    registers are zero. Tables have distinct ids and a value for every key. *)
Theorem lookup_queries_hit :
  exists w : list (list F),
    lookup_circuit (GT := GT) = Ret {| c_gates := lookup_gates; c_public := 1; c_lookup := fixed_tables;
      c_runtime_cfg := Some runtime_tables_setup; c_runtime := runtime_tables;
      c_witness := w; c_public_cells := [0] |} /\
    length w = COLUMNS /\ Forall (fun c => length c = length (lookup_gates (GT := GT))) w /\
    NoDup (map (rt_id (S := F)) runtime_tables) /\
    forall r, (r < num_gates)%nat ->
      exists cfg t, cfg ∈ runtime_tables_setup /\ t ∈ runtime_tables /\ rt_id t = cfg_id cfg /\
        length (rt_data t) = length (first_column cfg) /\
        get_cell w 0 (Z.of_nat r) = Ret (fr_of (rt_id t)) /\
        (forall q, (q < 3)%nat -> exists key value,
           get_cell w (Z.of_nat (1 + 2 * q)) (Z.of_nat r) = Ret key /\
           get_cell w (Z.of_nat (2 + 2 * q)) (Z.of_nat r) = Ret value /\
           (key, value) ∈ zip (first_column cfg) (rt_data t)) /\
        (forall c, (7 <= c < COLUMNS)%nat -> get_cell w (Z.of_nat c) (Z.of_nat r) = Ret fr_zero).
Proof.
  exists (map (fun c => map (lookup_cell c) (seq 0 num_gates)) (seq 0 COLUMNS)).
  split; [unfold lookup_circuit; by rewrite lookup_witness_cells|]. split; [done|].
  split. { apply Forall_fmap, Forall_true. intros c. unfold compose, lookup_gates. by rewrite !length_map, !length_seq. }
  split; [by apply (bool_decide_unpack _); vm_compute|].
  intros r Hr. set (id := (r mod num_tables)%nat).
  assert (id < num_tables)%nat as Hid by (apply Nat.mod_upper_bound; done).
  exists (Build_RuntimeTableCfg (as_i32 (Z.of_nat id)) (map fr_of [8; 9; 8; 7; 1])),
    {| rt_id := as_i32 (Z.of_nat id); rt_data := map fr_of [0; 2; 3; 4; 5] |}.
  assert (Build_RuntimeTableCfg (as_i32 (Z.of_nat id)) (map fr_of [8; 9; 8; 7; 1]) ∈ runtime_tables_setup)
    as Hin by (apply list_elem_of_fmap; exists id; split; [done|apply elem_of_seq; lia]).
  split; [exact Hin|].
  split; [apply list_elem_of_fmap; eexists; split; [|exact Hin]; done|].
  split; [done|]. split; [done|]. split; [|split].
  - etrans; [apply (get_lookup_cell 0 r); unfold COLUMNS; lia|]. unfold lookup_cell. cbn [rt_id Nat.eqb].
    by rewrite as_i_id by (unfold num_tables in Hid; lia).
  - intros q Hq. rewrite !get_lookup_cell by (unfold COLUMNS; done || lia).
    exists (lookup_cell (1 + 2 * q) r), (lookup_cell (2 + 2 * q) r). split; [done|]. split; [done|].
    unfold lookup_cell.
    destruct q as [|[|[|q]]]; [..|lia]; cbn [Nat.eqb Nat.ltb Nat.leb Nat.mul Nat.add Nat.sub];
      cbn [Nat.div Nat.divmod fst snd Nat.sub]; rewrite ?Nat.add_0_r in *;
      cbn [first_column rt_data map zip zip_with Nat.modulo Nat.divmod fst snd Nat.sub];
      match goal with |- context [match ?m with O => _ | _ => _ end] => destruct m end;
      set_solver.
  - intros c Hc. rewrite get_lookup_cell by lia. unfold lookup_cell.
    rewrite (proj2 (Nat.eqb_neq _ _)), (proj2 (Nat.ltb_ge _ _)) by lia. done.
Qed.
End Lookup.

(** ** Witnesses and their public cells *)

Section Publics.
Context {F GT External : Type} {Gd : Gadgets F GT External} {L : GadgetLaws Gd}.
Implicit Types w : list (list F).

(** The columns of a witness, and at least [n] rows in each. *)
Definition rows_at_least (n : nat) w : Prop :=
  length w = COLUMNS /\ Forall (fun c => (n <= length c)%nat) w.

Lemma columns_extend_rows n w w' : columns_extend w w' -> rows_at_least n w -> rows_at_least n w'.
Proof.
  intros H [Hl Hw]. split; [by rewrite <-(Forall2_length _ _ _ H)|].
  apply Forall_lookup. intros i c' Hc'.
  destruct (Forall2_lookup_r _ _ _ _ _ H Hc') as (c & Hc & new & ->).
  rewrite length_app. pose proof (Forall_lookup_1 _ _ _ _ Hw Hc) as Hn. cbn beta in Hn. lia.
Qed.
Lemma columns_extend_trans w w' w'' : columns_extend w w' -> columns_extend w' w'' -> columns_extend w w''.
Proof.
  intros H. revert w''. induction H as [|c c' w w' (n1 & ->) _ IH]; intros w'' H'; inversion H'; subst;
    [constructor|]. constructor; [|by apply IH].
  match goal with H : exists _, _ |- _ => destruct H as (n2 & ->) end. exists (n1 ++ n2). by rewrite app_assoc.
Qed.
Lemma get_cell_Some w c r v :
  get_cell w (Z.of_nat c) (Z.of_nat r) = Ret v <-> exists column, w !! c = Some column /\ column !! r = Some v.
Proof.
  unfold get_cell. split.
  - intros (column & [_ Hc]%index_Ret & [_ Hr]%index_Ret)%bind_is_Ret.
    rewrite Nat2Z.id in *. eauto.
  - intros (column & Hc & Hr). rewrite (index_lookup _ _ _ Hc). by apply index_lookup.
Qed.
Lemma columns_extend_get w w' c r v :
  columns_extend w w' -> get_cell w (Z.of_nat c) (Z.of_nat r) = Ret v ->
  get_cell w' (Z.of_nat c) (Z.of_nat r) = Ret v.
Proof.
  intros H. rewrite !get_cell_Some. intros (column & Hc & Hr).
  destruct (Forall2_lookup_l _ _ _ _ _ H Hc) as (column' & Hc' & new & ->).
  exists (column ++ new). split; [done|]. by apply lookup_app_l_Some.
Qed.
Lemma rows_get n w c r :
  rows_at_least n w -> (c < COLUMNS)%nat -> (r < n)%nat ->
  exists v, get_cell w (Z.of_nat c) (Z.of_nat r) = Ret v.
Proof.
  intros [Hl Hw] Hc Hr. rewrite <-Hl in Hc. destruct (lookup_lt_is_Some_2 w c Hc) as [column Ec].
  assert (n <= length column)%nat as Hn by (by eapply (Forall_lookup_1 _ _ _ _ Hw)).
  destruct (lookup_lt_is_Some_2 column r) as [v Ev]; [lia|]. exists v. rewrite get_cell_Some. eauto.
Qed.

(** A circuit has its columns, and what it returns are its public inputs. *)
Definition presents (c : circuit F GT) (publics : list F) : Prop :=
  length (c_witness c) = COLUMNS /\
  collect (get_cell (c_witness c) 0) (c_public_cells c) = Ret publics /\
  public_of_witness (c_witness c) (c_public c) = Ret publics.

Lemma presents_0 gs w : length w = COLUMNS -> presents (plain_circuit gs 0 w []) [].
Proof. intros Hl. split; [done|]. split; [done|]. by destruct w. Qed.
Lemma presents_1 (c : circuit F GT) a :
  length (c_witness c) = COLUMNS -> c_public c = 1 -> c_public_cells c = [0] ->
  get_cell (c_witness c) 0 0 = Ret a -> presents c [a].
Proof.
  intros Hl Hp Hc Ha. unfold presents. rewrite Hp, Hc. cbn [collect]. rewrite Ha. split; [done|].
  split; [done|]. destruct (c_witness c) as [|[|x w0] w]; try done.
  injection Ha as ->. done.
Qed.
Lemma presents_2 gs w a b :
  length w = COLUMNS -> get_cell w 0 0 = Ret a -> get_cell w 0 1 = Ret b ->
  presents (plain_circuit gs 2 w [0; 1]) [a; b].
Proof.
  intros Hl Ha Hb. unfold presents. cbn [collect c_witness c_public c_public_cells plain_circuit].
  rewrite Ha, Hb. split; [done|]. split; [done|].
  destruct w as [|[|x [|y w0]] w]; try done. injection Ha as ->. injection Hb as ->. done.
Qed.

(** The column-wise concatenation of the addition's rows. *)
Lemma extend_columns_spec w (a : list (list F)) :
  length w = COLUMNS -> length a = COLUMNS ->
  fold_left (fun (w : outcome (list (list F))) col => w ← w; x ← index a (Z.of_nat col);
               c ← index w (Z.of_nat col); index_set w (Z.of_nat col) (c ++ x))
    (seq 0 COLUMNS) (Ret w) = Ret (zip_with app w a).
Proof.
  unfold COLUMNS. intros Hw Ha.
  do 15 (destruct w as [|? w]; [done|]). destruct w; [|done].
  do 15 (destruct a as [|? a]; [done|]). destruct a; [|done]. reflexivity.
Qed.
Lemma zip_app_extend w (a : list (list F)) : length w = length a -> columns_extend w (zip_with app w a).
Proof.
  revert a. induction w as [|c w IH]; intros [|x a] H; try done; [constructor|].
  constructor; [by exists x|]. apply IH. by injection H.
Qed.
Lemma zip_app_rows n w (a : list (list F)) :
  rows_at_least n w -> length a = COLUMNS -> forall m, Forall (fun c => length c = m) a ->
  rows_at_least (n + m) (zip_with app w a).
Proof.
  intros [Hl Hw] Ha m Hm. split; [by rewrite length_zip_with, Hl, Ha|].
  assert (length w = length a) as E by congruence. clear Hl Ha. revert a E Hm.
  induction Hw as [|c w Hc _ IH]; intros [|x a] E Hm; try done.
  apply Forall_cons in Hm as [Hx Hm]. constructor; [rewrite length_app; lia|].
  apply IH; [by injection E|done].
Qed.
Lemma extend_multi_cells_ok n w a b c r :
  rows_at_least n w -> (a < COLUMNS)%nat -> (b < COLUMNS)%nat -> (c < COLUMNS)%nat -> (r < n)%nat ->
  exists w', extend_multi_cells w (Z.of_nat a) (Z.of_nat b) (Z.of_nat c) (Z.of_nat r) = Ret w' /\
    columns_extend w w' /\ rows_at_least n w'.
Proof.
  intros Hw Ha Hb Hc Hr. unfold extend_multi_cells.
  destruct (rows_get n w a r Hw Ha Hr) as [x ->], (rows_get n w b r Hw Hb Hr) as [y ->],
    (rows_get n w c r Hw Hc Hr) as [z ->]. cbn [mbind outcome_bind].
  eexists. split; [done|]. pose proof (extend_multi_columns w x y z) as He.
  split; [done|]. by eapply columns_extend_rows.
Qed.
End Publics.

(** ** Properties *)

Section Properties.
Context {F GT External : Type} {Gd : Gadgets F GT External} {L : GadgetLaws Gd}.

(** The circuits of the examples. Every connection joins rows that exist
    when it is made, so no example panics while laying out its circuit, and the
    layouts take the rows their comments say: 28 for the multiplication, 4 for the
    range check, 2 for the 64-bit one, 20 for the addition, 11 for the xor of 128
    bits, at least three for the rotation. After them follow exactly 2^13 zero
    gates, each wired to its own row, whether the loop counts rows or asks for
    the number of gates, and whether cells are connected before or after. *)
Theorem example_layouts :
  (exists gs, ffm_gates = Ret gs /\ padded 28 gs) /\
  padded 4 range_check_gates /\
  (exists gs, range_check0_gates = Ret gs /\ padded 2 gs) /\
  (exists gs, ffadd_gates = Ret gs /\ padded 20 gs) /\
  (exists gs, xor_gates = Ret gs /\ padded 11 gs) /\
  (exists n gs, (2 < n)%nat /\ rot_gates = Ret gs /\ padded n gs).
Proof.
  split; [apply ffm_layout|]. split; [apply range_check_layout|].
  split; [apply range_check0_layout|]. split; [apply ffadd_layout|].
  split; [apply xor_layout|apply rot_layout].
Qed.

Lemma range_check_witness_ok : exists w, range_check_witness = Ret w /\ length w = COLUMNS.
Proof.
  unfold range_check_witness.
  assert (forall n, exists x, to_field (rand_below 255 n two_to_limb) = Some x) as H.
  { intros n. apply to_field_small, rand_below_bound, two_to_limb_pos. }
  destruct (H 0%nat) as [a ->], (H 1%nat) as [b ->], (H 2%nat) as [c ->]. cbn [expect mbind outcome_bind].
  eexists. split; [done|]. apply create_multi_columns.
Qed.

Lemma ffm_witness_ok : exists w, ffm_witness = Ret w /\ length w = COLUMNS.
Proof.
  unfold ffm_witness.
  match goal with |- context [ffm_witness_create ?a ?b ?m] => pose proof (ffm_columns a b m) as Hc;
    destruct (ffm_witness_create a b m) as [w e] end. cbn [fst] in Hc.
  assert (forall w', columns_extend w w' -> length w' = COLUMNS) as Hlen.
  { intros w' H. by rewrite <-(Forall2_length _ _ _ H). }
  assert (forall n, exists x, index (to_field_limbs n) 2 = Ret x) as Hlimb.
  { intros n. pose proof (limbs_three n) as Hl. destruct (to_field_limbs n) as [|a [|b [|c []]]]; try done.
    by exists c. }
  match goal with |- context [extend_witness_compact_multi_range_checks ?e ?w] =>
    pose proof (compact_columns e w) as H1; destruct (extend_witness_compact_multi_range_checks e w) as [e1 w1] end.
  match goal with |- context [extend_witness_high_bounds_computation ?e ?w ?m] =>
    pose proof (high_bounds_columns e w m) as H2; destruct (extend_witness_high_bounds_computation e w m) as [e2 w2] end.
  match goal with |- context [extend_witness_multi_range_checks ?e ?w] =>
    pose proof (multi_columns e w) as H3; destruct (extend_witness_multi_range_checks e w) as [e3 w3] end.
  cbn zeta.
  match goal with |- context [index (to_field_limbs ?n) 2] => destruct (Hlimb n) as [l2 ->] end.
  cbn [mbind outcome_bind].
  match goal with |- context [index (to_field_limbs ?n) 2] => destruct (Hlimb n) as [r2 ->] end.
  cbn [mbind outcome_bind].
  match goal with |- context [extend_witness_high_bounds_computation ?e ?w ?m] =>
    pose proof (high_bounds_columns e w m) as H4; destruct (extend_witness_high_bounds_computation e w m) as [e4 w4] end.
  match goal with |- context [extend_witness_multi_range_checks ?e ?w] =>
    pose proof (multi_columns e w) as H5; destruct (extend_witness_multi_range_checks e w) as [e5 w5] end.
  match goal with |- context [extend_witness_limb_checks ?e ?w] =>
    pose proof (limb_columns e w) as H6; destruct (extend_witness_limb_checks e w) as [e6 w6] end.
  cbn [snd] in *. exists w6. split; [done|]. apply Hlen.
  do 5 (eapply columns_extend_trans; [eassumption|]). done.
Qed.

(** The cells read exist, and the columns grow. *)
Tactic Notation "cells" constr(w) constr(a) constr(b) constr(c) constr(r) constr(H) "as" ident(w') ident(He) ident(Hw') :=
  let E := fresh "E" in
  destruct (extend_multi_cells_ok _ w a b c r H) as (w' & E & He & Hw'); [unfold COLUMNS; lia..|];
  cbv [Z.of_nat Pos.of_succ_nat Pos.succ] in E; rewrite E; cbn [mbind outcome_bind]; clear E.

(** A first row with zeros but for the first [n] cells of column 0. *)
Lemma ffadd_witness_ok :
  exists w, ffadd_witness = Ret w /\ length w = COLUMNS /\ get_cell w 0 0 = Ret (fr_of 1).
Proof.
  unfold ffadd_witness.
  assert (exists w0 : list (list F), set_cell (zero_columns 1) 0 0 (fr_of 1) = Ret w0 /\ rows_at_least 1 w0 /\
    get_cell w0 0 0 = Ret (fr_of 1)) as (w0 & -> & Hw0 & Hg0).
  { eexists. split; [reflexivity|]. split; [|reflexivity]. split; [reflexivity|]. repeat constructor. }
  cbn [mbind outcome_bind].
  destruct (ffadd_chain_shape [(ffadd_modulus - 1)%N; (ffadd_modulus - 1)%N] [FFAdd] ffadd_modulus)
    as (rows & Hl & Hrows & Hall).
  match goal with |- context [ffadd_create_chain ?a ?b ?c] => set (add := ffadd_create_chain a b c) in * end.
  cbn zeta. rewrite (extend_columns_spec w0 add (proj1 Hw0) Hl). cbn [mbind outcome_bind].
  pose proof (zip_app_rows 1 w0 add Hw0 Hl rows Hall) as Hw.
  pose proof (zip_app_extend w0 add (eq_trans (proj1 Hw0) (eq_sym Hl))) as He.
  set (w1 := zip_with app w0 add) in *. cbn [length] in Hrows.
  cells w1 0%nat 1%nat 2%nat 1%nat Hw as w2 He2 Hw2. cells w2 3%nat 4%nat 5%nat 1%nat Hw2 as w3 He3 Hw3.
  cells w3 0%nat 1%nat 2%nat 2%nat Hw3 as w4 He4 Hw4. cells w4 0%nat 1%nat 2%nat 3%nat Hw4 as w5 He5 Hw5.
  exists w5. split; [done|]. split; [apply Hw5|].
  do 5 (eapply (columns_extend_get _ _ 0 0); [eassumption|]). exact Hg0.
Qed.

(** The witnesses of the examples. Every example builds its circuit
    without a panic and gives the prover 15 columns; the public inputs it returns
    are the cells the prover takes as public, the first rows of the first column:
    table 0 for the lookup, the constant one for the addition, the two words of
    the xor, the word and a zero for the rotation, and none for the others. *)
Theorem example_publics :
  (exists c, lookup_circuit (GT := GT) = Ret c /\ presents c [fr_of 0]) /\
  (exists c, ffm_circuit = Ret c /\ presents c []) /\
  (exists c, range_check_circuit = Ret c /\ presents c []) /\
  (exists c, range_check0_circuit = Ret c /\ presents c []) /\
  (exists c, ffadd_circuit = Ret c /\ presents c [fr_of 1]) /\
  (exists c, xor_circuit = Ret c /\ presents c [fr_of input1; fr_of input2]) /\
  (exists c, rot_circuit = Ret c /\ presents c [fr_of rot_input; fr_zero]).
Proof.
  split; [|split; [|split; [|split; [|split; [|split]]]]].
  - unfold lookup_circuit. rewrite (lookup_witness_cells (GT := GT) (External := External) (Gd := Gd)). eexists. split; [reflexivity|].
    apply (presents_1 _ (fr_of 0)); cbn [c_witness c_public c_public_cells]; [by rewrite length_map|done|done|].
    apply (get_lookup_cell 0 0); unfold COLUMNS, num_gates; lia.
  - unfold ffm_circuit. destruct ffm_layout as (gs & -> & _), ffm_witness_ok as (w & -> & Hl).
    eexists. split; [reflexivity|]. by apply presents_0.
  - unfold range_check_circuit. destruct range_check_witness_ok as (w & -> & Hl).
    eexists. split; [reflexivity|]. by apply presents_0.
  - unfold range_check0_circuit. destruct range_check0_layout as (gs & -> & _).
    eexists. split; [reflexivity|]. apply presents_0. unfold range_check0_witness.
    by rewrite <-(Forall2_length _ _ _ (extend_single_columns (zero_columns 1) (fr_of (2 ^ 64 - 1)))).
  - unfold ffadd_circuit. destruct ffadd_layout as (gs & -> & _), ffadd_witness_ok as (w & -> & Hl & Hg).
    eexists. split; [reflexivity|]. by apply presents_1.
  - unfold xor_circuit. destruct xor_layout as (gs & -> & _). unfold xor_witness.
    eexists. split; [reflexivity|].
    match goal with |- context [extend_xor_witness ?w ?a ?b ?n] => pose proof (extend_xor_columns w a b n) as He end.
    apply presents_2; [by rewrite <-(Forall2_length _ _ _ He)|..];
      [eapply (columns_extend_get _ _ 0 0)|eapply (columns_extend_get _ _ 0 1)]; [exact He|reflexivity|exact He|reflexivity].
  - unfold rot_circuit. destruct rot_layout as (n & gs & _ & -> & _). unfold rot_witness.
    eexists. split; [reflexivity|].
    match goal with |- context [rot_extend_witness ?w ?a ?b ?n] => pose proof (extend_rot_columns w a b n) as He end.
    apply presents_2; [by rewrite <-(Forall2_length _ _ _ He)|..];
      [eapply (columns_extend_get _ _ 0 0)|eapply (columns_extend_get _ _ 0 1)]; [exact He|reflexivity|exact He|reflexivity].
Qed.
End Properties.

(** ** Examples and the proofs OCaml creates *)

(** The prover reads an index through its fields, and a constraint system has the
    public inputs it was built with. *)
Class IndexViewLaws {B F D GT CS Lin Alphas Vanish Rest} (I : IndexOps B F D GT CS Lin Alphas Rest)
    (R : Prover B F D Lin Alphas Vanish (ProverIndex CS Lin Alphas Rest)) : Prop := {
  view_srs x : px_srs x = srs x;
  view_d1 x : px_d1 x = cs_d1 (cs x);
  view_public x : px_public x = cs_public (cs x);
  build_public gs public prev bound tables cfgs c :
    cs_build gs public prev bound tables cfgs = inl c -> cs_public c = public
}.

Section Composition.
Context {B F D P GT CS Lin Alphas Vanish Rest External : Type}.
Context {O : SrsOps B F D} {SL : SrsLaws O} {K : Kimchi B F D Lin Alphas Vanish} {G : Curve B F P}.
Context {I : IndexOps B F D GT CS Lin Alphas Rest} {IL : IndexLaws I}.
Context {R : Prover B F D Lin Alphas Vanish (ProverIndex CS Lin Alphas Rest)} {VL : IndexViewLaws I R}.
Context {Gd : Gadgets F GT External} {L : GadgetLaws Gd}.
Context {CamlProof CamlTable : Type} (caml_of_proof : ProverProof B F * list F -> CamlProof)
  (table_of_caml : CamlTable -> RuntimeTable F).

(** An example is an index and the proof OCaml creates with it. On a
    reference string [s] behind [p], an example whose circuit has public inputs
    [publics] panics and changes nothing if kimchi refuses the circuit. Otherwise
    it adds the basis of the system's domain to the shared string, and nothing
    else, also when proving fails, which is a panic; and it returns the index of
    the system, the public inputs and a proof exactly when
    [caml_pasta_fp_plonk_proof_create] returns that proof for that index, the
    same witness and tables, no previous challenges, and then leaves the same
    reference strings. *)
Theorem example_creates_proof st p s (c : circuit F GT) publics
    (vs : store (list F)) (witness : list ptr) (tables : list CamlTable) :
  st !! p = Some s -> presents c publics ->
  collect (rc_deref vs) witness = Ret (c_witness c) -> map table_of_caml tables = c_runtime c ->
  match cs_build (c_gates c) (c_public c) 0 None (c_lookup c) (c_runtime_cfg c) with
  | inr _ => is_panic (fst (run_example caml_of_proof st p (Ret c))) = true /\
             snd (run_example caml_of_proof st p (Ret c)) = st
  | inl system =>
      let st' := <[p := add_lagrange_basis s (cs_d1 system)]> st in
      exists index, cs index = system /\ srs index = p /\
        snd (run_example caml_of_proof st p (Ret c)) = st' /\
        snd (ProverProof.Stubs.caml_pasta_fp_plonk_proof_create caml_of_proof table_of_caml
               vs st' index witness tables [] []) = st' /\
        forall proof,
          fst (run_example caml_of_proof st p (Ret c)) = Ret (index, publics, proof) <->
          fst (ProverProof.Stubs.caml_pasta_fp_plonk_proof_create caml_of_proof table_of_caml
                 vs st' index witness tables [] []) = Ret proof
  end.
Proof.
  intros Hp (Hl & Hcells & Hpub) Hw Ht.
  unfold run_example.
  destruct (cs_build (c_gates c) (c_public c) 0 None (c_lookup c) (c_runtime_cfg c)) as [system|e] eqn:Eb;
    [|done].
  rewrite (alter_at _ st p s) by done. set (st' := <[p := add_lagrange_basis s (cs_d1 system)]> st).
  assert (st' !! p = Some (add_lagrange_basis s (cs_d1 system))) as Hp' by apply lookup_insert_eq.
  assert (rc_deref st' p = Ret (add_lagrange_basis s (cs_d1 system))) as Hd by (unfold rc_deref; by rewrite Hp').
  rewrite Hd. cbn [mbind outcome_bind].
  set (index := index_new system index_endo p (add_lagrange_basis s (cs_d1 system))).
  destruct (index_new_fields system index_endo p (add_lagrange_basis s (cs_d1 system))) as [Hcs Hsrs].
  exists index. split; [exact Hcs|]. split; [exact Hsrs|]. cbn [fst snd]. split; [done|].
  unfold ProverProof.Stubs.caml_pasta_fp_plonk_proof_create.
  rewrite view_srs, view_d1, view_public. fold index in Hcs, Hsrs. rewrite Hcs, Hsrs.
  rewrite (build_public _ _ _ _ _ _ _ Eb).
  rewrite (alter_at _ st' p _ Hp').
  destruct (add_basis_spec s (cs_d1 system)) as (_ & _ & _ & _ & _ & _ & E). rewrite E.
  rewrite insert_id by done. cbn [fst snd split_prev mbind outcome_bind]. split; [done|].
  unfold ProverProof.Stubs.read_witness. rewrite Hw. cbn [mbind outcome_bind].
  unfold ProverProof.Stubs.witness_columns. rewrite Hl. cbn [mbind outcome_bind].
  rewrite Nat.eqb_refl. cbn [mbind outcome_bind]. rewrite Hpub, Hcells, Ht. cbn [mbind outcome_bind].
  intros proof. destruct (create_recursive (c_witness c) (c_runtime c) index []) as [pr|e|m]; cbn; [|done|done].
  split; intros [= <-]; done.
Qed.
End Composition.

(** ** Witnesses: gadgets that append blank rows *)

Definition blank : CircuitGate Z Z := {| typ := 0; wires := []; coeffs := [] |}.
Definition more {A} (x : A) (n : nat) (l : list A) : list A := l ++ replicate n x.
Definition demo_gadgets : Gadgets Z Z unit := {|
  fr_zero := 0; fr_of z := z; fq_modulus := 97%N; two_to_limb := (2 ^ 88)%N;
  rand_below seed n b := (Z.to_N seed mod b)%N;
  to_field n := Some (Z.of_N n); to_field_limbs n := [Z.of_N n; 0; 0]; limb_of := Z.of_N;
  gate_lookup := 1;
  wire_for_row r := [{| row := r; col := 0 |}];
  gate_zero ws := {| typ := 0; wires := ws; coeffs := [] |};
  create_generic_gadget ws _ := {| typ := 2; wires := ws; coeffs := [] |};
  create_foreign_field_mul r _ := (r + 2, replicate 2 blank);
  create_multi_range_check r := (r + 4, replicate 4 blank);
  extend_range_check gs r := (more blank 1 gs, r + 1);
  extend_multi_range_check gs r := (more blank 4 gs, r + 4);
  extend_compact_multi_range_check gs r := (more blank 4 gs, r + 4);
  extend_high_bounds gs r _ := (more blank 1 gs, r + 1);
  extend_chain_ffadd gs _ r ops _ := (more blank (length ops + 2) gs, r + Z.of_nat (length ops) + 2);
  extend_xor_gadget gs n := more blank (Z.to_nat (n / 16) + 1) gs;
  extend_rot gs _ _ _ := more blank 3 gs;
  connect_cell_pair gs _ _ := Ret gs;
  connect_64bit gs _ _ := Ret gs;
  connect_ffadd_range_checks gs _ _ _ _ := Ret gs;
  ffm_witness_create _ _ _ := (replicate COLUMNS [0; 0], tt);
  extend_witness_compact_multi_range_checks e w := (e, map (more 0 4) w);
  extend_witness_high_bounds_computation e w _ := (e, map (more 0 1) w);
  extend_witness_multi_range_checks e w := (e, map (more 0 4) w);
  extend_witness_limb_checks e w := (e, map (more 0 4) w);
  add_high_bound_computation e _ := e; add_multi_range_check e _ := e; add_limb_check e _ := e;
  compute_high_bound a _ := a;
  range_check_create_multi a b c := replicate COLUMNS [a; b; c; 0];
  range_check_extend_single w _ := map (more 0 1) w;
  range_check_extend_multi w _ _ _ := map (more 0 4) w;
  ffadd_create_chain _ ops _ := replicate COLUMNS (replicate (length ops + 2) 0);
  extend_xor_witness w _ _ _ := map (more 0 9) w;
  rot_extend_witness w _ _ _ := map (more 0 3) w
|}.

Lemma more_appends {A} (x : A) n l : appends n l (more x n l).
Proof. exists (replicate n x). split; [done|apply length_replicate]. Qed.
Lemma map_more_extend (w : list (list Z)) n : columns_extend w (map (more 0 n) w).
Proof. induction w as [|c w IH]; constructor; [by eexists|exact IH]. Qed.
Lemma same_gates_refl {GT F} (gs : list (CircuitGate GT F)) : same_gates gs gs.
Proof. induction gs; by constructor. Qed.

#[local] Instance demo_gadgets_laws : GadgetLaws demo_gadgets.
Proof.
  constructor; cbn; intros;
    try (by eexists; split; [reflexivity|done || apply more_appends]);
    try apply map_more_extend; try apply length_replicate; try done; try lia.
  - apply more_appends.
  - exists 3%nat. split; [lia|apply more_appends].
  - exists gs. split; [done|]. split; [apply same_gates_refl|done].
  - exists gs. split; [done|]. split; [apply same_gates_refl|done].
  - exists gs. split; [done|apply same_gates_refl].
  - by apply N.mod_lt.
  - exists (length ops + 2)%nat. split; [done|]. split; [done|]. repeat constructor; apply length_replicate.
Qed.

Lemma example_layouts_witness :
  exists gs, ffm_gates (Gd := demo_gadgets) = Ret gs /\ length gs = (28 + padding)%nat.
Proof.
  destruct (example_layouts (Gd := demo_gadgets)) as ((gs & Hg & Hl & _) & _).
  exists gs. split; [exact Hg|exact Hl].
Defined.

Lemma example_publics_witness :
  exists c, xor_circuit (Gd := demo_gadgets) = Ret c /\
    public_of_witness (c_witness c) (c_public c) = Ret [input1; input2].
Proof.
  destruct (example_publics (Gd := demo_gadgets)) as (_ & _ & _ & _ & _ & (c & Hc & _ & _ & Hp) & _).
  exists c. split; [exact Hc|exact Hp].
Defined.

Definition demo_index_prover : Prover unit Z N FeatureFlags bool (N * Z) demo_index := {|
  px_srs x := srs x;
  px_d1 x := 4%N;
  px_public x := cs x;
  px_verifier_index _ := demo_vi;
  create_recursive w t i prev :=
    if (length w =? 15)%nat then Ret (fst (dummy_proof 1 (u_point false) None)) else Raise (DynError "prover");
  batch_verify l := forallb (fun '(_, _, pub) => (length pub =? 1)%nat) l
|}.
#[local] Instance demo_view_laws : IndexViewLaws demo_ops demo_index_prover.
Proof.
  split; try done. intros gs public prev bound tables cfgs c. cbn.
  destruct (0 <? Z.of_nat (length gs)); [|done]. by intros [= ->].
Qed.

(** One gate with one public input, on the reference string of two points. *)
Lemma example_creates_proof_witness :
  let c := plain_circuit [blank] 1 (replicate COLUMNS [7]) [0] in
  let vs : store (list Z) := {[ 1%positive := [7] ]} in
  exists index, cs index = 1 /\
    snd (run_example (O := demo_srs) (K := demo_kimchi) (I := demo_ops) (R := demo_index_prover)
           (fun x => x) u_store 1%positive (Ret c))
      = <[1%positive := @add_lagrange_basis _ _ _ demo_srs u_srs 4%N]> u_store /\
    is_ret (fst (ProverProof.Stubs.caml_pasta_fp_plonk_proof_create (O := demo_srs) (R := demo_index_prover)
           (G := demo_curve_u) (fun x => x) (fun t : RuntimeTable Z => t) vs
           (<[1%positive := @add_lagrange_basis _ _ _ demo_srs u_srs 4%N]> u_store)
           index (replicate COLUMNS 1%positive) [] [] [])) = true.
Proof.
  intros c vs.
  pose proof (example_creates_proof (O := demo_srs) (SL := demo_srs_laws) (K := demo_kimchi) (G := demo_curve_u)
    (I := demo_ops) (IL := demo_ops_laws) (R := demo_index_prover) (VL := demo_view_laws)
    (fun x => x) (fun t : RuntimeTable Z => t) u_store 1%positive u_srs c [7] vs (replicate COLUMNS 1%positive) [])
    as H.
  destruct H as (index & Hcs & _ & Hs & _ & Hp); [reflexivity|repeat split|reflexivity|reflexivity|].
  exists index. split; [exact Hcs|]. split; [exact Hs|].
  match goal with |- is_ret ?m = true => destruct m as [pr|e|m'] eqn:E end; [reflexivity|exfalso..];
  unfold ProverProof.Stubs.caml_pasta_fp_plonk_proof_create in E; cbn in E; rewrite Hcs in E; discriminate.
Defined.
