(* ===== verification/Oracles.v ===== *)
(** * Random oracles of a proof

    [Stubs] models stubs/src/oracles.rs, [Wasm] models wasm/src/oracles.rs
    (under src/src/lib/crypto/kimchi_bindings), for the instance over Vesta:
    committing to the public input, running kimchi's oracles on a proof, and the
    records that carry the result. Commitments, the oracles and the sponge are
    kimchi's, in the class [OracleOps]. *)

From Stdlib Require Import ZArith Lia.
From stdpp Require Import base list strings gmap.
From S2P Require Import Prelude Crates Reference FieldVector Curves Srs VerifierIndex ProverProof.

(** [kimchi::circuits::scalars::RandomOracles]; a [ScalarChallenge] is the
    scalar it wraps. *)
Record RandomOracles (S : Type) : Type := {
  joint_combiner : option (S * S);
  beta : S; gamma : S; alpha_chal : S; alpha : S; zeta : S; v : S; u : S;
  zeta_chal : S; v_chal : S; u_chal : S }.
Arguments Build_RandomOracles {S}. Arguments joint_combiner {S}. Arguments beta {S}. Arguments gamma {S}.
Arguments alpha_chal {S}. Arguments alpha {S}. Arguments zeta {S}. Arguments v {S}. Arguments u {S}.
Arguments zeta_chal {S}. Arguments v_chal {S}. Arguments u_chal {S}.

(** [OraclesResult], of the fields that are used. *)
Record OraclesResult (S Sponge : Type) : Type := {
  fq_sponge : Sponge; combined_inner_product : S; public_evals : list S * list S;
  digest : S; oracles : RandomOracles S }.
Arguments fq_sponge {S Sponge}. Arguments combined_inner_product {S Sponge}.
Arguments public_evals {S Sponge}. Arguments digest {S Sponge}. Arguments oracles {S Sponge}.

Class OracleOps (B S D Lin Alphas Vanish Sponge : Type) : Type := {
  fr_zero : S;
  fr_neg : S -> S;
  default_oracles : RandomOracles S;
  poly_comm_msm : list (PolyComm B) -> list S -> PolyComm B;       (* PolyComm::multi_scalar_mul *)
  mask_custom : SRS B -> PolyComm B -> list S -> option (PolyComm B);   (* its commitment *)
  proof_oracles : ProverProof B S -> VerifierIndex B S D Lin Alphas Vanish -> PolyComm B ->
    option (list S) -> OraclesResult S Sponge + string;
  shift_scalar : S -> S;
  absorb_fr : Sponge -> list S -> Sponge;
  prechallenges : OpeningProof (GroupAffine B) S -> Sponge -> list S;
}.

(** The commitment to the negated public input, masked by ones. *)
Definition public_commitment {B S D Lin Alphas Vanish Sponge}
    {K : Kimchi B S D Lin Alphas Vanish} {R : OracleOps B S D Lin Alphas Vanish Sponge}
    (st : store (SRS B)) (index : VerifierIndex B S D Lin Alphas Vanish)
    (lgr_comm : list (PolyComm B)) (public : list S) : outcome (PolyComm B) :=
  let p_comm := poly_comm_msm lgr_comm (map fr_neg public) in
  s ← rc_deref st (vi_srs index);
  expect "called `Result::unwrap()` on an `Err` value" (mask_custom s p_comm (map (fun _ => fr_one) p_comm)).

(** The challenges of the opening: the sponge absorbs the inner product first. *)
Definition opening_challenges {B S D Lin Alphas Vanish Sponge} {R : OracleOps B S D Lin Alphas Vanish Sponge}
    (x : ProverProof B S) (r : OraclesResult S Sponge) : list S :=
  let sponge := absorb_fr (fq_sponge r) [shift_scalar (combined_inner_product r)] in
  prechallenges (proof x) sponge.

Module Stubs.
Section Stubs.
Context {B S D Lin Alphas Vanish Sponge : Type}.
Context {O : SrsOps B S D} {K : Kimchi B S D Lin Alphas Vanish} {R : OracleOps B S D Lin Alphas Vanish Sponge}.
Context (pc_of_caml : VerifierIndex.Stubs.CamlPolyComm B -> outcome (PolyComm B)).
(** kimchi's OCaml proofs: the public input of a proof, a proof with its public
    evaluations, and their conversion. *)
Context {CamlProverProof CamlEvals : Type} (caml_public : CamlProverProof -> list S)
  (proof_of_caml : CamlProverProof * option CamlEvals -> outcome (ProverProof B S * list S)).
Abbreviation CamlProofWithPublic := (CamlProverProof * option CamlEvals)%type.
Abbreviation CamlIndex := (VerifierIndex.Stubs.CamlPlonkVerifierIndex B S).

Record CamlOracles : Type := {
  o : RandomOracles S; p_eval : S * S; opening_prechallenges : list S; digest_before_evaluations : S }.

Definition fp_oracles_create (overflow_checks : bool) (st : store (SRS B))
    (lgr_comm : list (VerifierIndex.Stubs.CamlPolyComm B)) (index : CamlIndex) (proof : CamlProofWithPublic)
    : outcome CamlOracles :=
  index ← VerifierIndex.Stubs.vi_of_caml pc_of_caml overflow_checks index;
  let public := caml_public (fst proof) in
  lgr_comm ← collect pc_of_caml (take (length public) lgr_comm);
  p_comm ← public_commitment st index lgr_comm public;
  '(proof, public_input) ← proof_of_caml proof;
  match proof_oracles proof index p_comm (Some public_input) with
  | inr e => Raise (DynError e)
  | inl r =>
      let opening := opening_challenges proof r in
      e0 ← Prelude.index (fst (public_evals r)) 0; e1 ← Prelude.index (snd (public_evals r)) 0;
      Ret {| o := oracles r; p_eval := (e0, e1); opening_prechallenges := opening;
             digest_before_evaluations := digest r |}
  end.
(** The proof without public evaluations; the rest is the same text. *)
Definition fp_oracles_create_no_public (overflow_checks : bool) (st : store (SRS B))
    (lgr_comm : list (VerifierIndex.Stubs.CamlPolyComm B)) (index : CamlIndex) (proof : CamlProverProof)
    : outcome CamlOracles :=
  let proof := (proof, None) in fp_oracles_create overflow_checks st lgr_comm index proof.
Definition fp_oracles_dummy : RandomOracles S := default_oracles.
Definition fp_oracles_deep_copy (x : RandomOracles S) : RandomOracles S := x.
End Stubs.
Arguments CamlOracles : clear implicits.
End Stubs.

Module Wasm.
Section Wasm.
Context {B S D Lin Alphas Vanish Sponge : Type}.
Context {O : SrsOps B S D} {K : Kimchi B S D Lin Alphas Vanish} {R : OracleOps B S D Lin Alphas Vanish Sponge}.

Record WasmRandomOracles : Type := {
  w_joint_combiner_chal : option S; w_joint_combiner : option S;
  w_beta : S; w_gamma : S; w_alpha_chal : S; w_alpha : S; w_zeta : S; w_v : S; w_u : S;
  w_zeta_chal : S; w_v_chal : S; w_u_chal : S }.
Definition wasm_of_random_oracles (ro : RandomOracles S) : WasmRandomOracles := {|
  w_joint_combiner_chal := fst <$> joint_combiner ro; w_joint_combiner := snd <$> joint_combiner ro;
  w_beta := beta ro; w_gamma := gamma ro; w_alpha_chal := alpha_chal ro; w_alpha := alpha ro;
  w_zeta := zeta ro; w_v := v ro; w_u := u ro;
  w_zeta_chal := zeta_chal ro; w_v_chal := v_chal ro; w_u_chal := u_chal ro |}.
Definition random_oracles_of_wasm (w : WasmRandomOracles) : RandomOracles S := {|
  joint_combiner :=
    match w_joint_combiner_chal w, w_joint_combiner w with
    | Some joint_combiner_chal, Some joint_combiner => Some (joint_combiner_chal, joint_combiner)
    | _, _ => None
    end;
  beta := w_beta w; gamma := w_gamma w; alpha_chal := w_alpha_chal w; alpha := w_alpha w;
  zeta := w_zeta w; v := w_v w; u := w_u w;
  zeta_chal := w_zeta_chal w; v_chal := w_v_chal w; u_chal := w_u_chal w |}.

Record WasmOracles : Type := {
  wo : WasmRandomOracles; p_eval0 : S; p_eval1 : S;
  w_opening_prechallenges : list S; w_digest_before_evaluations : S }.
Definition get_opening_prechallenges (self : WasmOracles) : list S := w_opening_prechallenges self.
Definition set_opening_prechallenges (self : WasmOracles) (x : list S) : WasmOracles :=
  {| wo := wo self; p_eval0 := p_eval0 self; p_eval1 := p_eval1 self;
     w_opening_prechallenges := x; w_digest_before_evaluations := w_digest_before_evaluations self |}.

Definition fp_oracles_create (overflow_checks : bool) (st : store (SRS B))
    (lgr_comm : list (Curves.Wasm.WasmPolyComm B)) (index : VerifierIndex.Wasm.WasmPlonkVerifierIndex B S)
    (proof : ProverProof.Wasm.WasmProverProof B S) : outcome WasmOracles :=
  '(index, _) ← VerifierIndex.Wasm.of_wasm overflow_checks index;
  let public := ProverProof.Wasm.wp_public proof in
  lgr_comm ← collect Curves.Wasm.poly_comm_of_wasm (take (length public) lgr_comm);
  p_comm ← public_commitment st index lgr_comm public;
  '(proof, public_input) ← ProverProof.Wasm.proof_of_wasm proof;
  match proof_oracles proof index p_comm (Some public_input) with
  | inr e => Raise (JsError ("oracles_create: " ++ e)%string)
  | inl r =>
      let opening := opening_challenges proof r in
      e0 ← Prelude.index (fst (public_evals r)) 0; e1 ← Prelude.index (snd (public_evals r)) 0;
      Ret {| wo := wasm_of_random_oracles (oracles r); p_eval0 := e0; p_eval1 := e1;
             w_opening_prechallenges := opening; w_digest_before_evaluations := digest r |}
  end.
Definition fp_oracles_dummy : WasmOracles := {|
  wo := wasm_of_random_oracles default_oracles; p_eval0 := fr_zero; p_eval1 := fr_zero;
  w_opening_prechallenges := []; w_digest_before_evaluations := fr_zero |}.
(** Of a proof, not of oracles. *)
Definition fp_oracles_deep_copy (x : ProverProof.Wasm.WasmProverProof B S)
    : ProverProof.Wasm.WasmProverProof B S := x.
End Wasm.
Arguments WasmRandomOracles : clear implicits.
Arguments WasmOracles : clear implicits.
End Wasm.

(** ** Properties *)

(** The OCaml view of what JavaScript gets. *)
Definition caml_of_wasm_oracles {S} (w : Wasm.WasmOracles S) : Stubs.CamlOracles S := {|
  Stubs.o := Wasm.random_oracles_of_wasm (Wasm.wo w);
  Stubs.p_eval := (Wasm.p_eval0 w, Wasm.p_eval1 w);
  Stubs.opening_prechallenges := Wasm.w_opening_prechallenges w;
  Stubs.digest_before_evaluations := Wasm.w_digest_before_evaluations w |}.

Lemma random_oracles_of_to_wasm {S} (ro : RandomOracles S) :
  Wasm.random_oracles_of_wasm (Wasm.wasm_of_random_oracles ro) = ro.
Proof. by destruct ro as [[[]|]]. Qed.

Lemma index_head {A} (a : A) l : index (a :: l) 0 = Ret a.
Proof. reflexivity. Qed.
Lemma index_nil {A} i : index (@nil A) i = Panic "index out of bounds".
Proof. unfold index. by destruct (i <? 0). Qed.

(** Random oracles and JavaScript. What is sent comes back unchanged. What
    a client builds comes back unchanged exactly when it gives both parts of the
    joint combiner or none; a single part is silently dropped. *)
Theorem random_oracles_roundtrip {S} (ro : RandomOracles S) (w : Wasm.WasmRandomOracles S) :
  Wasm.random_oracles_of_wasm (Wasm.wasm_of_random_oracles ro) = ro /\
  (Wasm.wasm_of_random_oracles (Wasm.random_oracles_of_wasm w) = w <->
   (Wasm.w_joint_combiner_chal w = None <-> Wasm.w_joint_combiner w = None)) /\
  (Wasm.w_joint_combiner_chal w = None \/ Wasm.w_joint_combiner w = None ->
   joint_combiner (Wasm.random_oracles_of_wasm w) = None).
Proof.
  split; [apply random_oracles_of_to_wasm|]. destruct w as [[c|] [j|]]; cbn.
  - split; [split; [done|by intros]|by intros [?|?]].
  - split; [split; [done|intros [_ H]; by specialize (H eq_refl)]|done].
  - split; [split; [done|intros [H _]; by specialize (H eq_refl)]|done].
  - done.
Qed.

Section Create.
Context {B S D Lin Alphas Vanish Sponge : Type}.
Context {O : SrsOps B S D} {K : Kimchi B S D Lin Alphas Vanish} {R : OracleOps B S D Lin Alphas Vanish Sponge}.
Context (pc_of_caml : VerifierIndex.Stubs.CamlPolyComm B -> outcome (PolyComm B)).
Context {CamlProof CamlEvals : Type} (caml_public : CamlProof -> list S)
  (proof_of_caml : CamlProof * option CamlEvals -> outcome (ProverProof B S * list S)).

(** C24: the oracles of a proof. When index, proof and enough Lagrange
    commitments convert to the same kimchi values on both sides (an index with other
    than three zero-knowledge rows or with runtime tables does not: JavaScript makes
    another index of it), both sides compute the same oracles: kimchi's, on the
    masked commitment of the negated public input, with the first public evaluation
    at each point and the challenges the sponge gives after it absorbed the inner product. They fail
    together, with kimchi's message, and panic together when the mask fails or
    there is no public evaluation. Lagrange commitments beyond the public input
    are not even converted. *)
Theorem oracles_create_spec oc st (ci : VerifierIndex.Stubs.CamlPlonkVerifierIndex B S)
    (wi : VerifierIndex.Wasm.WasmPlonkVerifierIndex B S) vi srs
    (clgr cextra : list (VerifierIndex.Stubs.CamlPolyComm B)) (wlgr wextra : list (Curves.Wasm.WasmPolyComm B)) lgr
    (cp : CamlProof * option CamlEvals) (wp : ProverProof.Wasm.WasmProverProof B S) x :
  VerifierIndex.Stubs.vi_of_caml pc_of_caml oc ci = Ret vi ->
  VerifierIndex.Wasm.of_wasm oc wi = Ret (vi, srs) ->
  collect pc_of_caml clgr = Ret lgr -> collect Curves.Wasm.poly_comm_of_wasm wlgr = Ret lgr ->
  length lgr = length (caml_public (fst cp)) ->
  caml_public (fst cp) = ProverProof.Wasm.wp_public wp ->
  proof_of_caml cp = Ret (x, caml_public (fst cp)) ->
  ProverProof.Wasm.proof_of_wasm wp = Ret (x, caml_public (fst cp)) ->
  let public := caml_public (fst cp) in
  let caml := Stubs.fp_oracles_create pc_of_caml caml_public proof_of_caml oc st (clgr ++ cextra) ci cp in
  let wasm := Wasm.fp_oracles_create oc st (wlgr ++ wextra) wi wp in
  (forall w, wasm = Ret w -> caml = Ret (caml_of_wasm_oracles w)) /\
  (forall c, caml = Ret c <->
     exists s pc r e0 l0 e1 l1,
       st !! vi_srs vi = Some s /\
       mask_custom s (poly_comm_msm lgr (map fr_neg public))
         (map (fun _ => fr_one) (poly_comm_msm lgr (map fr_neg public))) = Some pc /\
       proof_oracles x vi pc (Some public) = inl r /\ public_evals r = (e0 :: l0, e1 :: l1) /\
       c = {| Stubs.o := oracles r; Stubs.p_eval := (e0, e1);
              Stubs.opening_prechallenges :=
                prechallenges (proof x) (absorb_fr (fq_sponge r) [shift_scalar (combined_inner_product r)]);
              Stubs.digest_before_evaluations := digest r |}) /\
  (forall e, caml = Raise (DynError e) <-> wasm = Raise (JsError ("oracles_create: " ++ e)%string)) /\
  is_panic caml = is_panic wasm.
Proof.
  intros Hci Hwi Hcl Hwl Hlen Hpub Hcp Hwp public caml wasm.
  unfold caml, wasm, Stubs.fp_oracles_create, Wasm.fp_oracles_create.
  rewrite Hci, Hwi. cbn [mbind outcome_bind]. rewrite <-Hpub. fold public.
  pose proof (collect_length _ _ _ Hcl) as Hc. pose proof (collect_length _ _ _ Hwl) as Hw.
  rewrite (take_app_length' clgr) by (unfold public; congruence).
  rewrite (take_app_length' wlgr) by (unfold public; congruence).
  rewrite Hcl, Hwl. cbn [mbind outcome_bind]. rewrite Hcp, Hwp. fold public.
  unfold public_commitment, rc_deref, opening_challenges.
  destruct (st !! vi_srs vi) as [s|]; cbn [expect mbind outcome_bind];
    [|repeat split; try done; by intros (? & ? & ? & ? & ? & ? & ? & ? & _)].
  destruct (mask_custom s _ _) as [pc|] eqn:Em; cbn [expect mbind outcome_bind];
    [|repeat split; try done; intros (s' & ? & ? & ? & ? & ? & ? & [= <-] & ? & _); congruence].
  destruct (proof_oracles x vi pc (Some public)) as [r|err] eqn:Eo;
    [|repeat split; try done;
      [intros (s' & pc' & r & ? & ? & ? & ? & [= <-] & ? & ? & _); congruence|by intros [= ->]|intros H; assert (err = e) as -> by (injection H; done); done]].
  destruct (public_evals r) as [[|e0 l0] [|e1 l1]] eqn:Ep; cbn [fst snd];
    rewrite ?index_head, ?index_nil; cbn [mbind outcome_bind];
    rewrite ?index_head, ?index_nil; cbn [mbind outcome_bind];
    [repeat split; try done;
     intros (s' & pc' & r' & ? & ? & ? & ? & [= <-] & ? & ? & ? & _); congruence..|].
  split; [|split; [|split; [done|done]]].
  - intros w [= <-]. unfold caml_of_wasm_oracles. cbn. by rewrite random_oracles_of_to_wasm.
  - intros c. split.
    + intros [= <-]. by exists s, pc, r, e0, l0, e1, l1.
    + intros (s' & pc' & r' & e0' & l0' & e1' & l1' & [= <-] & Em' & Eo' & Ep' & ->).
      rewrite Em in Em'. injection Em' as <-. rewrite Eo in Eo'. injection Eo' as <-.
      rewrite Ep in Ep'. by injection Ep' as -> -> -> ->.
Qed.
End Create.

(** ** Witnesses *)

#[local] Existing Instance demo_kimchi.
#[local] Existing Instance demo_srs.
#[local] Instance demo_oracles : OracleOps unit Z N FeatureFlags bool (N * Z) (list Z) := {|
  fr_zero := 0;
  fr_neg x := - x;
  default_oracles := Build_RandomOracles None 0 0 0 0 0 0 0 0 0 0;
  poly_comm_msm cs ss := concat cs;
  mask_custom s c b := if (length b =? length c)%nat then Some c else None;
  proof_oracles x vi c public :=
    match public with
    | Some public =>
        inl {| fq_sponge := [Z.of_nat (length c)]; combined_inner_product := 21; public_evals := (public, public);
               digest := 9; oracles := Build_RandomOracles (Some (1, 2)) 3 4 5 6 7 8 9 10 11 12 |}
    | None => inr "no public input"%string
    end;
  shift_scalar x := 2 * x;
  absorb_fr sponge l := sponge ++ l;
  prechallenges x sponge := sponge;
|}.

Lemma random_oracles_roundtrip_witness :
  let w := Wasm.Build_WasmRandomOracles (Some 1) None 3 4 5 6 7 8 9 10 11 12 in
  joint_combiner (Wasm.random_oracles_of_wasm w) = None.
Proof.
  intros w. destruct (random_oracles_roundtrip (Build_RandomOracles (Some (1, 2)) 3 4 5 6 7 8 9 10 11 12) w) as (_ & _ & H).
  apply H. by right.
Defined.

(** An index both sides recompute alike: three zero-knowledge rows, no optional
    gates, no lookups. *)
Definition plain_evals : PlonkVerificationEvals (PolyComm unit) :=
  let c := [u_point false] in
  {| sigma_comm := replicate 7 c; coefficients_comm := replicate 15 c; generic_comm := c; psm_comm := c;
     complete_add_comm := c; mul_comm := c; emul_comm := c; endomul_scalar_comm := c;
     xor_comm := None; range_check0_comm := None; range_check1_comm := None;
     foreign_field_add_comm := None; foreign_field_mul_comm := None; rot_comm := None |}.
Definition plain_vi : VerifierIndex unit Z N FeatureFlags bool (N * Z) :=
  let raw := {| vi_domain := 4%N; vi_max_poly_size := 8; vi_public := 1; vi_prev_challenges := 0;
     vi_srs := 1%positive; vi_evals := plain_evals; vi_shift := [1; 2; 3; 4; 5; 6; 7];
     vi_vanishing := None; vi_w := None; vi_endo := 0; vi_lookup_index := None;
     vi_linearization := VerifierIndex.Stubs.feature_flags plain_evals None; vi_powers_of_alpha := true;
     vi_zk_rows := 3 |} in
  recompute (vi_flags raw) 3 raw.
Definition plain_wasm : VerifierIndex.Wasm.WasmPlonkVerifierIndex unit Z :=
  match VerifierIndex.Wasm.to_wasm (K := demo_kimchi) 1%positive plain_vi with
  | Ret w => w
  | _ => fst (VerifierIndex.Wasm.caml_pasta_fp_plonk_verifier_index_dummy (O := demo_srs) (K := demo_kimchi) ∅)
  end.

(** Two public inputs; the third Lagrange commitment is not used. *)
Lemma oracles_create_spec_witness :
  let d := dummy_proof 1 (u_point false) None in
  let c := [u_point false] in
  exists r, Stubs.fp_oracles_create (O := demo_srs) (K := demo_kimchi) (R := demo_oracles) (CamlEvals := unit)
    demo_of_caml snd (fun p => Ret (fst p)) true u_store (map demo_to_caml [c; c; c])
    (VerifierIndex.Stubs.caml_of_vi (K := demo_kimchi) demo_to_caml plain_vi) (d, None) = Ret r /\
    Stubs.opening_prechallenges r = [2; 42].
Proof.
  intros d c.
  destruct (oracles_create_spec (O := demo_srs) (K := demo_kimchi) (R := demo_oracles) (CamlEvals := unit)
    demo_of_caml (CamlProof := ProverProof unit Z * list Z) snd (fun p => Ret (fst p)) true u_store
    (VerifierIndex.Stubs.caml_of_vi (K := demo_kimchi) demo_to_caml plain_vi) plain_wasm plain_vi 1%positive
    (map demo_to_caml [c; c]) (map demo_to_caml [c]) (map (Curves.Wasm.wasm_of_poly_comm (F := unit)) [c; c]) []
    [c; c] (d, None) (ProverProof.Wasm.wasm_of_proof d) (fst d)) as (_ & H & _);
    [vm_compute; reflexivity..|].
  eexists. split; [apply H|].
  - exists u_srs, [u_point false; u_point false]. eexists. exists 1, [1], 1, [1].
    split; [reflexivity|]. split; [reflexivity|]. split; [reflexivity|]. split; reflexivity.
  - reflexivity.
Defined.
