(* ===== verification/Linearization.v ===== *)
(** * Printing the linearization of the circuit polynomial

    Models stubs/src/linearization.rs (under
    src/src/lib/crypto/kimchi_bindings).  Constraints, their linearization and
    the text of expressions are kimchi's, in the class [Linearize]; the order in
    which a [HashMap] gives its terms is an argument. *)

From Stdlib Require Import ZArith Lia.
From stdpp Require Import base list strings sets sorting.
From S2P Require Import Prelude VerifierIndex.

Class Linearize (Expr Column Cols Alphas : Type) : Type := {
  linearization_columns : option FeatureFlags -> Cols;
  constraints_expr : option FeatureFlags -> bool -> Expr * Alphas;
  linearize : Expr -> Cols -> option (Expr * list (Column * Expr));
  ocaml_str : Expr -> string;
  column_debug : Column -> string;
  column_cmp : Column -> Column -> comparison;       (* Ord *)
}.
(** [Ord] is a total order, as its documentation requires. *)
Class LinearizeLaws {E C Cs A} (L : Linearize E C Cs A) : Prop := {
  column_cmp_eq x y : column_cmp x y = Eq <-> x = y;
  column_cmp_antisym x y : column_cmp y x = CompOpp (column_cmp x y);
  column_cmp_trans x y z : column_cmp x y <> Gt -> column_cmp y z <> Gt -> column_cmp x z <> Gt;
}.

Section Linearization.
Context {Expr Column Cols Alphas : Type} {L : Linearize Expr Column Cols Alphas}.
Abbreviation term := (Column * Expr)%type.

Definition no_features : FeatureFlags := {|
  ff_range_check0 := false; ff_range_check1 := false; ff_foreign_field_add := false;
  ff_foreign_field_mul := false; ff_xor := false; ff_rot := false;
  lookup_features := {|
    patterns := {| lp_xor := false; lp_lookup := false; lp_range_check := false;
                   lp_foreign_field_mul := false |};
    lf_joint_lookup_used := false; uses_runtime_tables := false |} |}.

Definition col_le (a b : term) : Prop := column_cmp (fst a) (fst b) <> Gt.
#[export] Instance col_le_dec a b : Decision (col_le a b).
Proof. unfold col_le. destruct (column_cmp _ _); [left|left|right]; congruence. Defined.

(** The argument decides which constraints are printed: all of them, or those
    without optional gates. *)
Definition linearization_strings (hash_order : list term -> list term) (uses_custom_gates : bool)
    : outcome (string * list (string * string)) :=
  let features := if uses_custom_gates then None else Some no_features in
  let evaluated_cols := linearization_columns features in
  let '(linearization, _) := constraints_expr features true in
  '(constant_term, index_terms) ←
    expect "called `Result::unwrap()` on an `Err` value" (linearize linearization evaluated_cols);
  let index_terms := merge_sort col_le (hash_order index_terms) in
  let constant := ocaml_str constant_term in
  let other_terms := map (fun '(col, expr) => (column_debug col, ocaml_str expr)) index_terms in
  Ret (constant, other_terms).

Definition fp_linearization_strings (hash_order : list term -> list term) :=
  linearization_strings hash_order true.
Definition fq_linearization_strings (hash_order : list term -> list term) :=
  linearization_strings hash_order false.
End Linearization.

Section Properties.
Context {Expr Column Cols Alphas : Type} {L : Linearize Expr Column Cols Alphas} {LL : LinearizeLaws L}.
Abbreviation term := (Column * Expr)%type.

#[local] Instance col_le_total : Total (col_le (L := L)).
Proof.
  intros a b. unfold col_le. rewrite (column_cmp_antisym (fst a) (fst b)).
  destruct (column_cmp _ _); [left|left|right]; done.
Qed.
#[local] Instance col_le_trans : Transitive (col_le (L := L)).
Proof. intros a b c. apply column_cmp_trans. Qed.

Lemma distinct_columns (l : list term) a b :
  NoDup (map fst l) -> a ∈ l -> b ∈ l -> fst a = fst b -> a = b.
Proof.
  intros Hn. induction l as [|c l IH]; intros Ha Hb E; [by apply not_elem_of_nil in Ha|].
  cbn [map] in Hn. apply NoDup_cons in Hn as [Hc Hn].
  apply elem_of_cons in Ha as [->|Ha], Hb as [->|Hb]; [done| | |by apply IH].
  - destruct Hc. rewrite E. by apply list_elem_of_fmap_2.
  - destruct Hc. rewrite <-E. by apply list_elem_of_fmap_2.
Qed.

(** Sorting forgets the order of terms with distinct columns. *)
Lemma sort_order (l l1 l2 : list term) :
  NoDup (map fst l) -> l1 ≡ₚ l -> l2 ≡ₚ l -> merge_sort col_le l1 = merge_sort col_le l2.
Proof.
  intros Hn H1 H2. apply (StronglySorted_unique_strong col_le).
  - intros a b Ha Hb Hab Hba.
    rewrite merge_sort_Permutation in Ha, Hb. rewrite H1 in Ha. rewrite H2 in Hb.
    apply (distinct_columns l a b Hn Ha Hb).
    apply column_cmp_eq. unfold col_le in Hab, Hba. rewrite column_cmp_antisym in Hba.
    by destruct (column_cmp (fst a) (fst b)).
  - apply StronglySorted_merge_sort; apply _.
  - apply StronglySorted_merge_sort; apply _.
  - by rewrite !merge_sort_Permutation, H1, H2.
Qed.

(** C40: the printed linearization is reproducible. Whatever order the hash map
    gives its terms in, both in this run and in another, the text is the same,
    since terms have distinct columns; it lists every term once, by increasing
    column; and the only failure is that kimchi cannot linearize, a panic. *)
Theorem linearization_deterministic (order1 order2 : list term -> list term) (custom : bool) :
  let features := if custom then None else Some no_features in
  let result := linearize (fst (constraints_expr features true)) (linearization_columns features) in
  (forall l, order1 l ≡ₚ l) -> (forall l, order2 l ≡ₚ l) ->
  (forall c l, result = Some (c, l) -> NoDup (map fst l)) ->
  linearization_strings order1 custom = linearization_strings order2 custom /\
  match result with
  | None => is_panic (linearization_strings order1 custom) = true
  | Some (c, l) => exists l', l' ≡ₚ l /\ StronglySorted col_le l' /\
      linearization_strings order1 custom
        = Ret (ocaml_str c, map (fun '(col, expr) => (column_debug col, ocaml_str expr)) l')
  end.
Proof.
  intros features result H1 H2 Hn. unfold linearization_strings.
  fold features. subst result. destruct (constraints_expr features true) as [e alphas]. cbn [fst] in *.
  destruct (linearize e (linearization_columns features)) as [[c l]|]; [|done].
  cbn [expect mbind outcome_bind]. split.
  - do 3 f_equal. apply (sort_order l); [by eapply Hn|apply H1|apply H2].
  - eexists. split; [|split; [|reflexivity]].
    + by rewrite merge_sort_Permutation, H1.
    + apply StronglySorted_merge_sort; apply _.
Qed.
End Properties.

(** ** Witness: columns are numbers *)

#[local] Instance demo_linearize : Linearize string Z unit unit := {|
  linearization_columns _ := tt;
  constraints_expr f _ := (match f with None => "all" | Some _ => "basic" end%string, tt);
  linearize e _ := Some (e, [(3, "three"%string); (1, "one"%string); (2, "two"%string)]);
  ocaml_str e := e;
  column_debug c := match c with 1 => "w1" | 2 => "w2" | _ => "w3" end%string;
  column_cmp := Z.compare;
|}.
#[local] Instance demo_linearize_laws : LinearizeLaws demo_linearize.
Proof.
  constructor; cbn.
  - apply Z.compare_eq_iff.
  - intros x y. apply Z.compare_antisym.
  - intros x y z. exact (Z.le_trans x y z).
Qed.

Lemma linearization_deterministic_witness :
  fq_linearization_strings (L := demo_linearize) id = fq_linearization_strings (L := demo_linearize) reverse /\
  fq_linearization_strings (L := demo_linearize) reverse
    = Ret ("basic"%string, [("w1", "one"); ("w2", "two"); ("w3", "three")]%string).
Proof.
  destruct (linearization_deterministic (L := demo_linearize) id reverse false) as [H _].
  - done.
  - intros l. apply reverse_Permutation.
  - intros c l [= <- <-]. cbn. by repeat constructor; set_solver.
  - split; [exact H|vm_compute; reflexivity].
Defined.
