(* ===== verification/Bindings.v ===== *)
(** * What the native stubs export to OCaml

    The types and functions that stubs/src exports, as stubs/src/main.rs gives
    them to ocaml-gen: [rtype] is a Rust type as far as OCaml sees it, a
    [signature] the arguments and the result of an exported function (a
    [Result] is its value, errors being exceptions; an [ocaml::Pointer] is what
    it points to), [type_fields] the fields of the types declared in stubs/src,
    and [types_bindings], [pasta_bindings], [kimchi_bindings] the three trees of
    declarations of main.rs, one definition per module. *)

From Stdlib Require Import ZArith Lia.
From stdpp Require Import base list strings gmap.
From S2P Require Import Prelude.

(** ** Types *)

Inductive rtype : Type :=
| Param (n : nat)                              (* decl_fake_generic!(.., n) *)
| Prim (name : string)
| Vec (t : rtype)
| Opt (t : rtype)
| Tup (ts : list rtype)
| Named (head : string) (args : list rtype).

#[global] Instance rtype_eq_dec : EqDecision rtype.
Proof.
  refine (fix go (t u : rtype) : Decision (t = u) :=
    let _ : EqDecision rtype := go in
    match t, u with
    | Param n, Param m => cast_if (decide (n = m))
    | Prim n, Prim m => cast_if (decide (n = m))
    | Vec t, Vec u => cast_if (go t u)
    | Opt t, Opt u => cast_if (go t u)
    | Tup ts, Tup us => cast_if (decide (ts = us))
    | Named h ts, Named g us => cast_if_and (decide (h = g)) (decide (ts = us))
    | _, _ => right _
    end); congruence.
Defined.

Record signature : Type := Sig { args : list rtype; ret : rtype }.

#[global] Instance signature_eq_dec : EqDecision signature.
Proof. solve_decision. Defined.

Definition fn (name : string) (a : list rtype) (r : rtype) : string * signature := (name, Sig a r).

(** [ocaml::Pointer<T>] is [T] for OCaml. *)
Definition ptr (t : rtype) : rtype := t.
Abbreviation int := (Prim "int").
Abbreviation bool_ := (Prim "bool").
Abbreviation str := (Prim "string").
Abbreviation bytes_ := (Prim "bytes").
Abbreviation unit_ := (Prim "unit").
Abbreviation T1 := (Param 0).
Abbreviation T2 := (Param 1).
Abbreviation T3 := (Param 2).

Abbreviation CamlBigInteger256 := (Named "CamlBigInteger256" []).
Abbreviation CamlFp := (Named "CamlFp" []).
Abbreviation CamlFq := (Named "CamlFq" []).
Abbreviation CamlGroupProjectiveVesta := (Named "CamlGroupProjectiveVesta" []).
Abbreviation CamlGroupProjectivePallas := (Named "CamlGroupProjectivePallas" []).
Abbreviation CamlFpVector := (Named "CamlFpVector" []).
Abbreviation CamlFqVector := (Named "CamlFqVector" []).
Abbreviation CamlPastaFpPlonkGateVector := (Named "CamlPastaFpPlonkGateVector" []).
Abbreviation CamlPastaFqPlonkGateVector := (Named "CamlPastaFqPlonkGateVector" []).
Abbreviation CamlFpSrs := (Named "CamlFpSrs" []).
Abbreviation CamlFqSrs := (Named "CamlFqSrs" []).
Abbreviation CamlPastaFpPlonkIndex := (Named "CamlPastaFpPlonkIndex" []).
Abbreviation CamlPastaFqPlonkIndex := (Named "CamlPastaFqPlonkIndex" []).
Abbreviation CamlPastaFpPoseidonParams := (Named "CamlPastaFpPoseidonParams" []).
Abbreviation CamlPastaFqPoseidonParams := (Named "CamlPastaFqPoseidonParams" []).
Abbreviation CamlWire := (Named "CamlWire" []).
Abbreviation GateType := (Named "GateType" []).
Abbreviation LookupPattern := (Named "LookupPattern" []).
Abbreviation LookupPatterns := (Named "LookupPatterns" []).
Abbreviation LookupFeatures := (Named "LookupFeatures" []).
Abbreviation FeatureFlag := (Named "FeatureFlag" []).
Abbreviation CurrOrNext := (Named "CurrOrNext" []).
Abbreviation CamlLookupsUsed := (Named "CamlLookupsUsed" []).
Abbreviation CamlLookupInfo := (Named "CamlLookupInfo" []).
Abbreviation CamlGroupAffine t := (Named "CamlGroupAffine" [t]).
Abbreviation CamlScalarChallenge t := (Named "CamlScalarChallenge" [t]).
Abbreviation CamlRandomOracles t := (Named "CamlRandomOracles" [t]).
Abbreviation PointEvaluations t := (Named "PointEvaluations" [t]).
Abbreviation CamlProofEvaluations t := (Named "CamlProofEvaluations" [t]).
Abbreviation CamlPolyComm t := (Named "CamlPolyComm" [t]).
Abbreviation CamlLookupCommitments t := (Named "CamlLookupCommitments" [t]).
Abbreviation CamlRuntimeTableCfg t := (Named "CamlRuntimeTableCfg" [t]).
Abbreviation CamlLookupTable t := (Named "CamlLookupTable" [t]).
Abbreviation CamlRuntimeTable t := (Named "CamlRuntimeTable" [t]).
Abbreviation CamlProverCommitments t := (Named "CamlProverCommitments" [t]).
Abbreviation CamlCircuitGate t := (Named "CamlCircuitGate" [t]).
Abbreviation CamlOracles t := (Named "CamlOracles" [t]).
Abbreviation CamlLookupSelectors t := (Named "CamlLookupSelectors" [t]).
Abbreviation CamlLookupVerifierIndex t := (Named "CamlLookupVerifierIndex" [t]).
Abbreviation CamlPlonkDomain t := (Named "CamlPlonkDomain" [t]).
Abbreviation CamlPlonkVerificationEvals t := (Named "CamlPlonkVerificationEvals" [t]).
Abbreviation CamlRecursionChallenge t u := (Named "CamlRecursionChallenge" [t; u]).
Abbreviation CamlOpeningProof t u := (Named "CamlOpeningProof" [t; u]).
Abbreviation CamlProverProof t u := (Named "CamlProverProof" [t; u]).
Abbreviation CamlProofWithPublic t u := (Named "CamlProofWithPublic" [t; u]).
Abbreviation CamlPlonkVerifierIndex t u v := (Named "CamlPlonkVerifierIndex" [t; u; v]).

(** [group_affine.rs], [gate_vector.rs], [pasta_*_plonk_index.rs],
    [pasta_*_plonk_verifier_index.rs]: the abbreviations of the sources. *)
Definition CamlGVesta : rtype := CamlGroupAffine CamlFq.
Definition CamlGPallas : rtype := CamlGroupAffine CamlFp.
Definition CamlPastaFpPlonkGateVectorPtr : rtype := ptr CamlPastaFpPlonkGateVector.
Definition CamlPastaFqPlonkGateVectorPtr : rtype := ptr CamlPastaFqPlonkGateVector.
Definition CamlPastaFpPlonkIndexPtr : rtype := ptr CamlPastaFpPlonkIndex.
Definition CamlPastaFqPlonkIndexPtr : rtype := ptr CamlPastaFqPlonkIndex.
Definition CamlPastaFpPlonkVerifierIndex : rtype :=
  CamlPlonkVerifierIndex CamlFp CamlFpSrs (CamlPolyComm CamlGVesta).
Definition CamlPastaFqPlonkVerifierIndex : rtype :=
  CamlPlonkVerifierIndex CamlFq CamlFqSrs (CamlPolyComm CamlGPallas).

(** The fields of the structs and enums that stubs/src declares; a custom type
    (opaque to OCaml) has none. *)
Definition affine_fields : list (string * list rtype) :=
  [("CamlGroupAffine", [Tup [T1; T1]])].
Definition oracles_fields : list (string * list rtype) :=
  [("CamlOracles", [CamlRandomOracles T1; Tup [T1; T1]; Vec T1; T1])].
Definition index_fields : list (string * list rtype) :=
  [("CamlPlonkDomain", [int; T1]);
   ("CamlPlonkVerificationEvals",
      [Vec T1; Vec T1; T1; T1; T1; T1; T1; T1; Opt T1; Opt T1; Opt T1; Opt T1; Opt T1; Opt T1]);
   ("CamlLookupsUsed", []);
   ("CamlLookupSelectors", [Opt T1; Opt T1; Opt T1; Opt T1]);
   ("CamlLookupInfo", [int; int; LookupFeatures]);
   ("CamlLookupVerifierIndex",
      [bool_; Vec T1; CamlLookupSelectors T1; Opt T1; CamlLookupInfo; Opt T1]);
   ("CamlPlonkVerifierIndex",
      [CamlPlonkDomain T1; int; int; int; T2; CamlPlonkVerificationEvals T3; Vec T1;
       Opt (CamlLookupVerifierIndex T3); int])].
Definition custom_types : list (string * list rtype) :=
  map (fun h => (h, []))
    ["CamlBigInteger256"; "CamlFp"; "CamlFq"; "CamlGroupProjectiveVesta";
     "CamlGroupProjectivePallas"; "CamlFpVector"; "CamlFqVector";
     "CamlPastaFpPlonkGateVector"; "CamlPastaFqPlonkGateVector"; "CamlFpSrs"; "CamlFqSrs";
     "CamlPastaFpPlonkIndex"; "CamlPastaFqPlonkIndex"].
Definition type_fields : list (string * list rtype) :=
  affine_fields ++ oracles_fields ++ index_fields ++ custom_types.

(** ** Functions *)

Definition bigint_256_signatures : list (string * signature) :=
  [fn "caml_bigint_256_of_numeral" [str; int; int] CamlBigInteger256;
   fn "caml_bigint_256_of_decimal_string" [str] CamlBigInteger256;
   fn "caml_bigint_256_num_limbs" [] int;
   fn "caml_bigint_256_bytes_per_limb" [] int;
   fn "caml_bigint_256_div" [CamlBigInteger256; CamlBigInteger256] CamlBigInteger256;
   fn "caml_bigint_256_compare" [ptr CamlBigInteger256; ptr CamlBigInteger256] int;
   fn "caml_bigint_256_print" [CamlBigInteger256] unit_;
   fn "caml_bigint_256_to_string" [CamlBigInteger256] str;
   fn "caml_bigint_256_test_bit" [ptr CamlBigInteger256; int] bool_;
   fn "caml_bigint_256_to_bytes" [ptr CamlBigInteger256] bytes_;
   fn "caml_bigint_256_of_bytes" [bytes_] CamlBigInteger256;
   fn "caml_bigint_256_deep_copy" [CamlBigInteger256] CamlBigInteger256].

Definition pasta_fp_signatures : list (string * signature) :=
  [fn "caml_pasta_fp_size_in_bits" [] int;
   fn "caml_pasta_fp_size" [] CamlBigInteger256;
   fn "caml_pasta_fp_add" [ptr CamlFp; ptr CamlFp] CamlFp;
   fn "caml_pasta_fp_sub" [ptr CamlFp; ptr CamlFp] CamlFp;
   fn "caml_pasta_fp_negate" [ptr CamlFp] CamlFp;
   fn "caml_pasta_fp_mul" [ptr CamlFp; ptr CamlFp] CamlFp;
   fn "caml_pasta_fp_div" [ptr CamlFp; ptr CamlFp] CamlFp;
   fn "caml_pasta_fp_inv" [ptr CamlFp] (Opt CamlFp);
   fn "caml_pasta_fp_square" [ptr CamlFp] CamlFp;
   fn "caml_pasta_fp_is_square" [ptr CamlFp] bool_;
   fn "caml_pasta_fp_sqrt" [ptr CamlFp] (Opt CamlFp);
   fn "caml_pasta_fp_of_int" [int] CamlFp;
   fn "caml_pasta_fp_to_string" [ptr CamlFp] str;
   fn "caml_pasta_fp_of_string" [str] CamlFp;
   fn "caml_pasta_fp_print" [ptr CamlFp] unit_;
   fn "caml_pasta_fp_print_rust" [ptr CamlFp] unit_;
   fn "caml_pasta_fp_copy" [ptr CamlFp; ptr CamlFp] unit_;
   fn "caml_pasta_fp_mut_add" [ptr CamlFp; ptr CamlFp] unit_;
   fn "caml_pasta_fp_mut_sub" [ptr CamlFp; ptr CamlFp] unit_;
   fn "caml_pasta_fp_mut_mul" [ptr CamlFp; ptr CamlFp] unit_;
   fn "caml_pasta_fp_mut_square" [ptr CamlFp] unit_;
   fn "caml_pasta_fp_compare" [ptr CamlFp; ptr CamlFp] int;
   fn "caml_pasta_fp_equal" [ptr CamlFp; ptr CamlFp] bool_;
   fn "caml_pasta_fp_random" [] CamlFp;
   fn "caml_pasta_fp_rng" [int] CamlFp;
   fn "caml_pasta_fp_to_bigint" [ptr CamlFp] CamlBigInteger256;
   fn "caml_pasta_fp_of_bigint" [CamlBigInteger256] CamlFp;
   fn "caml_pasta_fp_two_adic_root_of_unity" [] CamlFp;
   fn "caml_pasta_fp_domain_generator" [int] CamlFp;
   fn "caml_pasta_fp_to_bytes" [ptr CamlFp] bytes_;
   fn "caml_pasta_fp_of_bytes" [bytes_] CamlFp;
   fn "caml_pasta_fp_deep_copy" [CamlFp] CamlFp].

Definition pasta_fq_signatures : list (string * signature) :=
  [fn "caml_pasta_fq_size_in_bits" [] int;
   fn "caml_pasta_fq_size" [] CamlBigInteger256;
   fn "caml_pasta_fq_add" [ptr CamlFq; ptr CamlFq] CamlFq;
   fn "caml_pasta_fq_sub" [ptr CamlFq; ptr CamlFq] CamlFq;
   fn "caml_pasta_fq_negate" [ptr CamlFq] CamlFq;
   fn "caml_pasta_fq_mul" [ptr CamlFq; ptr CamlFq] CamlFq;
   fn "caml_pasta_fq_div" [ptr CamlFq; ptr CamlFq] CamlFq;
   fn "caml_pasta_fq_inv" [ptr CamlFq] (Opt CamlFq);
   fn "caml_pasta_fq_square" [ptr CamlFq] CamlFq;
   fn "caml_pasta_fq_is_square" [ptr CamlFq] bool_;
   fn "caml_pasta_fq_sqrt" [ptr CamlFq] (Opt CamlFq);
   fn "caml_pasta_fq_of_int" [int] CamlFq;
   fn "caml_pasta_fq_to_string" [ptr CamlFq] str;
   fn "caml_pasta_fq_of_string" [str] CamlFq;
   fn "caml_pasta_fq_print" [ptr CamlFq] unit_;
   fn "caml_pasta_fq_print_rust" [ptr CamlFq] unit_;
   fn "caml_pasta_fq_copy" [ptr CamlFq; ptr CamlFq] unit_;
   fn "caml_pasta_fq_mut_add" [ptr CamlFq; ptr CamlFq] unit_;
   fn "caml_pasta_fq_mut_sub" [ptr CamlFq; ptr CamlFq] unit_;
   fn "caml_pasta_fq_mut_mul" [ptr CamlFq; ptr CamlFq] unit_;
   fn "caml_pasta_fq_mut_square" [ptr CamlFq] unit_;
   fn "caml_pasta_fq_compare" [ptr CamlFq; ptr CamlFq] int;
   fn "caml_pasta_fq_equal" [ptr CamlFq; ptr CamlFq] bool_;
   fn "caml_pasta_fq_random" [] CamlFq;
   fn "caml_pasta_fq_rng" [int] CamlFq;
   fn "caml_pasta_fq_to_bigint" [ptr CamlFq] CamlBigInteger256;
   fn "caml_pasta_fq_of_bigint" [CamlBigInteger256] CamlFq;
   fn "caml_pasta_fq_two_adic_root_of_unity" [] CamlFq;
   fn "caml_pasta_fq_domain_generator" [int] CamlFq;
   fn "caml_pasta_fq_to_bytes" [ptr CamlFq] bytes_;
   fn "caml_pasta_fq_of_bytes" [bytes_] CamlFq;
   fn "caml_pasta_fq_deep_copy" [CamlFq] CamlFq].

Definition projective_signatures (name : string) (GroupProjective CamlG CamlScalarField
       CamlBaseField : rtype) : list (string * signature) :=
  [fn ("caml_" +:+ name +:+ "_one") [] GroupProjective;
   fn ("caml_" +:+ name +:+ "_add") [ptr GroupProjective; ptr GroupProjective] GroupProjective;
   fn ("caml_" +:+ name +:+ "_sub") [ptr GroupProjective; ptr GroupProjective] GroupProjective;
   fn ("caml_" +:+ name +:+ "_negate") [ptr GroupProjective] GroupProjective;
   fn ("caml_" +:+ name +:+ "_double") [ptr GroupProjective] GroupProjective;
   fn ("caml_" +:+ name +:+ "_scale") [ptr GroupProjective; CamlScalarField] GroupProjective;
   fn ("caml_" +:+ name +:+ "_random") [] GroupProjective;
   fn ("caml_" +:+ name +:+ "_rng") [int] GroupProjective;
   fn ("caml_" +:+ name +:+ "_endo_base") [] CamlBaseField;
   fn ("caml_" +:+ name +:+ "_endo_scalar") [] CamlScalarField;
   fn ("caml_" +:+ name +:+ "_to_affine") [ptr GroupProjective] CamlG;
   fn ("caml_" +:+ name +:+ "_of_affine") [CamlG] GroupProjective;
   fn ("caml_" +:+ name +:+ "_of_affine_coordinates") [CamlBaseField; CamlBaseField]
       GroupProjective;
   fn ("caml_" +:+ name +:+ "_affine_deep_copy") [CamlG] CamlG].

Definition vector_signatures (name_ : string) (name CamlF : rtype) : list (string * signature) :=
  [fn (name_ +:+ "_create") [] name;
   fn (name_ +:+ "_length") [name] int;
   fn (name_ +:+ "_emplace_back") [name; CamlF] unit_;
   fn (name_ +:+ "_get") [name; int] CamlF;
   fn (name_ +:+ "_set") [name; int; CamlF] unit_].

Definition gate_vector_fp_signatures : list (string * signature) :=
  [fn "caml_pasta_fp_plonk_gate_vector_create" [] CamlPastaFpPlonkGateVector;
   fn "caml_pasta_fp_plonk_gate_vector_add" [CamlPastaFpPlonkGateVectorPtr; CamlCircuitGate
       CamlFp] unit_;
   fn "caml_pasta_fp_plonk_gate_vector_get" [CamlPastaFpPlonkGateVectorPtr; int] (CamlCircuitGate
       CamlFp);
   fn "caml_pasta_fp_plonk_gate_vector_len" [CamlPastaFpPlonkGateVectorPtr] int;
   fn "caml_pasta_fp_plonk_gate_vector_wrap" [CamlPastaFpPlonkGateVectorPtr; CamlWire; CamlWire]
       unit_;
   fn "caml_pasta_fp_plonk_gate_vector_digest" [int; CamlPastaFpPlonkGateVectorPtr] bytes_;
   fn "caml_pasta_fp_plonk_circuit_serialize" [int; CamlPastaFpPlonkGateVectorPtr] str].

Definition gate_vector_fq_signatures : list (string * signature) :=
  [fn "caml_pasta_fq_plonk_gate_vector_create" [] CamlPastaFqPlonkGateVector;
   fn "caml_pasta_fq_plonk_gate_vector_add" [CamlPastaFqPlonkGateVectorPtr; CamlCircuitGate
       CamlFq] unit_;
   fn "caml_pasta_fq_plonk_gate_vector_get" [CamlPastaFqPlonkGateVectorPtr; int] (CamlCircuitGate
       CamlFq);
   fn "caml_pasta_fq_plonk_gate_vector_len" [CamlPastaFqPlonkGateVectorPtr] int;
   fn "caml_pasta_fq_plonk_gate_vector_wrap" [CamlPastaFqPlonkGateVectorPtr; CamlWire; CamlWire]
       unit_;
   fn "caml_pasta_fq_plonk_gate_vector_digest" [int; CamlPastaFqPlonkGateVectorPtr] bytes_;
   fn "caml_pasta_fq_plonk_circuit_serialize" [int; CamlPastaFqPlonkGateVectorPtr] str].

Definition srs_signatures (name_ : string) (name CamlF CamlG : rtype) : list (string * signature) :=
  [fn (name_ +:+ "_create") [int] name;
   fn (name_ +:+ "_write") [Opt bool_; name; str] unit_;
   fn (name_ +:+ "_read") [Opt int; str] (Opt name);
   fn (name_ +:+ "_lagrange_commitment") [name; int; int] (CamlPolyComm CamlG);
   fn (name_ +:+ "_add_lagrange_basis") [name; int] unit_;
   fn (name_ +:+ "_commit_evaluations") [name; int; Vec CamlF] (CamlPolyComm CamlG);
   fn (name_ +:+ "_b_poly_commitment") [name; Vec CamlF] (CamlPolyComm CamlG);
   fn (name_ +:+ "_batch_accumulator_check") [name; Vec CamlG; Vec CamlF] bool_;
   fn (name_ +:+ "_batch_accumulator_generate") [name; int; Vec CamlF] (Vec CamlG);
   fn (name_ +:+ "_h") [name] CamlG].

Definition fp_index_signatures : list (string * signature) :=
  [fn "caml_pasta_fp_plonk_index_create" [CamlPastaFpPlonkGateVectorPtr; int; Vec
       (CamlLookupTable CamlFp); Vec (CamlRuntimeTableCfg CamlFp); int; CamlFpSrs]
       CamlPastaFpPlonkIndex;
   fn "caml_pasta_fp_plonk_index_max_degree" [CamlPastaFpPlonkIndexPtr] int;
   fn "caml_pasta_fp_plonk_index_public_inputs" [CamlPastaFpPlonkIndexPtr] int;
   fn "caml_pasta_fp_plonk_index_domain_d1_size" [CamlPastaFpPlonkIndexPtr] int;
   fn "caml_pasta_fp_plonk_index_domain_d4_size" [CamlPastaFpPlonkIndexPtr] int;
   fn "caml_pasta_fp_plonk_index_domain_d8_size" [CamlPastaFpPlonkIndexPtr] int;
   fn "caml_pasta_fp_plonk_index_read" [Opt int; CamlFpSrs; str] CamlPastaFpPlonkIndex;
   fn "caml_pasta_fp_plonk_index_write" [Opt bool_; CamlPastaFpPlonkIndexPtr; str] unit_].

Definition fp_verifier_index_signatures : list (string * signature) :=
  [fn "caml_pasta_fp_plonk_verifier_index_read" [Opt int; CamlFpSrs; str]
       CamlPastaFpPlonkVerifierIndex;
   fn "caml_pasta_fp_plonk_verifier_index_write" [Opt bool_; CamlPastaFpPlonkVerifierIndex; str]
       unit_;
   fn "caml_pasta_fp_plonk_verifier_index_create" [CamlPastaFpPlonkIndexPtr]
       CamlPastaFpPlonkVerifierIndex;
   fn "caml_pasta_fp_plonk_verifier_index_shifts" [int] (Vec CamlFp);
   fn "caml_pasta_fp_plonk_verifier_index_dummy" [] CamlPastaFpPlonkVerifierIndex;
   fn "caml_pasta_fp_plonk_verifier_index_deep_copy" [CamlPastaFpPlonkVerifierIndex]
       CamlPastaFpPlonkVerifierIndex].

Definition fq_index_signatures : list (string * signature) :=
  [fn "caml_pasta_fq_plonk_index_create" [CamlPastaFqPlonkGateVectorPtr; int; Vec
       (CamlLookupTable CamlFq); Vec (CamlRuntimeTableCfg CamlFq); int; CamlFqSrs]
       CamlPastaFqPlonkIndex;
   fn "caml_pasta_fq_plonk_index_max_degree" [CamlPastaFqPlonkIndexPtr] int;
   fn "caml_pasta_fq_plonk_index_public_inputs" [CamlPastaFqPlonkIndexPtr] int;
   fn "caml_pasta_fq_plonk_index_domain_d1_size" [CamlPastaFqPlonkIndexPtr] int;
   fn "caml_pasta_fq_plonk_index_domain_d4_size" [CamlPastaFqPlonkIndexPtr] int;
   fn "caml_pasta_fq_plonk_index_domain_d8_size" [CamlPastaFqPlonkIndexPtr] int;
   fn "caml_pasta_fq_plonk_index_read" [Opt int; CamlFqSrs; str] CamlPastaFqPlonkIndex;
   fn "caml_pasta_fq_plonk_index_write" [Opt bool_; CamlPastaFqPlonkIndexPtr; str] unit_].

Definition fq_verifier_index_signatures : list (string * signature) :=
  [fn "caml_pasta_fq_plonk_verifier_index_read" [Opt int; CamlFqSrs; str]
       CamlPastaFqPlonkVerifierIndex;
   fn "caml_pasta_fq_plonk_verifier_index_write" [Opt bool_; CamlPastaFqPlonkVerifierIndex; str]
       unit_;
   fn "caml_pasta_fq_plonk_verifier_index_create" [CamlPastaFqPlonkIndexPtr]
       CamlPastaFqPlonkVerifierIndex;
   fn "caml_pasta_fq_plonk_verifier_index_shifts" [int] (Vec CamlFq);
   fn "caml_pasta_fq_plonk_verifier_index_dummy" [] CamlPastaFqPlonkVerifierIndex;
   fn "caml_pasta_fq_plonk_verifier_index_deep_copy" [CamlPastaFqPlonkVerifierIndex]
       CamlPastaFqPlonkVerifierIndex].

Definition oracles_signatures (name : string) (CamlF CamlG index : rtype) : list (string *
       signature) :=
  [fn (name +:+ "_oracles_create") [Vec (CamlPolyComm CamlG); index; CamlProofWithPublic CamlG
       CamlF] (CamlOracles CamlF);
   fn (name +:+ "_oracles_create_no_public") [Vec (CamlPolyComm CamlG); index; CamlProverProof
       CamlG CamlF] (CamlOracles CamlF);
   fn (name +:+ "_oracles_dummy") [] (CamlRandomOracles CamlF);
   fn (name +:+ "_oracles_deep_copy") [CamlRandomOracles CamlF] (CamlRandomOracles CamlF)].

Definition fp_proof_signatures : list (string * signature) :=
  [fn "caml_pasta_fp_plonk_proof_create" [CamlPastaFpPlonkIndexPtr; Vec CamlFpVector; Vec
       (CamlRuntimeTable CamlFp); Vec CamlFp; Vec CamlGVesta] (CamlProofWithPublic CamlGVesta
       CamlFp);
   fn "caml_pasta_fp_plonk_proof_create_and_verify" [CamlPastaFpPlonkIndexPtr; Vec CamlFpVector;
       Vec (CamlRuntimeTable CamlFp); Vec CamlFp; Vec CamlGVesta] (CamlProofWithPublic CamlGVesta
       CamlFp);
   fn "caml_pasta_fp_plonk_proof_example_with_lookup" [CamlFpSrs] (Tup [CamlPastaFpPlonkIndex;
       CamlFp; CamlProofWithPublic CamlGVesta CamlFp]);
   fn "caml_pasta_fp_plonk_proof_example_with_foreign_field_mul" [CamlFpSrs] (Tup
       [CamlPastaFpPlonkIndex; CamlProofWithPublic CamlGVesta CamlFp]);
   fn "caml_pasta_fp_plonk_proof_example_with_range_check" [CamlFpSrs] (Tup
       [CamlPastaFpPlonkIndex; CamlProofWithPublic CamlGVesta CamlFp]);
   fn "caml_pasta_fp_plonk_proof_example_with_range_check0" [CamlFpSrs] (Tup
       [CamlPastaFpPlonkIndex; CamlProofWithPublic CamlGVesta CamlFp]);
   fn "caml_pasta_fp_plonk_proof_example_with_ffadd" [CamlFpSrs] (Tup [CamlPastaFpPlonkIndex;
       CamlFp; CamlProofWithPublic CamlGVesta CamlFp]);
   fn "caml_pasta_fp_plonk_proof_example_with_xor" [CamlFpSrs] (Tup [CamlPastaFpPlonkIndex; Tup
       [CamlFp; CamlFp]; CamlProofWithPublic CamlGVesta CamlFp]);
   fn "caml_pasta_fp_plonk_proof_example_with_rot" [CamlFpSrs] (Tup [CamlPastaFpPlonkIndex; Tup
       [CamlFp; CamlFp]; CamlProofWithPublic CamlGVesta CamlFp]);
   fn "caml_pasta_fp_plonk_proof_verify" [CamlPastaFpPlonkVerifierIndex; CamlProofWithPublic
       CamlGVesta CamlFp] bool_;
   fn "caml_pasta_fp_plonk_proof_batch_verify" [Vec CamlPastaFpPlonkVerifierIndex; Vec
       (CamlProofWithPublic CamlGVesta CamlFp)] bool_;
   fn "caml_pasta_fp_plonk_proof_dummy" [] (CamlProofWithPublic CamlGVesta CamlFp);
   fn "caml_pasta_fp_plonk_proof_deep_copy" [CamlProofWithPublic CamlGVesta CamlFp]
       (CamlProofWithPublic CamlGVesta CamlFp)].

Definition fq_proof_signatures : list (string * signature) :=
  [fn "caml_pasta_fq_plonk_proof_create" [CamlPastaFqPlonkIndexPtr; Vec CamlFqVector; Vec
       (CamlRuntimeTable CamlFq); Vec CamlFq; Vec CamlGPallas] (CamlProofWithPublic CamlGPallas
       CamlFq);
   fn "caml_pasta_fq_plonk_proof_verify" [CamlPastaFqPlonkVerifierIndex; CamlProofWithPublic
       CamlGPallas CamlFq] bool_;
   fn "caml_pasta_fq_plonk_proof_batch_verify" [Vec CamlPastaFqPlonkVerifierIndex; Vec
       (CamlProofWithPublic CamlGPallas CamlFq)] bool_;
   fn "caml_pasta_fq_plonk_proof_dummy" [] (CamlProofWithPublic CamlGPallas CamlFq);
   fn "caml_pasta_fq_plonk_proof_deep_copy" [CamlProofWithPublic CamlGPallas CamlFq]
       (CamlProofWithPublic CamlGPallas CamlFq)].


(** Every function that is exported with [#[ocaml::func]] and described to
    ocaml-gen with [#[ocaml_gen::func]]: the macros at their two instances, the
    other files. *)
Definition stub_signatures : list (string * signature) :=
  bigint_256_signatures ++ pasta_fp_signatures ++ pasta_fq_signatures
  ++ projective_signatures "pallas" CamlGroupProjectivePallas CamlGPallas CamlFq CamlFp
  ++ projective_signatures "vesta" CamlGroupProjectiveVesta CamlGVesta CamlFp CamlFq
  ++ vector_signatures "caml_fp_vector" CamlFpVector CamlFp
  ++ vector_signatures "caml_fq_vector" CamlFqVector CamlFq
  ++ gate_vector_fp_signatures ++ gate_vector_fq_signatures
  ++ srs_signatures "caml_fp_srs" CamlFpSrs CamlFp CamlGVesta
  ++ srs_signatures "caml_fq_srs" CamlFqSrs CamlFq CamlGPallas
  ++ fp_index_signatures ++ fq_index_signatures
  ++ fp_verifier_index_signatures ++ fq_verifier_index_signatures
  ++ oracles_signatures "fp" CamlFp CamlGVesta CamlPastaFpPlonkVerifierIndex
  ++ oracles_signatures "fq" CamlFq CamlGPallas CamlPastaFqPlonkVerifierIndex
  ++ fp_proof_signatures ++ fq_proof_signatures.

(** The functions of linearization.rs and of the Poseidon files: exported with
    [#[ocaml::func]] and not described to ocaml-gen. *)
Definition linearization_signatures : list (string * signature) :=
  [fn "fp_linearization_strings" [] (Tup [str; Vec (Tup [str; str])]);
   fn "fq_linearization_strings" [] (Tup [str; Vec (Tup [str; str])])].
Definition poseidon_fp_signatures : list (string * signature) :=
  [fn "caml_pasta_fp_poseidon_params_create" [] CamlPastaFpPoseidonParams;
   fn "caml_pasta_fp_poseidon_block_cipher" [ptr CamlPastaFpPoseidonParams; CamlFpVector] unit_].
Definition poseidon_fq_signatures : list (string * signature) :=
  [fn "caml_pasta_fq_poseidon_params_create" [] CamlPastaFqPoseidonParams;
   fn "caml_pasta_fq_poseidon_block_cipher" [ptr CamlPastaFqPoseidonParams; CamlFqVector] unit_].

(** Every exported function. *)
Definition exported_signatures : list (string * signature) :=
  stub_signatures ++ linearization_signatures ++ poseidon_fp_signatures ++ poseidon_fq_signatures.

Fixpoint assoc {A} (l : list (string * A)) (k : string) : option A :=
  match l with
  | [] => None
  | (k', a) :: l => if String.eqb k k' then Some a else assoc l k
  end.

Definition signature_of (f : string) : option signature := assoc stub_signatures f.

(** ** Declarations

    One constructor per macro of ocaml-gen. *)
Inductive decl : Type :=
| decl_type (t : rtype) (name : string)
| decl_type_alias (name : string) (t : rtype)
| decl_func (f name : string)
| decl_module (name : string) (body : list decl).

Definition types_bindings : list decl :=
  [decl_type (CamlGroupAffine T1) "or_infinity";
   decl_type (CamlScalarChallenge T1) "scalar_challenge";
   decl_type (CamlRandomOracles T1) "random_oracles";
   decl_type (PointEvaluations T1) "point_evaluations";
   decl_type (CamlProofEvaluations T1) "proof_evaluations";
   decl_type (CamlPolyComm T1) "poly_comm";
   decl_type (CamlRecursionChallenge T1 T2) "recursion_challenge";
   decl_type (CamlOpeningProof T1 T2) "opening_proof";
   decl_type (CamlLookupCommitments T1) "lookup_commitments";
   decl_type (CamlRuntimeTableCfg T1) "runtime_table_cfg";
   decl_type (CamlLookupTable T1) "lookup_table";
   decl_type (CamlRuntimeTable T1) "runtime_table";
   decl_type (CamlProverCommitments T1) "prover_commitments";
   decl_type (CamlProverProof T1 T2) "prover_proof";
   decl_type (CamlProofWithPublic T1 T2) "proof_with_public";
   decl_type CamlWire "wire";
   decl_type GateType "gate_type";
   decl_type LookupPattern "lookup_pattern";
   decl_type LookupPatterns "lookup_patterns";
   decl_type LookupFeatures "lookup_features";
   decl_type FeatureFlag "feature_flag";
   decl_type (CamlCircuitGate T1) "circuit_gate";
   decl_type CurrOrNext "curr_or_next";
   decl_type (CamlOracles T1) "oracles";
   decl_module "VerifierIndex"
     [decl_module "Lookup"
        [decl_type CamlLookupsUsed "lookups_used";
         decl_type CamlLookupInfo "lookup_info";
         decl_type (CamlLookupSelectors T1) "lookup_selectors";
         decl_type (CamlLookupVerifierIndex T1) "t"];
      decl_type (CamlPlonkDomain T1) "domain";
      decl_type (CamlPlonkVerificationEvals T1) "verification_evals";
      decl_type (CamlPlonkVerifierIndex T1 T2 T3) "verifier_index"]].

Definition pasta_BigInt256 : decl :=
  decl_module "BigInt256"
    [decl_type CamlBigInteger256 "t";
     decl_func "caml_bigint_256_of_numeral" "of_numeral";
     decl_func "caml_bigint_256_of_decimal_string" "of_decimal_string";
     decl_func "caml_bigint_256_num_limbs" "num_limbs";
     decl_func "caml_bigint_256_bytes_per_limb" "bytes_per_limb";
     decl_func "caml_bigint_256_div" "div";
     decl_func "caml_bigint_256_compare" "compare";
     decl_func "caml_bigint_256_print" "print";
     decl_func "caml_bigint_256_to_string" "to_string";
     decl_func "caml_bigint_256_test_bit" "test_bit";
     decl_func "caml_bigint_256_to_bytes" "to_bytes";
     decl_func "caml_bigint_256_of_bytes" "of_bytes";
     decl_func "caml_bigint_256_deep_copy" "deep_copy"].

Definition pasta_Fp : decl :=
  decl_module "Fp"
    [decl_type CamlFp "t";
     decl_func "caml_pasta_fp_size_in_bits" "size_in_bits";
     decl_func "caml_pasta_fp_size" "size";
     decl_func "caml_pasta_fp_add" "add";
     decl_func "caml_pasta_fp_sub" "sub";
     decl_func "caml_pasta_fp_negate" "negate";
     decl_func "caml_pasta_fp_mul" "mul";
     decl_func "caml_pasta_fp_div" "div";
     decl_func "caml_pasta_fp_inv" "inv";
     decl_func "caml_pasta_fp_square" "square";
     decl_func "caml_pasta_fp_is_square" "is_square";
     decl_func "caml_pasta_fp_sqrt" "sqrt";
     decl_func "caml_pasta_fp_of_int" "of_int";
     decl_func "caml_pasta_fp_to_string" "to_string";
     decl_func "caml_pasta_fp_of_string" "of_string";
     decl_func "caml_pasta_fp_print" "print";
     decl_func "caml_pasta_fp_print_rust" "print_rust";
     decl_func "caml_pasta_fp_copy" "copy";
     decl_func "caml_pasta_fp_mut_add" "mut_add";
     decl_func "caml_pasta_fp_mut_sub" "mut_sub";
     decl_func "caml_pasta_fp_mut_mul" "mut_mul";
     decl_func "caml_pasta_fp_mut_square" "mut_square";
     decl_func "caml_pasta_fp_compare" "compare";
     decl_func "caml_pasta_fp_equal" "equal";
     decl_func "caml_pasta_fp_random" "random";
     decl_func "caml_pasta_fp_rng" "rng";
     decl_func "caml_pasta_fp_to_bigint" "to_bigint";
     decl_func "caml_pasta_fp_of_bigint" "of_bigint";
     decl_func "caml_pasta_fp_two_adic_root_of_unity" "two_adic_root_of_unity";
     decl_func "caml_pasta_fp_domain_generator" "domain_generator";
     decl_func "caml_pasta_fp_to_bytes" "to_bytes";
     decl_func "caml_pasta_fp_of_bytes" "of_bytes";
     decl_func "caml_pasta_fp_deep_copy" "deep_copy"].

Definition pasta_Fq : decl :=
  decl_module "Fq"
    [decl_type CamlFq "t";
     decl_func "caml_pasta_fq_size_in_bits" "size_in_bits";
     decl_func "caml_pasta_fq_size" "size";
     decl_func "caml_pasta_fq_add" "add";
     decl_func "caml_pasta_fq_sub" "sub";
     decl_func "caml_pasta_fq_negate" "negate";
     decl_func "caml_pasta_fq_mul" "mul";
     decl_func "caml_pasta_fq_div" "div";
     decl_func "caml_pasta_fq_inv" "inv";
     decl_func "caml_pasta_fq_square" "square";
     decl_func "caml_pasta_fq_is_square" "is_square";
     decl_func "caml_pasta_fq_sqrt" "sqrt";
     decl_func "caml_pasta_fq_of_int" "of_int";
     decl_func "caml_pasta_fq_to_string" "to_string";
     decl_func "caml_pasta_fq_of_string" "of_string";
     decl_func "caml_pasta_fq_print" "print";
     decl_func "caml_pasta_fq_print_rust" "print_rust";
     decl_func "caml_pasta_fq_copy" "copy";
     decl_func "caml_pasta_fq_mut_add" "mut_add";
     decl_func "caml_pasta_fq_mut_sub" "mut_sub";
     decl_func "caml_pasta_fq_mut_mul" "mut_mul";
     decl_func "caml_pasta_fq_mut_square" "mut_square";
     decl_func "caml_pasta_fq_compare" "compare";
     decl_func "caml_pasta_fq_equal" "equal";
     decl_func "caml_pasta_fq_random" "random";
     decl_func "caml_pasta_fq_rng" "rng";
     decl_func "caml_pasta_fq_to_bigint" "to_bigint";
     decl_func "caml_pasta_fq_of_bigint" "of_bigint";
     decl_func "caml_pasta_fq_two_adic_root_of_unity" "two_adic_root_of_unity";
     decl_func "caml_pasta_fq_domain_generator" "domain_generator";
     decl_func "caml_pasta_fq_to_bytes" "to_bytes";
     decl_func "caml_pasta_fq_of_bytes" "of_bytes";
     decl_func "caml_pasta_fq_deep_copy" "deep_copy"].

Definition pasta_Vesta : decl :=
  decl_module "Vesta"
    [decl_module "BaseField"
       [decl_type_alias "t" CamlFq];
     decl_module "ScalarField"
       [decl_type_alias "t" CamlFp];
     decl_module "Affine"
       [decl_type_alias "t" (CamlGroupAffine CamlFq)];
     decl_type CamlGroupProjectiveVesta "t";
     decl_func "caml_vesta_one" "one";
     decl_func "caml_vesta_add" "add";
     decl_func "caml_vesta_sub" "sub";
     decl_func "caml_vesta_negate" "negate";
     decl_func "caml_vesta_double" "double";
     decl_func "caml_vesta_scale" "scale";
     decl_func "caml_vesta_random" "random";
     decl_func "caml_vesta_rng" "rng";
     decl_func "caml_vesta_endo_base" "endo_base";
     decl_func "caml_vesta_endo_scalar" "endo_scalar";
     decl_func "caml_vesta_to_affine" "to_affine";
     decl_func "caml_vesta_of_affine" "of_affine";
     decl_func "caml_vesta_of_affine_coordinates" "of_affine_coordinates";
     decl_func "caml_vesta_affine_deep_copy" "deep_copy"].

Definition pasta_Pallas : decl :=
  decl_module "Pallas"
    [decl_module "BaseField"
       [decl_type_alias "t" CamlFp];
     decl_module "ScalarField"
       [decl_type_alias "t" CamlFq];
     decl_module "Affine"
       [decl_type_alias "t" (CamlGroupAffine CamlFp)];
     decl_type CamlGroupProjectivePallas "t";
     decl_func "caml_pallas_one" "one";
     decl_func "caml_pallas_add" "add";
     decl_func "caml_pallas_sub" "sub";
     decl_func "caml_pallas_negate" "negate";
     decl_func "caml_pallas_double" "double";
     decl_func "caml_pallas_scale" "scale";
     decl_func "caml_pallas_random" "random";
     decl_func "caml_pallas_rng" "rng";
     decl_func "caml_pallas_endo_base" "endo_base";
     decl_func "caml_pallas_endo_scalar" "endo_scalar";
     decl_func "caml_pallas_to_affine" "to_affine";
     decl_func "caml_pallas_of_affine" "of_affine";
     decl_func "caml_pallas_of_affine_coordinates" "of_affine_coordinates";
     decl_func "caml_pallas_affine_deep_copy" "deep_copy"].

Definition kimchi_FieldVectors : decl :=
  decl_module "FieldVectors"
    [decl_module "Fp"
       [decl_type CamlFpVector "t";
        decl_type_alias "elt" CamlFp;
        decl_func "caml_fp_vector_create" "create";
        decl_func "caml_fp_vector_length" "length";
        decl_func "caml_fp_vector_emplace_back" "emplace_back";
        decl_func "caml_fp_vector_get" "get";
        decl_func "caml_fp_vector_set" "set"];
     decl_module "Fq"
       [decl_type CamlFqVector "t";
        decl_type_alias "elt" CamlFq;
        decl_func "caml_fq_vector_create" "create";
        decl_func "caml_fq_vector_length" "length";
        decl_func "caml_fq_vector_emplace_back" "emplace_back";
        decl_func "caml_fq_vector_get" "get";
        decl_func "caml_fq_vector_set" "set"]].

Definition protocol_Gates : decl :=
  decl_module "Gates"
    [decl_module "Vector"
       [decl_module "Fp"
          [decl_type CamlPastaFpPlonkGateVector "t";
           decl_type_alias "elt" (CamlCircuitGate CamlFp);
           decl_func "caml_pasta_fp_plonk_gate_vector_create" "create";
           decl_func "caml_pasta_fp_plonk_gate_vector_add" "add";
           decl_func "caml_pasta_fp_plonk_gate_vector_get" "get";
           decl_func "caml_pasta_fp_plonk_gate_vector_len" "len";
           decl_func "caml_pasta_fp_plonk_gate_vector_wrap" "wrap";
           decl_func "caml_pasta_fp_plonk_gate_vector_digest" "digest";
           decl_func "caml_pasta_fp_plonk_circuit_serialize" "to_json"];
        decl_module "Fq"
          [decl_type CamlPastaFqPlonkGateVector "t";
           decl_type_alias "elt" (CamlCircuitGate CamlFq);
           decl_func "caml_pasta_fq_plonk_gate_vector_create" "create";
           decl_func "caml_pasta_fq_plonk_gate_vector_add" "add";
           decl_func "caml_pasta_fq_plonk_gate_vector_get" "get";
           decl_func "caml_pasta_fq_plonk_gate_vector_len" "len";
           decl_func "caml_pasta_fq_plonk_gate_vector_wrap" "wrap";
           decl_func "caml_pasta_fq_plonk_gate_vector_digest" "digest";
           decl_func "caml_pasta_fq_plonk_circuit_serialize" "to_json"]]].

Definition protocol_SRS : decl :=
  decl_module "SRS"
    [decl_module "Fp"
       [decl_type CamlFpSrs "t";
        decl_module "Poly_comm"
          [decl_type_alias "t" (CamlPolyComm (CamlGroupAffine CamlFp))];
        decl_func "caml_fp_srs_create" "create";
        decl_func "caml_fp_srs_write" "write";
        decl_func "caml_fp_srs_read" "read";
        decl_func "caml_fp_srs_lagrange_commitment" "lagrange_commitment";
        decl_func "caml_fp_srs_add_lagrange_basis" "add_lagrange_basis";
        decl_func "caml_fp_srs_commit_evaluations" "commit_evaluations";
        decl_func "caml_fp_srs_b_poly_commitment" "b_poly_commitment";
        decl_func "caml_fp_srs_batch_accumulator_check" "batch_accumulator_check";
        decl_func "caml_fp_srs_batch_accumulator_generate" "batch_accumulator_generate";
        decl_func "caml_fp_srs_h" "urs_h"];
     decl_module "Fq"
       [decl_type CamlFqSrs "t";
        decl_func "caml_fq_srs_create" "create";
        decl_func "caml_fq_srs_write" "write";
        decl_func "caml_fq_srs_read" "read";
        decl_func "caml_fq_srs_lagrange_commitment" "lagrange_commitment";
        decl_func "caml_fq_srs_add_lagrange_basis" "add_lagrange_basis";
        decl_func "caml_fq_srs_commit_evaluations" "commit_evaluations";
        decl_func "caml_fq_srs_b_poly_commitment" "b_poly_commitment";
        decl_func "caml_fq_srs_batch_accumulator_check" "batch_accumulator_check";
        decl_func "caml_fq_srs_batch_accumulator_generate" "batch_accumulator_generate";
        decl_func "caml_fq_srs_h" "urs_h"]].

Definition protocol_Index : decl :=
  decl_module "Index"
    [decl_module "Fp"
       [decl_type CamlPastaFpPlonkIndex "t";
        decl_func "caml_pasta_fp_plonk_index_create" "create";
        decl_func "caml_pasta_fp_plonk_index_max_degree" "max_degree";
        decl_func "caml_pasta_fp_plonk_index_public_inputs" "public_inputs";
        decl_func "caml_pasta_fp_plonk_index_domain_d1_size" "domain_d1_size";
        decl_func "caml_pasta_fp_plonk_index_domain_d4_size" "domain_d4_size";
        decl_func "caml_pasta_fp_plonk_index_domain_d8_size" "domain_d8_size";
        decl_func "caml_pasta_fp_plonk_index_read" "read";
        decl_func "caml_pasta_fp_plonk_index_write" "write"];
     decl_module "Fq"
       [decl_type CamlPastaFqPlonkIndex "t";
        decl_func "caml_pasta_fq_plonk_index_create" "create";
        decl_func "caml_pasta_fq_plonk_index_max_degree" "max_degree";
        decl_func "caml_pasta_fq_plonk_index_public_inputs" "public_inputs";
        decl_func "caml_pasta_fq_plonk_index_domain_d1_size" "domain_d1_size";
        decl_func "caml_pasta_fq_plonk_index_domain_d4_size" "domain_d4_size";
        decl_func "caml_pasta_fq_plonk_index_domain_d8_size" "domain_d8_size";
        decl_func "caml_pasta_fq_plonk_index_read" "read";
        decl_func "caml_pasta_fq_plonk_index_write" "write"]].

Definition protocol_VerifierIndex : decl :=
  decl_module "VerifierIndex"
    [decl_module "Fp"
       [decl_type_alias "t" (CamlPlonkVerifierIndex CamlFp CamlFpSrs (CamlPolyComm CamlGVesta));
        decl_func "caml_pasta_fp_plonk_verifier_index_create" "create";
        decl_func "caml_pasta_fp_plonk_verifier_index_read" "read";
        decl_func "caml_pasta_fp_plonk_verifier_index_write" "write";
        decl_func "caml_pasta_fp_plonk_verifier_index_shifts" "shifts";
        decl_func "caml_pasta_fp_plonk_verifier_index_dummy" "dummy";
        decl_func "caml_pasta_fp_plonk_verifier_index_deep_copy" "deep_copy"];
     decl_module "Fq"
       [decl_type_alias "t" (CamlPlonkVerifierIndex CamlFq CamlFqSrs (CamlPolyComm CamlGPallas));
        decl_func "caml_pasta_fq_plonk_verifier_index_create" "create";
        decl_func "caml_pasta_fq_plonk_verifier_index_read" "read";
        decl_func "caml_pasta_fq_plonk_verifier_index_write" "write";
        decl_func "caml_pasta_fq_plonk_verifier_index_shifts" "shifts";
        decl_func "caml_pasta_fq_plonk_verifier_index_dummy" "dummy";
        decl_func "caml_pasta_fq_plonk_verifier_index_deep_copy" "deep_copy"]].

Definition protocol_Oracles : decl :=
  decl_module "Oracles"
    [decl_module "Fp"
       [decl_type_alias "t" (CamlOracles CamlFp);
        decl_func "fp_oracles_create_no_public" "create";
        decl_func "fp_oracles_create" "create_with_public_evals";
        decl_func "fp_oracles_dummy" "dummy";
        decl_func "fp_oracles_deep_copy" "deep_copy"];
     decl_module "Fq"
       [decl_type_alias "t" (CamlOracles CamlFq);
        decl_func "fq_oracles_create_no_public" "create";
        decl_func "fq_oracles_create" "create_with_public_evals";
        decl_func "fq_oracles_dummy" "dummy";
        decl_func "fq_oracles_deep_copy" "deep_copy"]].

Definition protocol_Proof : decl :=
  decl_module "Proof"
    [decl_module "Fp"
       [decl_func "caml_pasta_fp_plonk_proof_create" "create";
        decl_func "caml_pasta_fp_plonk_proof_create_and_verify" "create_and_verify";
        decl_func "caml_pasta_fp_plonk_proof_example_with_lookup" "example_with_lookup";
        decl_func "caml_pasta_fp_plonk_proof_example_with_ffadd" "example_with_ffadd";
        decl_func "caml_pasta_fp_plonk_proof_example_with_xor" "example_with_xor";
        decl_func "caml_pasta_fp_plonk_proof_example_with_rot" "example_with_rot";
        decl_func "caml_pasta_fp_plonk_proof_example_with_foreign_field_mul" "example_with_foreign_field_mul";
        decl_func "caml_pasta_fp_plonk_proof_example_with_range_check" "example_with_range_check";
        decl_func "caml_pasta_fp_plonk_proof_example_with_range_check0" "example_with_range_check0";
        decl_func "caml_pasta_fp_plonk_proof_verify" "verify";
        decl_func "caml_pasta_fp_plonk_proof_batch_verify" "batch_verify";
        decl_func "caml_pasta_fp_plonk_proof_dummy" "dummy";
        decl_func "caml_pasta_fp_plonk_proof_deep_copy" "deep_copy"];
     decl_module "Fq"
       [decl_func "caml_pasta_fq_plonk_proof_create" "create";
        decl_func "caml_pasta_fq_plonk_proof_verify" "verify";
        decl_func "caml_pasta_fq_plonk_proof_batch_verify" "batch_verify";
        decl_func "caml_pasta_fq_plonk_proof_dummy" "dummy";
        decl_func "caml_pasta_fq_plonk_proof_deep_copy" "deep_copy"]].

Definition pasta_bindings : list decl :=
  [pasta_BigInt256; pasta_Fp; pasta_Fq; pasta_Vesta; pasta_Pallas].

Definition kimchi_bindings : list decl :=
  [kimchi_FieldVectors;
   decl_module "Protocol"
     [protocol_Gates; protocol_SRS; protocol_Index; protocol_VerifierIndex; protocol_Oracles;
      protocol_Proof]].
