(* ===== verification/Bindgen.v ===== *)
(** * Generating the OCaml interface

    stubs/src/main.rs: walks the declarations of [Bindings] with ocaml-gen and
    writes the three OCaml files.  [OcamlGen] is what main.rs uses of that
    crate; [gen] the macros [decl_type!], [decl_type_alias!], [decl_func!] and
    [decl_module!]; [main] the program with its optional file arguments.  A
    writer is the text written so far, which stays when a later call panics.  A file
    may not be creatable, and any write to a file or to the standard output may
    fail, which the [unwrap] after it turns into a panic. *)

From Stdlib Require Import ZArith Lia.
From stdpp Require Import base list strings gmap.
From S2P Require Import Prelude Bindings.

(** ** ocaml-gen

    Each call returns the text it produces and the new environment.
    [kimchi_fields] are the fields of the types that kimchi derives. *)
Class OcamlGen (Env : Type) := {
  env_default : Env;
  new_module : string -> Env -> outcome (string * Env);
  parent : Env -> outcome (string * Env);
  open_module : string -> Env -> outcome (string * Env);     (* decl_module!, before its body *)
  close_module : Env -> outcome (string * Env);              (* and after it *)
  declare_type : rtype -> list rtype -> string -> Env -> outcome (string * Env);
  declare_alias : string -> rtype -> Env -> outcome (string * Env);
  declare_func : string -> signature -> string -> Env -> outcome (string * Env);
  kimchi_fields : string -> list rtype
}.

(** The declared types a type is written with. *)
Fixpoint heads (t : rtype) : list string :=
  match t with
  | Param _ | Prim _ => []
  | Vec t | Opt t => heads t
  | Tup ts => concat (map heads ts)
  | Named h ts => h :: concat (map heads ts)
  end.
Definition heads_all (ts : list rtype) : list string := concat (map heads ts).
Definition signature_heads (s : signature) : list string := heads_all (args s ++ [ret s]).

(** OCaml's module names start with an uppercase letter. *)
Definition capitalised (name : string) : bool :=
  match name with
  | String c _ => let n := Ascii.nat_of_ascii c in (65 <=? n)%nat && (n <=? 90)%nat
  | EmptyString => false
  end.

(** Which types the fields of kimchi's types are written with, as the file
    kimchi_types.ml beside the stubs shows. *)
Definition kimchi_uses : list (string * list string) :=
  [("CamlScalarChallenge", []); ("CamlRandomOracles", ["CamlScalarChallenge"]);
   ("PointEvaluations", []); ("CamlProofEvaluations", ["PointEvaluations"]);
   ("CamlPolyComm", []); ("CamlRecursionChallenge", ["CamlPolyComm"]);
   ("CamlOpeningProof", []); ("CamlLookupCommitments", ["CamlPolyComm"]);
   ("CamlRuntimeTableCfg", []); ("CamlLookupTable", []); ("CamlRuntimeTable", []);
   ("CamlProverCommitments", ["CamlPolyComm"; "CamlLookupCommitments"]);
   ("CamlProverProof", ["CamlProverCommitments"; "CamlOpeningProof"; "CamlProofEvaluations";
                        "CamlRecursionChallenge"]);
   ("CamlProofWithPublic", ["PointEvaluations"; "CamlProverProof"]);
   ("CamlWire", []); ("GateType", []); ("LookupPattern", []); ("LookupPatterns", []);
   ("LookupFeatures", ["LookupPatterns"]); ("FeatureFlag", ["LookupPattern"]);
   ("CamlCircuitGate", ["GateType"; "CamlWire"]); ("CurrOrNext", [])].

(** What the crate documents: modules nest, their names are capitalised; a type
    is declared once and before it is used; [decl_module!] opens the module as
    [new_module] does and closes it as [parent] does. *)
Class OcamlGenLaws (Env : Type) `{OcamlGen Env} := {
  nesting : Env -> list string;
  declared : Env -> gset string;
  default_view : nesting env_default = [] /\ declared env_default = ∅;
  new_module_view : forall name e, capitalised name = true ->
    exists text e', new_module name e = Ret (text, e') /\
      nesting e' = nesting e ++ [name] /\ declared e' = declared e;
  parent_view : forall e p name, nesting e = p ++ [name] ->
    exists text e', parent e = Ret (text, e') /\ nesting e' = p /\ declared e' = declared e;
  open_as_new : forall name e,
    snd <$> open_module name e = snd <$> new_module name e;
  close_as_parent : forall e, snd <$> close_module e = snd <$> parent e;
  declare_type_view : forall h ts fields name e,
    h ∉ declared e -> (forall x, x ∈ heads_all fields -> x ∈ declared e) ->
    exists text e', declare_type (Named h ts) fields name e = Ret (text, e') /\
      nesting e' = nesting e /\ declared e' = {[h]} ∪ declared e;
  declare_alias_view : forall name t e, (forall x, x ∈ heads t -> x ∈ declared e) ->
    exists text e', declare_alias name t e = Ret (text, e') /\
      nesting e' = nesting e /\ declared e' = declared e;
  declare_func_view : forall f s name e,
    (forall x, x ∈ signature_heads s -> x ∈ declared e) ->
    exists text e', declare_func f s name e = Ret (text, e') /\
      nesting e' = nesting e /\ declared e' = declared e;
  kimchi_fields_use : forall h us, assoc kimchi_uses h = Some us ->
    forall x, x ∈ heads_all (kimchi_fields h) -> x ∈ us
}.

(** ** Writing

    [fails sink written text] says where writing [text] to a sink breaks off, when
    [written] is what it holds: [None], when it does not.  A sink is a file or the
    standard output. *)
Definition faults : Type := option string -> string -> string -> option nat.

(** [write!(w, ..).unwrap()]: on an error the sink has a prefix of the text. *)
Definition write_all (fails : string -> string -> option nat) (w text : string) : string * outcome unit :=
  match fails w text with
  | None => (w +:+ text, Ret tt)
  | Some n => (w +:+ String.substring 0 n text, Panic "called `Result::unwrap()` on an `Err` value")
  end.

Section Generator.
Context {Env : Type} `{OcamlGen Env}.

(** ** The macros *)

Section Macros.
Context (fails : string -> string -> option nat).

(** Writing what a call returns. *)
Definition emit (w : string) (r : outcome (string * Env)) : string * outcome Env :=
  match r with
  | Ret (text, e) => let '(w, r) := write_all fails w text in (w, _ ← r; Ret e)
  | Raise x => (w, Raise x)
  | Panic m => (w, Panic m)
  end.

Definition and_then (s : string * outcome Env) (f : string -> Env -> string * outcome Env)
    : string * outcome Env :=
  match s with
  | (w, Ret e) => f w e
  | (w, Raise x) => (w, Raise x)
  | (w, Panic m) => (w, Panic m)
  end.

Definition fields_of (t : rtype) : list rtype :=
  match t with
  | Named h _ => default (kimchi_fields h) (assoc type_fields h)
  | _ => []
  end.

Fixpoint gen (d : decl) (w : string) (e : Env) {struct d} : string * outcome Env :=
  match d with
  | decl_type t name => emit w (declare_type t (fields_of t) name e)
  | decl_type_alias name t => emit w (declare_alias name t e)
  | decl_func f name =>
      match signature_of f with
      | Some s => emit w (declare_func f s name e)
      | None => (w, Panic "no such function")      (* does not compile *)
      end
  | decl_module name body =>
      and_then (emit w (open_module name e)) (fun w e =>
      and_then ((fix gen_list (ds : list decl) (w : string) (e : Env) :=
                   match ds with
                   | [] => (w, Ret e)
                   | d :: ds => and_then (gen d w e) (gen_list ds)
                   end) body w e) (fun w e =>
      emit w (close_module e)))
  end.

Fixpoint gen_all (ds : list decl) (w : string) (e : Env) : string * outcome Env :=
  match ds with
  | [] => (w, Ret e)
  | d :: ds => and_then (gen d w e) (gen_all ds)
  end.

Lemma gen_module name body w e :
  gen (decl_module name body) w e =
    and_then (emit w (open_module name e)) (fun w e =>
    and_then (gen_all body w e) (fun w e => emit w (close_module e))).
Proof. reflexivity. Qed.
End Macros.

(** ** The program *)

Record world : Type := World { files : gmap string string; stdout : string }.

Definition write_file (path text : string) (w : world) : world :=
  World (<[path := text]> (files w)) (stdout w).

Definition header : string :=
  "(" +:+ "* This file is generated automatically with ocaml_gen. *" +:+ ")" +:+
  String (Ascii.ascii_of_nat 10) EmptyString.

(** Which files [File::create] can make, and which writes fail. *)
Context (creatable : string -> bool) (fails : faults).

(** One of the three parts of [main]: to the file of the argument, without the
    text of its module, or to the standard output, with it. *)
Definition main_part (arg : option string) (name : string) (ds : list decl)
    (w : world) (e : Env) : world * outcome Env :=
  match arg with
  | Some path =>
      if (creatable path : bool) then
        let '(text, r) :=
          and_then (emit (fails arg) EmptyString (Ret (header, e))) (fun text e =>
            match new_module name e with
            | Ret (_, e) => gen_all (fails arg) ds text e
            | Raise x => (text, Raise x)
            | Panic m => (text, Panic m)
            end) in
        (write_file path text w, e ← r; snd <$> parent e)
      else (w, Panic "could not create output file")
  | None =>
      let '(text, r) :=
        and_then (emit (fails arg) (stdout w) (Ret (header, e)))
          (gen (fails arg) (decl_module name ds)) in
      (World (files w) text, r)
  end.

Definition main (args : list string) (w : world) : world * outcome Env :=
  match main_part (args !! 1%nat) "Kimchi_types" types_bindings w env_default with
  | (w, Ret e) =>
      match main_part (args !! 2%nat) "Pasta_bindings" pasta_bindings w e with
      | (w, Ret e) => main_part (args !! 3%nat) "Kimchi_bindings" kimchi_bindings w e
      | r => r
      end
  | r => r
  end.

End Generator.

#[local] Arguments assoc : simpl never.
#[local] Arguments signature_of : simpl never.

(** ** Declared before used

    [scoped] reads a declaration with the types declared so far and returns
    those declared after it, or nothing when a name is not declared, or twice. *)

Definition uses (h : string) : option (list string) :=
  match assoc type_fields h with
  | Some fields => Some (heads_all fields)
  | None => assoc kimchi_uses h
  end.
Definition mem (l : list string) (x : string) : bool := existsb (String.eqb x) l.

Fixpoint scoped (d : decl) (s : list string) {struct d} : option (list string) :=
  match d with
  | decl_type (Named h _) _ =>
      us ← uses h; if negb (mem s h) && forallb (mem s) us then Some (h :: s) else None
  | decl_type _ _ => None
  | decl_type_alias _ t => if forallb (mem s) (heads t) then Some s else None
  | decl_func f _ =>
      sg ← signature_of f; if forallb (mem s) (signature_heads sg) then Some s else None
  | decl_module name body =>
      if capitalised name then
        (fix go (ds : list decl) (s : list string) :=
           match ds with [] => Some s | d :: ds => s ← scoped d s; go ds s end) body s
      else None
  end.

Fixpoint scoped_all (ds : list decl) (s : list string) : option (list string) :=
  match ds with [] => Some s | d :: ds => s ← scoped d s; scoped_all ds s end.

Lemma scoped_module name body s :
  scoped (decl_module name body) s = if capitalised name then scoped_all body s else None.
Proof. reflexivity. Qed.

Lemma mem_elem l x : mem l x = true <-> x ∈ l.
Proof.
  unfold mem. rewrite existsb_exists. split.
  - intros (y & Hy & ->%String.eqb_eq). by apply list_elem_of_In.
  - intros Hx. exists x. split; [by apply list_elem_of_In | apply String.eqb_refl].
Qed.
Lemma forallb_mem l xs : forallb (mem l) xs = true -> forall x, x ∈ xs -> x ∈ l.
Proof.
  rewrite forallb_forall. intros H x Hx%list_elem_of_In. by apply mem_elem, H.
Qed.

(** Induction on declarations. *)
Fixpoint decl_rect_nested (P : decl -> Prop)
    (Ht : forall t n, P (decl_type t n)) (Ha : forall n t, P (decl_type_alias n t))
    (Hf : forall f n, P (decl_func f n))
    (Hm : forall n body, Forall P body -> P (decl_module n body)) (d : decl) : P d :=
  match d with
  | decl_type t n => Ht t n
  | decl_type_alias n t => Ha n t
  | decl_func f n => Hf f n
  | decl_module n body =>
      Hm n body ((fix go (ds : list decl) : Forall P ds :=
        match ds with
        | [] => @ListDef.Forall_nil decl P
        | d :: ds => @ListDef.Forall_cons decl P d ds (decl_rect_nested P Ht Ha Hf Hm d) (go ds)
        end) body)
  end.

Section Laws.
Context {Env : Type} `{OL : OcamlGenLaws Env}.

Definition sees (e : Env) (s : list string) : Prop := forall x, x ∈ declared e <-> x ∈ s.

(** Writing several texts, up to the first that fails. *)
Fixpoint write_texts (fails : string -> string -> option nat) (w : string) (texts : list string)
    : string * outcome unit :=
  match texts with
  | [] => (w, Ret tt)
  | text :: texts =>
      match write_all fails w text with
      | (w, Ret _) => write_texts fails w texts
      | r => r
      end
  end.

(** A run writes the same texts whatever was written before, and if no write fails
    leaves the modules as they were and the types [s'] declared. *)
Definition writes_then (run : string -> string * outcome Env) fails (texts : list string) (e' : Env) : Prop :=
  forall w, run w = let '(w', r) := write_texts fails w texts in (w', _ ← r; Ret e').
Definition writes (run : (string -> string -> option nat) -> string -> string * outcome Env)
    (e : Env) (s' : list string) : Prop :=
  exists texts e', (forall fails, writes_then (run fails) fails texts e') /\ nesting e' = nesting e /\ sees e' s'.

Lemma write_all_cases fails w text :
  (exists w', write_all fails w text = (w', Ret tt)) \/ exists w' m, write_all fails w text = (w', Panic m).
Proof. unfold write_all. destruct (fails w text); [right; by eexists _, _|left; by eexists]. Qed.
Lemma write_texts_app fails w l1 l2 :
  write_texts fails w (l1 ++ l2) =
    match write_texts fails w l1 with (w, Ret _) => write_texts fails w l2 | r => r end.
Proof.
  revert w. induction l1 as [|t l1 IH]; intros w; [done|]. cbn [app write_texts].
  destruct (write_all_cases fails w t) as [(w' & ->)|(w' & m & ->)]; [apply IH|done].
Qed.

Lemma then_one fails (r : outcome (string * Env)) text e' :
  r = Ret (text, e') -> writes_then (fun w => emit fails w r) fails [text] e'.
Proof.
  intros -> w. cbn.
  by destruct (write_all_cases fails w text) as [(w' & ->)|(w' & m & ->)].
Qed.
Lemma then_nil fails e : writes_then (fun w => (w, Ret e)) fails [] e.
Proof. done. Qed.
Lemma then_app fails run f l1 l2 e1 e2 :
  writes_then run fails l1 e1 -> writes_then (fun w => f w e1) fails l2 e2 ->
  writes_then (fun w => and_then (run w) f) fails (l1 ++ l2) e2.
Proof.
  intros H1 H2 w. rewrite H1, write_texts_app.
  destruct (write_texts fails w l1) as [w1 [[]|x|m]]; cbn; [apply H2|done|done].
Qed.

Lemma emit_writes (r : outcome (string * Env)) e s' :
  (exists text e', r = Ret (text, e') /\ nesting e' = nesting e /\ sees e' s') ->
  writes (fun fails w => emit fails w r) e s'.
Proof.
  intros (text & e' & Hr & Hn & Hd). exists [text], e'. split; [|done].
  intros fails. by apply then_one.
Qed.

Lemma same_env {r1 r2 : outcome (string * Env)} text e' :
  snd <$> r1 = snd <$> r2 -> r2 = Ret (text, e') -> exists text1, r1 = Ret (text1, e').
Proof.
  intros Heq ->. destruct r1 as [[t1 e1]|?|?]; try discriminate.
  injection Heq as ->. by exists t1.
Qed.

(** A module around declarations that write: its texts enclose theirs, and its
    environment is that of [new_module], the declarations and [parent]. *)
Lemma module_writes name body e s s' :
  capitalised name = true -> sees e s ->
  (forall e1, sees e1 s -> writes (fun fails w => gen_all fails body w e1) e1 s') ->
  exists open inner close e3, nesting e3 = nesting e /\ sees e3 s' /\
    (forall fails, writes_then (fun w => gen fails (decl_module name body) w e) fails
                     ([open] ++ inner ++ [close]) e3) /\
    exists t0 e1 e2 t3, new_module name e = Ret (t0, e1) /\
      (forall fails, writes_then (fun w => gen_all fails body w e1) fails inner e2) /\ parent e2 = Ret (t3, e3).
Proof.
  intros Hc Hs Hbody.
  destruct (new_module_view name e Hc) as (t0 & e1 & Hnew & Hn1 & Hd1).
  destruct (same_env _ _ (open_as_new name e) Hnew) as [open Hopen].
  destruct (Hbody e1) as (inner & e2 & Hw & Hn2 & Hd2); [intros x; by rewrite Hd1|].
  rewrite Hn1 in Hn2.
  destruct (parent_view e2 _ _ Hn2) as (t3 & e3 & Hpar & Hn3 & Hd3).
  destruct (same_env _ _ (close_as_parent e2) Hpar) as [close Hclose].
  exists open, inner, close, e3. split; [done|]. split; [intros x; by rewrite Hd3|].
  split; [|by exists t0, e1, e2, t3].
  intros fails w. rewrite gen_module.
  revert w. apply (then_app _ _ _ [open] _ e1); [by apply then_one|].
  apply then_app with e2; [apply Hw|]. by apply then_one.
Qed.

Lemma uses_fields h us ts x :
  uses h = Some us -> x ∈ heads_all (fields_of (Env := Env) (Named h ts)) -> x ∈ us.
Proof.
  unfold uses, fields_of. destruct (assoc type_fields h) as [fs|].
  - intros [= <-] Hx. exact Hx.
  - intros Hu Hx. eapply kimchi_fields_use; [exact Hu | exact Hx].
Qed.

Lemma gen_all_writes body s s' e :
  Forall (fun d => forall s s' e, scoped d s = Some s' -> sees e s ->
    writes (fun fails w => gen fails d w e) e s') body ->
  scoped_all body s = Some s' -> sees e s -> writes (fun fails w => gen_all fails body w e) e s'.
Proof.
  intros HF. revert s e. induction HF as [|d body Hd _ IH]; intros s e Hs Hv.
  - injection Hs as <-. exists [], e. split; [|done]. intros fails. apply then_nil.
  - cbn in Hs. destruct (scoped d s) as [s1|] eqn:E; [|done].
    destruct (Hd _ _ _ E Hv) as (t1 & e1 & Hw1 & Hn1 & Hv1).
    destruct (IH _ _ Hs Hv1) as (t2 & e2 & Hw2 & Hn2 & Hv2).
    exists (t1 ++ t2), e2. split; [|split; [congruence|done]].
    intros fails. cbn [gen_all]. by apply then_app with e1.
Qed.

(** Declarations in scope are generated. *)
Lemma gen_writes d : forall s s' e, scoped d s = Some s' -> sees e s ->
  writes (fun fails w => gen fails d w e) e s'.
Proof.
  induction d as [t n | n t | f n | n body IH] using decl_rect_nested; intros s s' e Hs Hv.
  - destruct t as [?|?|?|?|?|h ts]; try discriminate. cbn in Hs.
    destruct (uses h) as [us|] eqn:Hu; [|done]. cbn in Hs.
    destruct (negb (mem s h) && forallb (mem s) us) eqn:E; [|done]. injection Hs as <-.
    apply andb_true_iff in E as [Hh Hus]. apply emit_writes.
    destruct (declare_type_view h ts (fields_of (Named h ts)) n e) as (t & e' & He & Hn & Hd).
    + rewrite (Hv h), <- mem_elem. by destruct (mem s h).
    + intros x Hx. apply Hv. eapply forallb_mem; [done|]. by eapply uses_fields.
    + exists t, e'. split; [done|]. split; [done|]. intros x. rewrite Hd.
      rewrite elem_of_union, elem_of_singleton, (Hv x), elem_of_cons. done.
  - cbn in Hs. destruct (forallb (mem s) (heads t)) eqn:E; [|done]. injection Hs as <-.
    apply emit_writes. destruct (declare_alias_view n t e) as (tx & e' & He & Hn & Hd).
    + intros x Hx. apply Hv. by eapply forallb_mem.
    + exists tx, e'. split; [done|]. split; [done|]. intros x. by rewrite Hd.
  - cbn in Hs |- *. destruct (signature_of f) as [sg|]; [|done]. cbn in Hs.
    destruct (forallb (mem s) (signature_heads sg)) eqn:E; [|done]. injection Hs as <-.
    apply emit_writes. destruct (declare_func_view f sg n e) as (tx & e' & He & Hn & Hd).
    + intros x Hx. apply Hv. by eapply forallb_mem.
    + exists tx, e'. split; [done|]. split; [done|]. intros x. by rewrite Hd.
  - rewrite scoped_module in Hs. destruct (capitalised n) eqn:Hc; [|done].
    destruct (module_writes n body e s s') as (op & inner & cl & e3 & Hn & Hv3 & Hw & _); [done|done| |].
    + intros e1 Hv1. by eapply gen_all_writes.
    + by exists ([op] ++ inner ++ [cl]), e3.
Qed.
(** *** The program *)

(** What one part of the program writes: the texts of its declarations, and those
    that enclose them when they go to the standard output. *)
Record part_text : Type := PartText { opening : string; declarations : list string; closing : string }.

(** The header and the texts, to a new file or after what was printed before. *)
Definition place (fails : faults) (arg : option string) (t : part_text) (w : world) : world * outcome unit :=
  match arg with
  | Some path =>
      let '(text, r) := write_texts (fails arg) EmptyString (header :: declarations t) in
      (write_file path text w, r)
  | None =>
      let '(text, r) := write_texts (fails arg) (stdout w)
                          (header :: [opening t] ++ declarations t ++ [closing t]) in
      (World (files w) text, r)
  end.

(** The parts in order, up to the first file that cannot be created or write that
    fails. *)
Fixpoint place_all (creatable : string -> bool) (fails : faults) (l : list (option string * part_text)) (w : world)
    : world * outcome unit :=
  match l with
  | [] => (w, Ret tt)
  | (arg, t) :: l =>
      if from_option creatable true arg then
        match place fails arg t w with
        | (w, Ret _) => place_all creatable fails l w
        | r => r
        end
      else (w, Panic "could not create output file")
  end.

(** A part of the program, wherever it writes. *)
Definition part_ok (name : string) (ds : list decl) (e : Env) (t : part_text) (e' : Env) : Prop :=
  forall creatable fails arg w, main_part creatable fails arg name ds w e =
    if from_option creatable true arg
    then let '(w', r) := place fails arg t w in (w', _ ← r; Ret e')
    else (w, Panic "could not create output file").

Lemma main_part_ok name ds e s s' :
  capitalised name = true -> sees e s -> nesting e = [] -> scoped_all ds s = Some s' ->
  exists t e', part_ok name ds e t e' /\ nesting e' = [] /\ sees e' s'.
Proof.
  intros Hc Hv He Hs.
  destruct (module_writes name ds e s s' Hc Hv) as
    (op & inner & cl & e3 & Hn3 & Hv3 & Hw & t0 & e1 & e2 & t3 & Hnew & Hin & Hpar).
  { intros e1 Hv1. eapply gen_all_writes; [|done|done]. apply Forall_true. exact gen_writes. }
  exists (PartText op inner cl), e3. split; [|by rewrite Hn3].
  intros creatable fails [path|] w; cbn [main_part from_option place opening declarations closing].
  - destruct (creatable path); [|done].
    erewrite (then_app (fails (Some path)) (fun w => emit (fails (Some path)) w (Ret (header, e))) _ [header] inner e e2).
    + cbn [app]. destruct (write_texts (fails (Some path)) "" (header :: inner)) as [w1 [[]|x|m]]; cbn; [|done|done].
      by rewrite Hpar.
    + by apply then_one.
    + rewrite Hnew. apply Hin.
  - erewrite (then_app (fails None) (fun w => emit (fails None) w (Ret (header, e))) _ [header] ([op] ++ inner ++ [cl]) e e3).
    + cbn [app]. by destruct (write_texts (fails None) (stdout w) (header :: op :: inner ++ [cl])) as [w1 [[]|x|m]].
    + by apply then_one.
    + apply Hw.
Qed.

Definition all_types : list string :=
  default []
    (s1 ← scoped_all types_bindings []; s2 ← scoped_all pasta_bindings s1;
     scoped_all kimchi_bindings s2).

(** Every type is declared once and before it is used, in the order of main.rs. *)
Lemma main_scoped : exists s1 s2,
  scoped_all types_bindings [] = Some s1 /\ scoped_all pasta_bindings s1 = Some s2 /\
  scoped_all kimchi_bindings s2 = Some all_types.
Proof. eexists _, _. split; [|split]; vm_compute; reflexivity. Qed.

(** When every file can be created and no write fails, everything is written. *)
Lemma write_texts_ok fails w texts :
  (forall w t, fails w t = None) -> snd (write_texts fails w texts) = Ret tt.
Proof.
  intros Hf. revert w. induction texts as [|t texts IH]; intros w; [done|]. cbn [write_texts].
  unfold write_all. rewrite Hf. apply IH.
Qed.
Lemma place_ok fails arg t w :
  (forall s w t, fails s w t = None) -> snd (place fails arg t w) = Ret tt.
Proof.
  intros Hf. destruct arg as [path|]; cbn [place].
  - pose proof (write_texts_ok (fails (Some path)) "" (header :: declarations t) (Hf _)) as Hw.
    by destruct (write_texts _ _ _).
  - pose proof (write_texts_ok (fails None) (stdout w) (header :: [opening t] ++ declarations t ++ [closing t]) (Hf _)) as Hw.
    by destruct (write_texts _ _ _).
Qed.
Lemma place_all_ok creatable fails l w :
  (forall p, creatable p = true) -> (forall s w t, fails s w t = None) ->
  snd (place_all creatable fails l w) = Ret tt.
Proof.
  intros Hc Hf. revert w. induction l as [|[arg t] l IH]; intros w; [done|]. cbn [place_all].
  assert (from_option creatable true arg = true) as -> by (destruct arg; [apply Hc|done]).
  pose proof (place_ok fails arg t w Hf) as Hw. destruct (place fails arg t w) as [w1 r].
  cbn [snd] in Hw. rewrite Hw. apply IH.
Qed.

(** One part, and the rest of the program after it. *)
Lemma part_then name ds e t e' (k : world -> Env -> world * outcome Env) creatable fails arg l w :
  part_ok name ds e t e' ->
  (forall w, (let '(w', r) := k w e' in (w', const tt <$> r)) = place_all creatable fails l w) ->
  (let '(w', r) := match main_part creatable fails arg name ds w e with (w, Ret e) => k w e | r => r end in
   (w', const tt <$> r)) = place_all creatable fails ((arg, t) :: l) w.
Proof.
  intros Hp Hk. rewrite Hp. cbn [place_all].
  destruct (from_option creatable true arg); [|done].
  destruct (place fails arg t w) as [w1 [[]|x|m]]; [apply Hk|done|done].
Qed.
Lemma part_last name ds e t e' creatable fails arg w :
  part_ok name ds e t e' ->
  (let '(w', r) := main_part creatable fails arg name ds w e in (w', const tt <$> r)) =
    place_all creatable fails [(arg, t)] w.
Proof.
  intros Hp. rewrite Hp. cbn [place_all]. destruct (from_option creatable true arg); [|done].
  by destruct (place fails arg t w) as [w1 [[]|x|m]].
Qed.
Lemma part_env name ds e t e' creatable fails arg w w1 e1 :
  part_ok name ds e t e' -> main_part creatable fails arg name ds w e = (w1, Ret e1) -> e1 = e'.
Proof.
  intros Hp. rewrite Hp. destruct (from_option creatable true arg); [|done].
  destruct (place fails arg t w) as [w2 [[]|x|m]]; [|done|done]. by intros [= _ <-].
Qed.

(** C27: The generator of the OCaml bindings never fails on its declarations.
    Whichever of the three files are named on the command line, the program writes
    each part to its file, or to the standard output inside its module, with the
    same declarations in both, one after the other; it panics at a file that it
    cannot create and at a write that fails, and there only, keeping what was
    written before. So it ends if all files can be created and all writes succeed.
    When it ends, no module is left open and every type of the bindings is
    declared. *)
Theorem bindings_generated :
  exists t1 t2 t3, forall creatable fails args w,
    let spec := place_all creatable fails [(args !! 1%nat, t1); (args !! 2%nat, t2); (args !! 3%nat, t3)] w in
    (let '(w', r) := main creatable fails args w in (w', const tt <$> r)) = spec /\
    ((forall p, creatable p = true) -> (forall s w t, fails s w t = None) -> snd spec = Ret tt) /\
    forall w' e, main creatable fails args w = (w', Ret e) ->
      nesting e = [] /\ forall x, x ∈ declared e <-> x ∈ all_types.
Proof.
  destruct default_view as [Hn Hd]. destruct main_scoped as (s1 & s2 & H1 & H2 & H3).
  assert (Hv : sees env_default []) by (intros x; by rewrite Hd, elem_of_empty, elem_of_nil).
  destruct (main_part_ok "Kimchi_types" types_bindings env_default [] s1 eq_refl Hv Hn H1)
    as (t1 & e1 & Ht1 & Hn1 & Hv1).
  destruct (main_part_ok "Pasta_bindings" pasta_bindings e1 s1 s2 eq_refl Hv1 Hn1 H2)
    as (t2 & e2 & Ht2 & Hn2 & Hv2).
  destruct (main_part_ok "Kimchi_bindings" kimchi_bindings e2 s2 _ eq_refl Hv2 Hn2 H3)
    as (t3 & e3 & Ht3 & Hn3 & Hv3).
  exists t1, t2, t3. intros creatable fails args w spec. split; [|split].
  - apply (part_then _ _ _ t1 e1); [exact Ht1|]. intros w1.
    apply (part_then _ _ _ t2 e2); [exact Ht2|]. intros w2. exact (part_last _ _ _ t3 e3 _ _ _ _ Ht3).
  - intros Hc Hf. exact (place_all_ok creatable fails _ w Hc Hf).
  - intros w' e. unfold main.
    destruct (main_part _ _ (args !! 1%nat) _ _ w _) as [w1 [x1|?|?]] eqn:E1; [|discriminate..].
    rewrite (part_env _ _ _ _ _ _ _ _ _ _ _ Ht1 E1).
    destruct (main_part _ _ (args !! 2%nat) _ _ w1 _) as [w2 [x2|?|?]] eqn:E2; [|discriminate..].
    rewrite (part_env _ _ _ _ _ _ _ _ _ _ _ Ht2 E2).
    intros E3. rewrite (part_env _ _ _ _ _ _ _ _ _ _ _ Ht3 E3). by split.
Qed.

End Laws.
(** ** What the declarations are *)

(** The declarations of types and functions, with the modules they are in. *)
Fixpoint items (path : list string) (d : decl) : list (list string * decl) :=
  match d with
  | decl_module name body => concat (map (items (path ++ [name])) body)
  | d => [(path, d)]
  end.
Definition all_items : list (list string * decl) :=
  concat (map (items []) [decl_module "Kimchi_types" types_bindings;
                          decl_module "Pasta_bindings" pasta_bindings;
                          decl_module "Kimchi_bindings" kimchi_bindings]).

(** The functions: modules, OCaml name, exported symbol. *)
Definition functions : list (list string * string * string) :=
  omap (fun '(path, d) => match d with decl_func f name => Some (path, name, f) | _ => None end)
    all_items.
(** The types: modules, OCaml name, Rust type. *)
Definition types : list (list string * string * rtype) :=
  omap (fun '(path, d) =>
          match d with
          | decl_type t name | decl_type_alias name t => Some (path, name, t)
          | _ => None
          end) all_items.

Lemma NoDup_decide `{EqDecision A} (l : list A) : bool_decide (NoDup l) = true -> NoDup l.
Proof. apply bool_decide_eq_true_1. Qed.

Lemma elem_decide `{EqDecision A} (x : A) (l : list A) : bool_decide (x ∈ l) = true -> x ∈ l.
Proof. apply bool_decide_eq_true_1. Qed.

(** C34: What of the stubs the OCaml interface exports: every function that the
    sources mark for ocaml-gen is declared, once, and every declared one is such a
    function. Six exported functions are not marked and have no declaration: the
    two that print linearizations and the four of the Poseidon permutation, which
    OCaml has to declare by hand. No two exported functions, declared or not, have
    the same symbol; and in each module of the generated files no two functions and
    no two types have the same name, so nothing is shadowed. *)
Theorem bindings_exports :
  map snd functions ≡ₚ map fst stub_signatures /\
  (forall f, f ∈ map fst exported_signatures /\ f ∉ map snd functions <->
     f ∈ ["fp_linearization_strings"; "fq_linearization_strings";
          "caml_pasta_fp_poseidon_params_create"; "caml_pasta_fp_poseidon_block_cipher";
          "caml_pasta_fq_poseidon_params_create"; "caml_pasta_fq_poseidon_block_cipher"]) /\
  NoDup (map fst exported_signatures) /\
  NoDup (map fst functions) /\ NoDup (map fst types).
Proof.
  assert (Hf : NoDup (map snd functions)) by (apply NoDup_decide; vm_compute; reflexivity).
  assert (He : NoDup (map fst exported_signatures)) by (apply NoDup_decide; vm_compute; reflexivity).
  assert (Hp : map snd functions ≡ₚ map fst stub_signatures).
  { apply NoDup_Permutation; [done | apply NoDup_decide; vm_compute; reflexivity |].
    intros x. split; apply forallb_mem; vm_compute; reflexivity. }
  split; [done|]. split; [|split; [done|]].
  - intros f. rewrite Hp. unfold exported_signatures in *. rewrite map_app in *.
    apply NoDup_app in He as (_ & Hd & _). specialize (Hd f). rewrite elem_of_app.
    change (map fst (linearization_signatures ++ poseidon_fp_signatures ++ poseidon_fq_signatures)) with
      ["fp_linearization_strings"; "fq_linearization_strings";
       "caml_pasta_fp_poseidon_params_create"; "caml_pasta_fp_poseidon_block_cipher";
       "caml_pasta_fq_poseidon_params_create"; "caml_pasta_fq_poseidon_block_cipher"] in *.
    tauto.
  - split; apply NoDup_decide; vm_compute; reflexivity.
Qed.

(** *** The two curves *)

(** The names that belong to one curve, with those of the other. *)
Definition twins : list (string * string) :=
  [("Fp", "Fq"); ("Vesta", "Pallas"); ("CamlFp", "CamlFq");
   ("CamlGroupProjectiveVesta", "CamlGroupProjectivePallas"); ("CamlFpVector", "CamlFqVector");
   ("CamlPastaFpPlonkGateVector", "CamlPastaFqPlonkGateVector"); ("CamlFpSrs", "CamlFqSrs");
   ("CamlPastaFpPlonkIndex", "CamlPastaFqPlonkIndex")].
Definition swap (x : string) : string :=
  default (default x (assoc (map (fun '(a, b) => (b, a)) twins) x)) (assoc twins x).

Fixpoint mirror (t : rtype) : rtype :=
  match t with
  | Param n => Param n
  | Prim n => Prim n
  | Vec t => Vec (mirror t)
  | Opt t => Opt (mirror t)
  | Tup ts => Tup (map mirror ts)
  | Named h ts => Named (swap h) (map mirror ts)
  end.
Definition mirror_signature (s : signature) : signature :=
  Sig (map mirror (args s)) (mirror (ret s)).

Definition interface : list (list string * string * signature) :=
  omap (fun '(path, name, f) => s ← signature_of f; Some (path, name, s)) functions.

(** The modules of the proofs over Vesta have functions that those over Pallas do
    not: the examples, and creating and verifying at once. *)
Definition fp_only : list string :=
  ["create_and_verify"; "example_with_lookup"; "example_with_ffadd"; "example_with_xor";
   "example_with_rot"; "example_with_foreign_field_mul"; "example_with_range_check";
   "example_with_range_check0"].

(** A function is there for both curves, with the mirrored type. *)
Definition function_mirrored (x : list string * string * signature) : bool :=
  let '(path, name, s) := x in
  bool_decide ((map swap path, name, mirror_signature s) ∈ interface)
  || bool_decide (path = ["Kimchi_bindings"; "Protocol"; "Proof"; "Fp"] /\ name ∈ fp_only).

(** The one type that only one curve has. *)
Definition poly_comm_alias : list string * string :=
  (["Kimchi_bindings"; "Protocol"; "SRS"; "Fp"; "Poly_comm"], "t").
Definition type_mirrored (x : list string * string * rtype) : bool :=
  let '(path, name, t) := x in
  bool_decide ((map swap path, name, mirror t) ∈ types)
  || bool_decide ((path, name) = poly_comm_alias).

(** C36: The interface treats the two curves alike: exchanging Fp with Fq and Vesta
    with Pallas, in the modules and in every type, maps each function to one of
    the same name that the sources export, except for the examples and
    [create_and_verify], which only Vesta has, and maps each type to a type,
    except for [Poly_comm.t] of the reference strings of Fp: that is the type of
    the commitments of Fq, while the functions beside it return another. *)
Theorem bindings_mirrored :
  length interface = length functions /\
  (forall path name s, (path, name, s) ∈ interface ->
     (map swap path, name, mirror_signature s) ∈ interface \/
     path = ["Kimchi_bindings"; "Protocol"; "Proof"; "Fp"] /\ name ∈ fp_only) /\
  (forall path name t, (path, name, t) ∈ types ->
     (map swap path, name, mirror t) ∈ types \/ (path, name) = poly_comm_alias) /\
  (forall t, (poly_comm_alias, t) ∈ types ->
     (exists s, (["Kimchi_bindings"; "Protocol"; "SRS"; "Fq"], "lagrange_commitment", s)
        ∈ interface /\ ret s = t) /\
     forall name s, (["Kimchi_bindings"; "Protocol"; "SRS"; "Fp"], name, s) ∈ interface ->
       t ∉ args s ++ [ret s]).
Proof.
  split_and!.
  - vm_compute. reflexivity.
  - intros path name s Hi.
    assert (Hc : forallb function_mirrored interface = true) by (vm_compute; reflexivity).
    rewrite forallb_forall in Hc. apply list_elem_of_In, Hc in Hi. unfold function_mirrored in Hi.
    apply orb_true_iff in Hi as [Hi | Hi]; [left | right]; by apply bool_decide_eq_true_1 in Hi.
  - intros path name t Hi.
    assert (Hc : forallb type_mirrored types = true) by (vm_compute; reflexivity).
    rewrite forallb_forall in Hc. apply list_elem_of_In, Hc in Hi. unfold type_mirrored in Hi.
    apply orb_true_iff in Hi as [Hi | Hi]; [left | right]; by apply bool_decide_eq_true_1 in Hi.
  - intros t Ht.
    assert (Hc : forallb (fun '(k, u) => negb (bool_decide (k = poly_comm_alias))
        || bool_decide (u = CamlPolyComm CamlGPallas)) types = true) by (vm_compute; reflexivity).
    rewrite forallb_forall in Hc. apply list_elem_of_In, Hc in Ht.
    cbv beta iota in Ht. apply orb_true_iff in Ht as [Ht | ->%bool_decide_eq_true_1];
      [by apply negb_true_iff, bool_decide_eq_false_1 in Ht|].
    split.
    + exists (Sig [CamlFqSrs; int; int] (CamlPolyComm CamlGPallas)).
      split; [|reflexivity]. apply elem_decide. vm_compute. reflexivity.
    + intros name s Hi.
      assert (Hs : forallb (fun '(p, n, s) =>
          negb (bool_decide (p = ["Kimchi_bindings"; "Protocol"; "SRS"; "Fp"]))
          || negb (bool_decide (CamlPolyComm CamlGPallas ∈ args s ++ [ret s]))) interface = true)
        by (vm_compute; reflexivity).
      rewrite forallb_forall in Hs. apply list_elem_of_In, Hs in Hi.
      cbv beta iota in Hi. by apply orb_true_iff in Hi as [Hi | Hi];
        apply negb_true_iff, bool_decide_eq_false_1 in Hi.
Qed.

(** ** A reference generator

    Lines of OCaml without the types, enough to satisfy the laws; each call
    panics where the laws leave it free to. *)
Record simple_env : Type := SimpleEnv { mods : list string; decls : gset string }.

Definition simple_use (hs : list string) (text : string) (e : simple_env)
    : outcome (string * simple_env) :=
  if forallb (fun h => bool_decide (h ∈ decls e)) hs then Ret (text, e)
  else Panic "the type has not been declared".
Definition simple_new (name : string) (e : simple_env) : outcome (string * simple_env) :=
  if capitalised name then
    Ret ("module " +:+ name +:+ " = struct ", SimpleEnv (mods e ++ [name]) (decls e))
  else Panic "module names start with an uppercase letter".
Definition simple_parent (e : simple_env) : outcome (string * simple_env) :=
  match rev (mods e) with
  | _ :: p => Ret ("end ", SimpleEnv (rev p) (decls e))
  | [] => Panic "you are already at the root"
  end.

#[global] Instance simple_gen : OcamlGen simple_env := {
  env_default := SimpleEnv [] ∅;
  new_module := simple_new;
  parent := simple_parent;
  open_module := simple_new;
  close_module := simple_parent;
  declare_type := fun t fields name e =>
    match t with
    | Named h _ =>
        if bool_decide (h ∈ decls e) then Panic "cannot re-declare a type" else
        '(text, e) ← simple_use (heads_all fields) ("type nonrec " +:+ name +:+ " ") e;
        Ret (text, SimpleEnv (mods e) ({[h]} ∪ decls e))
    | _ => Panic "not a type to declare"
    end;
  declare_alias := fun name t => simple_use (heads t) ("type nonrec " +:+ name +:+ " ");
  declare_func := fun f s name =>
    simple_use (signature_heads s) ("external " +:+ name +:+ " = " +:+ f +:+ " ");
  kimchi_fields := fun h => map (fun u => Named u []) (default [] (assoc kimchi_uses h))
}.

Lemma simple_use_ok hs text e :
  (forall x, x ∈ hs -> x ∈ decls e) -> simple_use hs text e = Ret (text, e).
Proof.
  intros Hx. unfold simple_use. replace (forallb _ hs) with true; [done|].
  symmetry. apply forallb_forall. intros h Hh%list_elem_of_In. by apply bool_decide_eq_true_2, Hx.
Qed.
Lemma heads_plain us : heads_all (map (fun u => Named u []) us) = us.
Proof. induction us as [|u us IH]; [done|]. exact (f_equal (cons u) IH). Qed.

#[global] Instance simple_laws : OcamlGenLaws simple_env.
Proof.
  refine {| nesting := mods; declared := decls |}.
  - done.
  - intros name e Hc. exists ("module " +:+ name +:+ " = struct "). eexists.
    cbn. unfold simple_new. by rewrite Hc.
  - intros e p name He. exists "end ", (SimpleEnv p (decls e)). cbn. unfold simple_parent.
    rewrite He, rev_app_distr. cbn. by rewrite rev_involutive.
  - done.
  - done.
  - intros h ts fields name e Hh Hf. cbn. rewrite bool_decide_eq_false_2 by done.
    rewrite simple_use_ok by done. cbn. by eexists _, _.
  - intros name t e Hx. cbn. rewrite simple_use_ok by done. by eexists _, _.
  - intros f s name e Hx. cbn. rewrite simple_use_ok by done. by eexists _, _.
  - intros h us Hu x.
    change (kimchi_fields h) with (map (fun u => Named u []) (default [] (assoc kimchi_uses h))).
    rewrite Hu. change (default [] (Some us)) with us. by rewrite heads_plain.
Defined.

(** The generator with these laws. *)
Lemma bindings_generated_witness :
  exists t1 t2 t3, forall creatable fails args w,
    let spec := place_all creatable fails [(args !! 1%nat, t1); (args !! 2%nat, t2); (args !! 3%nat, t3)] w in
    (let '(w', r) := main (Env := simple_env) creatable fails args w in (w', const tt <$> r)) = spec /\
    ((forall p, creatable p = true) -> (forall s w t, fails s w t = None) -> snd spec = Ret tt) /\
    forall w' e, main creatable fails args w = (w', Ret e) ->
      nesting e = [] /\ forall x, x ∈ declared e <-> x ∈ all_types.
Proof. exact (bindings_generated (Env := simple_env)). Defined.

(** A second file that cannot be made; and a device that is full after three bytes
    of the header. *)
Example simple_run :
  let '(w, r) := main (Env := simple_env) (fun p => negb (String.eqb p "/b")) (fun _ _ _ => None)
                   ["gen"; "a"; "/b"] (World ∅ "") in
  is_panic r = true /\ stdout w = "" /\ dom (files w) = {["a"]}.
Proof. vm_compute. done. Qed.
Example full_run :
  let '(w, r) := main (Env := simple_env) (fun _ => true)
                   (fun s _ _ => if decide (s = Some "/dev/full") then Some 3%nat else None)
                   ["gen"; "/dev/full"] (World ∅ "") in
  is_panic r = true /\ stdout w = "" /\ String.length <$> files w !! "/dev/full" = Some 3%nat.
Proof. vm_compute. done. Qed.
